(* ===== verification/_CoqProject ===== *)
-Q . S2P
Prelude.v
Protocol.v
Fec.v
GF256.v
Shaper.v
Duration.v
Session.v
SessionRecv.v
SendSpec.v
RecvSpec.v
E2E.v
Frame.v
Frames.v
Pep.v
PepFrames.v
Recovery.v
Demo.v
Lifecycle.v
NetAddr.v
Router.v
OrigDst.v
Text.v
Glob.v
Clock.v
Client.v
Server.v
Handshake.v
Monitor.v
Main.v
