(* ===== verification/Prelude.v ===== *)
(** * Verification of tcp-pep-go

    tcp-pep-go is a performance-enhancing proxy.  A client PEP intercepts TCP
    connections, a server PEP opens the connection to the original destination,
    and between them each stream travels in UDP datagrams protected by
    Reed-Solomon parity (FEC), link-quality reports (LQR), retransmission
    requests (NAK/HARQ) and a token-bucket shaper.

    ** How the program is put together

    A [Session] (src/proxy/session.go) is one end of a stream.  Its TCP reader
    cuts the stream into payloads and, per [K] payloads or after 50 ms, into
    blocks; a block is encoded (src/fec), marshalled (src/protocol) and queued in
    the shaper (src/shaper), whose goroutine sends it.  The other end collects the
    packets of a block, decodes it as soon as [K] of them are there, and its TCP
    writer writes the blocks in order.  Timers report losses and request missing
    data packets; the sender adapts its parity count and retransmits from a cache.
    The PEPs (src/proxy/client.go, server.go) demultiplex datagrams to sessions;
    the client chooses its server by a routing table (src/config) from the original
    destination the kernel reports.  Two small servers (redis_server.go,
    http_server.go) show the statistics of the sessions; src/cmd/main.go starts
    everything, reloads the routes on SIGHUP and shuts down on a signal.

    ** Files

    - Prelude: machine integers, byte slices, Go errors, the monad [GoM] of
      methods (state, effects in order, [None] for a run-time panic), tactics, hint
      databases, shared lemmas.
    - Protocol (src/protocol/header.go): [Packet], [Marshal], [Unmarshal]; round
      trips, absence of panics, exact error conditions, frame sizes.
    - Fec (src/fec/fec.go): the encoder cache, [Encode], [Reconstruct]; the
      Reed-Solomon library is the class [ReedSolomon]; [RSErasure] is its contract
      for one parity count, [RSCode] what adaptive parity needs on top of it, both
      discharged for an xor code.
    - GF256: the field of 256 elements, interpolation, and the Reed-Solomon code of
      the systematic Vandermonde matrix, which satisfies [RSCode] for every [K >= 1]
      and [K + M <= 256].
    - Shaper (src/shaper/shaper.go): queue operations, [Run] as a step machine;
      order, pacing and no lost wake-up by induction on its steps.
    - Duration: the float64 computations of burst interval and LQR timeout, on
      IEEE binary64 values.
    - Session, SessionRecv (src/proxy/session.go): the session state and every
      method that changes it.  Goroutines ([readTCPRun], [writeTCPRun], the NAK
      callback, the CLOSE goroutine) are step functions over a program counter,
      one step per critical section or blocking call, so that any interleaving can
      be composed from them.
    - SendSpec, RecvSpec: abstract specifications.  The history of a sender is the
      list of blocks it has cut; [snd_inv] and [rcv_inv] relate the fields of a
      session to its own and to its peer's history, and every operation keeps
      them.  The parameters both ends share are the class [Link].
    - Recovery: FEC recovery, loss reports, NAKs, retransmission.
    - E2E: two endpoints and an unreliable network as a transition system; the
      tunnel is transparent (prefix theorem), never panics, and its tables stay
      bounded.
    - Demo: executable schedules of a concrete stream, which instantiate the
      theorems.
    - Lifecycle: the CLOSE handshake.
    - NetAddr, Router (src/config/config.go): address parsing as Go's net and
      net/netip do it, [LoadConfig] and [Lookup].
    - Frame, Frames: what no session operation changes ([keeps]: configuration,
      cancelled context) and what it can send ([tidies]: only DATA, CLOSE, RESET,
      NAK and LQR frames), compositionally over the monad.
    - Pep, PepFrames (src/proxy/client.go, server.go): what the two proxies share.
      Sessions are objects in a store, the table maps stream numbers to them;
      clean-up, shutdown and the dispatch of packets, with the invariant [pep_inv].
    - Client (src/proxy/client.go): stream numbers, the handler of an intercepted
      connection as a step machine over channels, demultiplexer, accept loop;
      [client_step] interleaves any number of handlers.  Allocation is the first
      free number in cyclic order, no handshake channel ever blocks the
      demultiplexer, the control path always completes.
    - Server (src/proxy/server.go): demultiplexer and [handleConnect]; what a
      CONNECT does in each case.
    - Handshake: client, server and an unreliable network; a refinement of an
      abstract specification and the soundness of the handshake.

    - OrigDst (src/proxy/proxy_linux.go, proxy_darwin.go, fallback.go): the original
      destination and the printing of addresses; what is printed is what the routing
      table parses, for every IPv4 and IPv6 address.
    - Text, Glob, Clock: the parts of Go's strings, strconv, unicode/utf8, path and
      time the monitoring code uses.  [path.Match] is translated loop by loop and
      proved equal, on the keys of the server, to a reference that parses the
      pattern and tries every split; a printed time is read back.
    - Monitor (src/proxy/redis_server.go, http_server.go, [GetMonitorStats]): the
      replies to every command and request, proved against the interface
      [PEPInstance] with the promise [any_ok], which both proxies keep.
    - Main (src/cmd/main.go): start, signals and deferred calls interleaved with the
      proxy; shutdown terminates, its effects come in the reverse order of the start,
      and every session is cancelled.

    ** Assumptions and bounds

    - [RSCode]: besides erasure decoding for each parity count, the end-to-end theorems
      need that parity shard [j] is the same for every count above [j] ([rs_stable]),
      because a block is encoded with the current parity count and decoded with the
      maximum.  The library's default matrix, that of Backblaze's JavaReedSolomon, has
      the property and GF256 proves it for the code of that matrix.  The round trip
      [Encode_Reconstruct] does not use it.

    - [Link]: the stream number has 12 bits, [1 <= K], [K + M <= 32] (the shard
      index has five bits on the wire).
    - The end-to-end theorems assume an MTU of at most 2076, so that a DATA frame
      fits the 2048-byte receive buffer of the demultiplexers, and that a DATA
      datagram is delivered while its block is within 32768 blocks of the
      receiver's position ([timely]): group numbers have 16 bits and the protocol
      has no flow control between the ends.  A stream of up to 32768 blocks
      satisfies this by itself ([timely_short]).
    - Fuel: [nak_run] is proved to reach its end within [K + 3] steps; the loop of
      [getNextStreamID] has fuel 4096 and is proved to end within it;
      [handleConnect] returns within five steps; the IPv6 loop has at most eight
      rounds.  All other functions are structural.
    - Timers and auxiliary goroutines may fire at any time in the end-to-end
      system, a superset of the schedules the program has.

    - The handshake theorems speak of one client and one server.  DNS resolution,
      dialling, accepting and the kernel's original destination are inputs of the
      steps.  [sess.Start()] is one step: the first receive block is there before
      the goroutines run.

    - Monitoring: the order in which Go visits a map is a parameter constrained to be
      a permutation; the offset of the local time zone is a parameter.  A snapshot is
      taken at one instant, while the program reads its counters one after the other.
      The keys have no slash and are ASCII, which is where [path.Match] agrees with
      the meaning of its patterns.  The loops of [path.Match] have the length of the
      pattern as fuel, shown to be enough by the agreement with the reference.

    ** Not modelled

    Logging; the parsing of the command line by package flag (the parsed flags are a
    record); the framing of replies by redcon and net/http and the JSON encoding of
    the statistics map, which are library code; the scheduling of goroutines beyond
    interleaving, so no real-time bound is stated. *)
From stdpp Require Export base gmap strings list list_numbers pretty.
From Stdlib Require Export ZArith Lia.
From Stdlib Require Import Ascii.

#[global] Open Scope Z_scope.

(** ** Hint databases of the development

    [go_arith] collects the range facts of the machine integers, [go_rw] the
    rewriting rules that normalise byte-level expressions. *)
Create HintDb go_arith.
Create Rewrite HintDb go_rw.

(** ** Machine integers

    A Go value of type [uint8], [uint16], [uint32] or [uint64] is a [Z] kept in
    range by the wrap-around functions below; [int] is a plain [Z]. *)
Definition u8 (x : Z) : Z := x mod 256.
Definition u16 (x : Z) : Z := x mod 65536.
Definition u32 (x : Z) : Z := x mod 4294967296.
Definition u64 (x : Z) : Z := x mod 18446744073709551616.

Definition is_u8 (x : Z) : Prop := 0 <= x < 256.
Definition is_u16 (x : Z) : Prop := 0 <= x < 65536.

#[global] Instance is_u8_dec x : Decision (is_u8 x).
Proof. unfold is_u8. apply _. Defined.
#[global] Instance is_u16_dec x : Decision (is_u16 x).
Proof. unfold is_u16. apply _. Defined.

(** Byte slices: [bytes] is the contents, [option bytes] a slice value that may
    be [nil]. *)
Abbreviation bytes := (list Z).
Definition bytes_ok (b : bytes) : Prop := Forall is_u8 b.
#[global] Instance bytes_ok_dec b : Decision (bytes_ok b).
Proof. unfold bytes_ok. apply _. Defined.

Definition slice_bytes (s : option bytes) : bytes := default [] s.

(** [len] of a Go slice, as an [int]. *)
Definition len {A} (l : list A) : Z := Z.of_nat (length l).

(** Go strings are byte sequences. *)
Definition bytes_of_string (s : string) : bytes :=
  map (fun a => Z.of_nat (nat_of_ascii a)) (String.list_ascii_of_string s).
Definition string_of_bytes (b : bytes) : string :=
  String.string_of_list_ascii (map (fun z => ascii_of_nat (Z.to_nat z)) b).

(** [encoding/binary]: [BigEndian.PutUint16] and [BigEndian.Uint16]. *)
Definition PutUint16 (v : Z) : bytes := [u8 (Z.shiftr v 8); u8 v].
Definition Uint16 (b0 b1 : Z) : Z := Z.lor b1 (Z.shiftl b0 8).

(** [make([]byte, n)] followed by [copy(dst, src)]: the first [n] bytes of
    [src], padded with zeros to length [n]. *)
Definition make_copy (n : nat) (src : bytes) : bytes :=
  take n src ++ replicate (n - length src) 0.

(** ** Go errors *)
Inductive result (A : Type) : Type :=
| Ok (a : A)
| Err (msg : string).
Arguments Ok {A} _.
Arguments Err {A} _.

#[global] Instance result_eq_dec {A} `{EqDecision A} : EqDecision (result A).
Proof. solve_decision. Defined.

Definition is_Ok {A} (r : result A) : bool :=
  match r with Ok _ => true | Err _ => false end.

(** ** State, effects and run-time panics

    A method with receiver state [S] that performs effects of type [E] is a
    function from the state to the value, the new state and the effects in
    order; [None] is a Go run-time panic. *)
Definition GoM (S E A : Type) : Type := S -> option (A * S * list E).

Section GoMonad.
Context {S E : Type}.

Definition go_ret {A} (a : A) : GoM S E A := fun s => Some (a, s, []).
Definition go_bind {A B} (m : GoM S E A) (k : A -> GoM S E B) : GoM S E B :=
  fun s =>
    match m s with
    | Some (a, s', es) =>
        match k a s' with
        | Some (b, s'', es') => Some (b, s'', es ++ es')
        | None => None
        end
    | None => None
    end.
Definition go_get : GoM S E S := fun s => Some (s, s, []).
Definition go_gets {A} (f : S -> A) : GoM S E A := fun s => Some (f s, s, []).
Definition go_modify (f : S -> S) : GoM S E unit := fun s => Some (tt, f s, []).
Definition go_emit (e : E) : GoM S E unit := fun s => Some (tt, s, [e]).
Definition go_panic {A} : GoM S E A := fun _ => None.
Definition go_opt {A} (o : option A) : GoM S E A :=
  match o with Some a => go_ret a | None => go_panic end.

(** [for _, x := range l { body x }] *)
Fixpoint go_for {A} (l : list A) (body : A -> GoM S E unit) : GoM S E unit :=
  match l with
  | [] => go_ret tt
  | x :: l' => go_bind (body x) (fun _ => go_for l' body)
  end.
End GoMonad.

Section GoMonadLaws.
Context {S E A B : Type}.

Lemma go_bind_eq (m : GoM S E A) (k : A -> GoM S E B) s a s' es b s'' es' :
  m s = Some (a, s', es) -> k a s' = Some (b, s'', es') ->
  go_bind m k s = Some (b, s'', es ++ es').
Proof. intros H1 H2. unfold go_bind. by rewrite H1, H2. Qed.

Lemma go_bind_get (k : S -> GoM S E B) s : go_bind go_get k s = k s s.
Proof. unfold go_bind, go_get. by destruct (k s s) as [[[??]?]|]. Qed.

Lemma go_bind_modify (f : S -> S) (k : unit -> GoM S E B) s :
  go_bind (go_modify f) k s = k tt (f s).
Proof. unfold go_bind, go_modify. by destruct (k tt (f s)) as [[[??]?]|]. Qed.

Lemma go_bind_ret (a : A) (k : A -> GoM S E B) s : go_bind (go_ret a) k s = k a s.
Proof. unfold go_bind, go_ret. by destruct (k a s) as [[[??]?]|]. Qed.

Lemma go_bind_emit (e : E) (k : unit -> GoM S E B) s b s' es :
  k tt s = Some (b, s', es) -> go_bind (go_emit e) k s = Some (b, s', e :: es).
Proof. intros H. unfold go_bind, go_emit. by rewrite H. Qed.
End GoMonadLaws.

(** ** Computations that leave a part of the state alone *)

Definition go_preserves {S E A B} (f : S -> B) (m : GoM S E A) : Prop :=
  forall s a s' es, m s = Some (a, s', es) -> f s' = f s.

Section Preserves.
Context {S E B : Type} (f : S -> B).

Lemma preserves_ret {A} (a : A) : go_preserves f (go_ret a : GoM S E A).
Proof. by intros s b s' es [= <- <- <-]. Qed.

Lemma preserves_get : go_preserves f (go_get : GoM S E S).
Proof. by intros s b s' es [= <- <- <-]. Qed.

Lemma preserves_emit (e : E) : go_preserves f (go_emit e).
Proof. by intros s b s' es [= <- <- <-]. Qed.

Lemma preserves_opt {A} (o : option A) : go_preserves f (go_opt o : GoM S E A).
Proof. destruct o; [apply preserves_ret|by intros ????]. Qed.

Lemma preserves_modify (g : S -> S) : (forall s, f (g s) = f s) -> go_preserves f (go_modify g : GoM S E unit).
Proof. intros H s b s' es [= <- <- <-]. apply H. Qed.

Lemma preserves_bind {A C} (m : GoM S E A) (k : A -> GoM S E C) :
  go_preserves f m -> (forall a, go_preserves f (k a)) -> go_preserves f (go_bind m k).
Proof.
  intros Hm Hk s c s' es. unfold go_bind. destruct (m s) as [[[a s1] es1]|] eqn:E1; [|done].
  destruct (k a s1) as [[[c1 s2] es2]|] eqn:E2; [|done]. intros [= <- <- <-].
  rewrite (Hk _ _ _ _ _ E2). by eapply Hm.
Qed.

Lemma preserves_for {A} (l : list A) (body : A -> GoM S E unit) :
  (forall x, go_preserves f (body x)) -> go_preserves f (go_for l body).
Proof. intros H. induction l; simpl; [apply preserves_ret|by apply preserves_bind]. Qed.
End Preserves.

Create HintDb preserves.
#[export] Hint Resolve preserves_ret preserves_get preserves_emit preserves_opt preserves_bind preserves_for
  : preserves.
#[export] Hint Extern 2 (go_preserves _ (go_modify _)) => apply preserves_modify; reflexivity : preserves.

(** Case analysis on what the program matches on, then the hints. *)
Ltac solve_preserves := repeat first
  [ progress intros | solve [eauto with preserves] | apply preserves_bind | apply preserves_for
  | match goal with |- go_preserves _ (match ?x with _ => _ end) => destruct x end ].
#[export] Hint Rewrite @go_bind_get @go_bind_modify @go_bind_ret : go_rw.

Declare Scope go_scope.
Delimit Scope go_scope with go.
Notation "'let!' x := m 'in' k" := (go_bind m (fun x => k))
  (at level 10, x name, m at level 200, k at level 200) : go_scope.
Notation "'do!' m 'in' k" := (go_bind m (fun _ => k))
  (at level 10, m at level 200, k at level 200) : go_scope.

(** ** Tactics *)

(** Split the conjunctions of the context and the goal. *)
Ltac go_split := repeat match goal with
  | H : _ /\ _ |- _ => destruct H
  | H : exists _, _ |- _ => destruct H
  | |- _ /\ _ => split
  end.

(** Evaluate the powers of two with a literal exponent. *)
Ltac go_pow2 := repeat match goal with
  | |- context [2 ^ Zpos ?p] =>
      let v := eval vm_compute in (2 ^ Zpos p) in change (2 ^ Zpos p) with v
  | H : context [2 ^ Zpos ?p] |- _ =>
      let v := eval vm_compute in (2 ^ Zpos p) in change (2 ^ Zpos p) with v in H
  end.

(** Unfold the integer ranges and close the goal by linear arithmetic. *)
Ltac go_range := unfold is_u8, is_u16, u8, u16, u32, u64, len in *; go_pow2;
  Z.to_euclidean_division_equations; lia.

(** Decide a closed decidable proposition by evaluation. *)
Ltac go_decide := apply (bool_decide_unpack _); vm_compute; exact I.

(** Case analysis on the boolean tests of the goal. *)
Ltac go_case := repeat (case_match; simplify_eq/=; try done).

(** Turn boolean tests of the context into propositions. *)
Ltac go_bool := repeat match goal with
  | H : (_ && _)%bool = true |- _ => apply andb_true_iff in H; destruct H
  | H : (_ && _)%bool = false |- _ => apply andb_false_iff in H
  | H : (_ || _)%bool = true |- _ => apply orb_true_iff in H
  | H : (_ || _)%bool = false |- _ => apply orb_false_iff in H; destruct H
  | H : negb _ = true |- _ => apply negb_true_iff in H
  | H : negb _ = false |- _ => apply negb_false_iff in H
  | H : (_ =? _) = true |- _ => apply Z.eqb_eq in H
  | H : (_ =? _) = false |- _ => apply Z.eqb_neq in H
  | H : (_ <? _) = true |- _ => apply Z.ltb_lt in H
  | H : (_ <? _) = false |- _ => apply Z.ltb_ge in H
  | H : (_ <=? _) = true |- _ => apply Z.leb_le in H
  | H : (_ <=? _) = false |- _ => apply Z.leb_gt in H
  | H : (_ >? _) = true |- _ => rewrite Z.gtb_ltb in H; apply Z.ltb_lt in H
  | H : (_ >? _) = false |- _ => rewrite Z.gtb_ltb in H; apply Z.ltb_ge in H
  | H : (_ >=? _) = true |- _ => rewrite Z.geb_leb in H; apply Z.leb_le in H
  | H : (_ >=? _) = false |- _ => rewrite Z.geb_leb in H; apply Z.leb_gt in H
  end.

(** Decide the integer tests of the goal that linear arithmetic settles. *)
Ltac go_test := match goal with
  | |- context [?a <? ?b] =>
      first [rewrite (proj2 (Z.ltb_lt a b)) by lia | rewrite (proj2 (Z.ltb_ge a b)) by lia]
  | |- context [?a <=? ?b] =>
      first [rewrite (proj2 (Z.leb_le a b)) by lia | rewrite (proj2 (Z.leb_gt a b)) by lia]
  | |- context [?a =? ?b] =>
      first [rewrite (proj2 (Z.eqb_eq a b)) by lia | rewrite (proj2 (Z.eqb_neq a b)) by lia]
  | |- context [?a >? ?b] => rewrite (Z.gtb_ltb a b)
  | |- context [?a >=? ?b] => rewrite (Z.geb_leb a b)
  end.
Ltac go_tests := repeat go_test.

#[export] Hint Extern 1 (Forall is_u8 ?b) => change (bytes_ok b) : go_arith.

(** Prove that a literal slice holds bytes. *)
Ltac go_bytes := unfold bytes_ok; repeat first [apply Forall_cons_2 | apply Forall_nil_2];
  auto with go_arith.

(** ** Lemmas on machine integers *)

Lemma u8_range x : is_u8 (u8 x).
Proof. go_range. Qed.

Lemma u16_range x : is_u16 (u16 x).
Proof. go_range. Qed.

Lemma u8_small x : is_u8 x -> u8 x = x.
Proof. intros. by apply Z.mod_small. Qed.

Lemma u16_small x : is_u16 x -> u16 x = x.
Proof. intros. by apply Z.mod_small. Qed.

#[export] Hint Resolve u8_range u16_range : go_arith.

(** Or-ing a small value with a shifted one is addition. *)
Lemma lor_shiftl_add a b n :
  0 <= n -> 0 <= a < 2 ^ n -> Z.lor a (Z.shiftl b n) = a + b * 2 ^ n.
Proof.
  intros Hn Ha.
  rewrite <- Z.shiftl_mul_pow2 by done.
  assert (Z.land a (Z.shiftl b n) = 0) as Hdisj.
  { apply Z.bits_inj'. intros i Hi. rewrite Z.land_spec, Z.bits_0.
    destruct (decide (i < n)) as [Hlt|Hge].
    - rewrite Z.shiftl_spec_low by done. apply andb_false_r.
    - rewrite <- (Z.mod_small a (2 ^ n)) by done.
      rewrite Z.mod_pow2_bits_high by lia. done. }
  rewrite Z.add_nocarry_lxor by done. symmetry. by apply Z.lxor_lor.
Qed.

Lemma shiftr_div x n : 0 <= n -> Z.shiftr x n = x / 2 ^ n.
Proof. intros. by apply Z.shiftr_div_pow2. Qed.

Lemma shiftl_mul x n : 0 <= n -> Z.shiftl x n = x * 2 ^ n.
Proof. intros. by apply Z.shiftl_mul_pow2. Qed.

Lemma land_ff x : Z.land x 255 = x mod 256.
Proof. change 255 with (Z.ones 8). by rewrite Z.land_ones. Qed.

Lemma land_0f x : Z.land x 15 = x mod 16.
Proof. change 15 with (Z.ones 4). by rewrite Z.land_ones. Qed.

Lemma land_07 x : Z.land x 7 = x mod 8.
Proof. change 7 with (Z.ones 3). by rewrite Z.land_ones. Qed.

Lemma PutUint16_ok v : bytes_ok (PutUint16 v).
Proof. repeat constructor; go_range. Qed.

Lemma Uint16_add b0 b1 : is_u8 b1 -> Uint16 b0 b1 = b1 + b0 * 256.
Proof. intros. unfold Uint16. by rewrite lor_shiftl_add. Qed.

Lemma Uint16_PutUint16 v :
  is_u16 v -> Uint16 (u8 (Z.shiftr v 8)) (u8 v) = v.
Proof.
  intros Hv. rewrite Uint16_add by apply u8_range.
  rewrite shiftr_div by done. change (2 ^ 8) with 256. go_range.
Qed.

Lemma PutUint16_Uint16_bytes b0 b1 : is_u8 b0 -> is_u8 b1 ->
  u8 (Z.shiftr (Uint16 b0 b1) 8) = b0 /\ u8 (Uint16 b0 b1) = b1.
Proof.
  intros H0 H1. rewrite Uint16_add by done. rewrite shiftr_div by lia. split; go_range.
Qed.

Lemma Uint16_range b0 b1 : is_u8 b0 -> is_u8 b1 -> is_u16 (Uint16 b0 b1).
Proof. intros. rewrite Uint16_add by done. go_range. Qed.

#[export] Hint Rewrite land_ff land_0f land_07 : go_rw.
#[export] Hint Resolve PutUint16_ok Uint16_range : go_arith.

(** ** Lemmas on strings and bytes *)

Lemma bytes_of_string_ok s : bytes_ok (bytes_of_string s).
Proof.
  unfold bytes_ok, bytes_of_string. apply Forall_forall. intros z Hz.
  apply list_elem_of_In, in_map_iff in Hz as (a & <- & _).
  pose proof (nat_ascii_bounded a). unfold is_u8. lia.
Qed.

Lemma string_of_bytes_of_string s : string_of_bytes (bytes_of_string s) = s.
Proof.
  unfold string_of_bytes, bytes_of_string. rewrite map_map.
  rewrite <- (String.string_of_list_ascii_of_string s) at 2. f_equal.
  rewrite <- (map_id (String.list_ascii_of_string s)) at 2.
  apply map_ext. intros a. by rewrite Nat2Z.id, ascii_nat_embedding.
Qed.

Lemma bytes_of_string_of_bytes b :
  bytes_ok b -> bytes_of_string (string_of_bytes b) = b.
Proof.
  intros Hb. unfold string_of_bytes, bytes_of_string.
  rewrite String.list_ascii_of_string_of_list_ascii, map_map.
  induction Hb as [|z b Hz Hb IH]; [done|]. simpl. rewrite IH. f_equal.
  unfold is_u8 in Hz. rewrite nat_ascii_embedding; lia.
Qed.

#[export] Hint Resolve bytes_of_string_ok : go_arith.

(** ** Lemmas on lists *)

Lemma length_make_copy n src : length (make_copy n src) = n.
Proof. unfold make_copy. rewrite length_app, length_take, length_replicate. lia. Qed.

Lemma make_copy_ok n src : bytes_ok src -> bytes_ok (make_copy n src).
Proof.
  intros H. apply Forall_app. split; [by apply Forall_take|].
  apply Forall_replicate. unfold is_u8. lia.
Qed.

Lemma make_copy_id src : make_copy (length src) src = src.
Proof. unfold make_copy. rewrite firstn_all, Nat.sub_diag. apply app_nil_r. Qed.

Lemma make_copy_ge n src :
  (length src <= n)%nat -> make_copy n src = src ++ replicate (n - length src) 0.
Proof. intros. unfold make_copy. by rewrite take_ge. Qed.

#[export] Hint Resolve make_copy_ok : go_arith.
#[export] Hint Rewrite length_make_copy : go_rw.

(** A map whose keys are among [ks] has at most [length ks] entries. *)
Lemma map_size_keys {A} (m : gmap Z A) (ks : list Z) :
  (forall k x, m !! k = Some x -> k ∈ ks) -> (size m <= length ks)%nat.
Proof.
  intros H. rewrite <- length_map_to_list, <- (length_fmap fst).
  apply submseteq_length, NoDup_submseteq; [apply NoDup_fst_map_to_list|].
  intros k Hk. apply list_elem_of_fmap in Hk as ([k' x] & -> & Hx).
  apply elem_of_map_to_list in Hx. by eapply H.
Qed.

(** ** Slice accesses that can panic *)

(** [b[i]] for a non-negative [i]: [None] is the index-out-of-range panic. *)
Definition idx {A} (b : list A) (i : Z) : option A :=
  if i <? 0 then None else b !! Z.to_nat i.

(** [b[lo:hi]]. *)
Definition slice {A} (b : list A) (lo hi : Z) : option (list A) :=
  if (0 <=? lo) && (lo <=? hi) && (hi <=? len b)
  then Some (take (Z.to_nat (hi - lo)) (drop (Z.to_nat lo) b))
  else None.

Lemma idx_app_cons {A} (x : A) (b : list A) i :
  0 < i -> idx (x :: b) i = idx b (i - 1).
Proof.
  intros Hi. unfold idx.
  replace (i <? 0) with false by (symmetry; apply Z.ltb_ge; lia).
  replace (i - 1 <? 0) with false by (symmetry; apply Z.ltb_ge; lia).
  by replace (Z.to_nat i) with (S (Z.to_nat (i - 1))) by lia.
Qed.

Lemma idx_is_Some {A} (b : list A) i :
  0 <= i < len b -> exists x, idx b i = Some x.
Proof.
  intros Hi. unfold idx, len in *.
  replace (i <? 0) with false by (symmetry; apply Z.ltb_ge; lia).
  apply lookup_lt_is_Some_2. lia.
Qed.

Lemma idx_Forall {A} (P : A -> Prop) (b : list A) i x :
  Forall P b -> idx b i = Some x -> P x.
Proof.
  intros HP Hx. unfold idx in Hx. case_match; [done|]. by eapply Forall_lookup_1.
Qed.

Lemma slice_is_Some {A} (b : list A) lo hi :
  0 <= lo <= hi -> hi <= len b ->
  slice b lo hi = Some (take (Z.to_nat (hi - lo)) (drop (Z.to_nat lo) b)).
Proof.
  intros ??. unfold slice.
  by rewrite !(proj2 (Z.leb_le _ _)) by lia.
Qed.

Lemma slice_Forall {A} (P : A -> Prop) (b : list A) lo hi x :
  Forall P b -> slice b lo hi = Some x -> Forall P x.
Proof.
  intros HP Hx. unfold slice in Hx. case_match; simplify_eq.
  by apply Forall_take, Forall_drop.
Qed.

Lemma slice_all {A} (b : list A) : slice b 0 (len b) = Some b.
Proof.
  rewrite slice_is_Some by (unfold len; lia).
  unfold len. rewrite Z.sub_0_r, Nat2Z.id. simpl. by rewrite drop_0, firstn_all.
Qed.

Lemma slice_app_r {A} (a b : list A) :
  slice (a ++ b) (len a) (len (a ++ b)) = Some b.
Proof.
  unfold len. rewrite slice_is_Some by (unfold len; rewrite ?length_app; lia).
  f_equal. rewrite Nat2Z.id, drop_app_length, take_ge; [done|].
  rewrite length_app. lia.
Qed.

Lemma len_nonneg {A} (b : list A) : 0 <= len b.
Proof. unfold len. lia. Qed.

Lemma len_app {A} (a b : list A) : len (a ++ b) = len a + len b.
Proof. unfold len. rewrite length_app. lia. Qed.

Lemma len_cons {A} (x : A) b : len (x :: b) = 1 + len b.
Proof. unfold len. simpl. lia. Qed.

Lemma len_nil {A} : len (@nil A) = 0.
Proof. done. Qed.

#[export] Hint Rewrite @len_app @len_cons @len_nil : go_rw.

Lemma slice_tail {A} (x : A) b lo hi :
  1 <= lo -> slice (x :: b) lo hi = slice b (lo - 1) (hi - 1).
Proof.
  intros Hlo. unfold slice. rewrite len_cons.
  destruct ((0 <=? lo) && (lo <=? hi) && (hi <=? 1 + len b)) eqn:E1;
    destruct ((0 <=? lo - 1) && (lo - 1 <=? hi - 1) && (hi - 1 <=? len b)) eqn:E2;
    go_bool; try (exfalso; lia); try done.
  f_equal. replace (hi - 1 - (lo - 1)) with (hi - lo) by lia.
  by replace (Z.to_nat lo) with (S (Z.to_nat (lo - 1))) by lia.
Qed.

(** ** Decimal numerals inside keys *)

(** The character [c] does not occur in [s]. *)
Fixpoint str_avoids (c : ascii) (s : string) : Prop :=
  match s with
  | EmptyString => True
  | String a s' => a <> c /\ str_avoids c s'
  end.

Lemma pretty_N_go_avoids c x s :
  (forall n, pretty_N_char n <> c) -> str_avoids c s -> str_avoids c (pretty_N_go x s).
Proof.
  intros Hc. revert s. induction (N.lt_wf_0 x) as [x _ IH]; intros s Hs.
  destruct (decide (0 < x)%N).
  - rewrite pretty_N_go_step by done. apply IH; [by apply N.div_lt|]. by split.
  - replace x with 0%N by lia. done.
Qed.

Lemma pretty_Z_avoids_comma (x : Z) : str_avoids "," (pretty x).
Proof.
  assert (forall n, pretty_N_char n <> ","%char) as Hc
    by (intros n; unfold pretty_N_char; by repeat case_match).
  assert (forall p : positive, str_avoids "," (pretty p)) as Hp.
  { intros p. unfold pretty, pretty_positive, pretty, pretty_N. case_decide; [done|].
    by apply pretty_N_go_avoids. }
  destruct x; [done|apply Hp|]. split; [done|apply Hp].
Qed.

(** Splitting at the first occurrence of a separator is unambiguous. *)
Lemma split_sep_inj c s1 s2 t1 t2 :
  str_avoids c s1 -> str_avoids c s2 ->
  s1 +:+ String c t1 = s2 +:+ String c t2 -> s1 = s2 /\ t1 = t2.
Proof.
  revert s2. induction s1 as [|a s1 IH]; intros [|b s2] H1 H2 Heq; simplify_eq/=.
  - done.
  - by destruct H2.
  - by destruct H1.
  - destruct H1, H2. destruct (IH s2) as [-> ->]; done.
Qed.
