(* ===== verification/Protocol.v ===== *)
(** * The PEP wire protocol (src/protocol/header.go)

    [Packet], [Marshal], [Unmarshal] and [PacketType.String], and the theorems
    that relate them: what a packet becomes after a trip over the wire, which
    frames are accepted, which packets are refused, and the frame sizes. *)
From stdpp Require Import base strings list pretty.
From S2P Require Import Prelude.
Local Open Scope string_scope.
Local Open Scope list_scope.
Local Open Scope Z_scope.

(** ** Packet types *)

Definition TypeConnect : Z := 0.
Definition TypeConnAck : Z := 1.
Definition TypeConnErr : Z := 2.
Definition TypeData : Z := 3.
Definition TypeClose : Z := 4.
Definition TypeReset : Z := 5.
Definition TypeNak : Z := 6.
Definition TypeLqr : Z := 7.

(** [%x] of a byte. *)
Definition hex_digit (d : Z) : string :=
  default "?" (["0";"1";"2";"3";"4";"5";"6";"7";"8";"9";"a";"b";"c";"d";"e";"f"]
                 !! Z.to_nat d).
Definition hex_byte (b : Z) : string :=
  if b <? 16 then hex_digit b else hex_digit (b / 16) +:+ hex_digit (b mod 16).

Definition PacketType_String (t : Z) : string :=
  if t =? TypeConnect then "CONNECT"
  else if t =? TypeConnAck then "CONN_ACK"
  else if t =? TypeConnErr then "CONN_ERR"
  else if t =? TypeData then "DATA"
  else if t =? TypeClose then "CLOSE"
  else if t =? TypeReset then "RESET"
  else if t =? TypeNak then "NAK"
  else if t =? TypeLqr then "LQR"
  else "UNKNOWN(0x" +:+ hex_byte (u8 t) +:+ ")".

(** ** Packets *)

Record Packet := mkPacket {
  p_Type : Z;
  p_StreamID : Z;
  p_Addr : string;
  p_SeqNum : Z;
  p_GroupID : Z;
  p_Idx : Z;
  p_IsParity : bool;
  p_Payload : option bytes;
  p_Losses : Z;
}.

#[global] Instance Packet_eq_dec : EqDecision Packet.
Proof. solve_decision. Defined.

(** [&Packet{Type: t, StreamID: id}]: every other field has its zero value. *)
Definition base_packet (t id : Z) : Packet :=
  mkPacket t id "" 0 0 0 false None 0.

(** The ranges of the struct's field types. *)
Definition Packet_wf (p : Packet) : Prop :=
  is_u8 (p_Type p) /\ is_u16 (p_StreamID p) /\ is_u8 (p_SeqNum p) /\
  is_u16 (p_GroupID p) /\ is_u8 (p_Idx p) /\ is_u8 (p_Losses p) /\
  bytes_ok (slice_bytes (p_Payload p)).

#[global] Instance Packet_wf_dec p : Decision (Packet_wf p).
Proof. unfold Packet_wf. apply _. Defined.

(** ** Marshal *)

Definition Marshal (p : Packet) : result bytes :=
  if p_StreamID p >? 4095 then
    Err ("stream ID " +:+ pretty (p_StreamID p) +:+ " exceeds 12-bit limit")
  else
    let base0 := Z.lor (u8 (Z.shiftl (u8 (p_Type p)) 4)) (u8 (Z.shiftr (p_StreamID p) 8)) in
    let base1 := u8 (Z.land (p_StreamID p) 255) in
    let t := p_Type p in
    if (t =? TypeConnect) || (t =? TypeConnErr) then
      let addrBytes := bytes_of_string (p_Addr p) in
      if len addrBytes >? 255 then
        Err "address string too long (max 255 bytes)"
      else
        Ok ([base0; base1; u8 (len addrBytes)] ++ addrBytes)
    else if (t =? TypeConnAck) || (t =? TypeClose) || (t =? TypeReset) then
      Ok [base0; base1]
    else if t =? TypeData then
      let tVal := if p_IsParity p then 2 else 1 in
      Ok ([base0; base1; p_SeqNum p] ++ PutUint16 (p_GroupID p) ++
          [Z.lor (u8 (Z.shiftl (p_Idx p) 3)) (Z.land tVal 7)] ++
          slice_bytes (p_Payload p))
    else if t =? TypeNak then
      Ok [base0; base1; p_SeqNum p]
    else if t =? TypeLqr then
      Ok ([base0; base1] ++ PutUint16 (p_GroupID p) ++ [p_Losses p; 0])
    else
      Err ("unknown packet type " +:+ PacketType_String t).

(** ** Unmarshal

    The result is [None] for an index-out-of-range panic. *)
Definition Unmarshal (buf : bytes) : option (result Packet) :=
  if len buf <? 2 then Some (Err "packet too short for base header")
  else
    b0 ← idx buf 0;
    b1 ← idx buf 1;
    let pType := Z.shiftr b0 4 in
    let streamID := Z.lor (u16 (Z.shiftl (Z.land b0 15) 8)) b1 in
    let p := base_packet pType streamID in
    if (pType =? TypeConnect) || (pType =? TypeConnErr) then
      if len buf <? 3 then
        Some (Err (PacketType_String pType +:+ " packet too short for length field"))
      else
        length ← idx buf 2;
        if len buf <? 3 + length then
          Some (Err (PacketType_String pType +:+ " packet too short for address payload"))
        else
          addr ← slice buf 3 (3 + length);
          Some (Ok (mkPacket pType streamID (string_of_bytes addr) 0 0 0 false None 0))
    else if (pType =? TypeConnAck) || (pType =? TypeClose) || (pType =? TypeReset) then
      Some (Ok p)
    else if pType =? TypeData then
      if len buf <? 6 then Some (Err "DATA packet too short for header")
      else
        seq ← idx buf 2;
        g0 ← idx buf 3;
        g1 ← idx buf 4;
        b5 ← idx buf 5;
        payload ← slice buf 6 (len buf);
        let tVal := Z.land b5 7 in
        Some (Ok (mkPacket pType streamID "" seq (Uint16 g0 g1) (Z.shiftr b5 3)
                           (tVal =? 2) (Some (make_copy (Z.to_nat (len buf - 6)) payload)) 0))
    else if pType =? TypeNak then
      if len buf <? 3 then Some (Err "NAK packet too short")
      else
        seq ← idx buf 2;
        Some (Ok (mkPacket pType streamID "" seq 0 0 false None 0))
    else if pType =? TypeLqr then
      if len buf <? 6 then Some (Err "LQR packet too short")
      else
        g0 ← idx buf 2;
        g1 ← idx buf 3;
        losses ← idx buf 4;
        Some (Ok (mkPacket pType streamID "" 0 (Uint16 g0 g1) 0 false None losses))
    else
      Some (Err ("unknown packet type " +:+ PacketType_String pType)).

(** ** Reference definitions *)

(** What is left of a packet once it has been on the wire: only the fields its
    type carries, the five low bits of [Idx], a payload that is not [nil]. *)
Definition wire_view (p : Packet) : Packet :=
  let t := p_Type p in
  let id := p_StreamID p in
  if (t =? TypeConnect) || (t =? TypeConnErr) then
    mkPacket t id (p_Addr p) 0 0 0 false None 0
  else if t =? TypeData then
    mkPacket t id "" (p_SeqNum p) (p_GroupID p) (p_Idx p mod 32) (p_IsParity p)
             (Some (slice_bytes (p_Payload p))) 0
  else if t =? TypeNak then mkPacket t id "" (p_SeqNum p) 0 0 false None 0
  else if t =? TypeLqr then mkPacket t id "" 0 (p_GroupID p) 0 false None (p_Losses p)
  else base_packet t id.

(** The packets [Marshal] accepts. *)
Definition marshalable (p : Packet) : bool :=
  (p_StreamID p <=? 4095) && (p_Type p <=? 7) &&
  (if (p_Type p =? TypeConnect) || (p_Type p =? TypeConnErr)
   then len (bytes_of_string (p_Addr p)) <=? 255 else true).

(** The size of the frame of a packet. *)
Definition frame_size (p : Packet) : Z :=
  let t := p_Type p in
  if (t =? TypeConnect) || (t =? TypeConnErr) then 3 + len (bytes_of_string (p_Addr p))
  else if t =? TypeData then 6 + len (slice_bytes (p_Payload p))
  else if t =? TypeNak then 3
  else if t =? TypeLqr then 6
  else 2.

(** What encoding the packet decoded from [b] may change: the packet ends where its
    format ends; in a DATA packet the three bits beside the index become 2 or 1 (a
    parity packet has 2, and only it); the last byte of an LQR packet becomes 0.
    Every other byte is the one received. *)
Definition reencoded (p : Packet) (b b' : bytes) : Prop :=
  if p_Type p =? TypeData then
    exists hd y payload, len hd = 5 /\ b = hd ++ y :: payload /\
      b' = hd ++ y / 8 * 8 + (if y mod 8 =? 2 then 2 else 1) :: payload
  else if p_Type p =? TypeLqr then
    exists hd y rest, len hd = 5 /\ b = hd ++ y :: rest /\ b' = hd ++ [0]
  else b' `prefix_of` b.

(** The structural decoder of what follows the two header bytes; [Unmarshal]
    is shown to be this function on every frame with a header. *)
Definition decode_body (t id : Z) (rest : bytes) : result Packet :=
  if (t =? TypeConnect) || (t =? TypeConnErr) then
    match rest with
    | [] => Err (PacketType_String t +:+ " packet too short for length field")
    | n :: addr =>
        if len addr <? n
        then Err (PacketType_String t +:+ " packet too short for address payload")
        else Ok (mkPacket t id (string_of_bytes (take (Z.to_nat n) addr)) 0 0 0 false None 0)
    end
  else if (t =? TypeConnAck) || (t =? TypeClose) || (t =? TypeReset) then
    Ok (base_packet t id)
  else if t =? TypeData then
    match rest with
    | seq :: g0 :: g1 :: b5 :: payload =>
        Ok (mkPacket t id "" seq (Uint16 g0 g1) (Z.shiftr b5 3) (Z.land b5 7 =? 2)
                     (Some payload) 0)
    | _ => Err "DATA packet too short for header"
    end
  else if t =? TypeNak then
    match rest with
    | seq :: _ => Ok (mkPacket t id "" seq 0 0 false None 0)
    | _ => Err "NAK packet too short"
    end
  else if t =? TypeLqr then
    match rest with
    | g0 :: g1 :: losses :: _ :: _ =>
        Ok (mkPacket t id "" 0 (Uint16 g0 g1) 0 false None losses)
    | _ => Err "LQR packet too short"
    end
  else Err ("unknown packet type " +:+ PacketType_String t).

(** ** Helper lemmas *)

Lemma base0_eq t id :
  0 <= t <= 7 -> 0 <= id <= 4095 ->
  Z.lor (u8 (Z.shiftl (u8 t) 4)) (u8 (Z.shiftr id 8)) = t * 16 + id / 256.
Proof.
  intros Ht Hid. rewrite (u8_small t) by go_range.
  rewrite shiftr_div, (u8_small (id / _)) by go_range.
  rewrite u8_small by (rewrite shiftl_mul by lia; go_range).
  rewrite Z.lor_comm, lor_shiftl_add by go_range. go_range.
Qed.

Lemma base1_eq id : u8 (Z.land id 255) = id mod 256.
Proof. rewrite land_ff. go_range. Qed.

Lemma header_type t id :
  0 <= t <= 7 -> 0 <= id <= 4095 -> Z.shiftr (t * 16 + id / 256) 4 = t.
Proof. intros. rewrite shiftr_div by lia. go_range. Qed.

Lemma header_stream t id :
  0 <= t <= 7 -> 0 <= id <= 4095 ->
  Z.lor (u16 (Z.shiftl (Z.land (t * 16 + id / 256) 15) 8)) (id mod 256) = id.
Proof.
  intros. rewrite land_0f.
  rewrite u16_small by (rewrite shiftl_mul by lia; go_range).
  rewrite Z.lor_comm, lor_shiftl_add by go_range. go_range.
Qed.

Lemma idx_byte_eq i (par : bool) :
  is_u8 i ->
  Z.lor (u8 (Z.shiftl i 3)) (Z.land (if par then 2 else 1) 7) =
  i mod 32 * 8 + (if par then 2 else 1).
Proof.
  intros Hi. rewrite land_07, shiftl_mul by lia.
  replace (u8 (i * 2 ^ 3)) with (Z.shiftl (i mod 32) 3)
    by (rewrite shiftl_mul by lia; go_range).
  rewrite Z.lor_comm, lor_shiftl_add by (destruct par; go_range).
  destruct par; go_range.
Qed.

Lemma idx_byte_idx i (par : bool) :
  Z.shiftr (i mod 32 * 8 + (if par then 2 else 1)) 3 = i mod 32.
Proof. rewrite shiftr_div by lia. destruct par; go_range. Qed.

Lemma idx_byte_parity i (par : bool) :
  (Z.land (i mod 32 * 8 + (if par then 2 else 1)) 7 =? 2) = par.
Proof. rewrite land_07. destruct par; apply bool_decide_eq_true_2 || apply Z.eqb_eq || apply Z.eqb_neq; go_range. Qed.

Lemma header_stream_add b0 b1 :
  is_u8 b0 -> is_u8 b1 ->
  Z.lor (u16 (Z.shiftl (Z.land b0 15) 8)) b1 = b0 mod 16 * 256 + b1.
Proof.
  intros. rewrite land_0f.
  rewrite u16_small by (rewrite shiftl_mul by lia; go_range).
  rewrite Z.lor_comm, lor_shiftl_add by go_range. go_range.
Qed.

Lemma Unmarshal_body b0 b1 rest :
  is_u8 b0 -> is_u8 b1 -> bytes_ok rest ->
  Unmarshal (b0 :: b1 :: rest) =
  Some (decode_body (b0 / 16) (b0 mod 16 * 256 + b1) rest).
Proof.
  intros H0 H1 Hr. unfold Unmarshal, decode_body.
  rewrite !len_cons. pose proof (len_nonneg rest) as Hl. go_test.
  simpl. rewrite header_stream_add by done. rewrite shiftr_div by lia.
  change (2 ^ 4) with 16.
  case_match; [|case_match; [done|case_match; [|case_match; [|case_match; [|done]]]]].
  - destruct rest as [|n addr]; [done|]. simpl in *. rewrite len_cons in *.
    apply Forall_cons in Hr as [Hn _]. unfold is_u8 in Hn. pose proof (len_nonneg addr). go_test.
    destruct (Z.ltb_spec (len addr) n); go_test; [done|].
    rewrite !slice_tail, slice_is_Some by lia. simpl.
    by replace (3 + n - 1 - 1 - 1 - (3 - 1 - 1 - 1)) with n by lia.
  - destruct rest as [|s [|g0 [|g1 [|b5 payload]]]]; try done.
    simpl in *. rewrite !len_cons in *. pose proof (len_nonneg payload). go_test.
    rewrite !slice_tail, slice_is_Some by lia. simpl. repeat f_equal.
    change (drop _ payload) with payload. rewrite take_ge by (unfold len in *; lia).
    replace (Z.to_nat _) with (length payload) by (unfold len in *; lia).
    apply make_copy_id.
  - destruct rest as [|s rest]; [done|]. simpl. rewrite len_cons in *.
    pose proof (len_nonneg rest). by go_test.
  - destruct rest as [|g0 [|g1 [|l [|r rest]]]]; try done.
    simpl in *. rewrite !len_cons in *. pose proof (len_nonneg rest). by go_test.
Qed.

(** Case analysis on the packet type: one goal per constant, one for the rest. *)
Ltac type_cases t :=
  destruct (decide (t = TypeConnect)) as [->|]; [|
  destruct (decide (t = TypeConnAck)) as [->|]; [|
  destruct (decide (t = TypeConnErr)) as [->|]; [|
  destruct (decide (t = TypeData)) as [->|]; [|
  destruct (decide (t = TypeClose)) as [->|]; [|
  destruct (decide (t = TypeReset)) as [->|]; [|
  destruct (decide (t = TypeNak)) as [->|]; [|
  destruct (decide (t = TypeLqr)) as [->|]]]]]]]].

Ltac unfold_types := unfold TypeConnect, TypeConnAck, TypeConnErr, TypeData, TypeClose,
  TypeReset, TypeNak, TypeLqr in *.

Lemma decode_body_wf t id rest p :
  bytes_ok rest -> 0 <= t < 16 -> 0 <= id <= 4095 ->
  decode_body t id rest = Ok p ->
  Packet_wf p /\ p_StreamID p <= 4095 /\ 0 <= p_Type p <= 7 /\ p_Idx p < 32 /\
  (p_Type p = TypeData -> is_Some (p_Payload p)).
Proof.
  intros Hr Ht Hid Hp. unfold bytes_ok in *.
  unfold decode_body in Hp. type_cases t; unfold_types; simpl in Hp;
    repeat (case_match; simplify_eq/=);
    decompose_Forall_hyps; unfold Packet_wf, is_u8, is_u16, bytes_ok in *; simpl;
    repeat match goal with |- context [Uint16 ?a ?b] =>
      pose proof (Uint16_range a b) as HU; unfold is_u8, is_u16 in HU;
      generalize dependent (Uint16 a b); intros end;
    repeat match goal with |- context [Z.shiftr ?b 3] =>
      rewrite (shiftr_div b 3) by lia; change (2 ^ 3) with 8 end;
    split_and!; try done; try lia; try (intros; lia); try go_range.
Qed.

Lemma bytes_ok_cons2 b : bytes_ok b -> 2 <= len b ->
  exists b0 b1 rest, b = b0 :: b1 :: rest /\ is_u8 b0 /\ is_u8 b1 /\ bytes_ok rest.
Proof.
  intros Hb Hl. destruct b as [|b0 [|b1 rest]]; unfold len in Hl; simpl in *; [lia..|].
  unfold bytes_ok in *. decompose_Forall_hyps. eauto 10.
Qed.

Lemma Unmarshal_short b : len b < 2 ->
  Unmarshal b = Some (Err "packet too short for base header").
Proof. intros. unfold Unmarshal. by go_test. Qed.

Lemma Unmarshal_Ok_inv b p :
  bytes_ok b -> Unmarshal b = Some (Ok p) ->
  exists t id rest, 0 <= t < 16 /\ 0 <= id <= 4095 /\ bytes_ok rest /\
    b = t * 16 + id / 256 :: id mod 256 :: rest /\ decode_body t id rest = Ok p.
Proof.
  intros Hb Hp. destruct (decide (len b < 2)) as [Hs|Hs].
  { by rewrite Unmarshal_short in Hp. }
  destruct (bytes_ok_cons2 b) as (b0 & b1 & rest & -> & H0 & H1 & Hr); [done|lia|].
  rewrite Unmarshal_body in Hp by done. simplify_eq.
  exists (b0 / 16), (b0 mod 16 * 256 + b1), rest.
  unfold is_u8 in *. split_and!; try done; try go_range.
  f_equal; [|f_equal]; go_range.
Qed.

(** The header bytes of [Marshal], in arithmetic form. *)
Lemma Marshal_header t id rest :
  0 <= t <= 7 -> 0 <= id <= 4095 -> bytes_ok rest ->
  Unmarshal (Z.lor (u8 (Z.shiftl (u8 t) 4)) (u8 (Z.shiftr id 8)) ::
             u8 (Z.land id 255) :: rest) = Some (decode_body t id rest).
Proof.
  intros Ht Hid Hr. rewrite base0_eq, base1_eq by done.
  rewrite Unmarshal_body by (done || go_range).
  do 2 f_equal; go_range.
Qed.

Lemma decode_conn t id addr :
  t = TypeConnect \/ t = TypeConnErr -> len (bytes_of_string addr) <= 255 ->
  decode_body t id (u8 (len (bytes_of_string addr)) :: bytes_of_string addr) =
  Ok (mkPacket t id addr 0 0 0 false None 0).
Proof.
  intros Ht Hl. pose proof (len_nonneg (bytes_of_string addr)) as Hn.
  rewrite u8_small by (unfold is_u8; lia).
  unfold decode_body. rewrite (proj2 (orb_true_iff _ _)) by (rewrite !Z.eqb_eq; done).
  go_test. unfold len. rewrite Nat2Z.id, firstn_all. by rewrite string_of_bytes_of_string.
Qed.

Lemma decode_data id seq grp i par pl :
  is_u16 grp -> is_u8 i ->
  decode_body TypeData id
    (seq :: PutUint16 grp ++ [Z.lor (u8 (Z.shiftl i 3)) (Z.land (if par : bool then 2 else 1) 7)] ++ pl) =
  Ok (mkPacket TypeData id "" seq grp (i mod 32) par (Some pl) 0).
Proof.
  intros Hg Hi. rewrite idx_byte_eq by done. simpl.
  unfold decode_body. simpl. by rewrite Uint16_PutUint16, idx_byte_idx, idx_byte_parity.
Qed.

Lemma decode_lqr id grp lo :
  is_u16 grp ->
  decode_body TypeLqr id (PutUint16 grp ++ [lo; 0]) =
  Ok (mkPacket TypeLqr id "" 0 grp 0 false None lo).
Proof. intros Hg. simpl. unfold decode_body. simpl. by rewrite Uint16_PutUint16. Qed.

Lemma idx_byte_ok i par :
  is_u8 i -> is_u8 (Z.lor (u8 (Z.shiftl i 3)) (Z.land (if par : bool then 2 else 1) 7)).
Proof. intros. rewrite idx_byte_eq by done. destruct par; go_range. Qed.

#[local] Hint Resolve idx_byte_ok : go_arith.

Lemma Marshal_unknown p :
  p_StreamID p <= 4095 -> ~ 0 <= p_Type p <= 7 ->
  Marshal p = Err ("unknown packet type " +:+ PacketType_String (p_Type p)).
Proof. intros. unfold Marshal. unfold_types. go_tests. done. Qed.

Lemma Marshal_decode p b :
  Packet_wf p -> Marshal p = Ok b ->
  exists rest, b = Z.lor (u8 (Z.shiftl (u8 (p_Type p)) 4)) (u8 (Z.shiftr (p_StreamID p) 8)) ::
                   u8 (Z.land (p_StreamID p) 255) :: rest /\
    bytes_ok rest /\ 0 <= p_Type p <= 7 /\ 0 <= p_StreamID p <= 4095 /\
    decode_body (p_Type p) (p_StreamID p) rest = Ok (wire_view p).
Proof.
  intros (Ht & Hid & Hs & Hg & Hi & Hl & Hpl) HM.
  destruct (decide (0 <= p_Type p <= 7)) as [Ht7|Ht7]; last first.
  { destruct (decide (p_StreamID p <= 4095)).
    - by rewrite Marshal_unknown in HM.
    - unfold Marshal in HM. rewrite Z.gtb_ltb, (proj2 (Z.ltb_lt _ _)) in HM by lia. done. }
  unfold Marshal in HM. destruct (p_StreamID p >? 4095) eqn:E; [done|]. go_bool.
  unfold wire_view. destruct p as [t id addr seq grp i par pl lo]; simpl in *.
  assert (0 <= id <= 4095) by (unfold is_u16 in Hid; lia).
  type_cases t; unfold_types; simpl in *; try lia.
  all: try match type of HM with context [len ?a >? 255] =>
    destruct (len a >? 255) eqn:E2; [done|] end; go_bool; simplify_eq.
  all: eexists; split_and!; [done| |lia..|].
  all: try (by go_bytes).
  - by apply decode_conn; [left|].
  - by apply decode_conn; [right|].
  - by apply (decode_data id seq grp i par).
  - by apply (decode_lqr id grp lo).
Qed.

Lemma Marshal_ok_iff p : Packet_wf p -> is_Ok (Marshal p) = marshalable p.
Proof.
  intros (Ht & Hid & _). unfold marshalable.
  destruct (decide (0 <= p_Type p <= 7)); last first.
  { unfold is_u8 in Ht. rewrite (proj2 (Z.leb_gt (p_Type p) 7)), andb_false_r by lia.
    destruct (decide (p_StreamID p <= 4095)).
    - by rewrite Marshal_unknown.
    - unfold Marshal. by go_tests. }
  unfold Marshal. rewrite !Z.gtb_ltb.
  destruct (Z.ltb_spec 4095 (p_StreamID p)); go_tests; [done|]. simpl.
  destruct p as [t id addr seq grp i par pl lo]; simpl in *.
  type_cases t; unfold_types; simpl in *; try done; try lia;
    destruct (Z.ltb_spec 255 (len (bytes_of_string addr))); by go_tests.
Qed.

Lemma Marshal_len p b : Marshal p = Ok b -> len b = frame_size p.
Proof.
  unfold Marshal, frame_size. intros HM.
  repeat case_match; simplify_eq; autorewrite with go_rw; simpl; try done; try lia.
  all: go_bool; unfold_types; destruct_or?; go_bool; lia.
Qed.

Lemma Marshal_wire_view p : Packet_wf p -> Marshal (wire_view p) = Marshal p.
Proof.
  intros (Ht & Hid & Hs & Hg & Hi & Hl & Hpl). unfold wire_view.
  destruct p as [t id addr seq grp i par pl lo]; simpl in *.
  type_cases t; unfold_types; simpl; unfold Marshal; simpl; try done.
  - rewrite !idx_byte_eq by (done || go_range). by rewrite Z.mod_mod.
  - by rewrite !(proj2 (Z.eqb_neq _ _)) by done.
Qed.

(** What the decoder accepts is already in wire form. *)
Lemma decode_body_canonical t id rest p :
  bytes_ok rest -> 0 <= t < 16 -> 0 <= id <= 4095 ->
  decode_body t id rest = Ok p ->
  wire_view p = p /\ marshalable p = true /\ frame_size p <= 2 + len rest.
Proof.
  intros Hr Ht Hid Hp. unfold decode_body in Hp. unfold bytes_ok in Hr.
  type_cases t; unfold_types; simpl in Hp.
  all: repeat (match type of Hp with context [match ?x with _ => _ end] =>
    destruct x eqn:? end; simplify_eq/=); decompose_Forall_hyps; go_bool.
  all: unfold wire_view, marshalable, frame_size; simpl; rewrite ?len_cons.
  all: rewrite (proj2 (Z.leb_le id 4095)) by lia; simpl.
  all: try match goal with |- context [len ?l] => pose proof (len_nonneg l) end.
  all: try rewrite bytes_of_string_of_bytes by (by apply Forall_take).
  all: split_and!; try done; try lia.
  all: try (unfold len, is_u8 in *; rewrite length_take, ?Z.leb_le; lia).
  f_equal. rewrite shiftr_div by lia. go_range.
Qed.

(** ** Theorems *)

(** C30: Marshalling a packet and unmarshalling the frame yields the packet the
    wire can carry: the fields of its type are kept, [Idx] is reduced to five
    bits, the payload is a non-nil slice, and every other field is zero. *)
Theorem Unmarshal_Marshal p b :
  Packet_wf p -> Marshal p = Ok b -> Unmarshal b = Some (Ok (wire_view p)).
Proof.
  intros Hwf HM. destruct (Marshal_decode p b) as (rest & -> & Hr & Ht & Hid & Hd); [done..|].
  rewrite Marshal_header by done. by rewrite Hd.
Qed.

Lemma Unmarshal_Marshal_witness :
  Packet_wf (mkPacket TypeData 5 "" 7 300 12 true (Some [1; 2; 3]) 0) /\
  Unmarshal [48; 5; 7; 1; 44; 98; 1; 2; 3] =
    Some (Ok (mkPacket TypeData 5 "" 7 300 12 true (Some [1; 2; 3]) 0)).
Proof.
  split; [go_decide|].
  apply (Unmarshal_Marshal (mkPacket TypeData 5 "" 7 300 12 true (Some [1; 2; 3]) 0));
    [go_decide|reflexivity].
Defined.

(** C31: [Unmarshal] never panics on bytes received from the socket, and a packet
    it accepts has every field in the range of the wire format: a 12-bit stream
    id, a 4-bit known type, a 5-bit index and, for DATA, a non-nil payload. *)
Theorem Unmarshal_safe b :
  bytes_ok b ->
  exists r, Unmarshal b = Some r /\
    forall p, r = Ok p ->
      Packet_wf p /\ p_StreamID p <= 4095 /\ 0 <= p_Type p <= 7 /\ p_Idx p < 32 /\
      (p_Type p = TypeData -> is_Some (p_Payload p)).
Proof.
  intros Hb. destruct (decide (len b < 2)).
  { rewrite Unmarshal_short by done. eexists. split; [done|]. discriminate. }
  destruct (bytes_ok_cons2 b) as (b0 & b1 & rest & -> & H0 & H1 & Hr); [done|lia|].
  rewrite Unmarshal_body by done. eexists. split; [done|]. intros p Hp.
  eapply decode_body_wf; [..|done]; [done|go_range..].
Qed.

Lemma Unmarshal_safe_witness :
  bytes_ok [112; 9; 0; 1; 4; 0] /\
  exists r, Unmarshal [112; 9; 0; 1; 4; 0] = Some r /\
    forall p, r = Ok p ->
      Packet_wf p /\ p_StreamID p <= 4095 /\ 0 <= p_Type p <= 7 /\ p_Idx p < 32 /\
      (p_Type p = TypeData -> is_Some (p_Payload p)).
Proof.
  split; [go_decide|].
  apply Unmarshal_safe. go_decide.
Defined.

(** C32: [Marshal] succeeds exactly on packets with a 12-bit stream id, a known
    type and, for CONNECT and CONN_ERR, an address of at most 255 bytes; the
    frame then holds only bytes, and it has the size of its type's format: 3 bytes
    and the address, 6 and the payload for DATA, 3 for NAK, 6 for LQR, otherwise 2.
    (For LQR that is one byte more than the table of the design document.) *)
Theorem Marshal_spec p :
  Packet_wf p ->
  (is_Ok (Marshal p) = marshalable p) /\
  (forall b, Marshal p = Ok b -> len b = frame_size p /\ bytes_ok b).
Proof.
  intros Hwf. split; [by apply Marshal_ok_iff|]. intros b HM.
  split; [by apply Marshal_len|].
  destruct (Marshal_decode p b) as (rest & -> & Hr & Ht & Hid & _); [done..|].
  rewrite base0_eq by lia. do 2 (apply Forall_cons_2; [go_range|]). done.
Qed.

Lemma Marshal_spec_witness :
  marshalable (mkPacket TypeLqr 4095 "" 0 65535 0 false None 3) = true /\
  len [127; 255; 255; 255; 3; 0] = frame_size (mkPacket TypeLqr 4095 "" 0 65535 0 false None 3).
Proof.
  split; [reflexivity|].
  apply (Marshal_spec (mkPacket TypeLqr 4095 "" 0 65535 0 false None 3));
    [go_decide|reflexivity].
Defined.

(** Encoding what the decoder has accepted, in terms of the bytes. *)
Lemma Marshal_decoded_conn t id n addr :
  t = TypeConnect \/ t = TypeConnErr -> 0 <= id <= 4095 -> is_u8 n -> bytes_ok addr -> n <= len addr ->
  Marshal (mkPacket t id (string_of_bytes (take (Z.to_nat n) addr)) 0 0 0 false None 0) =
  Ok (t * 16 + id / 256 :: id mod 256 :: n :: take (Z.to_nat n) addr).
Proof.
  intros Ht Hid Hn Ha Hl. unfold Marshal. simpl. rewrite !Z.gtb_ltb, (proj2 (Z.ltb_ge 4095 id)) by lia.
  rewrite (proj2 (orb_true_iff _ _)) by (rewrite !Z.eqb_eq; done).
  rewrite bytes_of_string_of_bytes by (by apply Forall_take).
  assert (len (take (Z.to_nat n) addr) = n) as -> by (unfold len, is_u8 in *; rewrite length_take; lia).
  rewrite (proj2 (Z.ltb_ge 255 n)), (u8_small n) by (unfold is_u8 in *; lia).
  by rewrite base0_eq, base1_eq by (destruct Ht as [->| ->]; unfold_types; lia).
Qed.

Lemma Marshal_decoded t id rest p :
  bytes_ok rest -> 0 <= t < 16 -> 0 <= id <= 4095 -> decode_body t id rest = Ok p ->
  exists b', Marshal p = Ok b' /\ reencoded p (t * 16 + id / 256 :: id mod 256 :: rest) b'.
Proof.
  intros Hr Ht Hid Hd. unfold decode_body in Hd. unfold bytes_ok in Hr.
  type_cases t; unfold_types; [simpl in Hd..|by rewrite !(proj2 (Z.eqb_neq _ _)) in Hd].
  all: repeat (match type of Hd with context [match ?x with _ => _ end] =>
    destruct x eqn:? end; simplify_eq/=); decompose_Forall_hyps; go_bool.
  all: try (rewrite Marshal_decoded_conn by (done || (by left) || (by right)); eexists;
    (split; [done|]); unfold reencoded; simpl; do 3 apply prefix_cons; apply prefix_take).
  all: unfold Marshal, reencoded; simpl; rewrite Z.gtb_ltb, (proj2 (Z.ltb_ge 4095 id)) by lia; simpl.
  all: rewrite ?base0_eq, ?base1_eq by lia.
  all: try (eexists; split; [done|]; by eexists).
  - destruct (PutUint16_Uint16_bytes z0 z1) as [-> ->]; [done..|].
    rewrite idx_byte_eq, shiftr_div, land_07 by (try rewrite shiftr_div by lia; go_range).
    eexists. split; [done|]. exists [3 * 16 + id / 256; id mod 256; z; z0; z1], z2, l0.
    split_and!; [done..|]. simpl. do 6 f_equal. go_range.
  - destruct (PutUint16_Uint16_bytes z z0) as [-> ->]; [done..|].
    eexists. split; [done|]. by exists [7 * 16 + id / 256; id mod 256; z; z0; z1], z2, l0.
Qed.

(** C33: A datagram that [Unmarshal] accepts is re-encoded by [Marshal] into its own
    bytes, up to the end of the packet's format: the only bits that may differ are
    the three type bits beside the index of a DATA packet, which become 2 for what was
    read as parity (the value 2) and 1 for anything else, and the reserved byte of an
    LQR packet, which becomes 0.  The result is never longer and decodes to the same
    packet. *)
Theorem Marshal_Unmarshal b p :
  bytes_ok b -> Unmarshal b = Some (Ok p) ->
  exists b', Marshal p = Ok b' /\ reencoded p b b' /\ Unmarshal b' = Some (Ok p) /\ len b' <= len b.
Proof.
  intros Hb Hu. destruct (Unmarshal_Ok_inv b p) as (t & id & rest & Ht & Hid & Hr & -> & Hd);
    [done..|].
  pose proof (decode_body_wf _ _ _ _ Hr Ht Hid Hd) as (Hwf & _).
  destruct (decode_body_canonical _ _ _ _ Hr Ht Hid Hd) as (Hv & Hm & Hf).
  destruct (Marshal_decoded _ _ _ _ Hr Ht Hid Hd) as (b' & HM & Hre). exists b'. split_and!; [done..| |].
  - destruct (Marshal_decode p b') as (r & -> & ? & ? & ? & Hd'); [done..|].
    rewrite Marshal_header by done. by rewrite Hd', Hv.
  - rewrite (Marshal_len p b') by done. rewrite !len_cons. lia.
Qed.

(** A DATA packet with the unassigned type value 7. *)
Lemma Marshal_Unmarshal_witness :
  exists b', Marshal (mkPacket TypeData 5 "" 7 300 12 false (Some [1]) 0) = Ok b' /\
    reencoded (mkPacket TypeData 5 "" 7 300 12 false (Some [1]) 0) [48; 5; 7; 1; 44; 103; 1] b' /\
    Unmarshal b' = Some (Ok (mkPacket TypeData 5 "" 7 300 12 false (Some [1]) 0)) /\
    len b' <= len [48; 5; 7; 1; 44; 103; 1].
Proof.
  apply (Marshal_Unmarshal [48; 5; 7; 1; 44; 103; 1]);
    [go_decide|reflexivity].
Defined.
