(* ===== verification/Fec.v ===== *)
(** * The forward-error-correction wrapper (src/fec/fec.go)

    [FEC] caches Reed-Solomon encoders by shard configuration and pads shards to
    a common length around them.  The Reed-Solomon library
    (github.com/klauspost/reedsolomon) is a parameter: the class [ReedSolomon]
    holds its three entry points, the classes [RSErasure] and [RSCode] what the program
    relies on.
    [XorCode] is a concrete single-parity code that satisfies both; [GF256.v] has a
    Reed-Solomon code. *)
From stdpp Require Import base gmap strings list pretty.
From S2P Require Import Prelude.
Local Open Scope string_scope.
Local Open Scope list_scope.
Local Open Scope Z_scope.

(** ** The library the program calls *)

(** [reedsolomon.New], [Encoder.Encode] and [Encoder.Reconstruct].  The library
    writes into the slices it is given; the definitions return the new slices. *)
Class ReedSolomon := {
  Encoder : Type;
  rs_New : Z -> Z -> result Encoder;
  rs_Encode : Encoder -> list bytes -> result (list bytes);
  rs_Reconstruct : Encoder -> list (option bytes) -> result (list (option bytes));
}.

(** [present] holds some of the shards of [codeword]; the others are [nil]. *)
Definition erasure_of (present : list (option bytes)) (codeword : list bytes) : Prop :=
  Forall2 (fun o c => o = None \/ o = Some c) present codeword.

Definition present_count {A} (l : list (option A)) : nat := length (omap id l).

(** What the library documents for an encoder with [k] data and [m] parity shards.
    [New] makes it; [Encode] keeps the data shards and overwrites the parity shards
    with a function of the data; [Reconstruct] restores every missing shard from any
    [k] that are present. *)
Class RSErasure `{!ReedSolomon} (k m : nat) := {
  rs_par : list bytes -> list bytes;
  rs_new : exists e, rs_New (Z.of_nat k) (Z.of_nat m) = Ok e;
  rs_par_shape data L :
    length data = k -> Forall (fun d => length d = L /\ bytes_ok d) data ->
    length (rs_par data) = m /\ Forall (fun d => length d = L /\ bytes_ok d) (rs_par data);
  rs_encode e data par L :
    rs_New (Z.of_nat k) (Z.of_nat m) = Ok e ->
    length data = k -> length par = m -> (0 < L)%nat ->
    Forall (fun d => length d = L /\ bytes_ok d) (data ++ par) ->
    rs_Encode e (data ++ par) = Ok (data ++ rs_par data);
  rs_reconstruct e data present L :
    rs_New (Z.of_nat k) (Z.of_nat m) = Ok e ->
    length data = k -> (0 < L)%nat -> Forall (fun d => length d = L /\ bytes_ok d) data ->
    erasure_of present (data ++ rs_par data) -> (k <= present_count present)%nat ->
    rs_Reconstruct e present = Ok (map Some (data ++ rs_par data));
}.

(** What adaptive parity needs on top of it.  The sender encodes a block with the
    current count [m] and the receiver decodes it with the maximum [M], so the code
    for [m] must be the code for [M] with the last parity shards left out
    ([rs_stable]).  The library is a port of Backblaze's JavaReedSolomon: its default
    coding matrix is the Vandermonde matrix with [K] columns times the inverse of its
    top square, so that the row of parity shard [j] is determined by [K] and [j].
    [GF256.v] has that code and proves the law for it.  [New] refuses a configuration
    without data shards. *)
Class RSCode `{!ReedSolomon} (K M : nat) := {
  rs_count m : (1 <= m <= M)%nat -> RSErasure K m;
  rs_parity : list bytes -> nat -> bytes;
  rs_stable m (Hm : (1 <= m <= M)%nat) data :
    length data = K -> @rs_par _ K m (rs_count m Hm) data = map (rs_parity data) (seq 0 m);
  rs_parity_length data j L :
    length data = K -> Forall (fun d => length d = L) data -> length (rs_parity data j) = L;
  rs_parity_ok data j : Forall bytes_ok data -> bytes_ok (rs_parity data j);
  rs_New_bad k m : k <= 0 -> is_Ok (rs_New k m) = false;
}.

(** ** The wrapper *)

Section FEC.
Context `{!ReedSolomon}.

Record FEC := mkFEC { encoders : gmap string Encoder }.

Definition NewFEC : FEC := mkFEC ∅.

(** [fmt.Sprintf("%d,%d", k, m)] *)
Definition fec_key (k m : Z) : string := pretty k +:+ "," +:+ pretty m.

Definition getEncoder (f : FEC) (k m : Z) : result Encoder * FEC :=
  let key := fec_key k m in
  match encoders f !! key with
  | Some enc => (Ok enc, f)
  | None =>
      match rs_New k m with
      | Err e => (Err e, f)
      | Ok enc => (Ok enc, mkFEC (<[key := enc]> (encoders f)))
      end
  end.

(** The loop over [data] that computes [maxLen]. *)
Definition max_len (data : list bytes) : nat :=
  foldl (fun m d => if (m <? length d)%nat then length d else m) 0%nat data.

Definition Encode (f : FEC) (k m : Z) (data : list bytes) : result (list bytes) * FEC :=
  if m <=? 0 then (Ok [], f)
  else
    match getEncoder f k m with
    | (Err e, f) => (Err e, f)
    | (Ok enc, f) =>
        let maxLen := max_len data in
        let maxLen := if (maxLen =? 0)%nat then 1%nat else maxLen in
        let dataShards :=
          map (fun i => make_copy maxLen (default [] (data !! i))) (seq 0 (Z.to_nat k)) in
        let parityShards := replicate (Z.to_nat m) (replicate maxLen 0) in
        match rs_Encode enc (dataShards ++ parityShards) with
        | Err e => (Err e, f)
        | Ok shards => (Ok (take (Z.to_nat m) (drop (Z.to_nat k) shards)), f)
        end
    end.

Definition Reconstruct (f : FEC) (k m : Z) (shards : list (option bytes))
    : result (list (option bytes)) * FEC :=
  if m <=? 0 then (Err ("cannot reconstruct with m=" +:+ pretty m), f)
  else
    match getEncoder f k m with
    | (Err e, f) => (Err e, f)
    | (Ok enc, f) => (rs_Reconstruct enc shards, f)
    end.

(** The cache holds, under each key, the encoder [New] builds for it. *)
Definition fec_ok (f : FEC) : Prop :=
  map_Forall (fun key e => exists k m, key = fec_key k m /\ rs_New k m = Ok e) (encoders f).

End FEC.
Arguments FEC {_}.

(** The padded data shards of a block, as [Encode] hands them to the library. *)
Definition pad_shards (data : list bytes) : list bytes :=
  map (make_copy (max_len data)) data.

(** ** A concrete code: one parity shard, the xor of the data shards *)

Module XorCode.

Definition xor_bytes (a b : bytes) : bytes := zip_with Z.lxor a b.
Definition xor_all (L : nat) (l : list bytes) : bytes := foldr xor_bytes (replicate L 0) l.

Definition xor_New (k m : Z) : result (Z * Z) :=
  if (k <=? 0) || (m <? 0) then Err "cannot create Encoder with less than one data shard or less than zero parity shards"
  else Ok (k, m).
Definition xor_Encode (e : Z * Z) (shards : list bytes) : result (list bytes) :=
  let data := take (Z.to_nat (fst e)) shards in
  Ok (data ++ replicate (Z.to_nat (snd e)) (xor_all (max_len data) data)).
Definition xor_Reconstruct (e : Z * Z) (shards : list (option bytes))
    : result (list (option bytes)) :=
  let present := omap id shards in
  if (length present <? Z.to_nat (fst e))%nat then Err "too few shards given"
  else Ok (map (fun o => Some (default (xor_all (max_len present) present) o)) shards).

#[export] Instance xor_rs : ReedSolomon := {|
  Encoder := Z * Z; rs_New := xor_New; rs_Encode := xor_Encode; rs_Reconstruct := xor_Reconstruct |}.

End XorCode.

(** ** Lemmas *)

Lemma max_len_from (data : list bytes) a :
  let r := foldl (fun m d => if (m <? length d)%nat then length d else m) a data in
  (a <= r)%nat /\ Forall (fun d => (length d <= r)%nat) data /\
  (r = a \/ exists d, d ∈ data /\ length d = r).
Proof.
  revert a. induction data as [|d data IH]; intros a; simpl; [auto|].
  destruct (Nat.ltb_spec a (length d)) as [Hlt|Hge].
  - destruct (IH (length d)) as (H1 & H2 & H3). split; [lia|]. split; [by constructor|].
    right. destruct H3 as [->|(d' & Hd' & <-)]; [exists d; split; [constructor|done]|].
    exists d'. split; [by constructor|done].
  - destruct (IH a) as (H1 & H2 & H3). split; [done|]. split; [constructor; [lia|done]|].
    destruct H3 as [->|(d' & Hd' & <-)]; [auto|]. right.
    exists d'. split; [by constructor|done].
Qed.

Lemma max_len_le data : Forall (fun d => (length d <= max_len data)%nat) data.
Proof. apply (max_len_from data 0). Qed.

Lemma max_len_attained data : max_len data = 0%nat \/ exists d, d ∈ data /\ length d = max_len data.
Proof. apply (max_len_from data 0). Qed.

Lemma max_len_const data L :
  Forall (fun d => length d = L) data -> data <> [] -> max_len data = L.
Proof.
  intros HF Hne. destruct (max_len_attained data) as [H0|(d & Hd & <-)].
  - destruct data as [|d data]; [done|]. pose proof (max_len_le (d :: data)) as Hle.
    decompose_Forall_hyps. lia.
  - rewrite Forall_forall in HF. by apply HF.
Qed.

Lemma length_pad_shards data : length (pad_shards data) = length data.
Proof. apply length_map. Qed.

Lemma pad_shards_lengths data :
  Forall (fun d => length d = max_len data) (pad_shards data).
Proof. apply Forall_map, Forall_true. intros. apply length_make_copy. Qed.

Lemma pad_shards_ok data : Forall bytes_ok data -> Forall bytes_ok (pad_shards data).
Proof. intros H. apply Forall_map. eapply Forall_impl; [done|]. intros. by apply make_copy_ok. Qed.

Lemma lookup_pad_shards data i :
  pad_shards data !! i = make_copy (max_len data) <$> data !! i.
Proof. apply list_lookup_fmap. Qed.

Lemma fec_key_inj k1 m1 k2 m2 : fec_key k1 m1 = fec_key k2 m2 -> k1 = k2 /\ m1 = m2.
Proof.
  intros H. apply split_sep_inj in H as [H1 H2]; [|apply pretty_Z_avoids_comma..].
  split; by apply pretty_Z_inj.
Qed.

Section FECLemmas.
Context `{!ReedSolomon}.

Lemma NewFEC_ok : fec_ok NewFEC.
Proof. apply map_Forall_empty. Qed.

Lemma getEncoder_eq f k m :
  fec_ok f -> fst (getEncoder f k m) = rs_New k m /\ fec_ok (snd (getEncoder f k m)).
Proof.
  intros Hf. unfold getEncoder. destruct (encoders f !! fec_key k m) as [e|] eqn:E; simpl.
  - destruct (Hf _ _ E) as (k' & m' & Hk & Hn). apply fec_key_inj in Hk as [-> ->]. by rewrite Hn.
  - destruct (rs_New k m) as [e|e] eqn:En; [|done]. split; [done|].
    apply map_Forall_insert_2; [by eauto|done].
Qed.

Lemma Encode_fec_ok f k m data : fec_ok f -> fec_ok (snd (Encode f k m data)).
Proof.
  intros Hf. unfold Encode. case_match; [done|].
  pose proof (getEncoder_eq f k m Hf) as [_ Hok].
  destruct (getEncoder f k m) as [[e|e] f']; simpl in *; [|done]. by case_match.
Qed.

Lemma Reconstruct_fec_ok f k m shards : fec_ok f -> fec_ok (snd (Reconstruct f k m shards)).
Proof.
  intros Hf. unfold Reconstruct. case_match; [done|].
  pose proof (getEncoder_eq f k m Hf) as [_ Hok].
  by destruct (getEncoder f k m) as [[e|e] f'].
Qed.

End FECLemmas.

(** ** One parity count *)

(** The shards [Encode] hands to the library: missing ones empty, all of them padded
    to the longest, to one byte when all are empty. *)
Definition enc_shards (k : nat) (data : list bytes) : list bytes :=
  map (make_copy (Nat.max 1 (max_len data))) (data ++ replicate (k - length data) []).

Lemma enc_shards_eq k data : (length data <= k)%nat ->
  let maxLen := max_len data in
  let maxLen := if (maxLen =? 0)%nat then 1%nat else maxLen in
  map (fun i => make_copy maxLen (default [] (data !! i))) (seq 0 k) = enc_shards k data /\
  maxLen = Nat.max 1 (max_len data).
Proof.
  intros Hk. simpl.
  assert ((if (max_len data =? 0)%nat then 1%nat else max_len data) = Nat.max 1 (max_len data)) as ->
    by (destruct (Nat.eqb_spec (max_len data) 0); lia).
  split; [|done]. unfold enc_shards. apply list_eq. intros i. rewrite !list_lookup_fmap.
  destruct (decide (i < k)%nat) as [Hi|Hi].
  - rewrite lookup_seq_lt by done. simpl. destruct (decide (i < length data)%nat) as [Hd|Hd].
    + rewrite lookup_app_l by done. by destruct (lookup_lt_is_Some_2 data i Hd) as [d ->].
    + rewrite lookup_app_r by lia. rewrite lookup_replicate_2 by lia.
      by rewrite lookup_ge_None_2 by lia.
  - rewrite lookup_seq_ge by lia. rewrite lookup_ge_None_2; [done|].
    rewrite length_app, length_replicate. lia.
Qed.

Lemma length_enc_shards k data : (length data <= k)%nat -> length (enc_shards k data) = k.
Proof. intros H. unfold enc_shards. rewrite length_map, length_app, length_replicate. lia. Qed.

Lemma enc_shards_shape k data : Forall bytes_ok data ->
  Forall (fun d => length d = Nat.max 1 (max_len data) /\ bytes_ok d) (enc_shards k data).
Proof.
  intros Hb. apply Forall_map, Forall_app. split.
  - eapply Forall_impl; [exact Hb|]. intros d Hd. split; [apply length_make_copy|by apply make_copy_ok].
  - apply Forall_replicate. split; [apply length_make_copy|]. apply make_copy_ok. constructor.
Qed.

Section ErasureLemmas.
Context `{!ReedSolomon} {k m : nat} `{!RSErasure k m}.

Lemma getEncoder_new f : fec_ok f ->
  exists e f', getEncoder f (Z.of_nat k) (Z.of_nat m) = (Ok e, f') /\ rs_New (Z.of_nat k) (Z.of_nat m) = Ok e.
Proof.
  intros Hf. destruct rs_new as [e He]. pose proof (getEncoder_eq f (Z.of_nat k) (Z.of_nat m) Hf) as [E _].
  destruct (getEncoder _ _ _) as [r f']. simpl in E. exists e, f'. split; [congruence|done].
Qed.

Lemma Encode_erasure f data :
  fec_ok f -> (1 <= m)%nat -> (length data <= k)%nat -> Forall bytes_ok data ->
  fst (Encode f (Z.of_nat k) (Z.of_nat m) data) = Ok (rs_par (enc_shards k data)).
Proof.
  intros Hf Hm Hk Hb. unfold Encode. go_test. destruct (getEncoder_new f Hf) as (e & f' & -> & He).
  rewrite !Nat2Z.id. destruct (enc_shards_eq k data Hk) as [-> HL].
  pose proof (enc_shards_shape k data Hb) as Hs.
  destruct (rs_par_shape (enc_shards k data) (Nat.max 1 (max_len data))) as [Hlen _];
    [by apply length_enc_shards|done|].
  rewrite HL, (rs_encode e _ _ (Nat.max 1 (max_len data)) He);
    [|by apply length_enc_shards|by rewrite length_replicate|lia|].
  - simpl. by rewrite drop_app_length', take_ge by (rewrite ?length_enc_shards; lia).
  - apply Forall_app. split; [done|]. apply Forall_replicate. rewrite length_replicate. split; [done|].
    apply Forall_replicate. unfold is_u8. lia.
Qed.

Lemma Reconstruct_erasure f data present L :
  fec_ok f -> (1 <= m)%nat -> length data = k -> (0 < L)%nat ->
  Forall (fun d => length d = L /\ bytes_ok d) data ->
  erasure_of present (data ++ rs_par data) -> (k <= present_count present)%nat ->
  fst (Reconstruct f (Z.of_nat k) (Z.of_nat m) present) = Ok (map Some (data ++ rs_par data)).
Proof.
  intros Hf Hm Hk HL Hd Her Hc. unfold Reconstruct. go_test.
  destruct (getEncoder_new f Hf) as (e & f' & -> & He). simpl. by apply (rs_reconstruct e data present L).
Qed.

End ErasureLemmas.

(** ** All parity counts *)

Section RSLemmas.
Context `{!ReedSolomon} {K M : nat} `{!RSCode K M}.

(** The codeword of a block: its padded data shards and [m] parity shards. *)
Definition codeword (data : list bytes) (m : nat) : list bytes :=
  pad_shards data ++ map (rs_parity (pad_shards data)) (seq 0 m).

Lemma length_codeword data m : length (codeword data m) = (length data + m)%nat.
Proof. unfold codeword. by rewrite length_app, length_pad_shards, length_map, length_seq. Qed.

Lemma lookup_codeword_data data m i :
  (i < length data)%nat -> codeword data m !! i = make_copy (max_len data) <$> data !! i.
Proof.
  intros. unfold codeword. rewrite lookup_app_l by (by rewrite length_pad_shards).
  apply lookup_pad_shards.
Qed.

Lemma lookup_codeword_parity data m j :
  (j < m)%nat -> codeword data m !! (length data + j)%nat = Some (rs_parity (pad_shards data) j).
Proof.
  intros Hj. unfold codeword. rewrite lookup_app_r by (rewrite length_pad_shards; lia).
  rewrite length_pad_shards. replace (_ + j - _)%nat with j by lia.
  rewrite list_lookup_fmap, lookup_seq_lt by done. done.
Qed.

Lemma enc_pad_shards data : length data = K -> (0 < max_len data)%nat -> enc_shards K data = pad_shards data.
Proof.
  intros HK HL. unfold enc_shards, pad_shards. rewrite HK, Nat.sub_diag, app_nil_r.
  by replace (Nat.max 1 (max_len data)) with (max_len data) by lia.
Qed.

Lemma Encode_ok f m data :
  fec_ok f -> length data = K -> (1 <= m <= M)%nat ->
  Forall bytes_ok data -> (0 < max_len data)%nat ->
  fst (Encode f (Z.of_nat K) (Z.of_nat m) data) =
  Ok (map (rs_parity (pad_shards data)) (seq 0 m)).
Proof.
  intros Hf HK Hm Hb HL. rewrite (@Encode_erasure _ K m (rs_count m Hm)) by (done || lia).
  by rewrite rs_stable, enc_pad_shards by (rewrite ?enc_pad_shards, ?length_pad_shards; done).
Qed.

Lemma Reconstruct_ok f m data present :
  fec_ok f -> length data = K -> (1 <= m <= M)%nat ->
  Forall bytes_ok data -> (0 < max_len data)%nat ->
  erasure_of present (codeword data m) -> (K <= present_count present)%nat ->
  fst (Reconstruct f (Z.of_nat K) (Z.of_nat m) present) = Ok (map Some (codeword data m)).
Proof.
  intros Hf HK Hm Hb HL Her Hc. unfold codeword in *.
  rewrite <- (rs_stable m Hm) in * by (by rewrite length_pad_shards).
  apply (@Reconstruct_erasure _ K m (rs_count m Hm) f _ present (max_len data)); try done; [lia|..].
  - by rewrite length_pad_shards.
  - apply Forall_and. split; [apply pad_shards_lengths|by apply pad_shards_ok].
Qed.

End RSLemmas.

(** ** The xor code satisfies the contract *)

Module XorLaws.
Import XorCode.

Lemma lxor_u8 a b : is_u8 a -> is_u8 b -> is_u8 (Z.lxor a b).
Proof.
  unfold is_u8. intros Ha Hb.
  assert (0 <= Z.lxor a b) as Hn by (apply Z.lxor_nonneg; lia).
  split; [done|].
  assert (Z.lxor a b = Z.lxor a b mod 2 ^ 8) as ->; [|go_range].
  apply Z.bits_inj'. intros i Hi. destruct (decide (i < 8)).
  - by rewrite Z.mod_pow2_bits_low.
  - rewrite Z.mod_pow2_bits_high, Z.lxor_spec by lia.
    rewrite <- (Z.mod_small a (2 ^ 8)), <- (Z.mod_small b (2 ^ 8)) by lia.
    by rewrite !Z.mod_pow2_bits_high by lia.
Qed.

Lemma xor_bytes_ok a b : bytes_ok a -> bytes_ok b -> bytes_ok (xor_bytes a b).
Proof.
  intros Ha. revert b. induction Ha as [|x a Hx Ha IH]; intros [|y b] Hb; try by constructor.
  apply Forall_cons in Hb as [Hy Hb]. constructor; [by apply lxor_u8|by apply IH].
Qed.

Lemma xor_all_ok L l : Forall bytes_ok l -> bytes_ok (xor_all L l).
Proof.
  induction 1; simpl; [|by apply xor_bytes_ok].
  apply Forall_replicate. unfold is_u8. lia.
Qed.

Lemma length_xor_bytes a b : length a = length b -> length (xor_bytes a b) = length a.
Proof. intros H. unfold xor_bytes. rewrite length_zip_with. lia. Qed.

Lemma length_xor_all L l : Forall (fun d => length d = L) l -> length (xor_all L l) = L.
Proof.
  induction 1 as [|d l Hd Hl IH]; simpl; [by rewrite length_replicate|].
  rewrite length_xor_bytes; lia.
Qed.

Lemma xor_bytes_assoc_comm a b c : xor_bytes a (xor_bytes b c) = xor_bytes b (xor_bytes a c).
Proof.
  revert b c. induction a as [|x a IH]; intros [|y b] [|z c]; try done.
  simpl. rewrite IH. by rewrite <- !Z.lxor_assoc, (Z.lxor_comm x y).
Qed.

Lemma xor_bytes_zero_inv a b L :
  length a = L -> length b = L -> xor_bytes a b = replicate L 0 -> a = b.
Proof.
  revert b L. induction a as [|x a IH]; intros [|y b] [|L] Ha Hb Heq; try done.
  simpl in *. injection Heq as Hxy Heq. apply Z.lxor_eq in Hxy as ->.
  f_equal. eapply IH; [| |done]; lia.
Qed.

Lemma xor_bytes_self a : xor_bytes a a = replicate (length a) 0.
Proof. induction a as [|x a IH]; [done|]. simpl. by rewrite Z.lxor_nilpotent, IH. Qed.

Lemma xor_all_middle L l1 x l2 :
  xor_all L (l1 ++ x :: l2) = xor_bytes x (xor_all L (l1 ++ l2)).
Proof.
  induction l1 as [|y l1 IH]; [done|]. simpl. by rewrite IH, xor_bytes_assoc_comm.
Qed.

Lemma xor_codeword L data :
  Forall (fun d => length d = L) data ->
  xor_all L (data ++ [xor_all L data]) = replicate L 0.
Proof.
  intros H. rewrite xor_all_middle, app_nil_r, xor_bytes_self. by rewrite length_xor_all.
Qed.

Lemma present_count_le present (c : list bytes) :
  erasure_of present c -> (present_count present <= length c)%nat.
Proof. unfold present_count. induction 1 as [|o x p c [->| ->] H IH]; csimpl; lia. Qed.

Lemma erasure_full present c :
  erasure_of present c -> (length c <= present_count present)%nat -> present = map Some c.
Proof.
  unfold present_count. induction 1 as [|o x p c Ho H IH]; [done|]. csimpl. intros Hc.
  pose proof (present_count_le p c H) as Hle. unfold present_count in Hle.
  destruct Ho as [->| ->]; csimpl in *; [lia|]. rewrite IH by lia. done.
Qed.

Lemma erasure_one present c :
  erasure_of present c -> (length c <= S (present_count present))%nat ->
  present = map Some c \/
  exists c1 x c2, c = c1 ++ x :: c2 /\ present = map Some c1 ++ None :: map Some c2.
Proof.
  unfold present_count. induction 1 as [|o x p c Ho H IH]; [by left|]. csimpl. intros Hc.
  destruct Ho as [->| ->]; csimpl in *.
  - right. exists [], x, c. split; [done|]. csimpl. f_equal. apply erasure_full; [done|].
    unfold present_count. lia.
  - destruct IH as [->|(c1 & y & c2 & -> & ->)]; [lia|by left|].
    right. by exists (x :: c1), y, c2.
Qed.

Lemma omap_id_map_Some {A} (l : list A) : omap id (map Some l) = l.
Proof. induction l; [done|]. csimpl. by f_equal. Qed.

Lemma xor_reconstruct L data present :
  data <> [] -> Forall (fun d => length d = L) data ->
  erasure_of present (data ++ [xor_all L data]) ->
  (length data <= present_count present)%nat ->
  map (fun o => Some (default (xor_all (max_len (omap id present)) (omap id present)) o)) present =
  map Some (data ++ [xor_all L data]).
Proof.
  intros Hne Hl Her Hc. apply erasure_one in Her as [->|(c1 & x & c2 & Hcw & ->)].
  - rewrite omap_id_map_Some, map_map. done.
  - assert (Forall (fun d => length d = L) (c1 ++ x :: c2)) as HL.
    { rewrite <- Hcw. apply Forall_app. split; [done|]. constructor; [|done]. by apply length_xor_all. }
    apply Forall_app in HL as [HL1 HL2]. apply Forall_cons in HL2 as [HLx HL2].
    rewrite omap_app. csimpl. rewrite !omap_id_map_Some.
    rewrite (max_len_const (c1 ++ c2) L).
    + rewrite Hcw, !map_app. simpl. rewrite !map_map. do 3 f_equal.
      symmetry. eapply (xor_bytes_zero_inv _ _ L); [done|by apply length_xor_all, Forall_app|].
      rewrite <- xor_all_middle, <- Hcw. by apply xor_codeword.
    + by apply Forall_app.
    + intros E. apply app_eq_nil in E as [-> ->].
      destruct data; [done|]. simpl in Hcw. destruct data; done.
  - rewrite length_app. simpl. lia.
Qed.

Lemma xor_New_ok k m : xor_New (Z.of_nat (S k)) (Z.of_nat m) = Ok (Z.of_nat (S k), Z.of_nat m).
Proof. unfold xor_New. by rewrite (proj2 (Z.leb_gt _ _)), (proj2 (Z.ltb_ge _ _)) by lia. Qed.

#[export] Instance xor_erasure k : RSErasure (S k) 1.
Proof.
  refine {| rs_par data := [xor_all (max_len data) data] |}; simpl rs_New.
  - rewrite xor_New_ok. eauto.
  - intros data L HK Hd. split; [done|]. apply Forall_and in Hd as [Hl Hb].
    rewrite (max_len_const data L) by (done || by destruct data).
    repeat constructor; [by apply length_xor_all|by apply xor_all_ok].
  - intros e data par L. rewrite xor_New_ok. intros [= <-] HK Hp HL _. simpl. unfold xor_Encode.
    cbn [fst snd]. by rewrite !Nat2Z.id, take_app_length' by done.
  - intros e data present L. rewrite xor_New_ok. intros [= <-] HK HL Hd Her Hc.
    apply Forall_and in Hd as [Hl _]. assert (data <> []) as Hne by (by destruct data).
    rewrite (max_len_const data L) in * by done. simpl. unfold xor_Reconstruct. cbn [fst].
    unfold present_count in Hc. rewrite (proj2 (Nat.ltb_ge _ _)) by lia. f_equal.
    apply xor_reconstruct; [done..|]. unfold present_count. lia.
Defined.

#[export] Instance xor_code k : RSCode (S k) 1.
Proof.
  unshelve refine {| rs_parity data j := xor_all (max_len data) data |}.
  - intros [|[|m]] Hm; [exfalso; lia|exact (xor_erasure k)|exfalso; lia].
  - intros [|[|m]] Hm data HK; [exfalso; lia|done|exfalso; lia].
  - intros data _ L Hlen HL. rewrite (max_len_const data L); [by apply length_xor_all|done|].
    by destruct data.
  - intros data _ Hok. by apply xor_all_ok.
  - intros k' m Hk. simpl. unfold xor_New. by rewrite (proj2 (Z.leb_le _ _)).
Defined.

End XorLaws.

(** ** Theorems *)

Section FECTheorems.
Context `{!ReedSolomon}.

(** The encoder cache is transparent: whatever was requested before, a
    request for [k] data and [m] parity shards returns what [reedsolomon.New k m]
    returns, errors included, and leaves a cache with the same guarantee. *)
Theorem getEncoder_transparent f k m :
  fec_ok f -> fst (getEncoder f k m) = rs_New k m /\ fec_ok (snd (getEncoder f k m)).
Proof. apply getEncoder_eq. Qed.

(** Reference: [k] shards, those of [data] and empty ones, filled with zeros to the
    length of the longest and to at least one byte. *)
Definition block_width (data : list bytes) : nat := Nat.max 1 (max_list_with length data).
Definition full_shards (k : nat) (data : list bytes) : list bytes :=
  map (fun d => d ++ replicate (block_width data - length d) 0) (data ++ replicate (k - length data) []).

Lemma max_len_max_list data : max_len data = max_list_with length data.
Proof.
  apply Nat.le_antisymm.
  - destruct (max_len_attained data) as [->|(d & Hd & <-)]; [lia|].
    induction Hd as [d l|d d' l Hd IH]; simpl; lia.
  - generalize (max_len_le data). generalize (max_len data). intros n.
    induction 1; simpl; lia.
Qed.

Lemma enc_full_shards k data : enc_shards k data = full_shards k data.
Proof.
  unfold enc_shards, full_shards, block_width. rewrite max_len_max_list. apply map_ext_in.
  intros d Hd%list_elem_of_In. apply make_copy_ge.
  apply elem_of_app in Hd as [Hd|Hd]; [|apply elem_of_replicate in Hd as [-> _]; simpl; lia].
  pose proof (max_len_le data) as Hl. rewrite Forall_forall in Hl. specialize (Hl d Hd). simpl in Hl.
  rewrite max_len_max_list in Hl. lia.
Qed.

Section RoundTrip.
Context {K m : nat} `{!RSErasure K m}.

(** C34: Encoding and reconstruction.  From up to [K] data shards of any lengths,
    none, empty and absent ones included, [Encode] makes [m] parity shards of the
    common length; if any [K] of the [K + m] shards, the data shards filled up with
    zeros, arrive and the other slots are [nil], [Reconstruct] fills every slot with the
    shard that was there.  The encoders of the two sides may have been cached by any
    earlier calls. *)
Theorem Encode_Reconstruct fs fr data :
  fec_ok fs -> fec_ok fr -> (1 <= m)%nat -> (length data <= K)%nat -> Forall bytes_ok data ->
  exists parity,
    fst (Encode fs (Z.of_nat K) (Z.of_nat m) data) = Ok parity /\
    length parity = m /\ Forall (fun d => length d = block_width data) parity /\
    (forall present,
       erasure_of present (full_shards K data ++ parity) -> (K <= present_count present)%nat ->
       fst (Reconstruct fr (Z.of_nat K) (Z.of_nat m) present) = Ok (map Some (full_shards K data ++ parity))).
Proof.
  intros Hfs Hfr Hm Hk Hb. exists (rs_par (enc_shards K data)). rewrite <- enc_full_shards.
  pose proof (length_enc_shards K data Hk) as HK. pose proof (enc_shards_shape K data Hb) as Hs.
  destruct (rs_par_shape _ _ HK Hs) as [Hlen Hp]. rewrite max_len_max_list in Hp.
  split_and!; [by apply Encode_erasure|done|by eapply Forall_impl; [exact Hp|intros ? []]|].
  intros present Her Hc. eapply Reconstruct_erasure; [done|done|exact HK| |exact Hs|done|done]. lia.
Qed.
End RoundTrip.

Context {K M : nat} `{!RSCode K M}.

(** Adaptive parity: a block encoded with a parity count [m] below the maximum [M]
    is recovered by a receiver that always decodes with [M] parity slots. *)
Lemma Encode_Reconstruct_max fs fr m data parity present :
  fec_ok fs -> fec_ok fr -> length data = K -> (1 <= m <= M)%nat ->
  Forall bytes_ok data -> (0 < max_len data)%nat ->
  fst (Encode fs (Z.of_nat K) (Z.of_nat m) data) = Ok parity ->
  erasure_of (take (K + m) present) (pad_shards data ++ parity) ->
  drop (K + m) present = replicate (M - m) None ->
  (K <= present_count present)%nat ->
  exists rest,
    fst (Reconstruct fr (Z.of_nat K) (Z.of_nat M) present) =
    Ok (map Some (pad_shards data ++ parity ++ rest)).
Proof.
  intros Hfs Hfr HK Hm Hb HL HE Her Hdr Hc.
  rewrite (Encode_ok fs m data) in HE by done. injection HE as <-.
  assert (codeword data M = pad_shards data ++ map (rs_parity (pad_shards data)) (seq 0 m) ++
            map (rs_parity (pad_shards data)) (seq m (M - m))) as Hcw.
  { unfold codeword. rewrite <- map_app. do 2 f_equal.
    rewrite <- seq_app. f_equal. lia. }
  exists (map (rs_parity (pad_shards data)) (seq m (M - m))). rewrite <- Hcw.
  apply Reconstruct_ok; try done; [lia|].
  rewrite Hcw, app_assoc. rewrite <- (take_drop (K + m) present). apply Forall2_app; [done|].
  rewrite Hdr. apply Forall2_same_length_lookup_2.
  - by rewrite length_replicate, length_map, length_seq.
  - intros i o c Ho _. apply lookup_replicate in Ho as [-> _]. by left.
Qed.

End FECTheorems.

Lemma getEncoder_transparent_witness :
  fst (getEncoder (snd (getEncoder (@NewFEC XorCode.xor_rs) 2 1)) 2 1) = Ok (2, 1) /\
  fec_ok (snd (getEncoder (snd (getEncoder (@NewFEC XorCode.xor_rs) 2 1)) 2 1)).
Proof.
  apply (@getEncoder_transparent XorCode.xor_rs).
  apply getEncoder_eq, NewFEC_ok.
Defined.
