(* ===== verification/GF256.v ===== *)
(** * A Reed-Solomon code over the field of 256 elements

    The class [RSCode] of [Fec.v] states what the program relies on of the
    Reed-Solomon library.  This file has a code that satisfies it for every [K >= 1]
    and [K + M <= 256]: shard [i] of a block holds, byte by byte, the value at the
    point [i] of the polynomial of degree below [K] whose values at [0 .. K-1] are the
    data.  That is the code of the systematic Vandermonde matrix; in particular parity
    shard [j] does not depend on how many parity shards are made.

    The field is the bytes with xor and multiplication modulo [x^8+x^4+x^3+x^2+1];
    its laws are proved from the linearity of the multiplication by [x], which is
    checked on all pairs of bytes. *)
From stdpp Require Import base gmap strings list.
From Stdlib Require Import Ring Field.
From S2P Require Import Prelude Fec.
Local Open Scope list_scope.
Local Open Scope Z_scope.

(** ** The field *)

Module GF.

Definition is_byte (z : Z) : bool := (0 <=? z) && (z <? 256).

(** Multiplication by [x]. *)
Definition xtime (a : Z) : Z := if a <? 128 then 2 * a else Z.lxor (2 * a) 285.

(** The sum of the shifts of [a] selected by the bits [n - 1 .. 0] of [b]. *)
Fixpoint mul_bits (n : nat) (a b : Z) : Z :=
  match n with
  | O => 0
  | S n => Z.lxor (if Z.testbit b (Z.of_nat n) then Nat.iter n xtime a else 0) (mul_bits n a b)
  end.

(** ** Bytes *)

Definition all_bytes : list Z := map Z.of_nat (seq 0 256).

Lemma is_byte_spec z : is_byte z = true <-> 0 <= z < 256.
Proof. unfold is_byte. rewrite andb_true_iff, Z.leb_le, Z.ltb_lt. lia. Qed.

Lemma all_bytes_spec z : is_byte z = true -> z ∈ all_bytes.
Proof.
  intros H%is_byte_spec. apply list_elem_of_fmap. exists (Z.to_nat z).
  split; [lia|]. apply elem_of_seq. lia.
Qed.

Lemma check1 (P : Z -> bool) : forallb P all_bytes = true -> forall a, is_byte a = true -> P a = true.
Proof. intros H a Ha. rewrite forallb_forall in H. by apply H, list_elem_of_In, all_bytes_spec. Qed.

Lemma check2 (P : Z -> Z -> bool) : forallb (fun a => forallb (P a) all_bytes) all_bytes = true ->
  forall a b, is_byte a = true -> is_byte b = true -> P a b = true.
Proof. intros H a b Ha. apply (check1 (P a)). exact (check1 _ H a Ha). Qed.

Lemma lxor_byte a b : is_byte a = true -> is_byte b = true -> is_byte (Z.lxor a b) = true.
Proof. rewrite !is_byte_spec. intros Ha Hb. by apply XorLaws.lxor_u8. Qed.

Lemma xtime_byte a : is_byte a = true -> is_byte (xtime a) = true.
Proof. revert a. apply (check1 (fun a => is_byte (xtime a))). vm_compute. reflexivity. Qed.

Lemma xtime_linear a b : is_byte a = true -> is_byte b = true ->
  xtime (Z.lxor a b) = Z.lxor (xtime a) (xtime b).
Proof.
  intros Ha Hb. apply Z.eqb_eq. revert a b Ha Hb.
  apply (check2 (fun a b => xtime (Z.lxor a b) =? Z.lxor (xtime a) (xtime b))). vm_compute. reflexivity.
Qed.

Lemma iter_xtime_byte n a : is_byte a = true -> is_byte (Nat.iter n xtime a) = true.
Proof. intros Ha. induction n; [done|]. by apply xtime_byte. Qed.

Lemma iter_xtime_linear n a b : is_byte a = true -> is_byte b = true ->
  Nat.iter n xtime (Z.lxor a b) = Z.lxor (Nat.iter n xtime a) (Nat.iter n xtime b).
Proof.
  intros Ha Hb. induction n as [|n IH]; [done|]. simpl. rewrite IH. by apply xtime_linear; apply iter_xtime_byte.
Qed.

Lemma lxor_swap a b c d : Z.lxor (Z.lxor a b) (Z.lxor c d) = Z.lxor (Z.lxor a c) (Z.lxor b d).
Proof.
  rewrite !Z.lxor_assoc. f_equal. rewrite <- !Z.lxor_assoc. f_equal. apply Z.lxor_comm.
Qed.

Lemma mul_bits_byte n a b : is_byte a = true -> is_byte (mul_bits n a b) = true.
Proof.
  intros Ha. induction n as [|n IH]; [done|]. apply lxor_byte; [|done].
  destruct (Z.testbit _ _); [by apply iter_xtime_byte|done].
Qed.

Lemma mul_bits_linear_l n a b c : is_byte a = true -> is_byte b = true ->
  mul_bits n (Z.lxor a b) c = Z.lxor (mul_bits n a c) (mul_bits n b c).
Proof.
  intros Ha Hb. induction n as [|n IH]; [done|]. cbn [mul_bits]. rewrite IH, lxor_swap. f_equal.
  destruct (Z.testbit _ _); [by apply iter_xtime_linear|done].
Qed.

Lemma mul_bits_linear_r n a b c :
  mul_bits n a (Z.lxor b c) = Z.lxor (mul_bits n a b) (mul_bits n a c).
Proof.
  induction n as [|n IH]; [done|]. cbn [mul_bits]. rewrite IH, lxor_swap. f_equal.
  rewrite Z.lxor_spec. destruct (Z.testbit b _), (Z.testbit c _); simpl;
    by rewrite ?Z.lxor_nilpotent, ?Z.lxor_0_r, ?Z.lxor_0_l.
Qed.

Lemma mul_bits_0 n c : mul_bits n 0 c = 0.
Proof.
  assert (forall i, Nat.iter i xtime 0 = 0) as H0.
  { induction i as [|i IH]; [done|]. simpl. by rewrite IH. }
  induction n as [|n IH]; [done|]. cbn [mul_bits]. rewrite IH, H0. by destruct (Z.testbit _ _).
Qed.

Lemma mul_bits_xtime n a b : is_byte a = true -> mul_bits n (xtime a) b = xtime (mul_bits n a b).
Proof.
  intros Ha. induction n as [|n IH]; [done|]. cbn [mul_bits]. rewrite IH, xtime_linear.
  - f_equal. destruct (Z.testbit _ _); [|done]. by rewrite <- Nat.iter_swap.
  - destruct (Z.testbit _ _); [by apply iter_xtime_byte|done].
  - by apply mul_bits_byte.
Qed.

Lemma mul_bits_comm a b : is_byte a = true -> is_byte b = true -> mul_bits 8 a b = mul_bits 8 b a.
Proof.
  intros Ha Hb. apply Z.eqb_eq. revert a b Ha Hb.
  apply (check2 (fun a b => mul_bits 8 a b =? mul_bits 8 b a)). vm_compute. reflexivity.
Qed.

Lemma mul_bits_iter n a b i : is_byte a = true ->
  mul_bits n (Nat.iter i xtime a) b = Nat.iter i xtime (mul_bits n a b).
Proof.
  intros Ha. induction i as [|i IH]; [done|]. simpl. rewrite mul_bits_xtime, IH by (by apply iter_xtime_byte). done.
Qed.

(** Multiplying by a fixed byte goes through the sum of shifts. *)
Lemma mul_bits_mul p n a b c : is_byte a = true -> is_byte b = true ->
  mul_bits p (mul_bits n b c) a = mul_bits n (mul_bits p b a) c.
Proof.
  intros Ha Hb. induction n as [|n IH]; [apply mul_bits_0|]. cbn [mul_bits].
  rewrite mul_bits_linear_l.
  - rewrite IH. f_equal. destruct (Z.testbit c _); [by apply mul_bits_iter|apply mul_bits_0].
  - destruct (Z.testbit _ _); [by apply iter_xtime_byte|done].
  - by apply mul_bits_byte.
Qed.

Lemma mul_bits_assoc a b c : is_byte a = true -> is_byte b = true -> is_byte c = true ->
  mul_bits 8 a (mul_bits 8 b c) = mul_bits 8 (mul_bits 8 a b) c.
Proof.
  intros Ha Hb Hc. rewrite mul_bits_comm by (done || by apply mul_bits_byte).
  rewrite mul_bits_mul by done. by rewrite (mul_bits_comm b a).
Qed.

(** The inverse, as the power 254. *)
Definition pow_bits (n : nat) (a : Z) : Z := Nat.iter n (mul_bits 8 a) 1.

Lemma pow_bits_byte n a : is_byte a = true -> is_byte (pow_bits n a) = true.
Proof. intros Ha. destruct n; [done|]. by apply mul_bits_byte. Qed.

Lemma pow_bits_inv a : is_byte a = true -> a <> 0 -> mul_bits 8 (pow_bits 254 a) a = 1.
Proof.
  intros Ha Hne.
  assert ((a =? 0) || (mul_bits 8 (pow_bits 254 a) a =? 1) = true) as H.
  { clear Hne. revert a Ha. apply (check1 (fun a => (a =? 0) || (mul_bits 8 (pow_bits 254 a) a =? 1))). vm_compute. reflexivity. }
  apply orb_true_iff in H as [H|H]; apply Z.eqb_eq in H; done.
Qed.

Lemma mul_bits_1 a : is_byte a = true -> mul_bits 8 1 a = a.
Proof. intros Ha. apply Z.eqb_eq. revert a Ha. apply (check1 (fun a => mul_bits 8 1 a =? a)). vm_compute. reflexivity. Qed.

(** ** The field as a type *)

Record F := mkF { val : Z; val_ok : is_byte val = true }.

Lemma F_eq x y : val x = val y -> x = y.
Proof.
  destruct x as [x Hx], y as [y Hy]. simpl. intros <-. f_equal. apply Eqdep_dec.UIP_dec, bool_dec.
Qed.

Definition of_Z (z : Z) : F :=
  match decide (is_byte z = true) with left H => mkF z H | right _ => mkF 0 eq_refl end.

Lemma val_of_Z z : is_byte z = true -> val (of_Z z) = z.
Proof. intros H. unfold of_Z. by destruct (decide _). Qed.

Lemma of_Z_val x : of_Z (val x) = x.
Proof. apply F_eq, val_of_Z, val_ok. Qed.

Definition f0 : F := mkF 0 eq_refl.
Definition f1 : F := mkF 1 eq_refl.
Definition add (x y : F) : F := mkF (Z.lxor (val x) (val y)) (lxor_byte _ _ (val_ok x) (val_ok y)).
Definition mul (x y : F) : F := mkF (mul_bits 8 (val x) (val y)) (mul_bits_byte 8 _ _ (val_ok x)).
Definition inv (x : F) : F := mkF (pow_bits 254 (val x)) (pow_bits_byte 254 _ (val_ok x)).

(** In characteristic two an element is its own opposite. *)
Definition neg (x : F) : F := x.
Definition sub (x y : F) : F := add x y.

#[local] Opaque mul_bits pow_bits.

Lemma F_field : field_theory f0 f1 add mul sub neg (fun x y => mul x (inv y)) inv eq.
Proof.
  split; [split|..]; intros; try (apply F_eq; cbn [val f0 f1 add mul inv sub neg]).
  - apply Z.lxor_0_l.
  - apply Z.lxor_comm.
  - symmetry. apply Z.lxor_assoc.
  - apply mul_bits_1, val_ok.
  - apply mul_bits_comm; apply val_ok.
  - apply mul_bits_assoc; apply val_ok.
  - apply mul_bits_linear_l; apply val_ok.
  - done.
  - apply Z.lxor_nilpotent.
  - intros [=].
  - done.
  - apply pow_bits_inv; [apply val_ok|]. intros E. apply H. by apply F_eq.
Qed.

Add Field F_field_inst : F_field.

#[export] Instance F_eq_dec : EqDecision F.
Proof.
  refine (fun x y => cast_if (decide (val x = val y))); [by apply F_eq|by intros ->].
Defined.

End GF.

(** ** Polynomials and interpolation *)

Module Interp.
Import GF.
Add Field F_field_interp : F_field.
#[local] Opaque mul add inv sub neg.

Lemma sub_0 x y : sub x y = f0 -> x = y.
Proof. intros H. transitivity (add (sub x y) y); [ring|]. rewrite H. ring. Qed.

Lemma mul_0_inv x y : mul x y = f0 -> x <> f0 -> y = f0.
Proof. intros H Hx. transitivity (mul (inv x) (mul x y)); [by field|]. rewrite H. ring. Qed.

(** The value of a list of coefficients, the constant first. *)
Definition horner (c : list F) (x : F) : F := foldr (fun a v => add a (mul x v)) f0 c.

(** Functions given by a polynomial of degree below [n]. *)
Definition poly (n : nat) (f : F -> F) : Prop := exists c, length c = n /\ forall x, f x = horner c x.

Lemma poly_zero n : poly n (fun _ => f0).
Proof.
  exists (replicate n f0). rewrite length_replicate. split; [done|]. intros x.
  induction n as [|n IH]; [done|]. simpl. rewrite <- IH. ring.
Qed.

Lemma poly_ext n f g : (forall x, f x = g x) -> poly n f -> poly n g.
Proof. intros H (c & Hc & Hf). exists c. split; [done|]. intros x. by rewrite <- H. Qed.

Lemma poly_add n f g : poly n f -> poly n g -> poly n (fun x => add (f x) (g x)).
Proof.
  intros (c & Hc & Hf) (d & Hd & Hg). exists (zip_with add c d). rewrite length_zip_with, Hc, Hd, Nat.min_id.
  split; [done|]. intros x. rewrite Hf, Hg. clear Hf Hg. revert d n Hc Hd.
  induction c as [|a c IH]; intros [|b d] [|n] Hc Hd; try done; simpl in *; [ring|].
  rewrite <- (IH d n) by lia. ring.
Qed.

Lemma poly_scale n a f : poly n f -> poly n (fun x => mul a (f x)).
Proof.
  intros (c & Hc & Hf). exists (map (mul a) c). rewrite length_map. split; [done|]. intros x. rewrite Hf. clear.
  induction c as [|b c IH]; simpl; [ring|]. rewrite <- IH. ring.
Qed.

Lemma poly_sub n f g : poly n f -> poly n g -> poly n (fun x => sub (f x) (g x)).
Proof.
  intros Hf Hg. eapply (poly_ext _ (fun x => add (f x) (mul (neg f1) (g x)))); [intros x; ring|].
  by apply poly_add, poly_scale.
Qed.

(** A polynomial of degree below [n] as one of degree below [n + 1]. *)
Lemma poly_S n f : poly n f -> poly (S n) f.
Proof.
  intros (c & Hc & Hf). exists (c ++ [f0]). rewrite length_app. simpl. split; [lia|]. intros x. rewrite Hf. clear.
  induction c as [|a c IH]; simpl; [ring|]. by rewrite IH.
Qed.

Lemma poly_shift n f : poly n f -> poly (S n) (fun x => mul x (f x)).
Proof.
  intros (c & Hc & Hf). exists (f0 :: c). split; [simpl; lia|]. intros x. simpl. rewrite Hf. ring.
Qed.

Lemma poly_linear n a f : poly n f -> poly (S n) (fun x => mul (sub x a) (f x)).
Proof.
  intros H. eapply (poly_ext _ (fun x => add (mul x (f x)) (mul (neg a) (f x)))); [intros x; ring|].
  apply poly_add; [by apply poly_shift|by apply poly_S, poly_scale].
Qed.

(** Division by [x - a]. *)
Lemma poly_div n f a : poly (S n) f -> exists q, poly n q /\ forall x, f x = add (f a) (mul (sub x a) (q x)).
Proof.
  intros (c & Hc & Hf). revert f n Hc Hf.
  induction c as [|b c IH]; intros f n Hc Hf; [done|]. simpl in Hc.
  destruct n as [|n].
  { destruct c; [|done]. exists (fun _ => f0). split; [apply poly_zero|]. intros x. rewrite !Hf. simpl. ring. }
  destruct (IH (horner c) n) as (q & Hq & E); [lia|done|].
  exists (fun x => add (horner c a) (mul x (q x))). split.
  - apply poly_add; [|by apply poly_shift]. apply poly_ext with (fun x => mul (horner c a) f1); [intros; ring|].
    apply poly_scale. exists (f1 :: replicate n f0). rewrite length_cons, length_replicate. split; [done|].
    intros x. simpl. assert (horner (replicate n f0) x = f0) as ->.
    { clear. induction n as [|n IH]; [done|]. simpl. rewrite IH. ring. }
    ring.
  - intros x. rewrite !Hf. simpl. rewrite (E x). ring.
Qed.

(** A polynomial of degree below [n] with [n] roots is zero. *)
Lemma poly_roots n f xs : poly n f -> length xs = n -> NoDup xs -> (forall a, a ∈ xs -> f a = f0) ->
  forall x, f x = f0.
Proof.
  revert n f. induction xs as [|a xs IH]; intros n f Hp Hn Hnd Hr x; simpl in Hn; subst n.
  { destruct Hp as (c & Hc & ->). by destruct c. }
  apply NoDup_cons in Hnd as [Ha Hnd]. destruct (poly_div _ f a Hp) as (q & Hq & E).
  rewrite E, (Hr a) by constructor. rewrite (IH (length xs) q Hq eq_refl Hnd); [ring|].
  intros b Hb. apply (mul_0_inv (sub b a)).
  - transitivity (add (f a) (mul (sub b a) (q b))); [rewrite (Hr a) by constructor; ring|].
    rewrite <- E. apply Hr. by constructor.
  - intros Heq. apply sub_0 in Heq as ->. done.
Qed.

(** The product of [x - b] over the points, scaled to be [1] at [a]. *)
Definition basis (a : F) (bs : list F) (x : F) : F :=
  foldr (fun b v => mul (mul (sub x b) (inv (sub a b))) v) f1 bs.

Lemma basis_poly a bs : poly (S (length bs)) (basis a bs).
Proof.
  induction bs as [|b bs IH]; simpl.
  - exists [f1]. split; [done|]. intros x. simpl. ring.
  - eapply poly_ext; [|apply (poly_linear _ b), (poly_scale _ (inv (sub a b))), IH]. intros x. simpl. ring.
Qed.

Lemma basis_self a bs : a ∉ bs -> basis a bs a = f1.
Proof.
  induction bs as [|b bs IH]; [done|]. rewrite not_elem_of_cons. intros [Hb Hbs]. simpl. rewrite IH by done.
  field. intros E. by apply sub_0 in E.
Qed.

Lemma basis_other a bs b : b ∈ bs -> basis a bs b = f0.
Proof.
  induction 1 as [b bs|b c bs H IH]; simpl; [|rewrite IH; ring].
  assert (sub b b = f0) as -> by ring. ring.
Qed.

(** Newton's interpolation through a list of points. *)
Fixpoint interp (pts : list (F * F)) (x : F) : F :=
  match pts with
  | [] => f0
  | (a, y) :: pts => add (interp pts x) (mul (sub y (interp pts a)) (basis a pts.*1 x))
  end.

Lemma interp_poly pts : poly (length pts) (interp pts).
Proof.
  induction pts as [|[a y] pts IH]; simpl; [apply poly_zero|].
  apply poly_add; [by apply poly_S|]. apply poly_scale. rewrite <- (length_fmap fst pts). apply basis_poly.
Qed.

Lemma interp_at pts a y : NoDup pts.*1 -> (a, y) ∈ pts -> interp pts a = y.
Proof.
  induction pts as [|[b z] pts IH]; intros Hnd Hin; [by apply elem_of_nil in Hin|].
  simpl in *. apply NoDup_cons in Hnd as [Hb Hnd]. apply elem_of_cons in Hin as [[= <- <-]|Hin].
  - rewrite basis_self by done. ring.
  - rewrite IH by done. rewrite basis_other; [ring|]. apply list_elem_of_fmap. by exists (a, y).
Qed.

(** Any [n] points of a polynomial of degree below [n] determine it. *)
Lemma interp_unique f pts : poly (length pts) f -> NoDup pts.*1 -> (forall a y, (a, y) ∈ pts -> y = f a) ->
  forall x, interp pts x = f x.
Proof.
  intros Hf Hnd Hy x. apply sub_0. revert x.
  apply (poly_roots (length pts) (fun x => sub (interp pts x) (f x)) pts.*1);
    [by apply poly_sub; [apply interp_poly|]|by rewrite length_fmap|done|].
  intros a ([a' y] & -> & Hin)%list_elem_of_fmap. simpl. rewrite (interp_at pts a' y) by done.
  rewrite (Hy _ _ Hin). ring.
Qed.

End Interp.

(** ** The code *)

Module RS.
Import GF Interp.
#[local] Opaque mul add inv sub neg.

Definition point (i : nat) : F := of_Z (Z.of_nat i).
Definition at_col (c : nat) (d : bytes) : F := of_Z (default 0 (d !! c)).

(** The shards that are there, with their slots. *)
Fixpoint present_from (n : nat) (l : list (option bytes)) : list (nat * bytes) :=
  match l with
  | [] => []
  | Some d :: l => (n, d) :: present_from (S n) l
  | None :: l => present_from (S n) l
  end.

Definition col_pts (shards : list (nat * bytes)) (c : nat) : list (F * F) :=
  map (fun '(i, d) => (point i, at_col c d)) shards.

(** Shard [i] of the codeword through the given shards, [L] bytes long. *)
Definition poly_shard (L : nat) (shards : list (nat * bytes)) (i : nat) : bytes :=
  map (fun c => val (interp (col_pts shards c) (point i))) (seq 0 L).

Definition parity (data : list bytes) (j : nat) : bytes :=
  poly_shard (max_len data) (present_from 0 (map Some data)) (length data + j).

Definition gf_New (k m : Z) : result (nat * nat) :=
  if (k <=? 0) || (m <? 0) then Err "cannot create Encoder with less than one data shard or less than zero parity shards"
  else if 256 <? k + m then Err "cannot create Encoder with more than 256 data+parity shards"
  else Ok (Z.to_nat k, Z.to_nat m).

Definition gf_Encode (e : nat * nat) (shards : list bytes) : result (list bytes) :=
  let data := take e.1 shards in
  Ok (data ++ map (parity data) (seq 0 e.2)).

Definition gf_Reconstruct (e : nat * nat) (shards : list (option bytes)) : result (list (option bytes)) :=
  let present := present_from 0 shards in
  if (length present <? e.1)%nat then Err "too few shards given"
  else Ok (imap (fun i o => Some (default (poly_shard (max_len present.*2) (take e.1 present) i) o)) shards).

Definition gf_rs : ReedSolomon :=
  {| Encoder := nat * nat; rs_New := gf_New; rs_Encode := gf_Encode; rs_Reconstruct := gf_Reconstruct |}.

(** ** Slots and points *)

Lemma point_inj i j : (i < 256)%nat -> (j < 256)%nat -> point i = point j -> i = j.
Proof.
  intros Hi Hj H. apply (f_equal val) in H. unfold point in H.
  rewrite !val_of_Z in H by (apply is_byte_spec; lia). lia.
Qed.

Lemma present_from_spec n l i d :
  (i, d) ∈ present_from n l <-> (n <= i)%nat /\ l !! (i - n)%nat = Some (Some d).
Proof.
  revert n. induction l as [|o l IH]; intros n.
  { split; [by intros ?%elem_of_nil|]. by rewrite lookup_nil; intros []. }
  assert ((i, d) ∈ present_from (S n) l <-> (n < i)%nat /\ (o :: l) !! (i - n)%nat = Some (Some d)) as IH'.
  { rewrite IH. destruct (decide (n < i)%nat) as [Hlt|Hge]; [|split; intros []; lia].
    replace (i - n)%nat with (S (i - S n)) by lia. simpl. split; intros [_ ?]; (split; [lia|done]). }
  destruct o as [d'|]; simpl present_from; rewrite ?elem_of_cons, IH'.
  - split.
    + intros [[= -> ->]|[? ?]]; [by rewrite Nat.sub_diag|split; [lia|done]].
    + intros [H1 H2]. destruct (decide (i = n)) as [->|]; [left|right; split; [lia|done]].
      rewrite Nat.sub_diag in H2. simpl in H2. congruence.
  - split; intros [H1 H2]; (split; [|done]); [lia|].
    destruct (decide (i = n)) as [->|]; [|lia]. by rewrite Nat.sub_diag in H2.
Qed.

Lemma present_from_NoDup n l : NoDup (present_from n l).*1.
Proof.
  revert n. induction l as [|[d|] l IH]; intros n; simpl; [constructor| |apply IH].
  constructor; [|apply IH]. intros ([i d'] & Hi & Hin)%list_elem_of_fmap. simpl in Hi. subst i.
  apply present_from_spec in Hin. lia.
Qed.

Lemma length_present_from n l : length (present_from n l) = present_count l.
Proof.
  unfold present_count. revert n. induction l as [|[d|] l IH]; intros n; csimpl; [done| |apply IH]. by rewrite IH.
Qed.

Lemma col_pts_NoDup shards c : NoDup shards.*1 -> (forall i d, (i, d) ∈ shards -> (i < 256)%nat) ->
  NoDup (col_pts shards c).*1.
Proof.
  intros Hnd Hlt. unfold col_pts. change (map ?f ?l) with (f <$> l).
  assert (((fun '(i, d) => (point i, at_col c d)) <$> shards).*1 = point <$> shards.*1) as ->.
  { rewrite <- !list_fmap_compose. apply list_fmap_ext. by intros ? [] _. }
  apply NoDup_fmap_2_strong; [|done]. intros i j Hi Hj. apply point_inj.
  - apply list_elem_of_fmap in Hi as ([i' d] & -> & Hin). by eapply Hlt.
  - apply list_elem_of_fmap in Hj as ([j' d] & -> & Hin). by eapply Hlt.
Qed.

(** ** Codewords *)

Section Codeword.
Context (data : list bytes) (m L : nat).
Context (Hne : data <> []) (Hsize : (length data + m <= 256)%nat).
Context (Hdata : Forall (fun d => length d = L /\ bytes_ok d) data).

Definition cw : list bytes := data ++ map (parity data) (seq 0 m).

(** The polynomial of column [c]. *)
Definition colf (c : nat) : F -> F := interp (col_pts (present_from 0 (map Some data)) c).

Lemma present_all i d : (i, d) ∈ present_from 0 (map Some data) <-> data !! i = Some d.
Proof.
  rewrite present_from_spec, Nat.sub_0_r, list_lookup_fmap. split.
  - intros [_ H]. destruct (data !! i); simpl in H; congruence.
  - intros ->. split; [lia|done].
Qed.

Lemma data_max_len : max_len data = L.
Proof. apply max_len_const; [|done]. by eapply Forall_impl; [exact Hdata|intros ? []]. Qed.

Lemma colf_poly c : poly (length data) (colf c).
Proof.
  unfold colf. pose proof (interp_poly (col_pts (present_from 0 (map Some data)) c)) as H.
  unfold col_pts in H at 1. rewrite length_map, length_present_from in H. unfold present_count in H.
  by rewrite XorLaws.omap_id_map_Some in H.
Qed.

Lemma length_poly_shard n shards i : length (poly_shard n shards i) = n.
Proof. unfold poly_shard. by rewrite length_map, length_seq. Qed.

Lemma poly_shard_ok n shards i : bytes_ok (poly_shard n shards i).
Proof.
  apply Forall_map, Forall_true. intros c. pose proof (val_ok (interp (col_pts shards c) (point i))) as H.
  by apply is_byte_spec in H.
Qed.

(** Every shard of the codeword lies on the polynomials of the columns. *)
Lemma cw_spec i d : cw !! i = Some d ->
  (i < length data + m)%nat /\ length d = L /\ bytes_ok d /\
  forall c, (c < L)%nat -> at_col c d = colf c (point i).
Proof.
  intros Hi. pose proof (lookup_lt_Some _ _ _ Hi) as Hlt. unfold cw in Hi, Hlt.
  rewrite length_app, length_map, length_seq in Hlt. split; [done|].
  apply lookup_app_Some in Hi as [Hi|[Hge Hi]].
  - rewrite Forall_lookup in Hdata. destruct (Hdata i d Hi) as [H1 H2]. split_and!; [done..|].
    intros c Hc. symmetry. apply interp_at.
    + apply col_pts_NoDup; [apply present_from_NoDup|]. intros j d' Hj%present_all%lookup_lt_Some. lia.
    + unfold col_pts. apply list_elem_of_fmap. exists (i, d). split; [done|]. by apply present_all.
  - rewrite list_lookup_fmap in Hi. apply fmap_Some in Hi as (j & Hj & ->).
    apply lookup_seq in Hj as [-> Hj]. unfold parity. rewrite length_poly_shard, data_max_len.
    split_and!; [done|apply poly_shard_ok|]. intros c Hc. unfold at_col, poly_shard.
    rewrite list_lookup_fmap, lookup_seq_lt by done. simpl. rewrite of_Z_val. unfold colf. do 2 f_equal. lia.
Qed.

(** Any [K] shards give every shard back. *)
Lemma poly_shard_cw shards i d : length shards = length data -> NoDup shards.*1 ->
  (forall j e, (j, e) ∈ shards -> cw !! j = Some e) -> cw !! i = Some d ->
  poly_shard L shards i = d.
Proof.
  intros Hlen Hnd Hin Hi. destruct (cw_spec i d Hi) as (Hlt & HL & Hok & Hc).
  apply list_eq_same_length with L; [done|apply length_poly_shard|].
  intros c x y HcL Hx Hy. unfold poly_shard in Hx. rewrite list_lookup_fmap, lookup_seq_lt in Hx by done.
  injection Hx as <-. rewrite (interp_unique (colf c)).
  - rewrite <- Hc by done. unfold at_col. rewrite Hy. simpl. apply val_of_Z, is_byte_spec.
    unfold bytes_ok in Hok. rewrite Forall_lookup in Hok. exact (Hok c y Hy).
  - unfold col_pts. rewrite length_map, Hlen. apply colf_poly.
  - apply col_pts_NoDup; [done|]. intros j e Hj%Hin%cw_spec. lia.
  - intros a v ([j e] & [= -> ->] & Hj)%list_elem_of_fmap. apply Hin in Hj. by apply cw_spec in Hj as (_ & _ & _ & ->).
Qed.

Lemma reconstruct_cw present : erasure_of present cw -> (length data <= present_count present)%nat ->
  gf_Reconstruct (length data, m) present = Ok (map Some cw).
Proof.
  intros Her Hc. unfold gf_Reconstruct. cbn [fst]. rewrite <- (length_present_from 0) in Hc.
  assert (forall j e, (j, e) ∈ present_from 0 present -> cw !! j = Some e) as Hin.
  { intros j e [_ Hj]%present_from_spec. rewrite Nat.sub_0_r in Hj.
    destruct (Forall2_lookup_l _ _ _ _ _ Her Hj) as (c & Hc' & [?|[= ->]]); [done|exact Hc']. }
  rewrite (proj2 (Nat.ltb_ge _ _)) by done. f_equal. rewrite (max_len_const _ L); first last.
  { intros E%fmap_nil_inv. rewrite E in Hc. simpl in Hc. destruct data; [done|simpl in Hc; lia]. }
  { apply Forall_fmap, Forall_forall. intros [j e] Hj%Hin. by apply cw_spec in Hj as (_ & ? & _). }
  apply list_eq_same_length with (length cw);
    [by rewrite length_map|rewrite length_imap; by eapply Forall2_length|].
  intros i x y _. rewrite list_lookup_imap, list_lookup_fmap.
  destruct (cw !! i) as [d|] eqn:Hd; [|done].
  destruct (Forall2_lookup_r _ _ _ _ _ Her Hd) as (o & Ho & Hor). rewrite Ho. simpl. intros [= <-] [= <-].
  f_equal. destruct Hor as [->| ->]; [|done]. simpl. apply poly_shard_cw; [..|exact Hd].
  - rewrite length_take. lia.
  - rewrite fmap_take. eapply sublist_NoDup; [apply present_from_NoDup|apply sublist_take].
  - intros j e (n & Hn & _)%elem_of_take. apply Hin. by eapply list_elem_of_lookup_2.
Qed.

End Codeword.

(** ** The contract *)

Lemma gf_New_ok k m : (1 <= k)%nat -> (k + m <= 256)%nat -> gf_New (Z.of_nat k) (Z.of_nat m) = Ok (k, m).
Proof.
  intros Hk Hm. unfold gf_New. rewrite (proj2 (Z.leb_gt _ _)), !(proj2 (Z.ltb_ge _ _)) by lia. simpl.
  by rewrite !Nat2Z.id.
Qed.

#[local] Existing Instance gf_rs.

Lemma nonempty (data : list bytes) k : length data = k -> (1 <= k)%nat -> data <> [].
Proof. intros <- H ->. simpl in H. lia. Qed.

Definition gf_erasure k m (Hk : (1 <= k)%nat) (Hm : (k + m <= 256)%nat) : RSErasure k m.
Proof.
  refine {| rs_par data := map (parity data) (seq 0 m) |}; simpl rs_New.
  - rewrite gf_New_ok by done. eauto.
  - intros data L HK Hd. rewrite length_map, length_seq. split; [done|]. apply Forall_map, Forall_true.
    intros j. unfold parity. rewrite length_poly_shard. split; [|apply poly_shard_ok].
    eapply data_max_len; [by eapply nonempty|exact Hd].
  - intros e data par L. rewrite gf_New_ok by done. intros [= <-] HK Hp HL _. simpl. unfold gf_Encode. cbn [fst snd]. by rewrite take_app_length' by done.
  - intros e data present L. rewrite gf_New_ok by done. intros [= <-] HK HL Hd Her Hc. simpl. subst k.
    eapply (reconstruct_cw data m L); [by eapply nonempty|done|exact Hd|exact Her|exact Hc].
Defined.

Definition gf_code K M (HK : (1 <= K)%nat) (HM : (K + M <= 256)%nat) : RSCode K M.
Proof.
  unshelve refine {| rs_parity := parity |}.
  - intros m Hm. apply gf_erasure; [exact HK|lia].
  - done.
  - intros data j L Hl Hd. unfold parity. rewrite length_poly_shard. apply max_len_const; [done|].
    by eapply nonempty.
  - intros data j _. apply poly_shard_ok.
  - intros k m Hk. simpl. unfold gf_New. by rewrite (proj2 (Z.leb_le _ _)).
Defined.

End RS.

(** ** Instances *)

Lemma le_3_256 : (3 + 2 <= 256)%nat.
Proof. lia. Qed.
Lemma le_1_3 : (1 <= 3)%nat.
Proof. lia. Qed.

(** Two data shards of different lengths where three are configured, two parity
    shards; both data shards are lost. *)
Lemma Encode_Reconstruct_witness :
  exists p0 p1,
    fst (@Encode RS.gf_rs NewFEC 3 2 [[1; 2; 3]; [4]]) = Ok [p0; p1] /\
    fst (@Reconstruct RS.gf_rs NewFEC 3 2 [None; None; Some [0; 0; 0]; Some p0; Some p1]) =
      Ok [Some [1; 2; 3]; Some [4; 0; 0]; Some [0; 0; 0]; Some p0; Some p1].
Proof.
  destruct (@Encode_Reconstruct RS.gf_rs 3 2 (RS.gf_erasure 3 2 le_1_3 le_3_256) NewFEC NewFEC [[1; 2; 3]; [4]])
    as (parity & HE & Hl & _ & HR);
    [apply NewFEC_ok|apply NewFEC_ok|lia|simpl; lia|go_decide|].
  destruct parity as [|p0 [|p1 [|]]]; [discriminate Hl..| |discriminate Hl].
  exists p0, p1. split; [exact HE|].
  apply (HR [None; None; Some [0; 0; 0]; Some p0; Some p1]); [|reflexivity || (vm_compute; lia)].
  repeat constructor; (left; reflexivity) || (right; reflexivity).
Defined.

(** Parity below the maximum: one parity shard is made, the first of the two that the
    full count would give, and the receiver decodes with two slots for parity. *)
Example adaptive_parity :
  fst (@Encode RS.gf_rs NewFEC 3 2 [[1; 2; 3]; [4]; [7]]) = Ok [[2; 2; 3]; [61; 30; 17]] /\
  fst (@Encode RS.gf_rs NewFEC 3 1 [[1; 2; 3]; [4]; [7]]) = Ok [[2; 2; 3]] /\
  exists rest,
    fst (@Reconstruct RS.gf_rs NewFEC 3 2 [None; Some [4; 0; 0]; Some [7; 0; 0]; Some [2; 2; 3]; None]) =
    Ok (map Some ([[1; 2; 3]; [4; 0; 0]; [7; 0; 0]] ++ [[2; 2; 3]] ++ rest)).
Proof.
  split; [vm_compute; reflexivity|].
  assert (fst (@Encode RS.gf_rs NewFEC 3 1 [[1; 2; 3]; [4]; [7]]) = Ok [[2; 2; 3]]) as HE by (vm_compute; reflexivity).
  split; [exact HE|].
  apply (@Encode_Reconstruct_max RS.gf_rs 3 2 (RS.gf_code 3 2 le_1_3 le_3_256)
    NewFEC NewFEC 1 [[1; 2; 3]; [4]; [7]] [[2; 2; 3]] [None; Some [4; 0; 0]; Some [7; 0; 0]; Some [2; 2; 3]; None]);
    try apply NewFEC_ok; try reflexivity; try exact HE; try lia; [go_decide| |].
  - vm_compute. lia.
  - repeat constructor; (left; reflexivity) || (right; reflexivity).

Qed.
