(* ===== verification/Shaper.v ===== *)
(** * The token-bucket shaper (src/shaper/shaper.go)

    [Shaper] with its queue operations, and the goroutine [Run] as a small-step
    machine: one step per critical section, clock reading, sleep or [sendFn]
    call.  [shaper_step] interleaves [Run] with the callers of the queue
    operations, the clock and the cancellation of the context. *)
From stdpp Require Import base list relations.
From Stdlib Require Import Sorted.
From S2P Require Import Prelude.

(** ** State and operations *)

Record Shaper := mkShaper {
  burstSize : Z;
  burstInterval : Z;
  queue : list bytes;
  stopped : bool;
}.

#[global] Instance Shaper_eq_dec : EqDecision Shaper.
Proof. solve_decision. Defined.

Definition NewShaper (size interval : Z) : Shaper := mkShaper size interval [] false.

Definition UpdateParams (s : Shaper) (size interval : Z) : Shaper :=
  mkShaper size interval (queue s) (stopped s).

Definition set_queue (s : Shaper) (q : list bytes) : Shaper :=
  mkShaper (burstSize s) (burstInterval s) q (stopped s).

Definition Enqueue (s : Shaper) (packet : bytes) : Shaper :=
  if stopped s then s else set_queue s (queue s ++ [packet]).

Definition EnqueueMany (s : Shaper) (packets : list bytes) : Shaper :=
  if stopped s then s else set_queue s (queue s ++ packets).

Definition Stop (s : Shaper) : Shaper :=
  mkShaper (burstSize s) (burstInterval s) (queue s) true.

Definition QueueLen (s : Shaper) : Z := len (queue s).

(** ** The goroutine [Run] *)

(** Where [Run] is between two steps. *)
Inductive RunPC :=
| RTop                                  (** about to test the wait condition *)
| RWait                                 (** blocked in [cond.Wait] *)
| RParams (size interval : Z)           (** parameters read, lock released *)
| RSendAll (pkts : list bytes)          (** no shaping: these are still to be sent *)
| RSleep (size interval until : Z)      (** waiting for [time.After] *)
| RFetch (size interval : Z)            (** about to take a burst *)
| RArm (interval : Z) (pkts : list bytes)  (** burst taken, [nextReset] not yet set *)
| RSend (pkts : list bytes)             (** burst: these are still to be sent *)
| RDone                                 (** returned *)
| RPanic.                               (** [make] with a negative length *)

(** History of one shaped burst: when it was taken from the queue, the interval
    and size in force, and how many packets it holds. *)
Record Burst := mkBurst { b_time : Z; b_interval : Z; b_size : Z; b_count : Z }.

Record Runner := mkRunner {
  r_sh : Shaper;
  r_pc : RunPC;
  r_nextReset : option Z;               (** [None]: the zero [time.Time] *)
  r_woken : bool;                       (** a signal is pending for [cond.Wait] *)
  r_ctxErr : bool;
  r_now : Z;
  r_sent : list bytes;                  (** the calls of [sendFn], in order *)
  r_accepted : list bytes;              (** history: the packets put in the queue *)
  r_bursts : list Burst;                (** history: the shaped bursts, latest first *)
}.

Definition set_sh (r : Runner) (s : Shaper) : Runner :=
  mkRunner s (r_pc r) (r_nextReset r) (r_woken r) (r_ctxErr r) (r_now r) (r_sent r)
           (r_accepted r) (r_bursts r).
Definition goto (r : Runner) (pc : RunPC) : Runner :=
  mkRunner (r_sh r) pc (r_nextReset r) (r_woken r) (r_ctxErr r) (r_now r) (r_sent r)
           (r_accepted r) (r_bursts r).
Definition set_woken (r : Runner) (w : bool) : Runner :=
  mkRunner (r_sh r) (r_pc r) (r_nextReset r) w (r_ctxErr r) (r_now r) (r_sent r)
           (r_accepted r) (r_bursts r).
Definition send (r : Runner) (p : bytes) : Runner :=
  mkRunner (r_sh r) (r_pc r) (r_nextReset r) (r_woken r) (r_ctxErr r) (r_now r)
           (r_sent r ++ [p]) (r_accepted r) (r_bursts r).

(** One step of [Run]; [None] when it is blocked or finished.  [ch] is the
    choice of the [select] when both of its cases are ready. *)
Definition run_step (ch : bool) (r : Runner) : option Runner :=
  let s := r_sh r in
  match r_pc r with
  | RTop =>
      if bool_decide (queue s = []) && negb (stopped s) && negb (r_ctxErr r)
      then Some (goto (set_woken r false) RWait)
      else if stopped s || r_ctxErr r then Some (goto r RDone)
      else Some (goto r (RParams (burstSize s) (burstInterval s)))
  | RWait => if r_woken r then Some (goto (set_woken r false) RTop) else None
  | RParams size interval =>
      if interval <=? 0
      then Some (goto (set_sh r (set_queue s [])) (RSendAll (queue s)))
      else
        match r_nextReset r with
        | Some reset =>
            if r_now r <? reset then Some (goto r (RSleep size interval reset))
            else Some (goto r (RFetch size interval))
        | None => Some (goto r (RFetch size interval))
        end
  | RSendAll pkts =>
      match pkts with
      | [] => Some (goto r RTop)
      | p :: ps => if r_ctxErr r then Some (goto r RDone) else Some (goto (send r p) (RSendAll ps))
      end
  | RSleep size interval until =>
      let fired := until <=? r_now r in
      if r_ctxErr r && (negb fired || ch) then Some (goto r RDone)
      else if fired then Some (goto r (RFetch size interval))
      else None
  | RFetch size interval =>
      let n := len (queue s) in
      let n := if n >? size then size else n in
      if n =? 0 then Some (goto r RTop)
      else if n <? 0 then Some (goto r RPanic)
      else
        let r := mkRunner (r_sh r) (r_pc r) (r_nextReset r) (r_woken r) (r_ctxErr r) (r_now r)
                   (r_sent r) (r_accepted r) (mkBurst (r_now r) interval size n :: r_bursts r) in
        Some (goto (set_sh r (set_queue s (drop (Z.to_nat n) (queue s))))
                   (RArm interval (take (Z.to_nat n) (queue s))))
  | RArm interval pkts =>
      Some (mkRunner s (RSend pkts) (Some (r_now r + interval)) (r_woken r) (r_ctxErr r)
              (r_now r) (r_sent r) (r_accepted r) (r_bursts r))
  | RSend pkts =>
      match pkts with
      | [] => Some (goto r RTop)
      | p :: ps => if r_ctxErr r then Some (goto r RDone) else Some (goto (send r p) (RSend ps))
      end
  | RDone | RPanic => None
  end.

(** [NewShaper], then [go s.Run(ctx, sendFn)]. *)
Definition init_runner (size interval now : Z) : Runner :=
  mkRunner (NewShaper size interval) RTop None false false now [] [] [].

(** The callers: a queue operation takes effect and signals the condition
    variable.  [ps] is what the operation appends if the shaper is running. *)
Definition call_enqueue (r : Runner) (s' : Shaper) (ps : list bytes) : Runner :=
  if stopped (r_sh r) then set_sh r s'
  else mkRunner s' (r_pc r) (r_nextReset r) true (r_ctxErr r) (r_now r) (r_sent r)
         (r_accepted r ++ ps) (r_bursts r).

Inductive shaper_step : Runner -> Runner -> Prop :=
| ss_run ch r r' : run_step ch r = Some r' -> shaper_step r r'
| ss_tick r d :
    0 < d ->
    shaper_step r (mkRunner (r_sh r) (r_pc r) (r_nextReset r) (r_woken r) (r_ctxErr r)
                     (r_now r + d) (r_sent r) (r_accepted r) (r_bursts r))
| ss_enqueue r p : shaper_step r (call_enqueue r (Enqueue (r_sh r) p) [p])
| ss_enqueue_many r ps : shaper_step r (call_enqueue r (EnqueueMany (r_sh r) ps) ps)
| ss_update r size interval : shaper_step r (set_sh r (UpdateParams (r_sh r) size interval))
| ss_stop r : shaper_step r (set_woken (set_sh r (Stop (r_sh r))) true)
| ss_cancel r :
    shaper_step r (mkRunner (r_sh r) (r_pc r) (r_nextReset r) (r_woken r) true (r_now r)
                     (r_sent r) (r_accepted r) (r_bursts r)).

Definition reachable_from (size interval now : Z) (r : Runner) : Prop :=
  rtc shaper_step (init_runner size interval now) r.

(** An executable driver for concrete schedules. *)
Inductive ShEvent :=
| EvRun | EvTick (d : positive) | EvEnqueue (p : bytes) | EvEnqueueMany (ps : list bytes)
| EvUpdate (size interval : Z) | EvStop.

Definition sh_exec1 (e : ShEvent) (r : Runner) : option Runner :=
  match e with
  | EvRun => run_step false r
  | EvTick d => Some (mkRunner (r_sh r) (r_pc r) (r_nextReset r) (r_woken r) (r_ctxErr r)
                        (r_now r + Zpos d) (r_sent r) (r_accepted r) (r_bursts r))
  | EvEnqueue p => Some (call_enqueue r (Enqueue (r_sh r) p) [p])
  | EvEnqueueMany ps => Some (call_enqueue r (EnqueueMany (r_sh r) ps) ps)
  | EvUpdate size interval => Some (set_sh r (UpdateParams (r_sh r) size interval))
  | EvStop => Some (set_woken (set_sh r (Stop (r_sh r))) true)
  end.

Fixpoint sh_exec (es : list ShEvent) (r : Runner) : option Runner :=
  match es with
  | [] => Some r
  | e :: es' => r' ← sh_exec1 e r; sh_exec es' r'
  end.

(** ** Specifications *)

(** The packets [Run] has taken from the queue and not sent yet. *)
Definition in_flight (pc : RunPC) : list bytes :=
  match pc with
  | RSendAll pkts | RArm _ pkts | RSend pkts => pkts
  | _ => []
  end.

Definition running (pc : RunPC) : bool :=
  match pc with RDone | RPanic => false | _ => true end.

(** Every accepted packet is sent, in flight or queued, in order of acceptance;
    after [Run] has returned, what it had in flight may be lost. *)
Definition fifo_inv (r : Runner) : Prop :=
  exists lost, r_accepted r = r_sent r ++ lost ++ queue (r_sh r) /\
    (running (r_pc r) = true -> lost = in_flight (r_pc r)).

(** No lost wake-up: while [Run] sleeps on the condition variable with no signal
    pending, there is nothing for it to do. *)
Definition wait_inv (r : Runner) : Prop :=
  r_pc r = RWait -> r_woken r = false -> queue (r_sh r) = [] /\ stopped (r_sh r) = false.

(** [b2] follows [b1] and respects its interval. *)
Definition paced (b2 b1 : Burst) : Prop := b_time b1 + b_interval b1 <= b_time b2.

Definition burst_ok (b : Burst) : Prop :=
  0 < b_interval b /\ 0 < b_count b /\ b_count b <= b_size b.

(** [nextReset] covers the latest burst; a goroutine about to take a burst has
    waited for it. *)
Definition gate_inv (r : Runner) : Prop :=
  match r_pc r with
  | RArm interval _ =>
      match r_bursts r with
      | [] => False
      | b :: _ => b_interval b = interval /\ b_time b <= r_now r
      end
  | pc =>
      (forall b bs, r_bursts r = b :: bs ->
         exists reset, r_nextReset r = Some reset /\ b_time b + b_interval b <= reset) /\
      match pc with
      | RFetch _ interval =>
          0 < interval /\ (forall reset, r_nextReset r = Some reset -> reset <= r_now r)
      | RSleep _ interval until => 0 < interval /\ r_nextReset r = Some until
      | _ => True
      end
  end.

Definition pace_inv (r : Runner) : Prop :=
  Sorted paced (r_bursts r) /\ Forall burst_ok (r_bursts r) /\ gate_inv r.

(** ** Lemmas *)

Lemma sh_exec_sound es r r' : sh_exec es r = Some r' -> rtc shaper_step r r'.
Proof.
  revert r. induction es as [|e es IH]; intros r H; simpl in H; simplify_eq; [done|].
  destruct (sh_exec1 e r) as [r1|] eqn:E; simpl in H; [|done].
  eapply rtc_l; [|by apply IH].
  destruct e; simpl in E; simplify_eq; try by constructor.
  by eapply ss_run.
Qed.

(** Enumerate the steps of [Run] from the equation [Hr]. *)
Ltac run_cases r Hr :=
  destruct r as [s pc nr w ce now sent acc bs]; unfold run_step in Hr; simpl in *;
  destruct pc; simpl in *;
  repeat match type of Hr with context [match ?x with _ => _ end] => destruct x eqn:? end;
  simplify_eq/=.

Lemma fifo_init size interval now : fifo_inv (init_runner size interval now).
Proof. by exists []. Qed.

Lemma fifo_step r r' : shaper_step r r' -> fifo_inv r -> fifo_inv r'.
Proof.
  intros Hs (lost & Ha & Hl). unfold fifo_inv. destruct Hs as [ch r r' Hr|r d Hd|r p|r ps|r sz iv|r|r].
  - run_cases r Hr;
      try (rewrite Hl by done); try (by exists []);
      try (eexists; split; [|by intros]; simpl; by rewrite ?app_nil_r, <- ?app_assoc);
      try (exists lost; split; [done|by intros]).
    all: try (exists (l :: l0); split; [done|discriminate]).
    all: eexists; split; [|done]; simpl; by rewrite take_drop.
  - exists lost. done.
  - unfold call_enqueue, Enqueue. destruct (stopped (r_sh r)) eqn:E; simpl.
    + by exists lost.
    + exists lost. split; [|done]. rewrite Ha. by rewrite <- !app_assoc.
  - unfold call_enqueue, EnqueueMany. destruct (stopped (r_sh r)) eqn:E; simpl.
    + by exists lost.
    + exists lost. split; [|done]. rewrite Ha. by rewrite <- !app_assoc.
  - by exists lost.
  - by exists lost.
  - by exists lost.
Qed.

Lemma wait_step r r' : shaper_step r r' -> wait_inv r -> wait_inv r'.
Proof.
  intros Hs Hw. unfold wait_inv in *. destruct Hs as [ch r r' Hr|r d Hd|r p|r ps|r sz iv|r|r]; try done.
  - run_cases r Hr; try done.
    intros _ _. go_bool. by case_bool_decide.
  - unfold call_enqueue, Enqueue. destruct (stopped (r_sh r)) eqn:E; simpl; [|done].
    intros Hp Hk. by destruct (Hw Hp Hk) as [-> ?].
  - unfold call_enqueue, EnqueueMany. destruct (stopped (r_sh r)) eqn:E; simpl; [|done].
    intros Hp Hk. by destruct (Hw Hp Hk) as [-> ?].
Qed.

(** A burst taken after [nextReset] extends the history. *)
Lemma paced_cons b bs nr now :
  Sorted paced bs -> b_time b = now ->
  (forall b' bs', bs = b' :: bs' ->
     exists reset, nr = Some reset /\ b_time b' + b_interval b' <= reset) ->
  (forall reset, nr = Some reset -> reset <= now) ->
  Sorted paced (b :: bs).
Proof.
  intros Hs Hb Hg Hr. constructor; [done|]. destruct bs as [|b' bs]; [constructor|].
  constructor. unfold paced. destruct (Hg b' bs eq_refl) as (reset & Hn & Hle).
  specialize (Hr reset Hn). lia.
Qed.

Lemma pace_init size interval now : pace_inv (init_runner size interval now).
Proof. by repeat split. Qed.

Lemma pace_step r r' : shaper_step r r' -> pace_inv r -> pace_inv r'.
Proof.
  intros Hs (Hp & Hb & Hg). unfold pace_inv, gate_inv in *.
  destruct Hs as [ch r r' Hr|r d Hd|r p|r ps|r sz iv|r|r].
  - run_cases r Hr; go_split; go_bool; try done; try (eapply H; done); try lia.
    all: try (intros ? [= <-]; lia).
    all: try (by eapply paced_cons).
    all: try (constructor; [unfold burst_ok; simpl; lia|done]).
    { intros reset Hn. simplify_eq. lia. }
    destruct bs as [|b bs]; [done|]. intros b' bs' [= <- <-]. eexists. split; [done|]. lia.
  - destruct r as [s pc nr w ce now sent acc bs]; simpl in *.
    destruct pc; go_split; try done.
    + intros reset Hn. specialize (H1 reset Hn). lia.
    + destruct bs; [done|]. go_split; [done|lia].
  - unfold call_enqueue. by destruct (stopped (r_sh r)).
  - unfold call_enqueue. by destruct (stopped (r_sh r)).
  - done.
  - done.
  - done.
Qed.

(** Lift a step-preserved predicate to every reachable state. *)
Lemma reachable_ind (P : Runner -> Prop) size interval now r :
  P (init_runner size interval now) ->
  (forall r r', shaper_step r r' -> P r -> P r') ->
  reachable_from size interval now r -> P r.
Proof.
  intros Hi Hstep Hr. unfold reachable_from in Hr.
  remember (init_runner size interval now) as r0 eqn:E. clear E.
  induction Hr as [|r0 r1 r2 Hs _ IH]; [done|]. apply IH. by eapply Hstep.
Qed.

(** Bursts at distance [k] in the history are at least [k] intervals apart. *)
Lemma paced_distance bs I k b1 b0 :
  Sorted paced bs -> Forall (fun b => I <= b_interval b) bs ->
  bs !! 0%nat = Some b1 -> bs !! k = Some b0 -> b_time b0 + Z.of_nat k * I <= b_time b1.
Proof.
  intros Hs HI. revert k b1 b0. induction Hs as [|b bs Hs IH Hhd]; intros k b1 b0 H1 H0; [done|].
  simpl in H1. simplify_eq. apply Forall_cons in HI as [HI1 HI].
  destruct k as [|k]; simpl in H0; simplify_eq; [lia|].
  destruct bs as [|b' bs]; [done|]. specialize (IH HI k b' b0 eq_refl H0).
  apply HdRel_inv in Hhd. unfold paced in Hhd. apply Forall_cons in HI as [HI' _]. lia.
Qed.

(** ** Theorems *)

(** C35: [Run] is a FIFO over the queue operations: in every interleaving, the
    packets accepted by [Enqueue] and [EnqueueMany] are, in order, those already
    passed to [sendFn], those taken for the current burst, and those queued;
    none is lost, duplicated or reordered until [Run] has returned. *)
Theorem shaper_fifo size interval now r :
  reachable_from size interval now r -> running (r_pc r) = true ->
  r_accepted r = r_sent r ++ in_flight (r_pc r) ++ queue (r_sh r).
Proof.
  intros Hr Hrun.
  destruct (reachable_ind fifo_inv _ _ _ _ (fifo_init size interval now) fifo_step Hr)
    as (lost & Ha & Hl).
  by rewrite Ha, (Hl Hrun).
Qed.

(** Three packets through a shaper with bursts of two every 100 ns. *)
Lemma shaper_fifo_witness :
  exists r, reachable_from 2 100 0 r /\ r_pc r = RSend [[8]] /\ r_sent r = [[7]] /\
    r_accepted r = r_sent r ++ in_flight (r_pc r) ++ queue (r_sh r).
Proof.
  eexists. split; [|split; [|split]].
  - eapply (sh_exec_sound [EvEnqueueMany [[7]; [8]; [9]]; EvRun; EvRun; EvRun; EvRun; EvRun]).
    reflexivity.
  - reflexivity.
  - reflexivity.
  - apply (shaper_fifo 2 100 0).
    + eapply (sh_exec_sound [EvEnqueueMany [[7]; [8]; [9]]; EvRun; EvRun; EvRun; EvRun; EvRun]).
      reflexivity.
    + reflexivity.
Defined.

(** C36: Pacing: a shaped burst holds at most [burstSize] packets, and if every
    burst of the history was taken with an interval of at least [I], the [k]-th
    burst after a given one starts at least [k * I] later. *)
Theorem shaper_pacing size interval now r I k b1 b0 :
  reachable_from size interval now r ->
  Forall (fun b => I <= b_interval b) (r_bursts r) ->
  r_bursts r !! 0%nat = Some b1 -> r_bursts r !! k = Some b0 ->
  b_time b0 + Z.of_nat k * I <= b_time b1 /\ 0 < b_count b1 <= b_size b1.
Proof.
  intros Hr HI H1 H0.
  destruct (reachable_ind pace_inv _ _ _ _ (pace_init size interval now) pace_step Hr)
    as (Hp & Hb & _).
  split; [by eapply paced_distance|].
  pose proof (Forall_lookup_1 _ _ _ _ Hb H1) as (_ & H2 & H3). lia.
Qed.

Definition pacing_schedule : list ShEvent :=
  [EvEnqueueMany [[7]; [8]; [9]]; EvRun; EvRun; EvRun; EvRun; EvRun; EvRun; EvRun; EvRun; EvRun;
   EvTick 100; EvRun; EvRun].

Definition pacing_state : Runner :=
  Eval vm_compute in default (init_runner 2 100 0) (sh_exec pacing_schedule (init_runner 2 100 0)).

Lemma pacing_state_reachable : reachable_from 2 100 0 pacing_state.
Proof. apply (sh_exec_sound pacing_schedule). vm_compute. reflexivity. Qed.

Lemma shaper_pacing_witness :
  0 + Z.of_nat 1 * 100 <= 100 /\ 0 < 1 <= 2.
Proof.
  apply (shaper_pacing 2 100 0 pacing_state 100 1 (mkBurst 100 100 2 1) (mkBurst 0 100 2 2)).
  - apply pacing_state_reachable.
  - apply Forall_cons_2; [simpl; lia|]. apply Forall_cons_2; [simpl; lia|]. apply Forall_nil_2.
  - reflexivity.
  - reflexivity.
Defined.

(** C37: No lost wake-up: whenever [Run] is blocked on its condition variable with
    no signal pending, the queue is empty and the shaper is not stopped; so a
    queued packet or a [Stop] always leaves [Run] able to take a step. *)
Theorem shaper_no_lost_wakeup size interval now r :
  reachable_from size interval now r -> r_pc r = RWait ->
  queue (r_sh r) <> [] \/ stopped (r_sh r) = true ->
  exists r', run_step true r = Some r'.
Proof.
  intros Hr Hpc Hq.
  assert (wait_inv r) as Hw.
  { eapply (reachable_ind wait_inv); [done|apply wait_step|done]. }
  unfold run_step. rewrite Hpc. destruct (r_woken r) eqn:E; [eauto|].
  destruct (Hw Hpc E) as [Hq1 Hq2]. destruct Hq; congruence.
Qed.

Lemma shaper_no_lost_wakeup_witness :
  exists r, reachable_from 2 100 0 r /\ r_pc r = RWait /\
    exists r', run_step true r = Some r'.
Proof.
  eexists. split; [|split].
  - eapply (sh_exec_sound [EvRun; EvEnqueue [7]]). reflexivity.
  - reflexivity.
  - eapply (shaper_no_lost_wakeup 2 100 0).
    + eapply (sh_exec_sound [EvRun; EvEnqueue [7]]). reflexivity.
    + reflexivity.
    + left. discriminate.
Defined.
