(* ===== verification/Duration.v ===== *)
(** * Durations computed in floating point (src/proxy/session.go)

    [NewSession] and [updateShaperParams] compute the burst interval and the LQR
    timeout with [float64] arithmetic.  The definitions follow the source
    operation by operation on IEEE-754 binary64 values ([SpecFloat] of the
    standard library, round to nearest even), with Go's truncating conversion
    back to [int64] nanoseconds. *)
From Stdlib Require Import SpecFloat.
From S2P Require Import Prelude.

Definition f64 := spec_float.
Definition f64_of_int (z : Z) : f64 := binary_normalize 53 1024 z 0 false.
Definition f64_mul (x y : f64) : f64 := SFmul 53 1024 x y.
Definition f64_div (x y : f64) : f64 := SFdiv 53 1024 x y.

(** [int64] wrap-around. *)
Definition i64 (x : Z) : Z := (x + 9223372036854775808) mod 18446744073709551616 - 9223372036854775808.

(** [int64(x)]: truncation toward zero; values that do not fit give the minimal
    [int64], as the amd64 conversion instruction does. *)
Definition f64_to_int (x : f64) : Z :=
  match x with
  | S754_zero _ => 0
  | S754_finite s m e =>
      let a := if 0 <=? e then Zpos m * 2 ^ e else Zpos m / 2 ^ (- e) in
      let v := if s then - a else a in
      if (-9223372036854775808 <=? v) && (v <=? 9223372036854775807) then v
      else -9223372036854775808
  | S754_infinity _ | S754_nan => -9223372036854775808
  end.

Definition Millisecond : Z := 1000000.
Definition Second : Z := 1000000000.

(** [time.Duration(float64(n)*float64(mtu)*8/float64(bandwidth)*1000) * time.Millisecond]
    when the bandwidth is positive, [0] otherwise. *)
Definition burst_interval (n mtu bandwidth : Z) : Z :=
  if bandwidth >? 0 then
    let bits := f64_mul (f64_mul (f64_of_int n) (f64_of_int mtu)) (f64_of_int 8) in
    let ms := f64_mul (f64_div bits (f64_of_int bandwidth)) (f64_of_int 1000) in
    i64 (f64_to_int ms * Millisecond)
  else 0.

(** The LQR timeout of [NewSession]. *)
Definition lqr_timeout (k m mtu bandwidth : Z) : Z :=
  if bandwidth >? 0 then
    let pktBits := f64_of_int (mtu * 8) in
    let blockSec := f64_div (f64_mul (f64_of_int (k + m)) pktBits) (f64_of_int bandwidth) in
    let d := i64 (i64 (f64_to_int (f64_mul blockSec (f64_of_int 1000)) * Millisecond)
                  + 50 * Millisecond) in
    if d <? 50 * Millisecond then 50 * Millisecond else d
  else 50 * Millisecond.

(** The LQR timeout never falls below its 50 ms margin, for any link
    parameters, overflow and rounding included. *)
Theorem lqr_timeout_min k m mtu bandwidth : 50 * Millisecond <= lqr_timeout k m mtu bandwidth.
Proof.
  unfold lqr_timeout. case_match; [|lia]. cbv zeta. case_match; go_bool; lia.
Qed.
