(* ===== verification/Session.v ===== *)
(** * Sessions: state and sender side (src/proxy/session.go)

    The [Session] struct, grouped as its comments group it (configuration,
    sender state, receiver state, statistics), its constructor and life cycle,
    and the operations of the sending direction: the TCP read loop, block
    encoding, link-quality reports and retransmission requests.  A method is a
    [GoM] computation over the session; a critical section of the source is one
    computation.  The receiving direction is in SessionRecv. *)
From stdpp Require Import base gmap strings list pretty.
From S2P Require Import Prelude Protocol Fec Shaper Duration.
Local Open Scope string_scope.
Local Open Scope list_scope.
Local Open Scope Z_scope.
Local Open Scope go_scope.

(** ** Constants *)

Definition BlockFlushTimeout : Z := 50 * Millisecond.
Definition MaxSeqNum : Z := 255.

(** ** Blocks *)

Record TxBlock := mkTxBlock {
  tb_GroupID : Z;
  tb_M : Z;
  tb_LQRRecved : bool;
}.

(** [rb_LQRTimer] says whether the pointer is non-nil. *)
Record RxBlock := mkRxBlock {
  rb_GroupID : Z;
  rb_K : Z;
  rb_M : Z;
  rb_Packets : list (option bytes);
  rb_SeqNums : list Z;
  rb_ReceivedCnt : Z;
  rb_LQRTimer : bool;
  rb_LQRReported : bool;
  rb_Decoded : bool;
}.

(** ** The session *)

Record Config := mkConfig {
  c_StreamID : Z;
  c_PEPAddr : string;
  c_RemoteAddr : option string;         (** [Conn.RemoteAddr()], [None] for nil *)
  c_IsServer : bool;
  c_LinkMTU : Z;
  c_Bandwidth : Z;
  c_FEC_K : Z;
  c_FEC_M : Z;
  c_LQRTimeoutDur : Z;
  c_NAKDelayDur : Z;
}.

(** [blockTimer] says whether the pointer is non-nil. *)
Record SendState := mkSend {
  curM : Z;
  nextGroupID : Z;
  nextSeqNum : Z;
  pendingData : list bytes;
  blockTimer : bool;
  txBlocks : gmap Z TxBlock;
  harqCache : gmap Z Packet;
  consecutiveOk : Z;
  sendClosed : bool;
  closeSent : bool;
  closeRecv : bool;
}.

Record RecvState := mkRecv {
  nextWriteGrp : Z;
  rxBlocks : gmap Z RxBlock;
  recvClosed : bool;
  maxRecvGrp : Z;
  hasRecv : bool;
}.

Record Stats := mkStats {
  lastActive : Z;
  txBytes : Z;
  rxBytes : Z;
  txPackets : Z;
  rxPackets : Z;
  losses : Z;
  txRetransmissions : Z;
}.

(** ** Assignments to one field *)

Definition set_curM (v : Z) (x : SendState) : SendState :=
  mkSend v (nextGroupID x) (nextSeqNum x) (pendingData x) (blockTimer x) (txBlocks x) (harqCache x) (consecutiveOk x) (sendClosed x) (closeSent x) (closeRecv x).
Definition set_nextGroupID (v : Z) (x : SendState) : SendState :=
  mkSend (curM x) v (nextSeqNum x) (pendingData x) (blockTimer x) (txBlocks x) (harqCache x) (consecutiveOk x) (sendClosed x) (closeSent x) (closeRecv x).
Definition set_nextSeqNum (v : Z) (x : SendState) : SendState :=
  mkSend (curM x) (nextGroupID x) v (pendingData x) (blockTimer x) (txBlocks x) (harqCache x) (consecutiveOk x) (sendClosed x) (closeSent x) (closeRecv x).
Definition set_pendingData (v : list bytes) (x : SendState) : SendState :=
  mkSend (curM x) (nextGroupID x) (nextSeqNum x) v (blockTimer x) (txBlocks x) (harqCache x) (consecutiveOk x) (sendClosed x) (closeSent x) (closeRecv x).
Definition set_blockTimer (v : bool) (x : SendState) : SendState :=
  mkSend (curM x) (nextGroupID x) (nextSeqNum x) (pendingData x) v (txBlocks x) (harqCache x) (consecutiveOk x) (sendClosed x) (closeSent x) (closeRecv x).
Definition set_txBlocks (v : gmap Z TxBlock) (x : SendState) : SendState :=
  mkSend (curM x) (nextGroupID x) (nextSeqNum x) (pendingData x) (blockTimer x) v (harqCache x) (consecutiveOk x) (sendClosed x) (closeSent x) (closeRecv x).
Definition set_harqCache (v : gmap Z Packet) (x : SendState) : SendState :=
  mkSend (curM x) (nextGroupID x) (nextSeqNum x) (pendingData x) (blockTimer x) (txBlocks x) v (consecutiveOk x) (sendClosed x) (closeSent x) (closeRecv x).
Definition set_consecutiveOk (v : Z) (x : SendState) : SendState :=
  mkSend (curM x) (nextGroupID x) (nextSeqNum x) (pendingData x) (blockTimer x) (txBlocks x) (harqCache x) v (sendClosed x) (closeSent x) (closeRecv x).
Definition set_sendClosed (v : bool) (x : SendState) : SendState :=
  mkSend (curM x) (nextGroupID x) (nextSeqNum x) (pendingData x) (blockTimer x) (txBlocks x) (harqCache x) (consecutiveOk x) v (closeSent x) (closeRecv x).
Definition set_closeSent (v : bool) (x : SendState) : SendState :=
  mkSend (curM x) (nextGroupID x) (nextSeqNum x) (pendingData x) (blockTimer x) (txBlocks x) (harqCache x) (consecutiveOk x) (sendClosed x) v (closeRecv x).
Definition set_closeRecv (v : bool) (x : SendState) : SendState :=
  mkSend (curM x) (nextGroupID x) (nextSeqNum x) (pendingData x) (blockTimer x) (txBlocks x) (harqCache x) (consecutiveOk x) (sendClosed x) (closeSent x) v.
Definition set_nextWriteGrp (v : Z) (x : RecvState) : RecvState :=
  mkRecv v (rxBlocks x) (recvClosed x) (maxRecvGrp x) (hasRecv x).
Definition set_rxBlocks (v : gmap Z RxBlock) (x : RecvState) : RecvState :=
  mkRecv (nextWriteGrp x) v (recvClosed x) (maxRecvGrp x) (hasRecv x).
Definition set_recvClosed (v : bool) (x : RecvState) : RecvState :=
  mkRecv (nextWriteGrp x) (rxBlocks x) v (maxRecvGrp x) (hasRecv x).
Definition set_maxRecvGrp (v : Z) (x : RecvState) : RecvState :=
  mkRecv (nextWriteGrp x) (rxBlocks x) (recvClosed x) v (hasRecv x).
Definition set_hasRecv (v : bool) (x : RecvState) : RecvState :=
  mkRecv (nextWriteGrp x) (rxBlocks x) (recvClosed x) (maxRecvGrp x) v.
Definition set_lastActive (v : Z) (x : Stats) : Stats :=
  mkStats v (txBytes x) (rxBytes x) (txPackets x) (rxPackets x) (losses x) (txRetransmissions x).
Definition set_txBytes (v : Z) (x : Stats) : Stats :=
  mkStats (lastActive x) v (rxBytes x) (txPackets x) (rxPackets x) (losses x) (txRetransmissions x).
Definition set_rxBytes (v : Z) (x : Stats) : Stats :=
  mkStats (lastActive x) (txBytes x) v (txPackets x) (rxPackets x) (losses x) (txRetransmissions x).
Definition set_txPackets (v : Z) (x : Stats) : Stats :=
  mkStats (lastActive x) (txBytes x) (rxBytes x) v (rxPackets x) (losses x) (txRetransmissions x).
Definition set_rxPackets (v : Z) (x : Stats) : Stats :=
  mkStats (lastActive x) (txBytes x) (rxBytes x) (txPackets x) v (losses x) (txRetransmissions x).
Definition set_losses (v : Z) (x : Stats) : Stats :=
  mkStats (lastActive x) (txBytes x) (rxBytes x) (txPackets x) (rxPackets x) v (txRetransmissions x).
Definition set_txRetransmissions (v : Z) (x : Stats) : Stats :=
  mkStats (lastActive x) (txBytes x) (rxBytes x) (txPackets x) (rxPackets x) (losses x) v.
Definition set_tb_LQRRecved (v : bool) (x : TxBlock) : TxBlock :=
  mkTxBlock (tb_GroupID x) (tb_M x) v.
Definition set_rb_M (v : Z) (x : RxBlock) : RxBlock :=
  mkRxBlock (rb_GroupID x) (rb_K x) v (rb_Packets x) (rb_SeqNums x) (rb_ReceivedCnt x) (rb_LQRTimer x) (rb_LQRReported x) (rb_Decoded x).
Definition set_rb_Packets (v : list (option bytes)) (x : RxBlock) : RxBlock :=
  mkRxBlock (rb_GroupID x) (rb_K x) (rb_M x) v (rb_SeqNums x) (rb_ReceivedCnt x) (rb_LQRTimer x) (rb_LQRReported x) (rb_Decoded x).
Definition set_rb_ReceivedCnt (v : Z) (x : RxBlock) : RxBlock :=
  mkRxBlock (rb_GroupID x) (rb_K x) (rb_M x) (rb_Packets x) (rb_SeqNums x) v (rb_LQRTimer x) (rb_LQRReported x) (rb_Decoded x).
Definition set_rb_LQRTimer (v : bool) (x : RxBlock) : RxBlock :=
  mkRxBlock (rb_GroupID x) (rb_K x) (rb_M x) (rb_Packets x) (rb_SeqNums x) (rb_ReceivedCnt x) v (rb_LQRReported x) (rb_Decoded x).
Definition set_rb_LQRReported (v : bool) (x : RxBlock) : RxBlock :=
  mkRxBlock (rb_GroupID x) (rb_K x) (rb_M x) (rb_Packets x) (rb_SeqNums x) (rb_ReceivedCnt x) (rb_LQRTimer x) v (rb_Decoded x).
Definition set_rb_Decoded (v : bool) (x : RxBlock) : RxBlock :=
  mkRxBlock (rb_GroupID x) (rb_K x) (rb_M x) (rb_Packets x) (rb_SeqNums x) (rb_ReceivedCnt x) (rb_LQRTimer x) (rb_LQRReported x) v.

(** What a method does to the outside: a datagram to [PEPAddr], the TCP
    connection, timers, the writer's condition variable. *)
Inductive Timer := TBlock | TLqr (grpID : Z) | TNak (grpID : Z).

Inductive Effect :=
| EUdp (data : bytes)
| EAfterFunc (d : Z) (t : Timer)
| EStopTimer (t : Timer)
| EBroadcast
| ETcpWrite (data : bytes)
| ETcpCloseWrite
| ETcpClose.

#[global] Instance Timer_eq_dec : EqDecision Timer.
Proof. solve_decision. Defined.
#[global] Instance Effect_eq_dec : EqDecision Effect.
Proof. solve_decision. Defined.

Section Session.
Context `{!ReedSolomon}.

Record Session := mkSession {
  s_cfg : Config;
  s_tx : SendState;
  s_rx : RecvState;
  s_st : Stats;
  s_Shaper : Shaper;
  s_FEC : FEC;
  s_done : bool;                        (** the context is cancelled *)
}.

Abbreviation SessM := (GoM Session Effect).

Definition with_tx (s : Session) (tx : SendState) : Session :=
  mkSession (s_cfg s) tx (s_rx s) (s_st s) (s_Shaper s) (s_FEC s) (s_done s).
Definition with_rx (s : Session) (rx : RecvState) : Session :=
  mkSession (s_cfg s) (s_tx s) rx (s_st s) (s_Shaper s) (s_FEC s) (s_done s).
Definition with_st (s : Session) (st : Stats) : Session :=
  mkSession (s_cfg s) (s_tx s) (s_rx s) st (s_Shaper s) (s_FEC s) (s_done s).
Definition with_shaper (s : Session) (sh : Shaper) : Session :=
  mkSession (s_cfg s) (s_tx s) (s_rx s) (s_st s) sh (s_FEC s) (s_done s).
Definition with_fec (s : Session) (f : FEC) : Session :=
  mkSession (s_cfg s) (s_tx s) (s_rx s) (s_st s) (s_Shaper s) f (s_done s).
Definition with_done (s : Session) : Session :=
  mkSession (s_cfg s) (s_tx s) (s_rx s) (s_st s) (s_Shaper s) (s_FEC s) true.

Definition mod_tx (f : SendState -> SendState) : SessM unit :=
  go_modify (fun s => with_tx s (f (s_tx s))).
Definition mod_rx (f : RecvState -> RecvState) : SessM unit :=
  go_modify (fun s => with_rx s (f (s_rx s))).
Definition mod_st (f : Stats -> Stats) : SessM unit :=
  go_modify (fun s => with_st s (f (s_st s))).
Definition mod_shaper (f : Shaper -> Shaper) : SessM unit :=
  go_modify (fun s => with_shaper s (f (s_Shaper s))).
Definition set_fec (f : FEC) : SessM unit := go_modify (fun s => with_fec s f).

(** ** Construction *)

Definition NewSession (now streamID : Z) (remote : option string) (pepAddr : string)
    (isServer : bool) (mtu bandwidth k m : Z) : Session :=
  mkSession
    (mkConfig streamID pepAddr remote isServer mtu bandwidth k m
       (lqr_timeout k m mtu bandwidth) (50 * Millisecond))
    (mkSend m 0 0 [] false ∅ ∅ 0 false false false)
    (mkRecv 0 ∅ false 0 false)
    (mkStats now 0 0 0 0 0 0)
    (NewShaper (k + m) (burst_interval (k + m) mtu bandwidth))
    NewFEC false.

(** [&RxBlock{...}] with the sequence numbers of the block filled in from
    [first]; [None] when [make] panics on a negative length. *)
Definition new_RxBlock (grpID k m first : Z) : option RxBlock :=
  if (k + m <? 0) || (k <? 0) then None
  else Some (mkRxBlock grpID k m (replicate (Z.to_nat (k + m)) None)
               (map (fun i => u8 ((first + Z.of_nat i) mod 256)) (seq 0 (Z.to_nat k)))
               0 false false false).

(** [Start], less the three [go] statements: the first receive block. *)
Definition Start : SessM unit :=
  let! s := go_get in
  let cfg := s_cfg s in
  if bool_decide (rxBlocks (s_rx s) = ∅) then
    let! rb := go_opt (new_RxBlock 0 (c_FEC_K cfg) (c_FEC_M cfg) 0) in
    do! go_emit (EAfterFunc (c_LQRTimeoutDur cfg) (TLqr 0)) in
    mod_rx (fun rx => set_rxBlocks (<[0 := set_rb_LQRTimer true rb]> (rxBlocks rx)) rx)
  else go_ret tt.

(** ** Life cycle and statistics *)

(** The calls in their order, as one step: the two locks are held for one statement
    each, and each statement sets or signals something that no other operation undoes. *)
Definition Close : SessM unit :=
  do! go_modify with_done in
  do! mod_shaper Stop in
  do! go_emit ETcpClose in
  let! s := go_get in
  do! (if blockTimer (s_tx s) then go_emit (EStopTimer TBlock) else go_ret tt) in
  go_emit EBroadcast.

Definition IsClosed (s : Session) : bool := s_done s.

Definition updateLastActive (now : Z) : SessM unit := mod_st (set_lastActive now).

Definition GetLastActive (s : Session) : Z := lastActive (s_st s).

Definition RecordRx (n : Z) : SessM unit :=
  mod_st (fun st => set_rxBytes (u64 (rxBytes st + n)) (set_rxPackets (u64 (rxPackets st + 1)) st)).

Definition sendRawUDP (now : Z) (data : bytes) : SessM unit :=
  do! updateLastActive now in
  do! mod_st (fun st => set_txBytes (u64 (txBytes st + len data))
                          (set_txPackets (u64 (txPackets st + 1)) st)) in
  go_emit (EUdp data).

Definition sendPacketDirect (now : Z) (p : Packet) : SessM unit :=
  match Marshal p with
  | Err _ => go_ret tt
  | Ok buf => sendRawUDP now buf
  end.

Definition updateShaperParams : SessM unit :=
  let! s := go_get in
  let n := c_FEC_K (s_cfg s) + curM (s_tx s) in
  mod_shaper (fun sh =>
    UpdateParams sh n (burst_interval n (c_LinkMTU (s_cfg s)) (c_Bandwidth (s_cfg s)))).

(** ** Flushing a block *)

(** [&protocol.Packet{Type: TypeData, ...}] of the two loops. *)
Definition data_packet (streamID seqNum grpID i : Z) (payload : bytes) : Packet :=
  mkPacket TypeData streamID "" seqNum grpID (u8 i) false (Some payload) 0.
Definition parity_packet (streamID grpID i : Z) (payload : bytes) : Packet :=
  mkPacket TypeData streamID "" 0 grpID (u8 i) true (Some payload) 0.

(** [append] of a marshalled packet, skipped on a marshalling error. *)
Definition append_marshal (pkts : list bytes) (p : Packet) : list bytes :=
  match Marshal p with Ok buf => pkts ++ [buf] | Err _ => pkts end.

(** The loop over the data shards: [nextSeqNum], [harqCache], [packetsToSend]. *)
Definition data_loop (streamID grpID : Z) (pending : list bytes) (k : nat)
    (st : Z * gmap Z Packet * list bytes) : option (Z * gmap Z Packet * list bytes) :=
  foldl (fun acc i =>
    '(seq, cache, pkts) ← acc;
    payload ← pending !! i;
    let pkt := data_packet streamID seq grpID (Z.of_nat i) payload in
    Some (u8 (seq + 1), <[seq := pkt]> cache, append_marshal pkts pkt))
    (Some st) (seq 0 k).

(** The loop over the parity shards. *)
Definition parity_loop (streamID grpID k : Z) (parity : list bytes) (m : nat)
    (pkts : list bytes) : option (list bytes) :=
  foldl (fun acc j =>
    pkts ← acc;
    payload ← parity !! j;
    Some (append_marshal pkts (parity_packet streamID grpID (k + Z.of_nat j) payload)))
    (Some pkts) (seq 0 m).

(** The entries the clean-up loop deletes. *)
Definition stale_tx (grpID id : Z) : bool :=
  let diff := u16 (grpID - id) in (diff >? 100) && (diff <? 60000).

Definition flushPendingBlockLocked : SessM unit :=
  let! s := go_get in
  let cfg := s_cfg s in
  let tx := s_tx s in
  if bool_decide (pendingData tx = []) then go_ret tt
  else
    let k := c_FEC_K cfg in
    let pending := pendingData tx ++ replicate (Z.to_nat (k - len (pendingData tx))) [0; 0] in
    let m := curM tx in
    let grpID := nextGroupID tx in
    do! mod_tx (fun tx => set_nextGroupID (u16 (grpID + 1)) (set_pendingData pending tx)) in
    let (res, fec) := Encode (s_FEC s) k m pending in
    do! set_fec fec in
    match res with
    | Err _ => mod_tx (set_pendingData [])
    | Ok parityShards =>
        let! st := go_opt (data_loop (c_StreamID cfg) grpID pending (Z.to_nat k)
                             (nextSeqNum tx, harqCache tx, [])) in
        let '(seq', cache', dataPkts) := st in
        let! packetsToSend :=
          go_opt (parity_loop (c_StreamID cfg) grpID k parityShards (Z.to_nat m) dataPkts) in
        do! mod_tx (fun tx =>
          set_txBlocks (<[grpID := mkTxBlock grpID m false]>
                          (filter (fun e => stale_tx grpID (fst e) = false) (txBlocks tx)))
            (set_harqCache cache' (set_nextSeqNum seq' tx))) in
        do! mod_shaper (fun sh => EnqueueMany sh packetsToSend) in
        mod_tx (set_pendingData [])
    end.

(** The callback of [blockTimer]. *)
Definition flushPendingBlock : SessM unit := flushPendingBlockLocked.

(** ** The TCP read loop *)

(** What [Conn.Read] returned beside the data. *)
Inductive ReadErr := ReadNil | ReadEOF | ReadOther.

Definition readTCP_maxPayload (cfg : Config) : Z :=
  let maxPayload := c_LinkMTU cfg - 36 in
  if maxPayload <=? 0 then 512 else maxPayload.

(** The part of the loop body under [if n > 0]. *)
Definition readTCP_data (now : Z) (data : bytes) : SessM unit :=
  do! updateLastActive now in
  let pktPayload := PutUint16 (u16 (len data)) ++ data in
  do! mod_tx (fun tx => set_pendingData (pendingData tx ++ [pktPayload]) tx) in
  let! s := go_get in
  do! (if len (pendingData (s_tx s)) =? 1 then
         do! go_emit (EAfterFunc BlockFlushTimeout TBlock) in
         mod_tx (set_blockTimer true)
       else go_ret tt) in
  if len (pendingData (s_tx s)) >=? c_FEC_K (s_cfg s) then
    let! s := go_get in
    do! (if blockTimer (s_tx s) then
           do! go_emit (EStopTimer TBlock) in
           mod_tx (set_blockTimer false)
         else go_ret tt) in
    flushPendingBlockLocked
  else go_ret tt.

(** The part under [if err != nil]; [false] when the loop returns. *)
Definition readTCP_err (now : Z) (err : ReadErr) : SessM bool :=
  let! s := go_get in
  match err with
  | ReadNil => go_ret true
  | ReadEOF => go_ret false
  | ReadOther =>
      do! go_for (seq 0 5) (fun _ =>
        sendPacketDirect now (base_packet TypeReset (c_StreamID (s_cfg s)))) in
      do! Close in
      go_ret false
  end.

(** One result of [Conn.Read]. *)
Definition readTCP_result (now : Z) (data : bytes) (err : ReadErr) : SessM bool :=
  do! (if len data >? 0 then readTCP_data now data else go_ret tt) in
  readTCP_err now err.

(** Where the goroutine is: at the top of the loop, in the back-pressure loop, in
    [Conn.Read], in the deferred function (start, draining the shaper, waiting for reports since
    [start]), or returned, with or without having spawned the CLOSE goroutine. *)
Inductive ReaderPC :=
| RdTop | RdBackoff | RdRead | RdDefer | RdDrain | RdAckWait (start : Z) | RdReturned (closing : bool).

Definition all_acked (tx : SendState) : bool :=
  bool_decide (map_Forall (fun _ b => tb_LQRRecved b = true) (txBlocks tx)).

(** One step of [readTCPRun]; [data] and [err] are what a pending [Conn.Read]
    returns, [ch] the choice of a [select] whose two cases are ready.  A step that
    only waits leaves the program counter unchanged. *)
Definition reader_step (now : Z) (ch : bool) (data : bytes) (err : ReadErr) (pc : ReaderPC)
    : SessM ReaderPC :=
  let! s := go_get in
  match pc with
  | RdTop =>
      if s_done s then go_ret RdDefer else go_ret RdBackoff
  | RdBackoff =>
      if QueueLen (s_Shaper s) >? 10 then
        if s_done s && ch then go_ret RdDefer else go_ret RdBackoff
      else go_ret RdRead
  | RdRead =>
      let! continue := readTCP_result now data err in
      go_ret (if continue : bool then RdTop else RdDefer)
  | RdDefer =>
      do! mod_tx (set_sendClosed true) in
      if s_done s then go_ret (RdReturned false)
      else
        do! (if len (pendingData (s_tx s)) >? 0 then flushPendingBlockLocked else go_ret tt) in
        go_ret RdDrain
  | RdDrain =>
      if QueueLen (s_Shaper s) >? 0 then
        if s_done s && ch then go_ret (RdReturned false) else go_ret RdDrain
      else go_ret (RdAckWait now)
  | RdAckWait start =>
      if now - start <? 3 * Second then
        if all_acked (s_tx s) then go_ret (RdReturned true)
        else if s_done s && ch then go_ret (RdReturned false)
        else go_ret (RdAckWait start)
      else go_ret (RdReturned true)
  | RdReturned b => go_ret (RdReturned b)
  end.

(** ** The CLOSE goroutine *)

Inductive CloserPC := ClFirst | ClSent | ClTick | ClReturned.

(** [ch]: the [select] of the ticker loop takes the case of the context. *)
Definition closer_step (now : Z) (ch : bool) (pc : CloserPC) : SessM CloserPC :=
  let! s := go_get in
  let closePkt := base_packet TypeClose (c_StreamID (s_cfg s)) in
  match pc with
  | ClFirst => do! sendPacketDirect now closePkt in go_ret ClSent
  | ClSent =>
      do! mod_tx (set_closeSent true) in
      if closeRecv (s_tx s) then do! Close in go_ret ClReturned
      else go_ret ClTick
  | ClTick =>
      if s_done s && ch then go_ret ClReturned
      else if closeRecv (s_tx s) then go_ret ClReturned
      else do! sendPacketDirect now closePkt in go_ret ClTick
  | ClReturned => go_ret ClReturned
  end.

(** ** Feedback from the receiver *)

(** Link-quality report: adapts the parity count of the next blocks. *)
Definition HandleLQR (now : Z) (p : Packet) : SessM unit :=
  do! updateLastActive now in
  let! s := go_get in
  match txBlocks (s_tx s) !! p_GroupID p with
  | None => go_ret tt
  | Some block =>
      if tb_LQRRecved block then go_ret tt
      else
        do! mod_tx (fun tx =>
          set_txBlocks (<[p_GroupID p := set_tb_LQRRecved true block]> (txBlocks tx)) tx) in
        do! mod_st (set_losses (p_Losses p)) in
        do! (if p_Losses p =? 0 then
               do! mod_tx (fun tx => set_consecutiveOk (consecutiveOk tx + 1) tx) in
               let! s := go_get in
               if consecutiveOk (s_tx s) >=? 5 then
                 do! (if curM (s_tx s) >? 0 then
                        do! mod_tx (fun tx => set_curM (curM tx - 1) tx) in
                        updateShaperParams
                      else go_ret tt) in
                 mod_tx (set_consecutiveOk 0)
               else go_ret tt
             else
               do! mod_tx (set_consecutiveOk 0) in
               let newM := p_Losses p + 1 in
               let newM := if newM >? c_FEC_M (s_cfg s) then c_FEC_M (s_cfg s) else newM in
               if curM (s_tx s) <? newM then
                 do! mod_tx (set_curM newM) in
                 updateShaperParams
               else go_ret tt) in
        mod_tx (fun tx => set_txBlocks (delete (p_GroupID p) (txBlocks tx)) tx)
  end.

Definition HandleNak (now : Z) (p : Packet) : SessM unit :=
  do! updateLastActive now in
  let! s := go_get in
  match harqCache (s_tx s) !! p_SeqNum p with
  | Some cachedPkt =>
      match Marshal cachedPkt with
      | Ok buf =>
          do! mod_shaper (fun sh => Enqueue sh buf) in
          mod_st (fun st => set_txRetransmissions (u64 (txRetransmissions st + 1)) st)
      | Err _ => go_ret tt
      end
  | None => go_ret tt
  end.

Definition HandleClose : SessM unit :=
  do! mod_tx (set_closeRecv true) in
  let! s := go_get in
  let bothClosed := closeSent (s_tx s) && closeRecv (s_tx s) in
  do! go_emit EBroadcast in
  if bothClosed then Close else go_ret tt.

(** [Close] in closed form. *)
Lemma Close_eq (s : Session) :
  Close s = Some (tt, with_shaper (with_done s) (Stop (s_Shaper s)),
    ETcpClose :: (if blockTimer (s_tx s) then [EStopTimer TBlock] else []) ++ [EBroadcast]).
Proof. unfold Close, go_bind. simpl. by destruct (blockTimer (s_tx s)). Qed.

End Session.
