(* ===== verification/SessionRecv.v ===== *)
(** * Sessions: receiver side (src/proxy/session.go)

    Incoming DATA packets, block decoding, the LQR timeout with its NAK loop, and
    the TCP write loop as a step machine. *)
From stdpp Require Import base gmap strings list pretty.
From S2P Require Import Prelude Protocol Fec Shaper Duration Session.
Local Open Scope string_scope.
Local Open Scope list_scope.
Local Open Scope Z_scope.
Local Open Scope go_scope.

Section SessionRecv.
Context `{!ReedSolomon}.
Abbreviation SessM := (GoM Session Effect).

(** ** Decoding *)

(** [len(p) > maxLen] over the received shards. *)
Definition max_shard_len (packets : list (option bytes)) : nat :=
  foldl (fun m o => match o with
                    | Some p => if (m <? length p)%nat then length p else m
                    | None => m
                    end) 0%nat packets.

(** The shards handed to [Reconstruct]: received ones padded to [maxLen]. *)
Definition padded_shards (maxLen : nat) (packets : list (option bytes)) : list (option bytes) :=
  map (fmap (fun p => if (length p <? maxLen)%nat then make_copy maxLen p else p)) packets.

(** [rxBlock.Packets[i] = shards[i]] for the missing data shards. *)
Definition copy_back (k : nat) (packets shards : list (option bytes)) : list (option bytes) :=
  imap (fun i o => if (i <? k)%nat then
                     match o with Some p => Some p | None => mjoin (shards !! i) end
                   else o) packets.

(** [tryDecodeBlock]; the block is returned, for the caller to store back. *)
Definition tryDecodeBlock (rxBlock : RxBlock) : SessM RxBlock :=
  let k := Z.to_nat (rb_K rxBlock) in
  let packets := rb_Packets rxBlock in
  if (length packets <? k)%nat then go_panic
  else
    let dataOk := len (omap id (take k packets)) in
    if dataOk =? rb_K rxBlock then
      do! go_emit EBroadcast in
      go_ret (set_rb_Decoded true rxBlock)
    else
      let maxLen := max_shard_len packets in
      if (maxLen =? 0)%nat then go_ret rxBlock
      else
        let m := len packets - rb_K rxBlock in
        let! s := go_get in
        let (res, fec) := Reconstruct (s_FEC s) (rb_K rxBlock) m (padded_shards maxLen packets) in
        do! set_fec fec in
        match res with
        | Err _ => go_ret rxBlock
        | Ok shards =>
            do! go_emit EBroadcast in
            go_ret (set_rb_Decoded true (set_rb_Packets (copy_back k packets shards) rxBlock))
        end.

(** ** DATA packets *)

(** The slot of index [i], growing the slice when it is too short. *)
Definition grow_block (i : nat) (rxBlock : RxBlock) : RxBlock :=
  let packets := rb_Packets rxBlock in
  if (length packets <=? i)%nat then
    set_rb_M (Z.of_nat i + 1 - rb_K rxBlock)
      (set_rb_Packets (packets ++ replicate (i + 1 - length packets) None) rxBlock)
  else rxBlock.

Definition store_shard (i : nat) (payload : option bytes) (rxBlock : RxBlock) : RxBlock :=
  match mjoin (rb_Packets rxBlock !! i) with
  | None => set_rb_ReceivedCnt (rb_ReceivedCnt rxBlock + 1)
              (set_rb_Packets (<[i := payload]> (rb_Packets rxBlock)) rxBlock)
  | Some _ => rxBlock
  end.

(** [diff := a - b; diff > 0 && diff < 32768] on [uint16]. *)
Definition seq_after (a b : Z) : bool :=
  let diff := u16 (a - b) in (diff >? 0) && (diff <? 32768).

Definition put_block (grpID : Z) (rxBlock : RxBlock) : SessM unit :=
  mod_rx (fun rx => set_rxBlocks (<[grpID := rxBlock]> (rxBlocks rx)) rx).

(** The block of group [grpID], created on its first packet. *)
Definition get_or_create_block (grpID : Z) : SessM RxBlock :=
  let! s := go_get in
  let cfg := s_cfg s in
  match rxBlocks (s_rx s) !! grpID with
  | Some rb => go_ret rb
  | None =>
      let firstSeq := (grpID * c_FEC_K cfg) mod 256 in
      let! rb := go_opt (new_RxBlock grpID (c_FEC_K cfg) (c_FEC_M cfg) firstSeq) in
      let rb := set_rb_LQRTimer true rb in
      do! put_block grpID rb in
      do! go_emit (EAfterFunc (c_LQRTimeoutDur cfg) (TLqr grpID)) in
      go_ret rb
  end.

(** The end of [HandleDataPacket]: decoding once [K] shards are there. *)
Definition decode_if_ready (grpID : Z) (rb : RxBlock) : SessM unit :=
  if (rb_ReceivedCnt rb >=? rb_K rb) && negb (rb_Decoded rb) then
    let! rb := tryDecodeBlock rb in
    put_block grpID rb
  else go_ret tt.

(** The second half of [HandleDataPacket]: from the lookup of the block on. *)
Definition insert_shard (grpID : Z) (i : nat) (payload : option bytes) : SessM unit :=
  let! rb := get_or_create_block grpID in
  let rb := store_shard i payload (grow_block i rb) in
  do! put_block grpID rb in
  decode_if_ready grpID rb.

(** [maxRecvGrp] and [hasRecv] for a packet of group [grpID]. *)
Definition note_group (grpID : Z) (rx : RecvState) : RecvState :=
  if negb (hasRecv rx) then set_hasRecv true (set_maxRecvGrp grpID rx)
  else if seq_after grpID (maxRecvGrp rx) then set_maxRecvGrp grpID rx
  else rx.

Definition HandleDataPacket (now : Z) (p : Packet) : SessM unit :=
  do! updateLastActive now in
  let! s := go_get in
  if recvClosed (s_rx s) then go_ret tt
  else
    let grpID := p_GroupID p in
    do! mod_rx (note_group grpID) in
    if seq_after (nextWriteGrp (s_rx s)) grpID then go_ret tt
    else insert_shard grpID (Z.to_nat (p_Idx p)) (p_Payload p).

(** ** The LQR timeout and the NAK loop *)

(** [maxIdx]: the last slot that is filled, [-1] when none is. *)
Definition max_index (packets : list (option bytes)) : Z :=
  foldl (fun acc '(i, o) => match o with Some _ => Z.of_nat i | None => acc end) (-1)
        (imap pair packets).

Definition block_losses (rb : RxBlock) : Z :=
  let maxIdx := max_index (rb_Packets rb) in
  let expectedTotal := if maxIdx >=? rb_K rb then maxIdx + 1 else rb_K rb in
  let losses := expectedTotal - rb_ReceivedCnt rb in
  let losses := if losses <? 0 then 0 else losses in
  if losses >? 255 then 255 else losses.

Definition lqr_packet (streamID grpID losses : Z) : Packet :=
  mkPacket TypeLqr streamID "" 0 grpID 0 false None losses.
Definition nak_packet (streamID seqNum : Z) : Packet :=
  mkPacket TypeNak streamID "" seqNum 0 0 false None 0.

Definition handleLQRTimeout (now grpID : Z) : SessM unit :=
  let! s := go_get in
  match rxBlocks (s_rx s) !! grpID with
  | None => go_ret tt
  | Some rb =>
      if rb_LQRReported rb then go_ret tt
      else
        do! put_block grpID (set_rb_LQRReported true rb) in
        do! sendPacketDirect now (lqr_packet (c_StreamID (s_cfg s)) grpID (u8 (block_losses rb))) in
        go_emit (EAfterFunc (c_NAKDelayDur (s_cfg s)) (TNak grpID))
  end.

(** Where the NAK goroutine is: at its start, looking at data shard [i], about to
    schedule its next run, or returned.  The lock is released around each send, so
    the packets of the block may change between two shards. *)
Inductive NakPC := NkStart | NkScan (i : nat) | NkRearm | NkReturned.

(** One step of [sendNakPeriodic].  A block that has left the map during the scan
    was decoded and written: its data slots are filled and nothing is left to
    request. *)
Definition nak_step (now grpID : Z) (pc : NakPC) : SessM NakPC :=
  let! s := go_get in
  match pc with
  | NkStart =>
      if s_done s then go_ret NkReturned
      else
        match rxBlocks (s_rx s) !! grpID with
        | None => go_ret NkReturned
        | Some rb =>
            if rb_Decoded rb then go_ret NkReturned
            else if rb_ReceivedCnt rb <? rb_K rb then go_ret (NkScan 0)
            else go_ret NkRearm
        end
  | NkScan i =>
      match rxBlocks (s_rx s) !! grpID with
      | None => go_ret NkRearm
      | Some rb =>
          if Z.of_nat i <? rb_K rb then
            let! slot := go_opt (rb_Packets rb !! i) in
            match slot with
            | Some _ => go_ret (NkScan (S i))
            | None =>
                let! seqNum := go_opt (rb_SeqNums rb !! i) in
                do! sendPacketDirect now (nak_packet (c_StreamID (s_cfg s)) seqNum) in
                go_ret (NkScan (S i))
            end
          else go_ret NkRearm
      end
  | NkRearm =>
      do! go_emit (EAfterFunc (c_NAKDelayDur (s_cfg s)) (TNak grpID)) in
      go_ret NkReturned
  | NkReturned => go_ret NkReturned
  end.

(** The whole callback, when nothing interferes: [fuel] steps of [nak_step]. *)
Fixpoint nak_run (fuel : nat) (now grpID : Z) (pc : NakPC) : SessM NakPC :=
  match fuel with
  | O => go_ret pc
  | S fuel => let! pc := nak_step now grpID pc in nak_run fuel now grpID pc
  end.

(** ** The TCP write loop *)

(** The bytes of a shard that go to the TCP connection: [None] when nothing is
    written. *)
Definition shard_data (payload : bytes) : option bytes :=
  match payload with
  | b0 :: b1 :: rest =>
      let dataLen := Uint16 b0 b1 in
      if (dataLen >? 0) && (2 + dataLen <=? len payload)
      then Some (take (Z.to_nat dataLen) rest)
      else None
  | _ => None
  end.

(** Where the goroutine is: testing the condition, blocked in [writeCond.Wait],
    writing data shard [i], cleaning up the block (stopping its timer, reporting
    it outside the lock, deleting it), or returned. *)
Inductive WriterPC :=
| WrTop | WrWait | WrWrite (i : nat) | WrCleanup | WrReport | WrDelete | WrReturned.

(** The deferred function. *)
Definition writer_exit : SessM WriterPC :=
  do! mod_rx (set_recvClosed true) in
  do! go_emit ETcpCloseWrite in
  go_ret WrReturned.

(** The inner loop: the next block is decoded, the session is over, or wait. *)
Definition writer_top : SessM WriterPC :=
  let! s := go_get in
  let rx := s_rx s in
  if s_done s then writer_exit
  else
    let ready := match rxBlocks rx !! nextWriteGrp rx with
                 | Some block => rb_Decoded block
                 | None => false
                 end in
    if ready then go_ret (WrWrite 0)
    else if closeRecv (s_tx s) && (negb (hasRecv rx) || seq_after (nextWriteGrp rx) (maxRecvGrp rx))
    then writer_exit
    else go_ret WrWait.

(** Data shard [i] of the block; [werr] is [Some n] when [Conn.Write] fails after
    [n] bytes. *)
Definition writer_write (now : Z) (werr : option nat) (i : nat) : SessM WriterPC :=
  let! s := go_get in
  let! block := go_opt (rxBlocks (s_rx s) !! nextWriteGrp (s_rx s)) in
  if Z.of_nat i <? rb_K block then
    let! payload := go_opt (rb_Packets block !! i) in
    match shard_data (slice_bytes payload) with
    | Some data =>
        match werr with
        | Some n => do! go_emit (ETcpWrite (take n data)) in writer_exit
        | None => do! go_emit (ETcpWrite data) in go_ret (WrWrite (S i))
        end
    | None => go_ret (WrWrite (S i))
    end
  else
    do! updateLastActive now in go_ret WrCleanup.

(** One step of [writeTCPRun].  [WrWait] is left by [EBroadcast] (or not: a
    spurious test of the condition is harmless), so it steps like [WrTop]. *)
Definition writer_step (now : Z) (werr : option nat) (pc : WriterPC) : SessM WriterPC :=
  match pc with
  | WrTop | WrWait => writer_top
  | WrWrite i => writer_write now werr i
  | WrCleanup =>
      let! s := go_get in
      let id := nextWriteGrp (s_rx s) in
      let! block := go_opt (rxBlocks (s_rx s) !! id) in
      do! (if rb_LQRTimer block then go_emit (EStopTimer (TLqr id)) else go_ret tt) in
      go_ret (if rb_LQRReported block then WrDelete else WrReport)
  | WrReport =>
      let! s := go_get in
      do! handleLQRTimeout now (nextWriteGrp (s_rx s)) in
      go_ret WrDelete
  | WrDelete =>
      do! mod_rx (fun rx =>
        set_nextWriteGrp (u16 (nextWriteGrp rx + 1))
          (set_rxBlocks (delete (nextWriteGrp rx) (rxBlocks rx)) rx)) in
      go_ret WrTop
  | WrReturned => go_ret WrReturned
  end.

(** ** Dispatch of a received packet

    The [switch] on the packet type that both demultiplexers run on the session
    of the packet's stream; the result says whether the session is to be removed
    from the table. *)
Definition Dispatch (now n : Z) (pkt : Packet) : SessM bool :=
  do! RecordRx n in
  let t := p_Type pkt in
  if t =? TypeData then do! HandleDataPacket now pkt in go_ret false
  else if t =? TypeNak then do! HandleNak now pkt in go_ret false
  else if t =? TypeLqr then do! HandleLQR now pkt in go_ret false
  else if t =? TypeClose then do! HandleClose in go_ret false
  else if t =? TypeReset then do! Close in go_ret true
  else go_ret false.

(** [buf := make([]byte, 2048)] of the demultiplexers: what a read returns of a
    longer datagram. *)
Definition recv_buf : nat := 2048.
Definition ReadFrom (datagram : bytes) : bytes := take recv_buf datagram.

End SessionRecv.
