(* ===== verification/SendSpec.v ===== *)
(** * Specification of the sending side

    The history of a sending session is the list of the blocks it has cut from
    the TCP stream.  [snd_inv] relates the fields of the session to that history:
    group and sequence numbers, the shaper queue, the HARQ cache.  Every sender
    operation is shown to keep it, and the exact effect of a flush, of an LQR and
    of a NAK is stated. *)
From stdpp Require Import base gmap strings list pretty.
From S2P Require Import Prelude Protocol Fec Shaper Duration Session.
Local Open Scope string_scope.
Local Open Scope list_scope.
Local Open Scope Z_scope.

(** ** Blocks and their packets *)

(** A block: its [K] payloads and the number of parity shards sent with it. *)
Record Block := mkBlock { blk_data : list bytes; blk_m : nat }.

(** A payload: a two-byte length and that many bytes; padding is [[0; 0]]. *)
Definition mk_payload (chunk : bytes) : bytes := PutUint16 (len chunk) ++ chunk.
(** The largest chunk whose frame fits in the receiver's buffer: 2048 bytes less
    the 6-byte header and the 2-byte length. *)
Definition max_chunk : Z := 2040.
Definition payload_ok (d : bytes) : Prop :=
  exists chunk, d = mk_payload chunk /\ len chunk <= max_chunk /\ bytes_ok chunk.

(** The bytes of the TCP stream a payload carries. *)
Definition payload_data (d : bytes) : bytes := drop 2 d.
Definition stream_of (ds : list bytes) : bytes := concat (map payload_data ds).

Definition marshal_list (p : Packet) : list bytes :=
  match Marshal p with Ok b => [b] | Err _ => [] end.

(** The data and parity packets of a block. *)
Definition data_pkts (sid grp s0 : Z) (pending : list bytes) (k : nat) : list Packet :=
  map (fun i => data_packet sid (u8 (s0 + Z.of_nat i)) grp (Z.of_nat i)
                  (default [] (pending !! i))) (seq 0 k).
Definition parity_pkts (sid grp k : Z) (parity : list bytes) (m : nat) : list Packet :=
  map (fun j => parity_packet sid grp (k + Z.of_nat j) (default [] (parity !! j))) (seq 0 m).
Definition frames_of (ps : list Packet) : list bytes := concat (map marshal_list ps).

Definition cache_all (c : gmap Z Packet) (ps : list Packet) : gmap Z Packet :=
  foldl (fun c p => <[p_SeqNum p := p]> c) c ps.

(** The adaptation rule for a report of [losses] lost packets: after five clean
    blocks in a row one parity shard less, after a loss at once [losses + 1]
    parity shards, never above [maxM] and never below what is in use. *)
Definition adapt_parity (maxM m ok losses : Z) : Z * Z :=
  if losses =? 0 then
    if ok + 1 >=? 5 then (Z.max 0 (m - 1), 0) else (m, ok + 1)
  else (Z.max m (Z.min (losses + 1) maxM), 0).

(** ** The loops of the flush in closed form *)

Lemma append_marshal_eq pkts p : append_marshal pkts p = pkts ++ marshal_list p.
Proof. unfold append_marshal, marshal_list. case_match; [done|]. by rewrite app_nil_r. Qed.

Lemma frames_of_app l1 l2 : frames_of (l1 ++ l2) = frames_of l1 ++ frames_of l2.
Proof. unfold frames_of. by rewrite map_app, concat_app. Qed.

Lemma frames_of_one p : frames_of [p] = marshal_list p.
Proof. unfold frames_of. simpl. by rewrite app_nil_r. Qed.

Lemma cache_all_app c l1 l2 : cache_all c (l1 ++ l2) = cache_all (cache_all c l1) l2.
Proof. unfold cache_all. by rewrite foldl_app. Qed.

Lemma data_pkts_S sid grp s0 pending k :
  data_pkts sid grp s0 pending (S k) =
  data_pkts sid grp s0 pending k ++
  [data_packet sid (u8 (s0 + Z.of_nat k)) grp (Z.of_nat k) (default [] (pending !! k))].
Proof. unfold data_pkts. by rewrite seq_S, map_app. Qed.

Lemma parity_pkts_S sid grp k parity m :
  parity_pkts sid grp k parity (S m) =
  parity_pkts sid grp k parity m ++
  [parity_packet sid grp (k + Z.of_nat m) (default [] (parity !! m))].
Proof. unfold parity_pkts. by rewrite seq_S, map_app. Qed.

Lemma u8_succ x y : u8 (u8 (x + y) + 1) = u8 (x + (y + 1)).
Proof. go_range. Qed.

Lemma data_loop_eq sid grp pending k s0 cache pkts :
  (k <= length pending)%nat -> is_u8 s0 ->
  data_loop sid grp pending k (s0, cache, pkts) =
  Some (u8 (s0 + Z.of_nat k), cache_all cache (data_pkts sid grp s0 pending k),
        pkts ++ frames_of (data_pkts sid grp s0 pending k)).
Proof.
  intros Hk Hs. unfold data_loop. induction k as [|k IH].
  - simpl. rewrite Z.add_0_r, u8_small, app_nil_r by done. done.
  - rewrite data_pkts_S, cache_all_app, frames_of_app, frames_of_one.
    destruct (lookup_lt_is_Some_2 pending k) as [d Hd]; [lia|].
    rewrite seq_S, foldl_app, IH by lia. simpl. rewrite Hd. simpl.
    rewrite append_marshal_eq, app_assoc. do 3 f_equal. rewrite u8_succ. f_equal. lia.
Qed.

Lemma parity_loop_eq sid grp k parity m pkts :
  (m <= length parity)%nat ->
  parity_loop sid grp k parity m pkts =
  Some (pkts ++ frames_of (parity_pkts sid grp k parity m)).
Proof.
  intros Hm. unfold parity_loop. induction m as [|m IH].
  - simpl. by rewrite app_nil_r.
  - rewrite parity_pkts_S, frames_of_app, frames_of_one.
    destruct (lookup_lt_is_Some_2 parity m) as [d Hd]; [lia|].
    rewrite seq_S, foldl_app, IH by lia. simpl. rewrite Hd. simpl.
    by rewrite append_marshal_eq, app_assoc.
Qed.

Lemma cache_all_ne c ps q :
  Forall (fun p => p_SeqNum p <> q) ps -> cache_all c ps !! q = c !! q.
Proof.
  revert c. induction ps as [|p ps IH]; intros c H; [done|].
  apply Forall_cons in H as [H1 H]. simpl. rewrite IH by done. by apply lookup_insert_ne.
Qed.

Lemma cache_all_in c ps p :
  NoDup (map p_SeqNum ps) -> p ∈ ps -> cache_all c ps !! p_SeqNum p = Some p.
Proof.
  revert c. induction ps as [|p' ps IH]; intros c Hnd Hin; [by apply elem_of_nil in Hin|].
  simpl in *. apply NoDup_cons in Hnd as [Hn Hnd].
  apply elem_of_cons in Hin as [->|Hin]; [|by apply IH].
  change (cache_all (<[p_SeqNum p' := p']> c) ps !! p_SeqNum p' = Some p').
  rewrite cache_all_ne; [apply lookup_insert_eq|].
  apply Forall_forall. intros p'' Hin Heq. apply Hn. rewrite <- Heq. by apply list_elem_of_fmap_2.
Qed.

Lemma cache_all_inv c ps q p :
  cache_all c ps !! q = Some p -> c !! q = Some p \/ (p ∈ ps /\ q = p_SeqNum p).
Proof.
  revert c. induction ps as [|p' ps IH]; intros c H; [by left|]. simpl in H.
  apply IH in H as [H|[H1 H2]].
  - destruct (decide (p_SeqNum p' = q)) as [<-|Hne].
    + rewrite lookup_insert_eq in H. simplify_eq. right. split; [apply elem_of_cons; by left|done].
    + rewrite lookup_insert_ne in H by done. by left.
  - right. split; [apply elem_of_cons; by right|done].
Qed.

(** ** Payloads *)

Lemma length_mk_payload c : length (mk_payload c) = S (S (length c)).
Proof. done. Qed.

Lemma payload_ok_len d : payload_ok d -> (2 <= length d)%nat.
Proof. intros (c & -> & _). rewrite length_mk_payload. lia. Qed.

Lemma payload_ok_bytes d : payload_ok d -> bytes_ok d.
Proof.
  intros (c & -> & _ & Hc). apply Forall_app. split; [apply PutUint16_ok|done].
Qed.

Lemma payload_ok_pad : payload_ok [0; 0].
Proof. exists []. split; [done|]. split; [vm_compute; done|constructor]. Qed.

Lemma payload_data_mk c : payload_data (mk_payload c) = c.
Proof. done. Qed.

Lemma stream_of_app l1 l2 : stream_of (l1 ++ l2) = stream_of l1 ++ stream_of l2.
Proof. unfold stream_of. by rewrite map_app, concat_app. Qed.

Lemma stream_of_pad n : stream_of (replicate n [0; 0]) = [].
Proof. induction n; [done|]. simpl. done. Qed.

Lemma max_len_pos ds : Forall payload_ok ds -> ds <> [] -> (0 < max_len ds)%nat.
Proof.
  intros Hok Hne. destruct ds as [|d ds]; [done|].
  apply Forall_cons in Hok as [Hd _]. apply payload_ok_len in Hd.
  pose proof (max_len_le (d :: ds)) as Hle. apply Forall_cons in Hle as [Hle _]. lia.
Qed.

#[export] Hint Resolve payload_ok_pad payload_ok_bytes : go_arith.

(** Up to 256 consecutive data packets have distinct sequence numbers. *)
Lemma data_pkts_NoDup sid grp s0 pending k :
  (k <= 256)%nat -> NoDup (map p_SeqNum (data_pkts sid grp s0 pending k)).
Proof.
  intros Hk. unfold data_pkts. rewrite map_map. simpl.
  apply (NoDup_fmap_2_strong (fun i => u8 (s0 + Z.of_nat i))); [|apply NoDup_seq].
  intros i j Hi Hj Heq. apply elem_of_seq in Hi, Hj. go_range.
Qed.

(** ** The parameters both ends share

    A stream between the two proxies: its number, the numbers of data and parity
    shards per block, and the erasure code.  The index of a shard has five bits
    on the wire, so that at most 32 shards can be told apart. *)
Class Link {RS : ReedSolomon} := {
  lnk_K : nat;
  lnk_M : nat;
  lnk_code :: RSCode lnk_K lnk_M;
  lnk_sid : Z;
  lnk_sid_range : 0 <= lnk_sid <= 4095;
  lnk_K_pos : (1 <= lnk_K)%nat;
  lnk_KM : (lnk_K + lnk_M <= 32)%nat;
}.

Section SendSpec.
Context {RS : ReedSolomon} {L : Link}.
#[local] Abbreviation K := lnk_K.
#[local] Abbreviation M := lnk_M.
#[local] Abbreviation sid := lnk_sid.
Let Hsid : 0 <= sid <= 4095 := lnk_sid_range.
Let HK : (1 <= K)%nat := lnk_K_pos.
Let HKM : (K + M <= 32)%nat := lnk_KM.

(** The configuration of both ends. *)
Definition cfg_is (cfg : Config) : Prop :=
  c_StreamID cfg = sid /\ c_FEC_K cfg = Z.of_nat K /\ c_FEC_M cfg = Z.of_nat M.

(** The packets of the block [B] sent as group number [g]. *)
Definition block_data_pkts (g : nat) (B : Block) : list Packet :=
  data_pkts sid (u16 (Z.of_nat g)) (u8 (Z.of_nat (g * K))) (blk_data B) K.
Definition block_parity (B : Block) : list bytes :=
  map (rs_parity (pad_shards (blk_data B))) (seq 0 (blk_m B)).
Definition block_parity_pkts (g : nat) (B : Block) : list Packet :=
  parity_pkts sid (u16 (Z.of_nat g)) (Z.of_nat K) (block_parity B) (blk_m B).
Definition block_pkts (g : nat) (B : Block) : list Packet :=
  block_data_pkts g B ++ block_parity_pkts g B.

Definition block_wf (B : Block) : Prop :=
  length (blk_data B) = K /\ Forall payload_ok (blk_data B) /\ (blk_m B <= M)%nat.

(** The [n]-th data packet of the session. *)
Definition nth_pkt (hist : list Block) (n : nat) : option Packet :=
  B ← hist !! (n / K)%nat;
  d ← blk_data B !! (n mod K)%nat;
  Some (data_packet sid (u8 (Z.of_nat n)) (u16 (Z.of_nat (n / K))) (Z.of_nat (n mod K)) d).

(** [b] is a frame of one of the blocks of the history. *)
Definition hist_frame (hist : list Block) (b : bytes) : Prop :=
  exists g B p, hist !! g = Some B /\ p ∈ block_pkts g B /\ Marshal p = Ok b.

(** The block a flush cuts from the pending payloads. *)
Definition cut_block (tx : SendState) : Block :=
  mkBlock (pendingData tx ++ replicate (K - length (pendingData tx)) [0; 0]) (Z.to_nat (curM tx)).

(** The HARQ cache holds sent packets under their sequence number, and the last
    256 of them are all there. *)
Definition cache_inv (hist : list Block) (cache : gmap Z Packet) : Prop :=
  (forall q p, cache !! q = Some p -> exists n, nth_pkt hist n = Some p /\ q = u8 (Z.of_nat n)) /\
  (forall n, (n < length hist * K)%nat -> (length hist * K <= n + 256)%nat ->
     cache !! u8 (Z.of_nat n) = nth_pkt hist n).

(** Only blocks among the last 101 await a report. *)
Definition tx_recent (hist : list Block) (txs : gmap Z TxBlock) : Prop :=
  forall id b, txs !! id = Some b -> tb_LQRRecved b = false /\
    exists g, id = u16 (Z.of_nat g) /\ (g < length hist)%nat /\ (length hist <= g + 101)%nat.

Record snd_core (hist : list Block) (s : Session) : Prop := {
  si_cfg : cfg_is (s_cfg s);
  si_fec : fec_ok (s_FEC s);
  si_hist : Forall block_wf hist;
  si_grp : nextGroupID (s_tx s) = u16 (Z.of_nat (length hist));
  si_seq : nextSeqNum (s_tx s) = u8 (Z.of_nat (length hist * K));
  si_m : 0 <= curM (s_tx s) <= Z.of_nat M;
  si_pend_ok : Forall payload_ok (pendingData (s_tx s));
  si_queue : Forall (hist_frame hist) (queue (s_Shaper s));
  si_cache : cache_inv hist (harqCache (s_tx s));
  si_burst : 0 <= burstSize (s_Shaper s);
  si_recent : tx_recent hist (txBlocks (s_tx s));
  si_ok : 0 <= consecutiveOk (s_tx s) < 5;
}.

(** The invariant of a sending session: fewer than [K] payloads are pending. *)
Definition snd_inv (hist : list Block) (s : Session) : Prop :=
  snd_core hist s /\ (length (pendingData (s_tx s)) < K)%nat.

(** Every byte of the TCP stream read so far. *)
Definition sent_stream (hist : list Block) (s : Session) : bytes :=
  concat (map (fun B => stream_of (blk_data B)) hist) ++ stream_of (pendingData (s_tx s)).

(** ** The flush *)

(** The state after a flush. *)
Definition flushed (s : Session) (f : FEC) : Session :=
  let tx := s_tx s in
  let B := cut_block tx in
  let grp := nextGroupID tx in
  let dps := data_pkts sid grp (nextSeqNum tx) (blk_data B) K in
  let pps := parity_pkts sid grp (Z.of_nat K) (block_parity B) (blk_m B) in
  mkSession (s_cfg s)
    (mkSend (curM tx) (u16 (grp + 1)) (u8 (nextSeqNum tx + Z.of_nat K)) [] (blockTimer tx)
       (<[grp := mkTxBlock grp (curM tx) false]>
          (filter (fun e => stale_tx grp (fst e) = false) (txBlocks tx)))
       (cache_all (harqCache tx) dps)
       (consecutiveOk tx) (sendClosed tx) (closeSent tx) (closeRecv tx))
    (s_rx s) (s_st s) (EnqueueMany (s_Shaper s) (frames_of (dps ++ pps))) f (s_done s).

Lemma cut_block_wf tx :
  (length (pendingData tx) <= K)%nat -> Forall payload_ok (pendingData tx) ->
  0 <= curM tx <= Z.of_nat M -> block_wf (cut_block tx).
Proof.
  intros Hl Hp Hm. unfold block_wf, cut_block; simpl.
  rewrite length_app, length_replicate. split; [lia|]. split; [|lia].
  apply Forall_app. split; [done|]. apply Forall_replicate. auto with go_arith.
Qed.

Lemma Encode_block f B :
  fec_ok f -> block_wf B ->
  exists f', fec_ok f' /\
    Encode f (Z.of_nat K) (Z.of_nat (blk_m B)) (blk_data B) = (Ok (block_parity B), f').
Proof.
  intros Hf (HBK & HBp & HBm). unfold block_parity.
  destruct (decide (blk_m B = 0%nat)) as [Hz|Hz].
  - rewrite Hz. exists f. by split.
  - assert (blk_data B <> []) as Hne by (destruct (blk_data B); simpl in *; [lia|done]).
    pose proof (Encode_ok f (blk_m B) (blk_data B) Hf HBK) as HE.
    pose proof (Encode_fec_ok f (Z.of_nat K) (Z.of_nat (blk_m B)) (blk_data B) Hf) as Hf'.
    destruct (Encode f _ _ _) as [r f']; simpl in *. rewrite HE; [by exists f'|lia| |].
    + eapply Forall_impl; [done|]. apply payload_ok_bytes.
    + by apply max_len_pos.
Qed.

Lemma flush_eq s :
  cfg_is (s_cfg s) -> fec_ok (s_FEC s) -> is_u8 (nextSeqNum (s_tx s)) ->
  0 <= curM (s_tx s) <= Z.of_nat M ->
  pendingData (s_tx s) <> [] -> (length (pendingData (s_tx s)) <= K)%nat ->
  Forall payload_ok (pendingData (s_tx s)) ->
  exists f', fec_ok f' /\ flushPendingBlockLocked s = Some (tt, flushed s f', []).
Proof.
  intros (Hc1 & Hc2 & Hc3) Hf Hs Hm Hne Hl Hp.
  pose proof (cut_block_wf (s_tx s) Hl Hp Hm) as HB.
  destruct (Encode_block (s_FEC s) _ Hf HB) as (f' & Hf' & HE).
  exists f'. split; [done|].
  unfold flushPendingBlockLocked, go_bind, go_get. rewrite bool_decide_eq_false_2 by done.
  rewrite Hc1, Hc2.
  replace (Z.to_nat (Z.of_nat K - len (pendingData (s_tx s))))
    with (K - length (pendingData (s_tx s)))%nat by (unfold len; lia).
  replace (Z.of_nat (blk_m (cut_block (s_tx s)))) with (curM (s_tx s)) in HE by (simpl; lia).
  simpl blk_data in HE. rewrite HE.
  destruct HB as (HBK & _ & _). simpl blk_data in HBK.
  cbn -[data_loop parity_loop cut_block block_parity].
  rewrite Nat2Z.id, data_loop_eq by (done || lia).
  cbn -[data_loop parity_loop cut_block block_parity].
  rewrite parity_loop_eq by (unfold block_parity; rewrite length_map, length_seq; done).
  unfold flushed. by rewrite frames_of_app.
Qed.

(** ** Numbering *)

Lemma lookup_block_data_pkts g B i d :
  blk_data B !! i = Some d -> (i < K)%nat ->
  block_data_pkts g B !! i =
  Some (data_packet sid (u8 (Z.of_nat (g * K + i))) (u16 (Z.of_nat g)) (Z.of_nat i) d).
Proof.
  intros Hd Hi. unfold block_data_pkts, data_pkts. rewrite list_lookup_fmap, lookup_seq_lt by done.
  simpl. rewrite Hd. simpl. do 2 f_equal. rewrite Nat2Z.inj_add. go_range.
Qed.

Lemma elem_of_block_data_pkts g B p :
  block_wf B -> p ∈ block_data_pkts g B ->
  exists i d, blk_data B !! i = Some d /\ (i < K)%nat /\
    p = data_packet sid (u8 (Z.of_nat (g * K + i))) (u16 (Z.of_nat g)) (Z.of_nat i) d.
Proof.
  intros (HBK & _) Hp. apply list_elem_of_lookup in Hp as [i Hi].
  assert (i < K)%nat as Hlt.
  { apply lookup_lt_Some in Hi. unfold block_data_pkts, data_pkts in Hi.
    rewrite length_map, length_seq in Hi. done. }
  destruct (lookup_lt_is_Some_2 (blk_data B) i) as [d Hd]; [lia|].
  exists i, d. split_and!; [done..|].
  rewrite (lookup_block_data_pkts g B i d) in Hi by done. by simplify_eq.
Qed.

Lemma elem_of_block_parity_pkts g B p :
  p ∈ block_parity_pkts g B ->
  exists j, (j < blk_m B)%nat /\
    p = parity_packet sid (u16 (Z.of_nat g)) (Z.of_nat K + Z.of_nat j)
          (rs_parity (pad_shards (blk_data B)) j).
Proof.
  intros Hp. unfold block_parity_pkts, parity_pkts in Hp.
  apply list_elem_of_fmap in Hp as (j & -> & Hj). apply elem_of_seq in Hj.
  exists j. split; [lia|]. unfold block_parity. rewrite list_lookup_fmap, lookup_seq_lt by lia. done.
Qed.

Lemma div_mod_block g i : (i < K)%nat -> ((g * K + i) / K = g /\ (g * K + i) mod K = i)%nat.
Proof.
  intros Hi. split.
  - rewrite Nat.div_add_l by lia. rewrite Nat.div_small by done. lia.
  - rewrite Nat.add_comm, Nat.Div0.mod_add. by apply Nat.mod_small.
Qed.

Lemma nth_pkt_block hist g B i d :
  hist !! g = Some B -> blk_data B !! i = Some d -> (i < K)%nat ->
  nth_pkt hist (g * K + i) =
  Some (data_packet sid (u8 (Z.of_nat (g * K + i))) (u16 (Z.of_nat g)) (Z.of_nat i) d).
Proof.
  intros HB Hd Hi. unfold nth_pkt. destruct (div_mod_block g i Hi) as [-> ->].
  rewrite HB. simpl. by rewrite Hd.
Qed.

Lemma nth_pkt_seq hist n p : nth_pkt hist n = Some p -> p_SeqNum p = u8 (Z.of_nat n).
Proof.
  unfold nth_pkt. intros H. destruct (hist !! _); simpl in H; [|done].
  destruct (blk_data _ !! _); simpl in H; by simplify_eq.
Qed.

Lemma nth_pkt_app_l hist B n :
  (n < length hist * K)%nat -> nth_pkt (hist ++ [B]) n = nth_pkt hist n.
Proof.
  intros Hn. unfold nth_pkt. rewrite lookup_app_l; [done|].
  apply Nat.Div0.div_lt_upper_bound. lia.
Qed.

Lemma hist_frame_app hist B b : hist_frame hist b -> hist_frame (hist ++ [B]) b.
Proof.
  intros (g & B' & p & HB & Hp & Hm). exists g, B', p. split; [|done].
  by apply lookup_app_l_Some.
Qed.

Lemma cache_inv_flush hist cache B :
  block_wf B -> cache_inv hist cache ->
  cache_inv (hist ++ [B]) (cache_all cache (block_data_pkts (length hist) B)).
Proof.
  intros HB [Hc1 Hc2]. pose proof HB as (HBK & _ & _).
  assert (forall p, p ∈ block_data_pkts (length hist) B ->
    exists n, nth_pkt (hist ++ [B]) n = Some p /\ p_SeqNum p = u8 (Z.of_nat n) /\
      (length hist * K <= n < length hist * K + K)%nat) as Hnew.
  { intros p Hp. apply elem_of_block_data_pkts in Hp as (i & d & Hd & Hi & ->); [|done].
    exists (length hist * K + i)%nat. split_and!; [|done|lia..].
    apply (nth_pkt_block _ _ B); [|done..]. by apply list_lookup_middle. }
  split.
  - intros q p Hq. apply cache_all_inv in Hq as [Hq|[Hq ->]].
    + destruct (Hc1 q p Hq) as (n & Hn & ->). exists n. split; [|done].
      rewrite nth_pkt_app_l; [done|]. unfold nth_pkt in Hn.
      destruct (hist !! (n / K)%nat) eqn:E; [|done]. apply lookup_lt_Some in E.
      pose proof (Nat.div_mod_eq n K). pose proof (Nat.mod_upper_bound n K). nia.
    + destruct (Hnew p Hq) as (n & Hn & Hs & _). by exists n.
  - intros n Hn1 Hn2. rewrite length_app in Hn1, Hn2. simpl in Hn1, Hn2.
    destruct (decide (n < length hist * K)%nat) as [Hold|Hold].
    + rewrite nth_pkt_app_l by done. rewrite cache_all_ne; [apply Hc2; lia|].
      apply Forall_forall. intros p Hp. destruct (Hnew p Hp) as (n' & _ & -> & Hn').
      go_range.
    + destruct (lookup_lt_is_Some_2 (blk_data B) (n - length hist * K)) as [d Hd]; [lia|].
      assert (n = length hist * K + (n - length hist * K))%nat as Heq by lia.
      assert (n - length hist * K < K)%nat as Hi by lia.
      pose proof (nth_pkt_block (hist ++ [B]) (length hist) B _ d
        (list_lookup_middle hist [] B _ eq_refl) Hd Hi) as Hnth.
      rewrite <- Heq in Hnth. rewrite Hnth.
      pose proof (lookup_block_data_pkts (length hist) B _ d Hd Hi) as Hl. rewrite <- Heq in Hl.
      apply list_elem_of_lookup_2 in Hl.
      refine (cache_all_in _ _ _ _ Hl).
      apply data_pkts_NoDup. lia.
Qed.
(** ** Preservation *)

Lemma frames_of_hist hist B :
  Forall (hist_frame (hist ++ [B])) (frames_of (block_pkts (length hist) B)).
Proof.
  apply Forall_forall. intros b Hb. unfold frames_of in Hb.
  apply list_elem_of_In, in_concat in Hb as (l & Hl & Hb).
  apply in_map_iff in Hl as (p & <- & Hp). unfold marshal_list in Hb.
  destruct (Marshal p) as [b'|] eqn:Hm; [|done]. destruct Hb as [<-|[]].
  exists (length hist), B, p. split_and!; [by apply list_lookup_middle|by apply list_elem_of_In|done].
Qed.

Lemma queue_EnqueueMany (P : bytes -> Prop) sh ps :
  Forall P (queue sh) -> Forall P ps -> Forall P (queue (EnqueueMany sh ps)).
Proof. intros H1 H2. unfold EnqueueMany. case_match; [done|]. by apply Forall_app. Qed.

Lemma queue_Enqueue (P : bytes -> Prop) sh p :
  Forall P (queue sh) -> P p -> Forall P (queue (Enqueue sh p)).
Proof. intros H1 H2. unfold Enqueue. case_match; [done|]. apply Forall_app. by repeat constructor. Qed.

Lemma burst_EnqueueMany sh ps : burstSize (EnqueueMany sh ps) = burstSize sh.
Proof. unfold EnqueueMany. by case_match. Qed.

Lemma burst_Enqueue sh p : burstSize (Enqueue sh p) = burstSize sh.
Proof. unfold Enqueue. by case_match. Qed.

(** The clean-up loop of the flush keeps the table of sent blocks small. *)
Lemma tx_recent_flush hist txs m B :
  tx_recent hist txs ->
  tx_recent (hist ++ [B])
    (<[u16 (Z.of_nat (length hist)) := mkTxBlock (u16 (Z.of_nat (length hist))) m false]>
       (filter (fun e => stale_tx (u16 (Z.of_nat (length hist))) (fst e) = false) txs)).
Proof.
  intros Hre id b. rewrite length_app. simpl.
  intros [[<- <-]|[_ [Hb Hst]%map_lookup_filter_Some]]%lookup_insert_Some.
  - split; [done|]. exists (length hist). lia.
  - destruct (Hre id b Hb) as (Hq & g & -> & Hg1 & Hg2). split; [done|].
    exists g. split_and!; [done|lia|]. simpl in Hst. unfold stale_tx in Hst.
    destruct (decide (length hist = g + 101)%nat) as [E|E]; [|lia].
    rewrite Z.gtb_ltb in Hst. apply andb_false_iff in Hst.
    rewrite !Z.ltb_ge in Hst. rewrite E, Nat2Z.inj_add in Hst. go_range.
Qed.

Lemma flushed_core hist s f :
  snd_core hist s -> fec_ok f -> (length (pendingData (s_tx s)) <= K)%nat ->
  snd_inv (hist ++ [cut_block (s_tx s)]) (flushed s f).
Proof.
  intros [Hc Hf Hh Hg Hs Hm Hp Hq Hca Hbu Hre Hok] Hf' Hl.
  pose proof (cut_block_wf (s_tx s) Hl Hp Hm) as HB.
  assert (block_data_pkts (length hist) (cut_block (s_tx s)) =
          data_pkts sid (nextGroupID (s_tx s)) (nextSeqNum (s_tx s))
            (blk_data (cut_block (s_tx s))) K) as Hdp by (unfold block_data_pkts; by rewrite Hg, Hs).
  assert (block_pkts (length hist) (cut_block (s_tx s)) =
          data_pkts sid (nextGroupID (s_tx s)) (nextSeqNum (s_tx s)) (blk_data (cut_block (s_tx s))) K ++
          parity_pkts sid (nextGroupID (s_tx s)) (Z.of_nat K) (block_parity (cut_block (s_tx s)))
            (blk_m (cut_block (s_tx s)))) as Hbp
    by (unfold block_pkts; rewrite Hdp; unfold block_parity_pkts; by rewrite Hg).
  split; [|simpl; lia].
  constructor; try done; cbn [flushed s_tx s_cfg s_FEC s_Shaper nextGroupID nextSeqNum curM pendingData harqCache].
  - apply Forall_app. split; [done|]. by apply Forall_singleton.
  - rewrite Hg, length_app. simpl. rewrite Nat2Z.inj_add. go_range.
  - rewrite Hs, length_app, Nat.mul_add_distr_r. simpl. rewrite !Nat2Z.inj_add, !Nat2Z.inj_mul. go_range.
  - apply queue_EnqueueMany.
    + eapply Forall_impl; [done|]. intros. by apply hist_frame_app.
    + rewrite <- Hbp. apply frames_of_hist.
  - rewrite <- Hdp. by apply cache_inv_flush.
  - by rewrite burst_EnqueueMany.
  - rewrite Hg. by apply tx_recent_flush.
Qed.

Lemma flush_inv hist s :
  snd_core hist s -> pendingData (s_tx s) <> [] -> (length (pendingData (s_tx s)) <= K)%nat ->
  exists f, flushPendingBlockLocked s = Some (tt, flushed s f, []) /\ fec_ok f /\
    snd_inv (hist ++ [cut_block (s_tx s)]) (flushed s f).
Proof.
  intros Hi Hne Hl. pose proof Hi as [Hc Hf Hh Hg Hs Hm Hp Hq Hca Hbu Hre Hok].
  destruct (flush_eq s) as (f & Hf' & HE); try done.
  { rewrite Hs. apply u8_range. }
  exists f. split_and!; [done..|]. by apply flushed_core.
Qed.

Lemma stream_of_cut tx :
  stream_of (blk_data (cut_block tx)) = stream_of (pendingData tx).
Proof. unfold cut_block. simpl. by rewrite stream_of_app, stream_of_pad, app_nil_r. Qed.

Lemma sent_stream_flushed hist s f :
  sent_stream (hist ++ [cut_block (s_tx s)]) (flushed s f) = sent_stream hist s.
Proof.
  unfold sent_stream. rewrite map_app, concat_app.
  cbn -[cut_block]. by rewrite !app_nil_r, stream_of_cut.
Qed.

(** Changes outside the sender's fields keep the invariant. *)
Lemma snd_inv_frame hist s s' :
  snd_inv hist s -> s_cfg s' = s_cfg s -> fec_ok (s_FEC s') ->
  nextGroupID (s_tx s') = nextGroupID (s_tx s) -> nextSeqNum (s_tx s') = nextSeqNum (s_tx s) ->
  0 <= curM (s_tx s') <= Z.of_nat M -> pendingData (s_tx s') = pendingData (s_tx s) ->
  harqCache (s_tx s') = harqCache (s_tx s) ->
  Forall (hist_frame hist) (queue (s_Shaper s')) -> 0 <= burstSize (s_Shaper s') ->
  txBlocks (s_tx s') ⊆ txBlocks (s_tx s) -> 0 <= consecutiveOk (s_tx s') < 5 -> snd_inv hist s'.
Proof.
  intros [[Hc Hf Hh Hg Hs Hm Hp Hq Hca Hbu Hre Hok] Hl] E1 E2 E3 E4 E5 E6 E7 E8 E9 E10 E11.
  split; [|by rewrite E6]. constructor; rewrite ?E1, ?E3, ?E4, ?E6, ?E7; try done.
  intros id b Hb. apply Hre. by eapply lookup_weaken.
Qed.

(** ** The TCP read loop *)

(** The blocks cut when [data] is read: one if it completes a block. *)
Definition cut_by_read (tx : SendState) (data : bytes) : list Block :=
  let tx' := set_pendingData (pendingData tx ++ [mk_payload data]) tx in
  if (K <=? length (pendingData tx'))%nat then [cut_block tx'] else [].

Definition is_timer_effect (e : Effect) : bool :=
  match e with EAfterFunc _ _ | EStopTimer _ | EBroadcast => true | _ => false end.

Lemma mk_payload_ok data : len data <= max_chunk -> bytes_ok data -> payload_ok (mk_payload data).
Proof. intros. by exists data. Qed.

(** [s1] is [s] with [data] appended to the pending payloads. *)
Definition reads_into (s s1 : Session) (data : bytes) : Prop :=
  s_cfg s1 = s_cfg s /\ s_rx s1 = s_rx s /\ s_Shaper s1 = s_Shaper s /\ s_FEC s1 = s_FEC s /\
  curM (s_tx s1) = curM (s_tx s) /\ nextGroupID (s_tx s1) = nextGroupID (s_tx s) /\
  nextSeqNum (s_tx s1) = nextSeqNum (s_tx s) /\ harqCache (s_tx s1) = harqCache (s_tx s) /\
  pendingData (s_tx s1) = pendingData (s_tx s) ++ [mk_payload data] /\
  txBlocks (s_tx s1) = txBlocks (s_tx s) /\ consecutiveOk (s_tx s1) = consecutiveOk (s_tx s).

Lemma snd_core_add hist s s1 data :
  snd_inv hist s -> len data <= max_chunk -> bytes_ok data -> reads_into s s1 data -> snd_core hist s1.
Proof.
  intros [[Hc Hf Hh Hg Hs Hm Hp Hq Hca Hbu Hre Hok] Hl] Hd1 Hd2 (E1 & E2 & E3 & E4 & E5 & E6 & E7 & E8 & E9 & E10 & E11).
  constructor; rewrite ?E1, ?E2, ?E3, ?E4, ?E5, ?E6, ?E7, ?E8, ?E9, ?E10, ?E11; try done.
  apply Forall_app. split; [done|]. apply Forall_singleton. by apply mk_payload_ok.
Qed.

Lemma sent_stream_add hist s data s' :
  pendingData (s_tx s') = pendingData (s_tx s) ++ [mk_payload data] ->
  sent_stream hist s' = sent_stream hist s ++ data.
Proof.
  intros E. unfold sent_stream. rewrite E, stream_of_app, <- app_assoc.
  do 2 f_equal. unfold stream_of. simpl. by rewrite app_nil_r.
Qed.

(** The two outcomes of a read: the payload stays pending, or a block is cut. *)
Lemma read_keep hist s s1 data :
  snd_inv hist s -> len data <= max_chunk -> bytes_ok data -> reads_into s s1 data ->
  (length (pendingData (s_tx s1)) < K)%nat ->
  snd_inv hist s1 /\ sent_stream hist s1 = sent_stream hist s ++ data /\ s_rx s1 = s_rx s /\
  s_cfg s1 = s_cfg s.
Proof.
  intros Hi Hd1 Hd2 Hr Hl. split; [split; [by eapply snd_core_add|done]|].
  destruct Hr as (? & ? & _ & _ & _ & _ & _ & _ & ? & _). split; [by apply sent_stream_add|done].
Qed.

Lemma read_flush hist s s1 data :
  snd_inv hist s -> len data <= max_chunk -> bytes_ok data -> reads_into s s1 data ->
  exists s', flushPendingBlockLocked s1 = Some (tt, s', []) /\
    snd_inv (hist ++ [cut_block (set_pendingData (pendingData (s_tx s) ++ [mk_payload data]) (s_tx s))]) s' /\
    sent_stream (hist ++ [cut_block (set_pendingData (pendingData (s_tx s) ++ [mk_payload data]) (s_tx s))]) s' =
      sent_stream hist s ++ data /\ s_rx s' = s_rx s /\ s_cfg s' = s_cfg s.
Proof.
  intros Hi Hd1 Hd2 Hr. pose proof Hr as (E1 & E2 & E3 & E4 & E5 & E6 & E7 & E8 & E9 & E10 & E11).
  destruct (flush_inv hist s1) as (f & HE & Hf & Hinv).
  - by eapply snd_core_add.
  - rewrite E9. by destruct (pendingData (s_tx s)).
  - rewrite E9, length_app. simpl. destruct Hi. lia.
  - assert (cut_block (s_tx s1) =
      cut_block (set_pendingData (pendingData (s_tx s) ++ [mk_payload data]) (s_tx s))) as Hcut.
    { unfold cut_block. simpl. by rewrite E9, E5. }
    rewrite <- Hcut. exists (flushed s1 f). split_and!; [done..| |done|done].
    rewrite sent_stream_flushed. by apply sent_stream_add.
Qed.

Lemma read_inv hist s now data :
  snd_inv hist s -> len data <= max_chunk -> bytes_ok data ->
  exists s' es, readTCP_data now data s = Some (tt, s', es) /\
    snd_inv (hist ++ cut_by_read (s_tx s) data) s' /\
    sent_stream (hist ++ cut_by_read (s_tx s) data) s' = sent_stream hist s ++ data /\
    s_rx s' = s_rx s /\ s_cfg s' = s_cfg s /\ Forall (fun e => is_timer_effect e = true) es.
Proof.
  intros Hi Hd1 Hd2. pose proof Hi as [Hcore Hl]. pose proof (si_cfg _ _ Hcore) as (Hc1 & Hc2 & Hc3).
  unfold readTCP_data. replace (u16 (len data)) with (len data)
    by (symmetry; apply u16_small; pose proof (len_nonneg data); unfold is_u16, max_chunk in *; lia).
  change (PutUint16 (len data) ++ data) with (mk_payload data).
  unfold cut_by_read, go_bind. cbn -[flushPendingBlockLocked cut_block mk_payload].
  rewrite Hc2.
  replace (len (pendingData (s_tx s) ++ [mk_payload data]) >=? Z.of_nat K)
    with (K <=? length (pendingData (s_tx s) ++ [mk_payload data]))%nat
    by (unfold len; destruct (Nat.leb_spec K (length (pendingData (s_tx s) ++ [mk_payload data])));
        symmetry; go_tests; done).
  destruct (len (pendingData (s_tx s) ++ [mk_payload data]) =? 1);
  destruct (Nat.leb_spec K (length (pendingData (s_tx s) ++ [mk_payload data]))) as [E2|E2];
  cbn -[flushPendingBlockLocked cut_block mk_payload].
  2,4: match goal with |- context [Some (tt, ?s1, _) = _] =>
    destruct (read_keep hist s s1 data) as (? & ? & ? & ?); [done..|] end;
    rewrite app_nil_r; eexists _, _; split_and!; try done; by repeat constructor.
  2: destruct (blockTimer (s_tx s)); cbn -[flushPendingBlockLocked cut_block mk_payload].
  all: match goal with |- context [flushPendingBlockLocked ?s1] =>
    destruct (read_flush hist s s1 data) as (s' & -> & ? & ? & ? & ?); [done..|] end;
    eexists _, _; split_and!; try done; by repeat constructor.
Qed.

(** ** Reports and retransmission requests *)

Lemma HandleLQR_unknown now p (s : Session) :
  txBlocks (s_tx s) !! p_GroupID p = None ->
  HandleLQR now p s = Some (tt, with_st s (set_lastActive now (s_st s)), []).
Proof. intros E. unfold HandleLQR, go_bind. simpl. by rewrite E. Qed.

Lemma HandleLQR_known now p (s : Session) block :
  txBlocks (s_tx s) !! p_GroupID p = Some block -> tb_LQRRecved block = false ->
  0 <= curM (s_tx s) ->
  exists s', HandleLQR now p s = Some (tt, s', []) /\
    (curM (s_tx s'), consecutiveOk (s_tx s')) =
      adapt_parity (c_FEC_M (s_cfg s)) (curM (s_tx s)) (consecutiveOk (s_tx s)) (p_Losses p) /\
    txBlocks (s_tx s') = delete (p_GroupID p) (txBlocks (s_tx s)) /\
    losses (s_st s') = p_Losses p /\
    s_Shaper s' =
      (if curM (s_tx s') =? curM (s_tx s) then s_Shaper s
       else let n := c_FEC_K (s_cfg s) + curM (s_tx s') in
            UpdateParams (s_Shaper s) n
              (burst_interval n (c_LinkMTU (s_cfg s)) (c_Bandwidth (s_cfg s)))) /\
    s_cfg s' = s_cfg s /\ s_rx s' = s_rx s /\ s_FEC s' = s_FEC s /\
    nextGroupID (s_tx s') = nextGroupID (s_tx s) /\ nextSeqNum (s_tx s') = nextSeqNum (s_tx s) /\
    pendingData (s_tx s') = pendingData (s_tx s) /\ harqCache (s_tx s') = harqCache (s_tx s).
Proof.
  intros E HR Hm. unfold HandleLQR, go_bind, adapt_parity. cbn -[burst_interval]. rewrite E, HR.
  cbn -[burst_interval].
  destruct (p_Losses p =? 0) eqn:E0; cbn -[burst_interval].
  - destruct (consecutiveOk (s_tx s) + 1 >=? 5); cbn -[burst_interval].
    + destruct (curM (s_tx s) >? 0) eqn:E1; go_bool; cbn -[burst_interval]; eexists;
        split_and!; try done; cbn -[burst_interval]; rewrite ?delete_insert_eq; try done;
        try (f_equal; lia); go_tests; try done.
    + eexists; split_and!; try done; cbn -[burst_interval]; rewrite ?delete_insert_eq; try done.
      by rewrite Z.eqb_refl.
  - set (newM := if p_Losses p + 1 >? c_FEC_M (s_cfg s) then _ else _).
    assert (newM = Z.min (p_Losses p + 1) (c_FEC_M (s_cfg s))) as HnM.
    { unfold newM. destruct (_ >? _) eqn:E1; go_bool; lia. }
    destruct (curM (s_tx s) <? newM) eqn:E1; go_bool; cbn -[burst_interval]; eexists;
      split_and!; try done; cbn -[burst_interval]; rewrite ?delete_insert_eq; try done;
      try (f_equal; lia); go_tests; try done.
Qed.

Lemma adapt_parity_bounds maxM m ok l :
  0 <= maxM -> 0 <= m <= maxM -> 0 <= l -> 0 <= ok < 5 ->
  0 <= fst (adapt_parity maxM m ok l) <= maxM /\ 0 <= snd (adapt_parity maxM m ok l) < 5.
Proof. intros. unfold adapt_parity. repeat case_match; go_bool; simpl; lia. Qed.

Lemma LQR_inv hist s now p :
  snd_inv hist s -> exists s', HandleLQR now p s = Some (tt, s', []) /\ snd_inv hist s' /\
    s_rx s' = s_rx s /\ pendingData (s_tx s') = pendingData (s_tx s) /\
    s_cfg s' = s_cfg s /\ s_FEC s' = s_FEC s.
Proof.
  intros Hi. pose proof Hi as [Hcore Hl]. pose proof (si_m _ _ Hcore) as Hm.
  destruct (txBlocks (s_tx s) !! p_GroupID p) as [block|] eqn:E; last first.
  { rewrite HandleLQR_unknown by done. eexists. split_and!; try done.
    apply (snd_inv_frame hist s); try done; apply Hcore. }
  destruct (tb_LQRRecved block) eqn:HR.
  { unfold HandleLQR, go_bind. simpl. rewrite E, HR. simpl. eexists. split_and!; try done.
    apply (snd_inv_frame hist s); try done; apply Hcore. }
  destruct (HandleLQR_known now p s block E HR) as (s' & HE & Ha & Htx & _ & Hsh & H1 & H2 & H3 & H4 & H5 & H6 & H7);
    [lia|].
  exists s'. split_and!; try done.
  apply (snd_inv_frame hist s); try done.
  - rewrite H3. apply Hcore.
  - pose proof (si_cfg _ _ Hcore) as (_ & _ & HcM). rewrite HcM in Ha.
    unfold adapt_parity in Ha. repeat case_match; simplify_eq/=; lia.
  - rewrite Hsh. case_match; simpl; apply Hcore.
  - rewrite Hsh. case_match; simpl; [apply Hcore|].
    pose proof (si_cfg _ _ Hcore) as (_ & HcK & HcM). rewrite HcM in Ha. rewrite HcK.
    unfold adapt_parity in Ha. repeat case_match; simplify_eq/=; lia.
  - rewrite Htx. apply delete_subseteq.
  - pose proof (si_ok _ _ Hcore). unfold adapt_parity in Ha.
    repeat case_match; go_bool; simplify_eq/=; lia.
Qed.

Lemma Marshal_nth_pkt hist n p :
  Forall block_wf hist -> nth_pkt hist n = Some p ->
  exists b, Marshal p = Ok b /\ hist_frame hist b.
Proof.
  intros Hh Hn. unfold nth_pkt in Hn.
  destruct (hist !! (n / K)%nat) as [B|] eqn:EB; simpl in Hn; [|done].
  destruct (blk_data B !! (n mod K)%nat) as [d|] eqn:Ed; simpl in Hn; [|done].
  pose proof (Nat.mod_upper_bound n K) as Hmod.
  assert (n = n / K * K + n mod K)%nat as Hdm.
  { rewrite Nat.mul_comm. apply Nat.div_mod_eq. }
  injection Hn as <-.
  destruct (Marshal (data_packet sid (u8 (Z.of_nat n)) (u16 (Z.of_nat (n / K))) (Z.of_nat (n mod K)) d))
    as [b|e] eqn:HM.
  - exists b. split; [done|]. exists (n / K)%nat, B, (data_packet sid (u8 (Z.of_nat n))
      (u16 (Z.of_nat (n / K))) (Z.of_nat (n mod K)) d). split_and!; [done| |done].
    apply elem_of_app. left. apply list_elem_of_lookup. exists (n mod K)%nat.
    rewrite (lookup_block_data_pkts _ _ _ d) by (done || lia). by rewrite <- Hdm.
  - unfold Marshal in HM. simpl in HM.
    rewrite Z.gtb_ltb, (proj2 (Z.ltb_ge _ _)) in HM by lia. done.
Qed.

Lemma Nak_inv hist s now p :
  snd_inv hist s -> exists s', HandleNak now p s = Some (tt, s', []) /\ snd_inv hist s' /\
    s_rx s' = s_rx s /\ pendingData (s_tx s') = pendingData (s_tx s) /\
    s_cfg s' = s_cfg s /\ s_FEC s' = s_FEC s.
Proof.
  intros Hi. pose proof Hi as [Hcore Hl].
  unfold HandleNak, go_bind. simpl.
  destruct (harqCache (s_tx s) !! p_SeqNum p) as [cp|] eqn:E; last first.
  { eexists. split_and!; try done. apply (snd_inv_frame hist s); try done; apply Hcore. }
  destruct (si_cache _ _ Hcore) as [Hc1 _]. destruct (Hc1 _ _ E) as (n & Hn & _).
  destruct (Marshal_nth_pkt hist n cp) as (b & HM & Hb); [apply Hcore|done|].
  rewrite HM. simpl. eexists. split_and!; try done.
  apply (snd_inv_frame hist s); try done; try apply Hcore; simpl.
  - apply queue_Enqueue; [apply Hcore|done].
  - rewrite burst_Enqueue. apply Hcore.
Qed.

(** ** Bounds *)

Lemma tx_recent_size hist txs : tx_recent hist txs -> (size txs <= 101)%nat.
Proof.
  intros Hre. transitivity (length (map (fun i => u16 (Z.of_nat (length hist) - 1 - Z.of_nat i)) (seq 0 101)));
    [|by rewrite length_map, length_seq].
  apply map_size_keys. intros id b Hb. destruct (Hre id b Hb) as (_ & g & -> & Hg1 & Hg2).
  apply list_elem_of_fmap. exists (length hist - 1 - g)%nat. split; [f_equal; lia|].
  apply elem_of_seq. lia.
Qed.

Lemma cache_inv_size hist cache : cache_inv hist cache -> (size cache <= 256)%nat.
Proof.
  intros [Hc _]. transitivity (length (map Z.of_nat (seq 0 256))); [|by rewrite length_map, length_seq].
  apply map_size_keys. intros q p Hq. destruct (Hc q p Hq) as (n & _ & ->).
  apply list_elem_of_fmap. exists (Z.to_nat (u8 (Z.of_nat n))).
  pose proof (u8_range (Z.of_nat n)) as Hr. unfold is_u8 in Hr. split; [lia|]. apply elem_of_seq. lia.
Qed.

(** ** Theorems *)

Lemma frames_of_block g B :
  block_wf B -> length (frames_of (block_pkts g B)) = (K + blk_m B)%nat.
Proof.
  intros (HBK & _ & _). unfold frames_of. rewrite length_concat, map_map.
  assert (length (block_pkts g B) = (K + blk_m B)%nat) as Hl.
  { unfold block_pkts, block_data_pkts, block_parity_pkts, data_pkts, parity_pkts.
    by rewrite length_app, !length_map, !length_seq. }
  rewrite <- Hl. assert (Forall (fun p => p_StreamID p = sid /\ p_Type p = TypeData) (block_pkts g B)) as Hall.
  { apply Forall_app. split; apply Forall_forall; intros p Hp; apply list_elem_of_fmap in Hp as (i & -> & _); done. }
  clear Hl. induction Hall as [|p l [Hp1 Hp2] _ IH]; [done|]. simpl. rewrite IH.
  unfold marshal_list, Marshal. rewrite Hp1, Hp2, Z.gtb_ltb, (proj2 (Z.ltb_ge _ _)) by lia. done.
Qed.

Lemma HandleNak_cached hist now p n pkt (s : Session) :
  snd_inv hist s -> stopped (s_Shaper s) = false ->
  (n < length hist * K)%nat -> (length hist * K <= n + 256)%nat ->
  p_SeqNum p = u8 (Z.of_nat n) -> nth_pkt hist n = Some pkt ->
  exists s' b, HandleNak now p s = Some (tt, s', []) /\ Marshal pkt = Ok b /\ hist_frame hist b /\
    queue (s_Shaper s') = queue (s_Shaper s) ++ [b] /\
    txRetransmissions (s_st s') = u64 (txRetransmissions (s_st s) + 1).
Proof.
  intros [Hc _] Hst Hn1 Hn2 Hseq Hpkt. unfold HandleNak, go_bind. simpl.
  rewrite Hseq, (proj2 (si_cache _ _ Hc) n Hn1 Hn2), Hpkt.
  destruct (Marshal_nth_pkt hist n pkt) as (b & HM & Hb); [apply Hc|done|].
  rewrite HM. simpl. eexists _, b. split; [done|]. split_and!; try done.
  simpl. unfold Enqueue. by rewrite Hst.
Qed.

(** C8: A NAK retransmits exactly the requested packet, for the last 256 data
    packets: if sequence number [u8 n] belongs to the [n]-th data packet and fewer
    than 256 were sent after it, handling the NAK appends that packet's frame, and
    nothing else, to the shaper queue and counts one retransmission.  Hence a NAK
    that arrives when 256 or more packets have followed retransmits the packet
    that has taken over the sequence number. *)
Theorem HandleNak_retransmits hist now p n pkt (s : Session) :
  snd_inv hist s -> stopped (s_Shaper s) = false ->
  (n < length hist * K)%nat -> (length hist * K <= n + 256)%nat ->
  p_SeqNum p = u8 (Z.of_nat n) -> nth_pkt hist n = Some pkt ->
  exists s' b, HandleNak now p s = Some (tt, s', []) /\ Marshal pkt = Ok b /\
    queue (s_Shaper s') = queue (s_Shaper s) ++ [b] /\
    txRetransmissions (s_st s') = u64 (txRetransmissions (s_st s) + 1).
Proof.
  intros. destruct (HandleNak_cached hist now p n pkt s) as (s' & b & ? & ? & _ & ?); eauto 10.
Qed.

(** C5: The block flush.  Flushing a non-empty block always succeeds: the pending
    payloads, padded to [K] with empty shards, become the next block; exactly
    [K + curM] frames are queued behind what is already in the shaper (nothing if
    the shaper is stopped); the group and sequence numbers advance by [1] and
    [K]; nothing stays pending and no byte of the stream is lost or added. *)
Theorem flush_block_spec hist s :
  snd_inv hist s -> pendingData (s_tx s) <> [] ->
  exists s', flushPendingBlock s = Some (tt, s', []) /\
    let B := cut_block (s_tx s) in
    snd_inv (hist ++ [B]) s' /\ pendingData (s_tx s') = [] /\
    s_Shaper s' = EnqueueMany (s_Shaper s) (frames_of (block_pkts (length hist) B)) /\
    len (frames_of (block_pkts (length hist) B)) = Z.of_nat K + curM (s_tx s) /\
    nextGroupID (s_tx s') = u16 (nextGroupID (s_tx s) + 1) /\
    nextSeqNum (s_tx s') = u8 (nextSeqNum (s_tx s) + Z.of_nat K) /\
    sent_stream (hist ++ [B]) s' = sent_stream hist s.
Proof.
  intros Hi Hne. pose proof Hi as [Hc Hl].
  destruct (flush_inv hist s Hc Hne) as (f & HE & Hf & Hinv); [lia|].
  exists (flushed s f). split; [done|]. cbv zeta.
  pose proof (cut_block_wf (s_tx s) ltac:(lia) (si_pend_ok _ _ Hc) (si_m _ _ Hc)) as HB.
  split_and!; try done.
  - unfold flushed, block_pkts, block_data_pkts, block_parity_pkts. simpl.
    by rewrite (si_grp _ _ Hc), (si_seq _ _ Hc).
  - unfold len. rewrite (frames_of_block _ _ HB). simpl. pose proof (si_m _ _ Hc). lia.
  - apply sent_stream_flushed.
Qed.


End SendSpec.
