(* ===== verification/RecvSpec.v ===== *)
(** * Specification of the receiving side

    [rx_ok] relates a receive block to the block the peer cut from its stream;
    [rcv_inv] relates the whole receive state to the peer's history and to the
    number of blocks already written.  Every receiver operation is shown not to
    panic and to keep the invariant. *)
From stdpp Require Import base gmap strings list pretty.
From S2P Require Import Prelude Protocol Fec Shaper Duration Session SessionRecv SendSpec.
Local Open Scope string_scope.
Local Open Scope list_scope.
Local Open Scope Z_scope.

(** ** Counting the filled slots *)

Lemma present_count_app {A} (l1 l2 : list (option A)) :
  present_count (l1 ++ l2) = (present_count l1 + present_count l2)%nat.
Proof. unfold present_count. by rewrite omap_app, length_app. Qed.

Lemma present_count_le_length {A} (l : list (option A)) : (present_count l <= length l)%nat.
Proof. unfold present_count. induction l as [|[x|] l IH]; csimpl; lia. Qed.

Lemma present_count_replicate {A} n : present_count (replicate n (@None A)) = 0%nat.
Proof. unfold present_count. induction n; done. Qed.

Lemma present_count_full {A} (l : list (option A)) :
  present_count l = length l -> forall i, (i < length l)%nat -> exists x, l !! i = Some (Some x).
Proof.
  intros Hc i Hi. destruct (lookup_lt_is_Some_2 l i Hi) as [[x|] Hx]; [by exists x|].
  pose proof (take_drop_middle l i None Hx) as Hl.
  rewrite <- Hl in Hc. rewrite present_count_app, length_app in Hc. simpl in Hc.
  pose proof (present_count_le_length (take i l)).
  pose proof (present_count_le_length (drop (S i) l)). unfold present_count in *. csimpl in *. lia.
Qed.

Lemma present_count_pos {A} (l : list (option A)) :
  (0 < present_count l)%nat -> exists i x, l !! i = Some (Some x).
Proof.
  unfold present_count. induction l as [|[x|] l IH]; csimpl; intros H; [lia|by exists 0%nat, x|].
  destruct (IH H) as (i & x & Hx). by exists (S i), x.
Qed.

Lemma present_count_insert {A} (l : list (option A)) i x :
  l !! i = Some None -> present_count (<[i := Some x]> l) = S (present_count l).
Proof.
  intros Hi. rewrite insert_take_drop by (by eapply lookup_lt_Some).
  rewrite <- (take_drop_middle l i None Hi) at 3. rewrite !present_count_app.
  unfold present_count. csimpl. lia.
Qed.

Lemma present_count_fmap {A B} (f : A -> B) (l : list (option A)) :
  present_count (map (fmap f) l) = present_count l.
Proof. unfold present_count. induction l as [|[x|] l IH]; csimpl; congruence. Qed.

Lemma present_count_mono {A} (l l' : list (option A)) :
  Forall2 (fun o o' => is_Some o -> is_Some o') l l' -> (present_count l <= present_count l')%nat.
Proof.
  unfold present_count. induction 1 as [|o o' l l' Ho _ IH]; [done|].
  destruct o as [x|]; [destruct Ho as [y ->]; [done|]|destruct o']; csimpl; lia.
Qed.

Lemma max_shard_len_eq packets : max_shard_len packets = max_len (omap id packets).
Proof.
  unfold max_shard_len, max_len. generalize 0%nat.
  induction packets as [|[p|] packets IH]; intros a; csimpl; [done|apply IH..].
Qed.

Lemma elem_of_omap_id {A} (l : list (option A)) x : x ∈ omap id l <-> exists i, l !! i = Some (Some x).
Proof.
  rewrite list_elem_of_omap. split.
  - intros (o & Ho & [= ->]). by apply list_elem_of_lookup in Ho.
  - intros [i Hi]. exists (Some x). split; [by eapply list_elem_of_lookup_2|done].
Qed.

Section RecvSpec.
Context {RS : ReedSolomon} {L : Link}.
#[local] Abbreviation K := lnk_K.
#[local] Abbreviation M := lnk_M.
#[local] Abbreviation sid := lnk_sid.
Let Hsid : 0 <= sid <= 4095 := lnk_sid_range.
Let HK : (1 <= K)%nat := lnk_K_pos.
Let HKM : (K + M <= 32)%nat := lnk_KM.

(** ** Receive blocks *)

(** The shard a sender transmits with index [i] for the block [B]. *)
Definition shard_at (B : Block) (i : nat) : option bytes :=
  if (i <? K)%nat then blk_data B !! i
  else if (i - K <? blk_m B)%nat then Some (rs_parity (pad_shards (blk_data B)) (i - K)) else None.

(** A slot of a decoded block: the shard itself, or a data shard padded to the
    length of the longest. *)
Definition slot_ok (B : Block) (i : nat) (p : bytes) : Prop :=
  shard_at B i = Some p \/
  exists d, (i < K)%nat /\ blk_data B !! i = Some d /\ p = make_copy (max_len (blk_data B)) d.

Record rx_core (hist : list Block) (g : nat) (rb : RxBlock) : Prop := {
  rx_K : rb_K rb = Z.of_nat K;
  rx_len : length (rb_Packets rb) = (K + M)%nat;
  rx_seqs : rb_SeqNums rb = map (fun i => u8 (Z.of_nat (g * K + i))) (seq 0 K);
  rx_slots : forall i p, rb_Packets rb !! i = Some (Some p) ->
    exists B, hist !! g = Some B /\
      (if rb_Decoded rb then slot_ok B i p else shard_at B i = Some p);
  rx_cnt : (if rb_Decoded rb then Z.of_nat K else 0) <= rb_ReceivedCnt rb
           <= Z.of_nat (present_count (rb_Packets rb));
  rx_cnt_eq : rb_Decoded rb = false ->
    rb_ReceivedCnt rb = Z.of_nat (present_count (rb_Packets rb));
  rx_dec : rb_Decoded rb = true ->
    forall i, (i < K)%nat -> exists p, rb_Packets rb !! i = Some (Some p);
}.

(** Between two packets a block that holds [K] shards is decoded. *)
Definition rx_ok (hist : list Block) (g : nat) (rb : RxBlock) : Prop :=
  rx_core hist g rb /\ (rb_Decoded rb = false -> rb_ReceivedCnt rb < Z.of_nat K).

(** Nothing received or decoded is lost between two states of a block. *)
Definition block_ext (rb rb' : RxBlock) : Prop :=
  (rb_Decoded rb = true -> rb_Decoded rb' = true) /\
  forall i q, rb_Packets rb !! i = Some (Some q) -> exists q', rb_Packets rb' !! i = Some (Some q').

Lemma shard_at_len B i p :
  block_wf B -> shard_at B i = Some p -> (length p <= max_len (blk_data B))%nat.
Proof.
  intros (HBK & HBp & _) Hp. unfold shard_at in Hp. case_match.
  - pose proof (max_len_le (blk_data B)) as Hle. rewrite Forall_forall in Hle.
    apply Hle. by eapply list_elem_of_lookup_2.
  - case_match; [|done]. injection Hp as <-. rewrite (rs_parity_length _ _ (max_len (blk_data B))).
    + done.
    + by rewrite length_pad_shards.
    + apply pad_shards_lengths.
Qed.

Lemma shard_at_parity_len B i p :
  block_wf B -> (K <= i)%nat -> shard_at B i = Some p -> length p = max_len (blk_data B).
Proof.
  intros (HBK & HBp & _) Hi Hp. unfold shard_at in Hp.
  rewrite (proj2 (Nat.ltb_ge _ _)) in Hp by done. case_match; [|done]. injection Hp as <-.
  apply rs_parity_length; [by rewrite length_pad_shards|apply pad_shards_lengths].
Qed.

(** The shards handed to the decoder are shards of the code word. *)
Lemma shard_at_codeword B i p :
  block_wf B -> shard_at B i = Some p ->
  codeword (blk_data B) M !! i = Some (make_copy (max_len (blk_data B)) p).
Proof.
  intros HB Hp. pose proof HB as (HBK & HBp & HBm).
  destruct (decide (i < K)%nat) as [Hi|Hi].
  - rewrite lookup_codeword_data by lia. unfold shard_at in Hp.
    rewrite (proj2 (Nat.ltb_lt _ _)) in Hp by done. by rewrite Hp.
  - pose proof (shard_at_parity_len B i p HB ltac:(lia) Hp) as Hl. rewrite <- Hl, make_copy_id.
    unfold shard_at in Hp. rewrite (proj2 (Nat.ltb_ge _ _)) in Hp by lia. case_match; [|done].
    replace i with (length (blk_data B) + (i - K))%nat at 1 by lia.
    rewrite lookup_codeword_parity; [done|].
    match goal with H : (_ <? _)%nat = true |- _ => apply Nat.ltb_lt in H end. lia.
Qed.

(** ** Decoding *)

Lemma padded_shards_lookup n packets i :
  padded_shards n packets !! i =
  fmap (fun p => if (length p <? n)%nat then make_copy n p else p) <$> packets !! i.
Proof. apply list_lookup_fmap. Qed.

Lemma copy_back_lookup k packets shards i :
  copy_back k packets shards !! i =
  (fun o => if (i <? k)%nat then match o with Some p => Some p | None => mjoin (shards !! i) end
            else o) <$> packets !! i.
Proof. apply list_lookup_imap. Qed.

Lemma length_copy_back k packets shards : length (copy_back k packets shards) = length packets.
Proof. apply length_imap. Qed.

Section Decode.
Context (hist : list Block) (g : nat) (B : Block) (rb : RxBlock).
Context (HB : block_wf B) (HhB : hist !! g = Some B).
Context (Hcore : rx_core hist g rb) (Hdec : rb_Decoded rb = false).
Context (Hcnt : (K <= present_count (rb_Packets rb))%nat).

Lemma undecoded_slot i p : rb_Packets rb !! i = Some (Some p) -> shard_at B i = Some p.
Proof.
  intros Hp. destruct (rx_slots _ _ _ Hcore i p Hp) as (B' & HB' & Hs).
  rewrite Hdec in Hs. by simplify_eq.
Qed.

(** With a data shard missing, a parity shard is there and fixes the length. *)
Lemma missing_data_parity :
  present_count (take K (rb_Packets rb)) <> K ->
  (1 <= M)%nat /\ max_shard_len (rb_Packets rb) = max_len (blk_data B).
Proof.
  intros Hne. pose proof (rx_len _ _ _ Hcore) as Hlen.
  pose proof (present_count_le_length (take K (rb_Packets rb))) as Hle.
  rewrite length_take_le in Hle by lia.
  assert (0 < present_count (drop K (rb_Packets rb)))%nat as Hpos.
  { rewrite <- (take_drop K (rb_Packets rb)), present_count_app in Hcnt. lia. }
  apply present_count_pos in Hpos as (j & p & Hj). rewrite lookup_drop in Hj.
  pose proof (lookup_lt_Some _ _ _ Hj) as Hlt. split; [lia|].
  rewrite max_shard_len_eq. apply undecoded_slot in Hj as Hs.
  pose proof (shard_at_parity_len B (K + j)%nat p HB ltac:(lia) Hs) as Hpl.
  pose proof (max_len_le (omap id (rb_Packets rb))) as Hall. rewrite Forall_forall in Hall.
  specialize (Hall p (proj2 (elem_of_omap_id _ _) (ex_intro _ _ Hj))). simpl in Hall.
  destruct (max_len_attained (omap id (rb_Packets rb))) as [H0|(q & Hq & Hql)]; [lia|].
  apply elem_of_omap_id in Hq as [i Hi]. apply undecoded_slot in Hi.
  pose proof (shard_at_len B i q HB Hi). lia.
Qed.

Lemma padded_erasure :
  erasure_of (padded_shards (max_len (blk_data B)) (rb_Packets rb)) (codeword (blk_data B) M).
Proof.
  pose proof HB as (HBK & _ & _).
  apply Forall2_same_length_lookup. split.
  { unfold padded_shards. rewrite length_map, length_codeword, HBK. apply Hcore. }
  intros i o c Ho Hc. rewrite padded_shards_lookup in Ho.
  destruct (rb_Packets rb !! i) as [[p|]|] eqn:E; simplify_eq/=; [|by left].
  right. apply undecoded_slot in E. pose proof (shard_at_codeword B i p HB E) as Hcw.
  pose proof (shard_at_len B i p HB E) as Hl. rewrite Hc in Hcw. injection Hcw as ->. f_equal.
  destruct (Nat.ltb_spec (length p) (max_len (blk_data B))); [done|].
  replace (max_len (blk_data B)) with (length p) by lia. by rewrite make_copy_id.
Qed.

Lemma decoded_all :
  present_count (take K (rb_Packets rb)) = K -> rx_ok hist g (set_rb_Decoded true rb).
Proof.
  intros Hall. pose proof Hcore as [H1 H2 H3 H4 H5 H6 H7].
  split; [|done]. constructor; try done.
  - intros i p Hp. simpl in *. exists B. split; [done|]. left. by apply undecoded_slot.
  - simpl. specialize (H6 Hdec). lia.
  - intros _ i Hi. simpl.
    destruct (present_count_full (take K (rb_Packets rb))) with (i := i) as [x Hx].
    + rewrite Hall, length_take_le; lia.
    + rewrite length_take_le; lia.
    + exists x. by rewrite lookup_take_lt in Hx by done.
Qed.

Lemma decoded_reconstructed :
  rx_ok hist g (set_rb_Decoded true (set_rb_Packets
    (copy_back K (rb_Packets rb) (map Some (codeword (blk_data B) M))) rb)).
Proof.
  pose proof Hcore as [H1 H2 H3 H4 H5 H6 H7]. pose proof HB as (HBK & _ & _).
  assert (forall i, (i < K)%nat -> exists p,
    copy_back K (rb_Packets rb) (map Some (codeword (blk_data B) M)) !! i = Some (Some p) /\
    slot_ok B i p) as Hdata.
  { intros i Hi. rewrite copy_back_lookup, (proj2 (Nat.ltb_lt _ _)) by done.
    destruct (lookup_lt_is_Some_2 (rb_Packets rb) i) as [[p|] Hp]; [lia| |]; rewrite Hp; simpl.
    - exists p. split; [done|]. left. by apply undecoded_slot.
    - destruct (lookup_lt_is_Some_2 (blk_data B) i) as [d Hd]; [lia|].
      exists (make_copy (max_len (blk_data B)) d). split; [|right; by exists d].
      rewrite list_lookup_fmap, lookup_codeword_data, Hd by lia. done. }
  split; [|done]. constructor; try done.
  - simpl. by rewrite length_copy_back.
  - intros i p Hp. simpl in *. exists B. split; [done|].
    destruct (decide (i < K)%nat) as [Hi|Hi].
    + destruct (Hdata i Hi) as (p' & Hp' & ?). congruence.
    + rewrite copy_back_lookup, (proj2 (Nat.ltb_ge _ _)) in Hp by lia.
      left. apply undecoded_slot. by destruct (rb_Packets rb !! i); simplify_eq/=.
  - simpl. pose proof (H6 Hdec). split; [lia|]. rewrite H6 by done. apply Nat2Z.inj_le.
    apply present_count_mono. apply Forall2_same_length_lookup.
    split; [by rewrite length_copy_back|]. intros i o o' Ho Ho'.
    rewrite copy_back_lookup, Ho in Ho'. simpl in Ho'. injection Ho' as <-.
    destruct o; [|by intros []]. by destruct (i <? K)%nat; eauto.
  - intros _ i Hi. simpl. destruct (Hdata i Hi) as (p & Hp & _). by exists p.
Qed.

Lemma tryDecode_ok (s : Session) :
  fec_ok (s_FEC s) ->
  exists f (rb' : RxBlock), fec_ok f /\ tryDecodeBlock rb s = Some (rb', with_fec s f, [EBroadcast]) /\
    rx_ok hist g rb' /\ rb_Decoded rb' = true /\ block_ext rb rb'.
Proof.
  intros Hf. pose proof Hcore as [H1 H2 H3 H4 H5 H6 H7]. pose proof HB as (HBK & HBp & _).
  unfold tryDecodeBlock. rewrite H1, Nat2Z.id, (proj2 (Nat.ltb_ge _ _)) by lia.
  assert (with_fec s (s_FEC s) = s) as Hid by by destruct s.
  change (len (omap id (take K (rb_Packets rb))))
    with (Z.of_nat (present_count (take K (rb_Packets rb)))).
  destruct (Z.eqb_spec (Z.of_nat (present_count (take K (rb_Packets rb)))) (Z.of_nat K)) as [E|E].
  { exists (s_FEC s), (set_rb_Decoded true rb). rewrite Hid.
    split_and!; try done; [apply decoded_all; lia|split; [done|by eauto]]. }
  destruct missing_data_parity as [HM Hml]; [lia|]. rewrite Hml.
  assert (0 < max_len (blk_data B))%nat as Hpos.
  { apply max_len_pos; [done|]. destruct (blk_data B); simpl in *; [lia|done]. }
  rewrite (proj2 (Nat.eqb_neq _ _)) by lia.
  replace (len (rb_Packets rb) - Z.of_nat K) with (Z.of_nat M) by (unfold len; lia).
  unfold go_bind, go_get.
  pose proof (Reconstruct_fec_ok (s_FEC s) (Z.of_nat K) (Z.of_nat M)
    (padded_shards (max_len (blk_data B)) (rb_Packets rb)) Hf) as Hf'.
  pose proof (Reconstruct_ok (s_FEC s) M (blk_data B)
    (padded_shards (max_len (blk_data B)) (rb_Packets rb)) Hf HBK) as HR.
  destruct (Reconstruct _ _ _ _) as [r f]. simpl in HR, Hf'. rewrite HR; try done.
  - exists f. eexists. split; [done|]. split; [done|]. split_and!; [apply decoded_reconstructed|done|].
    split; [done|]. simpl. intros i q Hq. exists q. rewrite copy_back_lookup, Hq. simpl.
    by destruct (_ <? _)%nat.
  - eapply Forall_impl; [done|]. apply payload_ok_bytes.
  - apply padded_erasure.
  - unfold padded_shards. by rewrite present_count_fmap.
Qed.

End Decode.

(** ** Storing a shard *)

Lemma grow_block_id hist g rb i :
  rx_core hist g rb -> (i < K + M)%nat -> grow_block i rb = rb.
Proof.
  intros Hc Hi. unfold grow_block. rewrite (rx_len _ _ _ Hc).
  by rewrite (proj2 (Nat.leb_gt _ _)) by lia.
Qed.

Lemma store_shard_ok hist g B rb i pl :
  hist !! g = Some B -> shard_at B i = Some pl -> (i < K + M)%nat ->
  rx_core hist g rb -> rx_core hist g (store_shard i (Some pl) rb).
Proof.
  intros HB Hs Hi Hc. pose proof Hc as [H1 H2 H3 H4 H5 H6 H7]. unfold store_shard.
  destruct (lookup_lt_is_Some_2 (rb_Packets rb) i) as [[q|] Hq]; [lia|by rewrite Hq|].
  rewrite Hq. simpl. constructor; try done; simpl.
  - by rewrite length_insert.
  - intros j p Hp. destruct (decide (i = j)) as [<-|Hne].
    + rewrite list_lookup_insert_eq in Hp by lia. injection Hp as <-.
      exists B. split; [done|]. case_match; [by left|done].
    + rewrite list_lookup_insert_ne in Hp by done. by apply H4.
  - rewrite present_count_insert by done. lia.
  - intros Hd. rewrite present_count_insert by done. rewrite H6 by done. lia.
  - intros Hd j Hj. destruct (H7 Hd j Hj) as [p Hp]. exists p.
    rewrite list_lookup_insert_ne; [done|]. intros ->. congruence.
Qed.

Lemma store_shard_decoded i pl rb : rb_Decoded (store_shard i pl rb) = rb_Decoded rb.
Proof. unfold store_shard. by case_match. Qed.

Lemma store_shard_ext i pl rb :
  (i < length (rb_Packets rb))%nat ->
  (exists q, rb_Packets (store_shard i (Some pl) rb) !! i = Some (Some q)) /\
  block_ext rb (store_shard i (Some pl) rb).
Proof.
  intros Hi. split; [|split; [by rewrite store_shard_decoded|intros j q Hj]]; unfold store_shard;
    destruct (lookup_lt_is_Some_2 (rb_Packets rb) i Hi) as [[p|] Hp]; rewrite Hp; simpl; eauto.
  - exists pl. by rewrite list_lookup_insert_eq.
  - exists q. rewrite list_lookup_insert_ne; [done|]. intros ->. congruence.
Qed.

(** The static sequence numbers of a receive block depend on the group number
    modulo 65536 only. *)
Lemma static_seq x k i : u8 (((u16 x * k) mod 256 + i) mod 256) = u8 (x * k + i).
Proof.
  unfold u8, u16. rewrite Z.mod_mod, Zplus_mod_idemp_l by done.
  rewrite (Z.div_mod x 65536) at 2 by done.
  replace ((65536 * (x / 65536) + x mod 65536) * k + i)
    with (x mod 65536 * k + i + (256 * (x / 65536) * k) * 256) by ring.
  by rewrite Z_mod_plus_full.
Qed.

Lemma new_block_ok hist g first :
  first = (u16 (Z.of_nat g) * Z.of_nat K) mod 256 ->
  exists rb, new_RxBlock (u16 (Z.of_nat g)) (Z.of_nat K) (Z.of_nat M) first = Some rb /\
    rx_ok hist g (set_rb_LQRTimer true rb).
Proof.
  intros ->. unfold new_RxBlock. rewrite !(proj2 (Z.ltb_ge _ _)) by lia. simpl.
  eexists. split; [done|]. split; [|simpl; lia].
  constructor; simpl; try done.
  - rewrite length_replicate. lia.
  - rewrite Nat2Z.id. apply map_ext_in. intros i Hi. apply in_seq in Hi.
    rewrite Nat2Z.inj_add, Nat2Z.inj_mul. apply static_seq.
  - intros i p Hp. by apply lookup_replicate in Hp as [? _].
  - rewrite present_count_replicate. lia.
  - by rewrite present_count_replicate.
Qed.

(** ** The receive state *)

(** [g] is close enough to [W] for the 16-bit comparison to be meaningful. *)
Definition in_window (W g : nat) : Prop := -32768 < Z.of_nat g - Z.of_nat W <= 32768.

#[global] Instance in_window_dec W g : Decision (in_window W g).
Proof. unfold in_window. apply _. Defined.

Record rcv_inv (hist : list Block) (W : nat) (s : Session) : Prop := {
  ri_cfg : cfg_is (s_cfg s);
  ri_fec : fec_ok (s_FEC s);
  ri_hist : Forall block_wf hist;
  ri_next : nextWriteGrp (s_rx s) = u16 (Z.of_nat W);
  ri_blocks : forall id rb, rxBlocks (s_rx s) !! id = Some rb ->
    exists g, id = u16 (Z.of_nat g) /\ (W <= g)%nat /\ in_window W g /\ rx_ok hist g rb;
}.

Lemma seq_after_window W g :
  in_window W g -> seq_after (u16 (Z.of_nat W)) (u16 (Z.of_nat g)) = bool_decide (g < W)%nat.
Proof.
  intros [H1 H2]. unfold seq_after. rewrite Z.gtb_ltb.
  replace (u16 (u16 (Z.of_nat W) - u16 (Z.of_nat g))) with (u16 (Z.of_nat W - Z.of_nat g))
    by apply Zminus_mod.
  case_bool_decide as Hlt.
  - rewrite u16_small by (unfold is_u16; lia). apply andb_true_iff. rewrite !Z.ltb_lt. lia.
  - apply andb_false_iff. rewrite !Z.ltb_ge.
    destruct (decide (g = W)) as [->|Hne]; [left; by rewrite Z.sub_diag|right].
    unfold u16. rewrite <- (Z_mod_plus_full _ 1), Z.mod_small; lia.
Qed.

Lemma in_window_inj W g g' :
  in_window W g -> in_window W g' -> (W <= g)%nat -> (W <= g')%nat ->
  u16 (Z.of_nat g) = u16 (Z.of_nat g') -> g = g'.
Proof. unfold in_window. intros. go_range. Qed.

(** ** Packets of a block *)

Lemma block_pkt_inv g B p :
  block_wf B -> p ∈ block_pkts g B ->
  exists i pl, (i < K + M)%nat /\ shard_at B i = Some pl /\ p_Type p = TypeData /\
    p_StreamID p = sid /\ p_GroupID p = u16 (Z.of_nat g) /\ p_Idx p = Z.of_nat i /\
    p_Payload p = Some pl /\ wire_view p = p /\ Packet_wf p.
Proof.
  intros HB Hp. pose proof HB as (HBK & HBp & HBm).
  assert (Forall bytes_ok (blk_data B)) as Hok by (eapply Forall_impl; [done|apply payload_ok_bytes]).
  apply elem_of_app in Hp as [Hp|Hp].
  - apply elem_of_block_data_pkts in Hp as (i & d & Hd & Hi & ->); [|done].
    exists i, d. split; [lia|]. simpl. rewrite (u8_small (Z.of_nat i)) by (unfold is_u8; lia).
    split; [unfold shard_at; by rewrite (proj2 (Nat.ltb_lt _ _)) by done|].
    split_and!; try done.
    + unfold wire_view, data_packet. simpl. rewrite (u8_small (Z.of_nat i)) by (unfold is_u8; lia).
      by rewrite Z.mod_small by lia.
    + pose proof (Forall_lookup_1 _ _ _ _ Hok Hd). unfold Packet_wf. simpl.
      rewrite (u8_small (Z.of_nat i)) by (unfold is_u8; lia).
      split_and!; try done; try apply u8_range; try apply u16_range; unfold is_u8, is_u16, TypeData; lia.
  - apply elem_of_block_parity_pkts in Hp as (j & Hj & ->).
    exists (K + j)%nat. eexists. split; [lia|]. simpl.
    rewrite <- Nat2Z.inj_add, (u8_small (Z.of_nat (K + j))) by (unfold is_u8; lia).
    split.
    { unfold shard_at. rewrite (proj2 (Nat.ltb_ge _ _)) by lia.
      replace (K + j - K)%nat with j by lia. by rewrite (proj2 (Nat.ltb_lt _ _)) by done. }
    split_and!; try done.
    + unfold wire_view, parity_packet. simpl. rewrite u8_small by (unfold is_u8; lia).
      by rewrite Z.mod_small by lia.
    + unfold Packet_wf. simpl. rewrite u8_small by (unfold is_u8; lia).
      split_and!; try done; try apply u16_range; try (unfold is_u8, is_u16, TypeData; lia).
      by apply rs_parity_ok, pad_shards_ok.
Qed.

(** ** Steps of the receiver *)

(** Slot [i] of block [id] holds a shard. *)
Definition filled (s : Session) (id : Z) (i : nat) : Prop :=
  exists rb q, rxBlocks (s_rx s) !! id = Some rb /\ rb_Packets rb !! i = Some (Some q).

(** What a receive step leaves alone beside the blocks. *)
Definition rx_same (s s' : Session) : Prop :=
  s_cfg s' = s_cfg s /\ s_tx s' = s_tx s /\ s_Shaper s' = s_Shaper s /\ s_done s' = s_done s /\
  nextWriteGrp (s_rx s') = nextWriteGrp (s_rx s) /\ recvClosed (s_rx s') = recvClosed (s_rx s).

(** No block is lost, and everything received or decoded stays. *)
Definition rx_frame (s s' : Session) : Prop :=
  rx_same s s' /\
  forall id rb, rxBlocks (s_rx s) !! id = Some rb ->
    exists rb', rxBlocks (s_rx s') !! id = Some rb' /\ block_ext rb rb'.

#[global] Instance block_ext_preorder : PreOrder block_ext.
Proof.
  split; [by split; eauto|]. intros r1 r2 r3 [A1 A2] [B1 B2]. split; [auto|].
  intros i q Hq. destruct (A2 i q Hq) as [q' Hq']. eauto.
Qed.

#[global] Instance rx_same_preorder : PreOrder rx_same.
Proof.
  split; [by repeat split|]. intros r1 r2 r3 (A1 & A2 & A3 & A4 & A5 & A6) (B1 & B2 & B3 & B4 & B5 & B6).
  split_and!; by etransitivity.
Qed.

#[global] Instance rx_frame_preorder : PreOrder rx_frame.
Proof.
  split; [split; [done|]; intros id rb Hr; by exists rb|].
  intros r1 r2 r3 [A1 A2] [B1 B2]. split; [by transitivity r2|]. intros id rb Hr.
  destruct (A2 id rb Hr) as (rb' & Hr' & E'). destruct (B2 id rb' Hr') as (rb'' & Hr'' & E'').
  exists rb''. split; [done|]. by transitivity rb'.
Qed.

Lemma rx_frame_filled s s' id i : rx_frame s s' -> filled s id i -> filled s' id i.
Proof.
  intros [_ Hf] (rb & q & Hr & Hq). destruct (Hf id rb Hr) as (rb' & Hr' & [_ He]).
  destruct (He i q Hq) as [q' Hq']. by exists rb', q'.
Qed.

Lemma rx_frame_put s s' id rb' :
  rx_same s s' -> rxBlocks (s_rx s') = <[id := rb']> (rxBlocks (s_rx s)) ->
  (forall rb, rxBlocks (s_rx s) !! id = Some rb -> block_ext rb rb') -> rx_frame s s'.
Proof.
  intros Hsame E Hext. split; [done|]. intros id' rb Hr. rewrite E.
  destruct (decide (id' = id)) as [->|Hne].
  - exists rb'. rewrite lookup_insert_eq. auto.
  - exists rb. by rewrite lookup_insert_ne.
Qed.

Lemma rcv_inv_put hist W s s' g rb' :
  rcv_inv hist W s -> rx_same s s' -> fec_ok (s_FEC s') ->
  rxBlocks (s_rx s') = <[u16 (Z.of_nat g) := rb']> (rxBlocks (s_rx s)) ->
  (W <= g)%nat -> in_window W g -> rx_ok hist g rb' -> rcv_inv hist W s'.
Proof.
  intros [H1 H2 H3 H4 H5] (E1 & _ & _ & _ & E3 & _) E2 E4 Hg Hw Hok.
  constructor; rewrite ?E1, ?E3; try done.
  intros id rb. rewrite E4. intros [[<- <-]|[Hne Hr]]%lookup_insert_Some; [by exists g|by apply H5].
Qed.

Lemma rcv_inv_frame hist W s s' :
  rcv_inv hist W s -> s_cfg s' = s_cfg s -> fec_ok (s_FEC s') ->
  nextWriteGrp (s_rx s') = nextWriteGrp (s_rx s) -> rxBlocks (s_rx s') = rxBlocks (s_rx s) ->
  rcv_inv hist W s'.
Proof.
  intros [H1 H2 H3 H4 H5] E1 E2 E3 E4. constructor; rewrite ?E1, ?E3, ?E4; done.
Qed.

(** ** DATA packets *)

Definition timers_only (es : list Effect) : Prop := Forall (fun e => is_timer_effect e = true) es.

Lemma get_or_create_ok hist W s g :
  rcv_inv hist W s -> (W <= g)%nat -> in_window W g ->
  exists rb es, get_or_create_block (u16 (Z.of_nat g)) s =
      Some (rb, with_rx s (set_rxBlocks (<[u16 (Z.of_nat g) := rb]> (rxBlocks (s_rx s))) (s_rx s)), es) /\
    rx_ok hist g rb /\ timers_only es /\
    (forall rb0, rxBlocks (s_rx s) !! u16 (Z.of_nat g) = Some rb0 -> rb0 = rb).
Proof.
  intros [(Hc1 & Hc2 & Hc3) H2 H3 H4 H5] Hg Hw. unfold get_or_create_block, go_bind, go_get.
  destruct (rxBlocks (s_rx s) !! u16 (Z.of_nat g)) as [rb|] eqn:E.
  - exists rb, []. rewrite insert_id by done. split_and!.
    + by destruct s as [? ? [] ? ? ? ?].
    + destruct (H5 _ _ E) as (g' & Hid & Hg' & Hw' & Hok).
      by rewrite (in_window_inj W g g').
    + constructor.
    + congruence.
  - rewrite Hc2, Hc3. destruct (new_block_ok hist g _ eq_refl) as (rb & Hn & Hok). rewrite Hn.
    eexists _, _. split; [done|]. split_and!; [done|by repeat constructor|done].
Qed.

Lemma decode_if_ready_ok hist g B rb s :
  hist !! g = Some B -> block_wf B -> rx_core hist g rb -> fec_ok (s_FEC s) ->
  rxBlocks (s_rx s) !! u16 (Z.of_nat g) = Some rb ->
  exists rb' s' es, decode_if_ready (u16 (Z.of_nat g)) rb s = Some (tt, s', es) /\
    rxBlocks (s_rx s') = <[u16 (Z.of_nat g) := rb']> (rxBlocks (s_rx s)) /\
    rx_ok hist g rb' /\ block_ext rb rb' /\ rx_same s s' /\ fec_ok (s_FEC s') /\ timers_only es.
Proof.
  intros HB HBw Hcore Hf Hl. unfold decode_if_ready. rewrite (rx_K _ _ _ Hcore).
  destruct (rb_Decoded rb) eqn:Hd; simpl; rewrite ?andb_false_r, ?andb_true_r.
  { exists rb, s, []. rewrite insert_id by done. split_and!; try done; [|constructor].
    split; [done|congruence]. }
  pose proof (rx_cnt_eq _ _ _ Hcore Hd) as Hc.
  destruct (rb_ReceivedCnt rb >=? Z.of_nat K) eqn:E; go_bool; last first.
  { exists rb, s, []. rewrite insert_id by done. split_and!; try done. constructor. }
  destruct (tryDecode_ok hist g B rb HBw HB Hcore Hd ltac:(lia) s Hf)
    as (f & rb' & Hf' & HT & Hok & Hdec & Hext).
  unfold go_bind. rewrite HT. exists rb'. eexists _, _. split; [done|]. split_and!; try done.
  by repeat constructor.
Qed.

Lemma insert_shard_ok hist W s g B i pl :
  rcv_inv hist W s -> hist !! g = Some B -> shard_at B i = Some pl -> (i < K + M)%nat ->
  (W <= g)%nat -> in_window W g ->
  exists s' es, insert_shard (u16 (Z.of_nat g)) i (Some pl) s = Some (tt, s', es) /\
    rcv_inv hist W s' /\ rx_frame s s' /\ timers_only es /\ filled s' (u16 (Z.of_nat g)) i.
Proof.
  intros Hi HB Hs Hik Hg Hw.
  assert (block_wf B) as HBw by (eapply Forall_lookup_1; [apply Hi|done]).
  destruct (get_or_create_ok hist W s g Hi Hg Hw) as (rb & es1 & HG & [Hcore _] & Ht1 & Hex).
  unfold insert_shard, go_bind. rewrite HG, (grow_block_id hist g) by done.
  set (rb2 := store_shard i (Some pl) rb). set (s1 := with_rx s _).
  assert (rx_core hist g rb2) as Hcore2 by (by eapply store_shard_ok).
  destruct (store_shard_ext i pl rb) as [[q Hq] Hext]; [by rewrite (rx_len _ _ _ Hcore)|].
  fold rb2 in Hq, Hext. unfold put_block, mod_rx, go_modify.
  set (s2 := with_rx s1 _).
  assert (rxBlocks (s_rx s2) = <[u16 (Z.of_nat g) := rb2]> (rxBlocks (s_rx s))) as Hb2
    by (unfold s2, s1; simpl; by rewrite insert_insert_eq).
  destruct (decode_if_ready_ok hist g B rb2 s2) as (rb3 & s3 & es3 & HD & Hb3 & Hok3 & Hext3 & Hsame3 & Hf3 & Ht3);
    try done; [apply Hi|by rewrite Hb2, lookup_insert_eq|].
  rewrite Hb2, insert_insert_eq in Hb3. rewrite HD.
  assert (rx_same s s3) as Hsame by (transitivity s2; [by repeat split|done]).
  exists s3. eexists. split; [done|]. split_and!.
  - by eapply rcv_inv_put.
  - eapply rx_frame_put; [done..|]. intros rb0 Hr. rewrite (Hex rb0 Hr). by transitivity rb2.
  - by apply Forall_app.
  - destruct (proj2 Hext3 i q Hq) as [q' Hq']. exists rb3, q'. by rewrite Hb3, lookup_insert_eq.
Qed.

Lemma HandleData_ok hist W s now g B p :
  rcv_inv hist W s -> hist !! g = Some B -> p ∈ block_pkts g B -> in_window W g ->
  exists s' es, HandleDataPacket now p s = Some (tt, s', es) /\ rcv_inv hist W s' /\
    rx_frame s s' /\ timers_only es /\
    (recvClosed (s_rx s) = false -> (W <= g)%nat ->
     filled s' (u16 (Z.of_nat g)) (Z.to_nat (p_Idx p))).
Proof.
  intros Hi HB Hp Hw. pose proof Hi as [H1 H2 H3 H4 H5].
  destruct (block_pkt_inv g B p) as (i & pl & Hik & Hs & _ & _ & HpG & HpI & HpP & _);
    [by eapply Forall_lookup_1|done|].
  unfold HandleDataPacket. rewrite HpG, HpI, HpP, Nat2Z.id.
  set (rx := note_group (u16 (Z.of_nat g)) (s_rx s)).
  set (st := with_st s (set_lastActive now (s_st s))). set (s0 := with_rx st rx).
  unfold go_bind. simpl. change (with_st s (set_lastActive now (s_st s))) with st.
  destruct (recvClosed (s_rx s)) eqn:EC.
  { exists st, []. split_and!; try done; [|constructor].
    split; [by repeat split|]. intros id rb Hr. by exists rb. }
  assert (nextWriteGrp rx = nextWriteGrp (s_rx s) /\ rxBlocks rx = rxBlocks (s_rx s) /\
    recvClosed rx = recvClosed (s_rx s)) as (Ex1 & Ex2 & Ex3).
  { unfold rx, note_group. by repeat case_match. }
  change (with_rx st (note_group _ _)) with s0.
  assert (rcv_inv hist W s0) as Hs0 by (by apply (rcv_inv_frame hist W s)).
  assert (rx_frame s s0) as Hf0.
  { split; [by repeat split|]. unfold s0. simpl. rewrite Ex2. intros id rb Hr. by exists rb. }
  rewrite H4, seq_after_window by done. case_bool_decide as Hlt.
  { exists s0, []. split_and!; try done; [constructor|lia]. }
  destruct (insert_shard_ok hist W s0 g B i pl) as (s' & es & HI & Hi' & Hf & Ht & Hfl); try done; [lia|].
  rewrite HI. exists s', es. split_and!; try done. by transitivity s0.
Qed.

(** ** Control packets *)

(** A datagram the peer's demultiplexer decodes to a packet other than DATA. *)
Definition ctl_frame (b : bytes) : Prop :=
  exists p, Unmarshal (ReadFrom b) = Some (Ok p) /\ p_Type p <> TypeData.

(** Effects of the steps that neither transmit DATA nor write to the TCP side. *)
Definition ctl_effect (e : Effect) : Prop :=
  match e with EUdp b => ctl_frame b | ETcpWrite _ => False | _ => True end.

Lemma timers_only_ctl es : timers_only es -> Forall ctl_effect es.
Proof. intros H. eapply Forall_impl; [done|]. by intros [| | | | | |]. Qed.

Lemma ReadFrom_small b : len b <= 2048 -> ReadFrom b = b.
Proof. intros H. unfold ReadFrom. apply take_ge. unfold len, recv_buf in *. lia. Qed.

Lemma Marshal_ctl p b :
  Packet_wf p -> p_Type p <> TypeData -> frame_size p <= 2048 -> Marshal p = Ok b -> ctl_frame b.
Proof.
  intros Hwf Ht Hl HM. exists (wire_view p).
  rewrite ReadFrom_small by (by rewrite (Marshal_len p b HM)). split.
  - destruct (Marshal_decode p b Hwf HM) as (rest & -> & Hr & Hty & Hid & HD).
    by rewrite Marshal_header, HD.
  - unfold wire_view. by repeat case_match.
Qed.

(** A DATA frame fits in the receive buffer. *)
Lemma block_frame_len g B p b :
  block_wf B -> p ∈ block_pkts g B -> Marshal p = Ok b -> len b <= 2048.
Proof.
  intros HBw Hp HM.
  destruct (block_pkt_inv g B p HBw Hp) as (i & pl & Hi & Hs & Ht & _ & _ & _ & Hpl & _).
  rewrite (Marshal_len p b HM). unfold frame_size. rewrite Ht, Hpl. simpl.
  pose proof (shard_at_len B i pl HBw Hs) as Hl. unfold len.
  assert (max_len (blk_data B) <= 2042)%nat; [|lia].
  destruct (max_len_attained (blk_data B)) as [->|(d & Hd & <-)]; [lia|].
  destruct HBw as (_ & HBp & _). destruct (proj1 (Forall_forall _ _) HBp d Hd) as (c & -> & Hc & _).
  rewrite length_mk_payload. unfold max_chunk, len in Hc. lia.
Qed.

(** A DATA frame decodes to the packet it was made from. *)
Lemma data_frame_decodes hist g B p b :
  Forall block_wf hist -> hist !! g = Some B -> p ∈ block_pkts g B -> Marshal p = Ok b ->
  Unmarshal (ReadFrom b) = Some (Ok p).
Proof.
  intros Hh HB Hp HM. assert (block_wf B) as HBw by (by eapply Forall_lookup_1).
  destruct (block_pkt_inv g B p HBw Hp) as (i & pl & Hi & Hs & Ht & _ & _ & _ & Hpl & Hwv & Hwf).
  rewrite ReadFrom_small by (by eapply block_frame_len).
  destruct (Marshal_decode p b Hwf HM) as (rest & -> & Hr & Hty & Hid & HD).
  by rewrite Marshal_header, HD, Hwv.
Qed.

(** The control packets of a session. *)
Definition session_ctl (p : Packet) : Prop :=
  p_StreamID p = sid /\ Packet_wf p /\
  (p_Type p = TypeLqr \/ p_Type p = TypeNak \/ p_Type p = TypeClose \/ p_Type p = TypeReset).

Lemma session_ctl_frame p :
  session_ctl p -> exists b, Marshal p = Ok b /\ ctl_frame b /\
    forall now s, sendPacketDirect now p s =
      Some (tt, with_st s (set_txBytes (u64 (txBytes (s_st s) + len b))
                 (set_txPackets (u64 (txPackets (s_st s) + 1)) (set_lastActive now (s_st s)))), [EUdp b]).
Proof.
  intros (Hs & Hwf & Ht).
  assert (is_Ok (Marshal p) = true) as Hok.
  { rewrite Marshal_ok_iff by done. unfold marshalable. rewrite Hs.
    destruct Ht as [->|[->|[->| ->]]]; unfold TypeConnect, TypeConnErr; simpl; by go_tests. }
  destruct (Marshal p) as [b|] eqn:HM; [|done]. exists b. split; [done|]. split.
  - apply (Marshal_ctl p); try done; [by destruct Ht as [->|[->|[->| ->]]]|].
    unfold frame_size. by destruct Ht as [->|[->|[->| ->]]].
  - intros now s. unfold sendPacketDirect. by rewrite HM.
Qed.

Lemma nak_ctl q : is_u8 q -> session_ctl (nak_packet sid q).
Proof.
  intros Hq. split_and!; try done; [|by auto]. unfold Packet_wf, nak_packet. simpl.
  split_and!; try done; unfold is_u8, is_u16, TypeNak; try lia. constructor.
Qed.

Lemma lqr_ctl grp l : is_u16 grp -> is_u8 l -> session_ctl (lqr_packet sid grp l).
Proof.
  intros Hg Hl. split_and!; try done; [|by auto]. unfold Packet_wf, lqr_packet. simpl.
  split_and!; try done; unfold is_u8, is_u16, TypeLqr; try lia. constructor.
Qed.

Lemma base_ctl t : t = TypeClose \/ t = TypeReset -> session_ctl (base_packet t sid).
Proof.
  intros Ht. split_and!; try done; [|by auto]. unfold Packet_wf, base_packet. simpl.
  split_and!; try done; unfold is_u8, is_u16; try lia; [|constructor].
  destruct Ht as [->| ->]; done.
Qed.

(** ** Reports and requests *)

Lemma handleLQRTimeout_ok hist W s now g :
  rcv_inv hist W s -> is_u16 g ->
  exists s' es, handleLQRTimeout now g s = Some (tt, s', es) /\ rcv_inv hist W s' /\
    rx_frame s s' /\ Forall ctl_effect es.
Proof.
  intros Hi Hg. pose proof Hi as [(Hc1 & _) H2 H3 H4 H5]. unfold handleLQRTimeout, go_bind, go_get.
  destruct (rxBlocks (s_rx s) !! g) as [rb|] eqn:E; [|by exists s, []].
  destruct (rb_LQRReported rb); [by exists s, []|].
  rewrite Hc1.
  destruct (session_ctl_frame (lqr_packet sid g (u8 (block_losses rb)))) as (b & _ & Hb & Hsend);
    [apply lqr_ctl; [done|apply u8_range]|].
  simpl. rewrite Hsend. simpl. eexists _, _. split; [done|].
  destruct (H5 g rb E) as (g' & -> & Hg' & Hw & [Hco Hlow]).
  assert (rx_ok hist g' (set_rb_LQRReported true rb)) as Hok by (split; [by destruct Hco|done]).
  split_and!.
  - by eapply (rcv_inv_put hist W s).
  - eapply (rx_frame_put s); [by repeat split|done|]. intros rb0 Hr. rewrite E in Hr.
    injection Hr as <-. split; [done|]. simpl. eauto.
  - by repeat constructor.
Qed.

Lemma nak_step_ok hist W s now g pc :
  rcv_inv hist W s ->
  exists pc' s' es, nak_step now g pc s = Some (pc', s', es) /\ rcv_inv hist W s' /\
    rx_frame s s' /\ Forall ctl_effect es.
Proof.
  intros Hi. pose proof Hi as [(Hc1 & _) H2 H3 H4 H5]. unfold nak_step, go_bind, go_get.
  destruct pc as [|i| |]; [| | |by eexists _, s, []].
  - destruct (s_done s); [by eexists _, s, []|].
    destruct (rxBlocks (s_rx s) !! g) as [rb|]; [|by eexists _, s, []].
    destruct (rb_Decoded rb); [by eexists _, s, []|]. destruct (_ <? _); by eexists _, s, [].
  - destruct (rxBlocks (s_rx s) !! g) as [rb|] eqn:E; [|by eexists _, s, []].
    destruct (H5 g rb E) as (g' & -> & Hg' & Hw & [[H6 H7 H8 H9 _ _ _] _]). rewrite H6.
    destruct (Z.ltb_spec (Z.of_nat i) (Z.of_nat K)); [|by eexists _, s, []].
    destruct (lookup_lt_is_Some_2 (rb_Packets rb) i) as [[q|] Hq]; [lia| |]; rewrite Hq; simpl;
      [by eexists _, s, []|].
    rewrite H8, list_lookup_fmap, lookup_seq_lt by lia. simpl. rewrite Hc1.
    destruct (session_ctl_frame (nak_packet sid (u8 (Z.of_nat (g' * K + i))))) as (b & _ & Hb & Hsend);
      [apply nak_ctl, u8_range|].
    rewrite Hsend. simpl. eexists _, _, _. split; [done|]. split_and!.
    + by apply (rcv_inv_frame hist W s).
    + split; [by repeat split|]. intros id rb0 Hr. by exists rb0.
    + by repeat constructor.
  - eexists _, s, _. split; [done|]. split_and!; try done. by repeat constructor.
Qed.

(** ** The TCP write loop *)

(** The part of the peer's stream that [hist] carries. *)
Definition blocks_stream (hist : list Block) : bytes :=
  concat (map (fun B => stream_of (blk_data B)) hist).

(** What the effects write to the TCP connection. *)
Definition written (es : list Effect) : bytes :=
  concat (map (fun e => match e with ETcpWrite d => d | _ => [] end) es).

Lemma written_app es1 es2 : written (es1 ++ es2) = written es1 ++ written es2.
Proof. unfold written. by rewrite map_app, concat_app. Qed.

Lemma written_ctl es : Forall ctl_effect es -> written es = [].
Proof. unfold written. induction 1 as [|e es He _ IH]; [done|]. simpl. rewrite IH. by destruct e. Qed.

Lemma shard_data_mk chunk tail :
  len chunk <= max_chunk ->
  shard_data (mk_payload chunk ++ tail) = if bool_decide (chunk = []) then None else Some chunk.
Proof.
  intros Hl. unfold mk_payload. simpl. pose proof (len_nonneg chunk) as Hn.
  rewrite Uint16_PutUint16 by (unfold is_u16, max_chunk in *; lia).
  autorewrite with go_rw. pose proof (len_nonneg tail).
  rewrite (proj2 (Z.leb_le _ _)), andb_true_r by lia. case_bool_decide as E.
  - by subst.
  - rewrite Z.gtb_ltb, (proj2 (Z.ltb_lt _ _)).
    + unfold len. by rewrite Nat2Z.id, take_app_length.
    + destruct chunk; [done|]. rewrite len_cons. pose proof (len_nonneg chunk). lia.
Qed.

(** A slot of a decoded block yields the bytes the sender put in the shard. *)
Lemma slot_ok_data B i p :
  block_wf B -> (i < K)%nat -> slot_ok B i p ->
  exists chunk, blk_data B !! i = Some (mk_payload chunk) /\
    shard_data p = if bool_decide (chunk = []) then None else Some chunk.
Proof.
  intros (HBK & HBp & _) Hi Hs.
  assert (exists d tail, blk_data B !! i = Some d /\ p = d ++ tail) as (d & tail & Hd & ->).
  { destruct Hs as [Hs|(d & _ & Hd & ->)].
    - unfold shard_at in Hs. rewrite (proj2 (Nat.ltb_lt _ _)) in Hs by done.
      exists p, []. by rewrite app_nil_r.
    - exists d. eexists. split; [done|]. apply make_copy_ge.
      pose proof (max_len_le (blk_data B)) as Hle. by eapply (Forall_lookup_1 _ _ _ _ Hle). }
  destruct (Forall_lookup_1 _ _ _ _ HBp Hd) as (chunk & -> & Hl & _).
  exists chunk. split; [done|]. by apply shard_data_mk.
Qed.

(** The block the writer is working on. *)
Definition writing (hist : list Block) (W : nat) (s : Session) (B : Block) : Prop :=
  hist !! W = Some B /\
  exists rb, rxBlocks (s_rx s) !! u16 (Z.of_nat W) = Some rb /\ rb_Decoded rb = true.

Definition writer_inv (hist : list Block) (W : nat) (s : Session) (pc : WriterPC) (out : bytes) : Prop :=
  match pc with
  | WrTop | WrWait => out = blocks_stream (take W hist)
  | WrWrite i => exists B, writing hist W s B /\ (i <= K)%nat /\
      out = blocks_stream (take W hist) ++ stream_of (take i (blk_data B))
  | WrCleanup | WrReport | WrDelete => exists B, writing hist W s B /\
      out = blocks_stream (take (S W) hist)
  | WrReturned => out `prefix_of` blocks_stream hist
  end.

Lemma writing_frame hist W s s' B : rx_frame s s' -> writing hist W s B -> writing hist W s' B.
Proof.
  intros [_ Hf] (HB & rb & Hr & Hd). split; [done|].
  destruct (Hf _ _ Hr) as (rb' & Hr' & [He _]). exists rb'. auto.
Qed.

Lemma writer_inv_frame hist W s s' pc out :
  rx_frame s s' -> writer_inv hist W s pc out -> writer_inv hist W s' pc out.
Proof.
  intros Hf. destruct pc; simpl; try done.
  all: intros (B & Hw & ?); exists B; split; [by eapply writing_frame|done].
Qed.

Lemma blocks_stream_app h1 h2 : blocks_stream (h1 ++ h2) = blocks_stream h1 ++ blocks_stream h2.
Proof. unfold blocks_stream. by rewrite map_app, concat_app. Qed.

Lemma blocks_stream_take_S hist W B :
  hist !! W = Some B -> blocks_stream (take (S W) hist) = blocks_stream (take W hist) ++ stream_of (blk_data B).
Proof.
  intros HB. erewrite take_S_r by done. rewrite blocks_stream_app. f_equal.
  unfold blocks_stream. simpl. apply app_nil_r.
Qed.

Lemma blocks_stream_prefix hist W : blocks_stream (take W hist) `prefix_of` blocks_stream hist.
Proof.
  rewrite <- (take_drop W hist) at 2. rewrite blocks_stream_app. by exists (blocks_stream (drop W hist)).
Qed.

Lemma partial_prefix hist W B i :
  hist !! W = Some B ->
  blocks_stream (take W hist) ++ stream_of (take i (blk_data B)) `prefix_of` blocks_stream hist.
Proof.
  intros HB. transitivity (blocks_stream (take (S W) hist)); [|apply blocks_stream_prefix].
  rewrite (blocks_stream_take_S _ _ B) by done. apply prefix_app.
  rewrite <- (take_drop i (blk_data B)) at 2. rewrite stream_of_app. by exists (stream_of (drop i (blk_data B))).
Qed.

(** The history only grows. *)
Lemma writer_inv_grow hist W s pc out B :
  (W <= length hist)%nat -> writer_inv hist W s pc out -> writer_inv (hist ++ [B]) W s pc out.
Proof.
  intros HW. assert (forall B', hist !! W = Some B' -> (W < length hist)%nat) as Hlt
    by (intros; by eapply lookup_lt_Some).
  destruct pc; simpl; rewrite ?take_app_le by done; try done.
  1: intros (B' & [H1 H2] & H3); exists B'; split; [split; [by apply lookup_app_l_Some|done]|done].
  1-3: intros (B' & [H1 H2] & H3); exists B'; split; [split; [by apply lookup_app_l_Some|done]|];
    rewrite H3; specialize (Hlt _ H1); by rewrite take_app_le by lia.
  intros H. etransitivity; [done|]. rewrite blocks_stream_app. by eexists.
Qed.

Definition next_written (pc : WriterPC) (W : nat) : nat :=
  match pc with WrDelete => S W | _ => W end.

Lemma decoded_next hist W s rb :
  rcv_inv hist W s -> rxBlocks (s_rx s) !! u16 (Z.of_nat W) = Some rb -> rb_Decoded rb = true ->
  rx_core hist W rb /\ exists B, writing hist W s B /\
    forall i, (i < K)%nat -> exists p, rb_Packets rb !! i = Some (Some p) /\ slot_ok B i p.
Proof.
  intros [H1 H2 H3 H4 H5] Hr Hd. destruct (H5 _ _ Hr) as (g & Hg & Hle & Hw & [Hcore Hlow]).
  apply (in_window_inj W) in Hg as <-; [|unfold in_window; lia|done|lia|done].
  split; [done|].
  destruct (rx_dec _ _ _ Hcore Hd 0%nat) as [p0 Hp0]; [lia|].
  destruct (rx_slots _ _ _ Hcore _ _ Hp0) as (B & HB & _).
  exists B. split; [split; [done|by exists rb]|]. intros i Hi.
  destruct (rx_dec _ _ _ Hcore Hd i Hi) as [p Hp]. exists p. split; [done|].
  destruct (rx_slots _ _ _ Hcore _ _ Hp) as (B' & HB' & Hs). rewrite Hd in Hs. by simplify_eq.
Qed.

Lemma writer_exit_ok hist W s es out :
  rcv_inv hist W s -> out `prefix_of` blocks_stream hist ->
  exists s', go_bind (fun s => Some (tt, s, es)) (fun _ => writer_exit) s =
      Some (WrReturned, s', es ++ [ETcpCloseWrite]) /\
    rcv_inv hist W s' /\ writer_inv hist W s' WrReturned out /\ s_tx s' = s_tx s /\
    s_cfg s' = s_cfg s /\ s_Shaper s' = s_Shaper s /\ s_done s' = s_done s.
Proof.
  intros Hi Ho. unfold go_bind, writer_exit. simpl. eexists. split; [done|]. split_and!; try done.
  by apply (rcv_inv_frame hist W s); try apply Hi.
Qed.

(** A write step: what the code does is described by the invariant at the next
    program counter. *)
Definition writer_post (hist : list Block) (W : nat) (s : Session) (pc : WriterPC) (out : bytes)
    (r : option (WriterPC * Session * list Effect)) : Prop :=
  exists pc' s' es, r = Some (pc', s', es) /\ rcv_inv hist (next_written pc W) s' /\
    writer_inv hist (next_written pc W) s' pc' (out ++ written es) /\
    (forall b, EUdp b ∈ es -> ctl_frame b) /\
    s_tx s' = s_tx s /\ s_cfg s' = s_cfg s /\ s_Shaper s' = s_Shaper s /\ s_done s' = s_done s.

Lemma writer_post_exit hist W s pc out es out' :
  rcv_inv hist W s -> next_written pc W = W -> out' = out ++ written es ->
  out' `prefix_of` blocks_stream hist -> (forall b, EUdp b ∈ es -> ctl_frame b) ->
  writer_post hist W s pc out
    (go_bind (fun s => Some (tt, s, es)) (fun _ => writer_exit) s).
Proof.
  intros Hi Hn -> Ho He.
  destruct (writer_exit_ok hist W s es _ Hi Ho) as (s' & HE & Hi' & Hw & E1 & E2 & E3 & E4).
  rewrite HE. exists WrReturned, s', (es ++ [ETcpCloseWrite]). rewrite Hn. split_and!; try done.
  - by rewrite written_app, app_nil_r.
  - intros b [Hb|Hb]%elem_of_app; [by apply He|]. by apply list_elem_of_singleton in Hb.
Qed.

Lemma writer_post_pure hist W s pc out pc' :
  rcv_inv hist W s -> next_written pc W = W -> writer_inv hist W s pc' out ->
  writer_post hist W s pc out (go_ret pc' s).
Proof.
  intros Hi Hn Hw. exists pc', s, []. rewrite Hn, app_nil_r. split_and!; try done.
  intros b Hb. by apply elem_of_nil in Hb.
Qed.

Lemma writer_top_ok hist W s pc out :
  next_written pc W = W -> rcv_inv hist W s -> out = blocks_stream (take W hist) ->
  writer_post hist W s pc out (writer_top s).
Proof.
  intros Hn Hi ->. unfold writer_top. rewrite go_bind_get.
  assert (writer_post hist W s pc (blocks_stream (take W hist)) (writer_exit s)) as Hexit.
  { rewrite <- (go_bind_ret tt (fun _ => writer_exit)).
    apply (writer_post_exit hist W s pc _ [] (blocks_stream (take W hist))); try done.
    - by rewrite app_nil_r.
    - apply blocks_stream_prefix.
    - intros b Hb. by apply elem_of_nil in Hb. }
  destruct (s_done s); [done|]. rewrite (ri_next _ _ _ Hi).
  destruct (rxBlocks (s_rx s) !! u16 (Z.of_nat W)) as [rb|] eqn:E; [destruct (rb_Decoded rb) eqn:Ed|].
  - destruct (decoded_next hist W s rb Hi E Ed) as [_ (B & HB & _)].
    apply writer_post_pure; try done. exists B. split; [done|]. split; [lia|]. by rewrite app_nil_r.
  - destruct (_ && _); [done|]. by apply writer_post_pure.
  - destruct (_ && _); [done|]. by apply writer_post_pure.
Qed.

Lemma writer_write_ok hist W s now werr i out :
  rcv_inv hist W s -> writer_inv hist W s (WrWrite i) out ->
  writer_post hist W s (WrWrite i) out (writer_write now werr i s).
Proof.
  intros Hi (B & (HB & rb & Hr & Hd) & HiK & ->). unfold writer_write.
  rewrite go_bind_get, (ri_next _ _ _ Hi), Hr. simpl. rewrite go_bind_ret.
  destruct (decoded_next hist W s rb Hi Hr Hd) as [Hcore (B' & (HB' & _) & Hall)].
  assert (block_wf B) as HBw by (eapply Forall_lookup_1; [apply Hi|done]).
  rewrite HB in HB'. injection HB' as <-. rewrite (rx_K _ _ _ Hcore).
  assert (length (blk_data B) = K) as HBK by apply HBw.
  destruct (Z.ltb_spec (Z.of_nat i) (Z.of_nat K)) as [Hlt|Hge]; last first.
  { exists WrCleanup. eexists _, []. split; [done|]. rewrite app_nil_r. split_and!; try done.
    - by apply (rcv_inv_frame hist W s); try apply Hi.
    - exists B. split; [split; [done|by exists rb]|]. rewrite (blocks_stream_take_S _ _ B) by done.
      by rewrite (take_ge (blk_data B)) by lia.
    - intros b Hb. by apply elem_of_nil in Hb. }
  destruct (Hall i) as (p & Hp & Hs); [lia|]. rewrite Hp. simpl. rewrite go_bind_ret.
  change (slice_bytes (Some p)) with p.
  destruct (slot_ok_data B i p HBw ltac:(lia) Hs) as (chunk & Hc & ->).
  assert (stream_of (take (S i) (blk_data B)) = stream_of (take i (blk_data B)) ++ chunk) as Hst.
  { erewrite take_S_r by done. rewrite stream_of_app. f_equal. apply app_nil_r. }
  case_bool_decide as Ec.
  { apply writer_post_pure; try done. exists B. split; [split; [done|by exists rb]|].
    split; [lia|]. by rewrite Hst, Ec, app_nil_r. }
  destruct werr as [n|].
  - apply (writer_post_exit hist W s _ _ [ETcpWrite (take n chunk)]
      (blocks_stream (take W hist) ++ stream_of (take i (blk_data B)) ++ take n chunk)); try done.
    + unfold written. simpl. by rewrite app_nil_r, app_assoc.
    + etransitivity; [|apply (partial_prefix hist W B (S i)); done]. apply prefix_app.
      rewrite Hst. apply prefix_app. exists (drop n chunk). by rewrite take_drop.
    + intros b Hb. by apply list_elem_of_singleton in Hb.
  - exists (WrWrite (S i)), s, [ETcpWrite chunk]. split_and!; try done.
    + exists B. split; [split; [done|by exists rb]|]. split; [lia|].
      rewrite Hst. unfold written. simpl. by rewrite app_nil_r, app_assoc.
    + intros b Hb. by apply list_elem_of_singleton in Hb.
Qed.

Lemma writer_delete_ok hist W s now werr out :
  rcv_inv hist W s -> writer_inv hist W s WrDelete out ->
  writer_post hist W s WrDelete out (writer_step now werr WrDelete s).
Proof.
  intros Hi (B & (HB & _) & ->). pose proof Hi as [H1 H2 H3 H4 H5].
  simpl. unfold mod_rx. rewrite go_bind_modify. exists WrTop. eexists _, [].
  split; [done|]. rewrite app_nil_r. simpl. split_and!; try done.
  - constructor; try done; simpl.
    + rewrite H4. go_range.
    + intros id rb. rewrite H4. intros [Hne Hr]%lookup_delete_Some.
      destruct (H5 id rb Hr) as (g & Hid & Hg & Hw & Hok). exists g.
      assert (g <> W) by congruence. split_and!; try done; unfold in_window in *; lia.
  - intros b Hb. by apply elem_of_nil in Hb.
Qed.

Lemma ctl_udp es b : Forall ctl_effect es -> EUdp b ∈ es -> ctl_frame b.
Proof. intros He Hb. by apply (proj1 (Forall_forall _ _) He) in Hb. Qed.

Lemma writer_step_ok hist W s now werr pc out :
  rcv_inv hist W s -> writer_inv hist W s pc out ->
  writer_post hist W s pc out (writer_step now werr pc s).
Proof.
  intros Hi Hw. destruct pc as [| |i| | | |].
  - by apply writer_top_ok.
  - by apply writer_top_ok.
  - by apply writer_write_ok.
  - destruct Hw as (B & (HB & rb & Hr & Hd) & ->). simpl.
    rewrite go_bind_get, (ri_next _ _ _ Hi), Hr. simpl. rewrite go_bind_ret.
    assert (writer_inv hist W s (if rb_LQRReported rb then WrDelete else WrReport)
      (blocks_stream (take (S W) hist))) as Hw'.
    { destruct (rb_LQRReported rb); exists B; (split; [split; [done|by exists rb]|done]). }
    destruct (rb_LQRTimer rb).
    + eexists _, s, [_]. split; [done|]. rewrite app_nil_r. split_and!; try done.
      intros b Hb. by apply list_elem_of_singleton in Hb.
    + rewrite go_bind_ret. by apply writer_post_pure.
  - simpl. rewrite go_bind_get, (ri_next _ _ _ Hi).
    destruct (handleLQRTimeout_ok hist W s now (u16 (Z.of_nat W))) as (s' & es & HL & Hi' & Hf & He);
      [done|apply u16_range|].
    exists WrDelete, s', (es ++ []). split; [by erewrite go_bind_eq|].
    rewrite app_nil_r, (written_ctl es He), app_nil_r. pose proof Hf as [(E1 & E2 & E3 & E4 & _) _].
    split_and!; try done; [|intros b; by apply ctl_udp].
    destruct Hw as (B & Hw & ->). exists B. split; [by eapply writing_frame|done].
  - by apply writer_delete_ok.
  - by apply writer_post_pure.
Qed.

End RecvSpec.
