(* ===== verification/E2E.v ===== *)
(** * End to end: two sessions over an unreliable network

    Two [Endpoint]s, each a session with its goroutines (TCP reader, TCP writer,
    shaper, timers, CLOSE sender), exchange datagrams over a network that may
    drop, duplicate, delay and reorder them.  The theorems say that what one end
    writes to its TCP connection is a prefix of what the other end read, in both
    directions, and that no step panics. *)
From stdpp Require Import base gmap strings list pretty relations.
From S2P Require Import Prelude Protocol Fec Shaper Duration Session SessionRecv SendSpec RecvSpec.
Local Open Scope string_scope.
Local Open Scope list_scope.
Local Open Scope Z_scope.

Section E2E.
Context {RS : ReedSolomon} {L : Link}.
#[local] Abbreviation K := lnk_K.
#[local] Abbreviation M := lnk_M.
#[local] Abbreviation sid := lnk_sid.
Let Hsid : 0 <= sid <= 4095 := lnk_sid_range.
Let HK : (1 <= K)%nat := lnk_K_pos.
Let HKM : (K + M <= 32)%nat := lnk_KM.

(** ** One end of the stream *)

Record Endpoint := mkEp {
  ep_s : Session;
  ep_rd : ReaderPC;
  ep_wr : WriterPC;
  ep_run : RunPC;                       (** [Shaper.Run] *)
  ep_reset : option Z;                  (** its [nextReset] *)
  ep_in : bytes;                        (** history: what [Conn.Read] returned *)
  ep_out : bytes;                       (** history: what [Conn.Write] accepted *)
  ep_hist : list Block;                 (** history: the blocks cut *)
  ep_wrote : nat;                       (** history: how many peer blocks were written *)
}.

Definition set_session (ep : Endpoint) (s : Session) : Endpoint :=
  mkEp s (ep_rd ep) (ep_wr ep) (ep_run ep) (ep_reset ep) (ep_in ep) (ep_out ep)
       (ep_hist ep) (ep_wrote ep).

(** What can happen at an end.  Timers, NAK and CLOSE goroutines may run at any
    time and in any state, which covers every schedule of the program. *)
Inductive Act :=
| AReader (ch : bool) (data : bytes) (err : ReadErr)
| AWriter (werr : option nat)
| AShaper (ch woken : bool)
| ABlockTimer
| ALqrTimer (grpID : Z)
| ANak (grpID : Z) (pc : NakPC)
| ACloser (ch : bool) (pc : CloserPC)
| ARecv (datagram : bytes)
| AClose.

(** The block cut from the pending payloads, if there are any. *)
Definition cut_pending (tx : SendState) : list Block :=
  if bool_decide (pendingData tx = []) then [] else [cut_block tx].

Definition cut_by_reader (pc : ReaderPC) (s : Session) (data : bytes) : list Block :=
  match pc with
  | RdRead => if len data >? 0 then cut_by_read (s_tx s) data else []
  | RdDefer => if s_done s then [] else cut_pending (s_tx s)
  | _ => []
  end.

Definition read_by_reader (pc : ReaderPC) (data : bytes) : bytes :=
  match pc with RdRead => data | _ => [] end.

(** One step of [Shaper.Run] on the session's shaper, with [sendRawUDP] as
    [sendFn]. *)
Definition shaper_act (now : Z) (ch woken : bool) (ep : Endpoint) : option (Endpoint * list Effect) :=
  let s := ep_s ep in
  match run_step ch (mkRunner (s_Shaper s) (ep_run ep) (ep_reset ep) woken (s_done s) now [] [] []) with
  | None => Some (ep, [])
  | Some r =>
      '(_, s', es) ← go_for (r_sent r) (sendRawUDP now) (with_shaper s (r_sh r));
      Some (mkEp s' (ep_rd ep) (ep_wr ep) (r_pc r) (r_nextReset r) (ep_in ep) (ep_out ep)
                 (ep_hist ep) (ep_wrote ep), es)
  end.

(** One step; [None] is a run-time panic. *)
Definition ep_step (now : Z) (act : Act) (ep : Endpoint) : option (Endpoint * list Effect) :=
  let s := ep_s ep in
  match act with
  | AReader ch data err =>
      '(pc, s', es) ← reader_step now ch data err (ep_rd ep) s;
      Some (mkEp s' pc (ep_wr ep) (ep_run ep) (ep_reset ep)
                 (ep_in ep ++ read_by_reader (ep_rd ep) data) (ep_out ep)
                 (ep_hist ep ++ cut_by_reader (ep_rd ep) s data) (ep_wrote ep), es)
  | AWriter werr =>
      '(pc, s', es) ← writer_step now werr (ep_wr ep) s;
      Some (mkEp s' (ep_rd ep) pc (ep_run ep) (ep_reset ep) (ep_in ep) (ep_out ep ++ written es)
                 (ep_hist ep) (next_written (ep_wr ep) (ep_wrote ep)), es)
  | AShaper ch woken => shaper_act now ch woken ep
  | ABlockTimer =>
      '(_, s', es) ← flushPendingBlock s;
      Some (mkEp s' (ep_rd ep) (ep_wr ep) (ep_run ep) (ep_reset ep) (ep_in ep) (ep_out ep)
                 (ep_hist ep ++ cut_pending (s_tx s)) (ep_wrote ep), es)
  | ALqrTimer grpID => '(_, s', es) ← handleLQRTimeout now grpID s; Some (set_session ep s', es)
  | ANak grpID pc => '(_, s', es) ← nak_step now grpID pc s; Some (set_session ep s', es)
  | ACloser ch pc => '(_, s', es) ← closer_step now ch pc s; Some (set_session ep s', es)
  | ARecv datagram =>
      let buf := ReadFrom datagram in
      r ← Unmarshal buf;
      match r with
      | Err _ => Some (ep, [])
      | Ok p => '(_, s', es) ← Dispatch now (len buf) p s; Some (set_session ep s', es)
      end
  | AClose => '(_, s', es) ← Close s; Some (set_session ep s', es)
  end.

(** [NewSession] and [Start] with the parameters of the link. *)
Definition ep_init (now mtu bandwidth : Z) (remote : option string) (peer : string)
    (isServer : bool) : option Endpoint :=
  '(_, s, _) ← Start (NewSession now sid remote peer isServer mtu bandwidth
                        (Z.of_nat K) (Z.of_nat M));
  Some (mkEp s RdTop WrTop RTop None [] [] [] 0).

(** ** The system *)

Record Sys := mkSys {
  sys_a : Endpoint;
  sys_b : Endpoint;
  net_ab : list bytes;                  (** every datagram [a] has sent *)
  net_ba : list bytes;
}.

Definition udp_sent (es : list Effect) : list bytes :=
  omap (fun e => match e with EUdp b => Some b | _ => None end) es.

(** A DATA frame is delivered while (one of) the block(s) it belongs to is within
    the 16-bit window of the receiver. *)
Definition frame_of (hist : list Block) (g : nat) (b : bytes) : Prop :=
  exists B p, hist !! g = Some B /\ p ∈ block_pkts g B /\ Marshal p = Ok b.
Definition timely (hist : list Block) (W : nat) (b : bytes) : Prop :=
  hist_frame hist b -> exists g, frame_of hist g b /\ in_window W g.

(** What the environment guarantees: [Conn.Read] returns at most a buffer of
    bytes, and the network only delivers, in time, what was sent. *)
Definition act_ok (me peer : Endpoint) (incoming : list bytes) (act : Act) : Prop :=
  match act with
  | AReader _ data _ => len data <= readTCP_maxPayload (s_cfg (ep_s me)) /\ bytes_ok data
  | ALqrTimer grpID => is_u16 grpID
  | ARecv b => b ∈ incoming /\ timely (ep_hist peer) (ep_wrote me) b
  | _ => True
  end.

Inductive sys_step : Sys -> Sys -> Prop :=
| step_a now act a b nab nba a' es :
    act_ok a b nba act -> ep_step now act a = Some (a', es) ->
    sys_step (mkSys a b nab nba) (mkSys a' b (nab ++ udp_sent es) nba)
| step_b now act a b nab nba b' es :
    act_ok b a nab act -> ep_step now act b = Some (b', es) ->
    sys_step (mkSys a b nab nba) (mkSys a b' nab (nba ++ udp_sent es)).

(** The two ends of a fresh stream. *)
Definition sys_init (sys : Sys) : Prop :=
  (exists now mtu bw remote peer srv, mtu <= 2076 /\
     ep_init now mtu bw remote peer srv = Some (sys_a sys)) /\
  (exists now mtu bw remote peer srv, mtu <= 2076 /\
     ep_init now mtu bw remote peer srv = Some (sys_b sys)) /\
  net_ab sys = [] /\ net_ba sys = [].

(** ** Invariants *)

Definition run_ok (hist : list Block) (pc : RunPC) : Prop :=
  Forall (hist_frame hist) (in_flight pc) /\
  match pc with
  | RParams size _ | RSleep size _ _ | RFetch size _ => 0 <= size
  | RPanic => False
  | _ => True
  end.

Record ep_inv (ph : list Block) (ep : Endpoint) : Prop := {
  ei_snd : snd_inv (ep_hist ep) (ep_s ep);
  ei_rcv : rcv_inv ph (ep_wrote ep) (ep_s ep);
  ei_wr : writer_inv ph (ep_wrote ep) (ep_s ep) (ep_wr ep) (ep_out ep);
  ei_in : sent_stream (ep_hist ep) (ep_s ep) = ep_in ep;
  ei_run : run_ok (ep_hist ep) (ep_run ep);
  ei_mtu : c_LinkMTU (s_cfg (ep_s ep)) <= 2076;
  ei_W : (ep_wrote ep <= length ph)%nat;
}.

(** The datagrams an end may have sent. *)
Definition sent_ok (hist : list Block) (b : bytes) : Prop := hist_frame hist b \/ ctl_frame b.

Definition step_post (ph : list Block) (ep : Endpoint) (r : option (Endpoint * list Effect)) : Prop :=
  exists ep' es, r = Some (ep', es) /\ ep_inv ph ep' /\ ep_hist ep `prefix_of` ep_hist ep' /\
    Forall (sent_ok (ep_hist ep')) (udp_sent es).

(** ** Steps that cut no block *)

(** [s'] may replace [s] at an end: nothing pending, received or decoded is lost. *)
Record sess_ok (hist ph : list Block) (W : nat) (s s' : Session) : Prop := {
  so_snd : snd_inv hist s';
  so_rcv : rcv_inv ph W s';
  so_pend : pendingData (s_tx s') = pendingData (s_tx s);
  so_cfg : s_cfg s' = s_cfg s;
  so_writing : forall B, writing ph W s B -> writing ph W s' B;
}.

Definition sess_post {A} (hist ph : list Block) (W : nat) (s : Session)
    (r : option (A * Session * list Effect)) : Prop :=
  exists x s' es, r = Some (x, s', es) /\ sess_ok hist ph W s s' /\ Forall ctl_effect es.

(** [s'] differs from [s] only in flags, statistics and timers. *)
Definition same_core (s s' : Session) : Prop :=
  s_cfg s' = s_cfg s /\ s_rx s' = s_rx s /\ s_FEC s' = s_FEC s /\
  nextGroupID (s_tx s') = nextGroupID (s_tx s) /\ nextSeqNum (s_tx s') = nextSeqNum (s_tx s) /\
  curM (s_tx s') = curM (s_tx s) /\ pendingData (s_tx s') = pendingData (s_tx s) /\
  harqCache (s_tx s') = harqCache (s_tx s) /\
  queue (s_Shaper s') = queue (s_Shaper s) /\ burstSize (s_Shaper s') = burstSize (s_Shaper s) /\
  txBlocks (s_tx s') = txBlocks (s_tx s) /\ consecutiveOk (s_tx s') = consecutiveOk (s_tx s).

Lemma same_core_ok hist ph W s s' :
  snd_inv hist s -> rcv_inv ph W s -> same_core s s' -> sess_ok hist ph W s s'.
Proof.
  intros Hs Hr (E1 & E2 & E3 & E4 & E5 & E6 & E7 & E8 & E9 & E10 & E11 & E12). pose proof Hs as [Hc _].
  constructor; try done.
  - apply (snd_inv_frame hist s); rewrite ?E3, ?E6, ?E9, ?E10, ?E11, ?E12; try done; apply Hc.
  - apply (rcv_inv_frame ph W s); rewrite ?E2, ?E3; try done. apply Hr.
  - intros B. unfold writing. by rewrite E2.
Qed.

Lemma rx_frame_sess_ok hist ph W s s' :
  snd_inv hist s -> rcv_inv ph W s' -> rx_frame s s' -> sess_ok hist ph W s s'.
Proof.
  intros Hs Hr Hf. pose proof Hs as [Hc _]. pose proof Hf as [(E1 & E2 & E3 & E4 & _) _].
  constructor; try done.
  - apply (snd_inv_frame hist s); rewrite ?E2, ?E3; try done; try apply Hc. apply Hr.
  - by rewrite E2.
  - intros B. by apply writing_frame.
Qed.

Lemma sess_ok_trans hist hist' ph W s1 s2 s3 :
  sess_ok hist ph W s1 s2 -> sess_ok hist' ph W s2 s3 -> sess_ok hist' ph W s1 s3.
Proof.
  intros [A1 A2 A3 A4 A5] [B1 B2 B3 B4 B5]. constructor; try done; [congruence..|]. auto.
Qed.

Lemma sess_post_bind {A B} hist ph W s (m : GoM Session Effect A) (k : A -> GoM Session Effect B) :
  sess_post hist ph W s (m s) ->
  (forall x s', sess_ok hist ph W s s' -> sess_post hist ph W s' (k x s')) ->
  sess_post hist ph W s (go_bind m k s).
Proof.
  intros (x & s1 & es1 & E1 & H1 & C1) Hk.
  destruct (Hk x s1 H1) as (y & s2 & es2 & E2 & H2 & C2).
  exists y, s2, (es1 ++ es2). split; [by eapply go_bind_eq|]. split; [by eapply sess_ok_trans|].
  by apply Forall_app.
Qed.

Section Quiet.
Context (hist ph : list Block) (W : nat).
#[local] Abbreviation ok := (sess_ok hist ph W).
#[local] Abbreviation post := (sess_post hist ph W).

Lemma sess_post_core {A} s (x : A) s' es :
  snd_inv hist s -> rcv_inv ph W s -> same_core s s' -> Forall ctl_effect es ->
  post s (Some (x, s', es)).
Proof. intros. exists x, s', es. split; [done|]. split; [by apply same_core_ok|done]. Qed.

Lemma sess_post_ret {A} s (x : A) : snd_inv hist s -> rcv_inv ph W s -> post s (go_ret x s).
Proof. intros. by apply sess_post_core. Qed.

Lemma sess_post_modify s f :
  snd_inv hist s -> rcv_inv ph W s -> same_core s (f s) -> post s (go_modify f s).
Proof. intros. by apply sess_post_core. Qed.

Lemma sess_post_get {B} s (k : Session -> GoM Session Effect B) :
  post s (k s s) -> post s (go_bind go_get k s).
Proof. by rewrite go_bind_get. Qed.

Lemma Close_post s : snd_inv hist s -> rcv_inv ph W s -> post s (Close s).
Proof.
  intros Hs Hr. rewrite Close_eq. apply sess_post_core; [done..|by repeat split|].
  destruct (blockTimer (s_tx s)); by repeat constructor.
Qed.

Lemma HandleClose_post s : snd_inv hist s -> rcv_inv ph W s -> post s (HandleClose s).
Proof.
  intros Hs Hr. unfold HandleClose. apply sess_post_bind.
  { apply sess_post_modify; [done..|by repeat split]. }
  intros _ s1 [H1 H2 _ _ _]. apply sess_post_get, sess_post_bind.
  { apply sess_post_core; [done..|by repeat split|by repeat constructor]. }
  intros _ s2 [H3 H4 _ _ _]. destruct (_ && _); [by apply Close_post|by apply sess_post_ret].
Qed.

Lemma sendPacketDirect_post now p s :
  session_ctl p -> snd_inv hist s -> rcv_inv ph W s -> post s (sendPacketDirect now p s).
Proof.
  intros Hp Hs Hr. destruct (session_ctl_frame p Hp) as (b & _ & Hb & Hsend). rewrite Hsend.
  apply sess_post_core; [done..|by repeat split|by repeat constructor].
Qed.

Lemma closer_step_post now ch pc s :
  snd_inv hist s -> rcv_inv ph W s -> post s (closer_step now ch pc s).
Proof.
  intros Hs Hr. unfold closer_step. apply sess_post_get.
  pose proof (si_cfg _ _ (proj1 Hs)) as (Hc1 & _). rewrite Hc1.
  assert (session_ctl (base_packet TypeClose sid)) as Hctl by (apply base_ctl; auto).
  destruct pc; [| | |by apply sess_post_ret].
  - apply sess_post_bind; [by apply sendPacketDirect_post|].
    intros _ s1 [H1 H2 _ _ _]. by apply sess_post_ret.
  - apply sess_post_bind; [apply sess_post_modify; [done..|by repeat split]|].
    intros _ s1 [H1 H2 _ _ _]. destruct (closeRecv (s_tx s)); [|by apply sess_post_ret].
    apply sess_post_bind; [by apply Close_post|]. intros _ s2 [H3 H4 _ _ _]. by apply sess_post_ret.
  - destruct (s_done s && ch); [by apply sess_post_ret|].
    destruct (closeRecv (s_tx s)); [by apply sess_post_ret|].
    apply sess_post_bind; [by apply sendPacketDirect_post|].
    intros _ s1 [H1 H2 _ _ _]. by apply sess_post_ret.
Qed.

Lemma HandleLQR_post now p s : snd_inv hist s -> rcv_inv ph W s -> post s (HandleLQR now p s).
Proof.
  intros Hs Hr. destruct (LQR_inv hist s now p Hs) as (s' & HE & Hs' & Erx & Ep & Ec & Ef).
  exists tt, s', []. split; [done|]. split; [|done]. constructor; try done.
  - apply (rcv_inv_frame ph W s); rewrite ?Erx, ?Ef; try done. apply Hr.
  - intros B. unfold writing. by rewrite Erx.
Qed.

Lemma HandleNak_post now p s : snd_inv hist s -> rcv_inv ph W s -> post s (HandleNak now p s).
Proof.
  intros Hs Hr. destruct (Nak_inv hist s now p Hs) as (s' & HE & Hs' & Erx & Ep & Ec & Ef).
  exists tt, s', []. split; [done|]. split; [|done]. constructor; try done.
  - apply (rcv_inv_frame ph W s); rewrite ?Erx, ?Ef; try done. apply Hr.
  - intros B. unfold writing. by rewrite Erx.
Qed.

(** A packet the demultiplexer hands to the session: a control packet, or a DATA
    packet of a block in the window. *)
Definition packet_ok (p : Packet) : Prop :=
  p_Type p <> TypeData \/
  exists g B, ph !! g = Some B /\ p ∈ block_pkts g B /\ in_window W g.

Lemma Dispatch_post now n p s :
  snd_inv hist s -> rcv_inv ph W s -> packet_ok p -> post s (Dispatch now n p s).
Proof.
  intros Hs Hr Hp. unfold Dispatch. apply sess_post_bind.
  { apply sess_post_modify; [done..|by repeat split]. }
  intros _ s1 [H1 H2 _ _ _].
  assert (forall A (x : A) (m : GoM Session Effect unit),
    post s1 (m s1) -> post s1 (go_bind m (fun _ => go_ret x) s1)) as Hthen.
  { intros A x m Hm. apply sess_post_bind; [done|]. intros _ s2 [H3 H4 _ _ _]. by apply sess_post_ret. }
  destruct (Z.eqb_spec (p_Type p) TypeData) as [Ed|_].
  { destruct Hp as [Hp|(g & B & HB & Hin & Hw)]; [done|]. apply Hthen.
    destruct (HandleData_ok ph W s1 now g B p) as (s2 & es & HE & Hr2 & Hf & Ht & _); [done..|].
    rewrite HE. exists tt, s2, es. split; [done|]. split; [by apply rx_frame_sess_ok|].
    by apply timers_only_ctl. }
  destruct (p_Type p =? TypeNak); [apply Hthen; by apply HandleNak_post|].
  destruct (p_Type p =? TypeLqr); [apply Hthen; by apply HandleLQR_post|].
  destruct (p_Type p =? TypeClose); [apply Hthen; by apply HandleClose_post|].
  destruct (p_Type p =? TypeReset); [apply Hthen; by apply Close_post|by apply sess_post_ret].
Qed.

Lemma go_for_post {A} (l : list A) (m : A -> GoM Session Effect unit) s :
  (forall x s', snd_inv hist s' -> rcv_inv ph W s' -> s_cfg s' = s_cfg s -> post s' (m x s')) ->
  snd_inv hist s -> rcv_inv ph W s -> post s (go_for l m s).
Proof.
  revert s. induction l as [|x l IH]; intros s Hm Hs Hr; [by apply sess_post_ret|].
  simpl. apply sess_post_bind; [by apply Hm|]. intros _ s1 [H1 H2 _ H3 _]. apply IH; try done.
  intros y s2 H4 H5 H6. apply Hm; try done. congruence.
Qed.

Lemma readTCP_err_post now err s :
  snd_inv hist s -> rcv_inv ph W s -> post s (readTCP_err now err s).
Proof.
  intros Hs Hr. unfold readTCP_err. apply sess_post_get.
  destruct err; [by apply sess_post_ret..|]. apply sess_post_bind.
  - apply go_for_post; [|done..]. intros _ s1 H1 H2 _.
    pose proof (si_cfg _ _ (proj1 Hs)) as (Hc1 & _). rewrite Hc1.
    apply sendPacketDirect_post; [|done..]. apply base_ctl. auto.
  - intros _ s1 [H1 H2 _ _ _]. apply sess_post_bind; [by apply Close_post|].
    intros _ s2 [H3 H4 _ _ _]. by apply sess_post_ret.
Qed.

Lemma timer_post now g s :
  snd_inv hist s -> rcv_inv ph W s -> is_u16 g -> post s (handleLQRTimeout now g s).
Proof.
  intros Hs Hr Hg. destruct (handleLQRTimeout_ok ph W s now g Hr Hg) as (s' & es & HE & Hr' & Hf & He).
  exists tt, s', es. split; [done|]. split; [by apply rx_frame_sess_ok|done].
Qed.

Lemma nak_post now g pc s :
  snd_inv hist s -> rcv_inv ph W s -> post s (nak_step now g pc s).
Proof.
  intros Hs Hr. destruct (nak_step_ok ph W s now g pc Hr) as (pc' & s' & es & HE & Hr' & Hf & He).
  exists pc', s', es. split; [done|]. split; [by apply rx_frame_sess_ok|done].
Qed.

End Quiet.

(** ** Steps of an end *)

Lemma hist_frame_prefix hist hist' b : hist `prefix_of` hist' -> hist_frame hist b -> hist_frame hist' b.
Proof.
  intros [ext ->] (g & B & p & HB & ?). exists g, B, p. split; [|done]. by apply lookup_app_l_Some.
Qed.

Lemma sent_ok_prefix hist hist' b : hist `prefix_of` hist' -> sent_ok hist b -> sent_ok hist' b.
Proof. intros Hp [H|H]; [left; by eapply hist_frame_prefix|by right]. Qed.

Lemma udp_sent_ctl hist es : Forall ctl_effect es -> Forall (sent_ok hist) (udp_sent es).
Proof.
  intros He. apply Forall_forall. intros b Hb. right. unfold udp_sent in Hb.
  apply list_elem_of_omap in Hb as (e & Hin & Heq). destruct e; simplify_eq.
  by apply (ctl_udp es).
Qed.

Lemma sent_stream_pend hist (s s' : Session) :
  pendingData (s_tx s') = pendingData (s_tx s) -> sent_stream hist s' = sent_stream hist s.
Proof. intros E. unfold sent_stream. by rewrite E. Qed.

Lemma writer_inv_writing ph W s s' pc out :
  (forall B, writing ph W s B -> writing ph W s' B) ->
  writer_inv ph W s pc out -> writer_inv ph W s' pc out.
Proof.
  intros Hw. destruct pc; simpl; try done.
  all: intros (B & HB & ?); exists B; split; [by apply Hw|done].
Qed.

Lemma ep_inv_session ph ep s' :
  ep_inv ph ep -> sess_ok (ep_hist ep) ph (ep_wrote ep) (ep_s ep) s' -> ep_inv ph (set_session ep s').
Proof.
  intros [H1 H2 H3 H4 H5 H6 H7] [S1 S2 S3 S4 S5]. constructor; simpl; try done.
  - by eapply writer_inv_writing.
  - by rewrite (sent_stream_pend _ (ep_s ep)).
  - by rewrite S4.
Qed.

Lemma step_session {A} ph ep (r : option (A * Session * list Effect)) :
  ep_inv ph ep -> sess_post (ep_hist ep) ph (ep_wrote ep) (ep_s ep) r ->
  step_post ph ep ('(_, s', es) ← r; Some (set_session ep s', es)).
Proof.
  intros Hi (x & s' & es & -> & Hok & He). exists (set_session ep s'), es.
  split; [done|]. split; [by apply ep_inv_session|]. split; [done|]. by apply udp_sent_ctl.
Qed.

(** A frame of the peer's history decodes to the packet it was made from. *)
Lemma frame_decodes hist g b :
  Forall block_wf hist -> frame_of hist g b ->
  exists B p, hist !! g = Some B /\ p ∈ block_pkts g B /\ Unmarshal (ReadFrom b) = Some (Ok p).
Proof.
  intros Hh (B & p & HB & Hp & HM). exists B, p. split_and!; try done.
  by eapply data_frame_decodes.
Qed.

Lemma recv_step ph ep now b :
  ep_inv ph ep -> sent_ok ph b -> timely ph (ep_wrote ep) b ->
  step_post ph ep (ep_step now (ARecv b) ep).
Proof.
  intros Hi Hb Ht.
  assert (exists p, Unmarshal (ReadFrom b) = Some (Ok p) /\ packet_ok ph (ep_wrote ep) p)
    as (p & HU & Hp).
  { destruct Hb as [Hb|(p & HU & Hp)]; [|exists p; split; [done|by left]].
    destruct (Ht Hb) as (g & Hf & Hw).
    destruct (frame_decodes ph g b) as (B & p & HB & Hp & HU); [apply Hi|done|].
    exists p. split; [done|]. right. by exists g, B. }
  unfold ep_step. rewrite HU. simpl. apply step_session; [done|].
  apply Dispatch_post; [apply Hi..|done].
Qed.

Lemma writer_ep_step ph ep now werr :
  ep_inv ph ep -> step_post ph ep (ep_step now (AWriter werr) ep).
Proof.
  intros [H1 H2 H3 H4 H5 H6 H7].
  destruct (writer_step_ok ph _ _ now werr _ _ H2 H3)
    as (pc & s' & es & HE & Hr & Hw & Hes & E1 & E2 & E3 & E4).
  unfold ep_step. rewrite HE. simpl. eexists _, es. split; [done|]. split_and!; [|done|].
  - constructor; simpl; try done.
    + destruct H1 as [Hc Hl]. apply (snd_inv_frame (ep_hist ep) (ep_s ep)); rewrite ?E1, ?E3; try done;
        try apply Hc. apply Hr.
    + by rewrite (sent_stream_pend _ (ep_s ep)) by (by rewrite E1).
    + by rewrite E2.
    + destruct (ep_wr ep); simpl; try done. destruct H3 as (B & [HB _] & _). by eapply lookup_lt_Some.
  - simpl. apply Forall_forall. intros b Hb. right. unfold udp_sent in Hb.
    apply list_elem_of_omap in Hb as (e & Hin & Heq). destruct e; simplify_eq. by apply Hes.
Qed.

(** One step of the shaper's loop only moves frames towards [sendFn]. *)
Lemma run_step_ok hist ch sh pc nr woken err now r :
  0 <= burstSize sh -> Forall (hist_frame hist) (queue sh) -> run_ok hist pc ->
  run_step ch (mkRunner sh pc nr woken err now [] [] []) = Some r ->
  burstSize (r_sh r) = burstSize sh /\ Forall (hist_frame hist) (queue (r_sh r)) /\
  Forall (hist_frame hist) (r_sent r) /\ run_ok hist (r_pc r).
Proof.
  intros Hb Hq [Hf Hs] HR. unfold run_step in HR.
  destruct pc as [| |sz iv|ps|sz iv u|sz iv|iv ps|ps| |]; simpl in *; try done;
    repeat (match type of HR with context [match ?x with _ => _ end] => destruct x eqn:? end;
            simplify_eq/=; try done); simplify_eq/=.
  all: try match goal with H : Forall _ (_ :: _) |- _ => apply Forall_cons in H as [??] end.
  all: unfold run_ok; simpl; split_and!; try done; try (by constructor).
  all: try (by apply Forall_take); try (by apply Forall_drop).
  all: rewrite ?Z.gtb_ltb in *; go_bool; unfold len in *; repeat case_match; lia.
Qed.

Lemma go_for_send now ps (s : Session) :
  exists s', go_for ps (sendRawUDP now) s = Some (tt, s', map EUdp ps) /\ same_core s s'.
Proof.
  revert s. induction ps as [|p ps IH]; intros s; [exists s; by repeat split|].
  destruct (IH (with_st s (set_txBytes (u64 (txBytes (s_st s) + len p))
    (set_txPackets (u64 (txPackets (s_st s) + 1)) (set_lastActive now (s_st s)))))) as (s' & HE & Hc).
  exists s'. split; [|done]. simpl. change (EUdp p :: map EUdp ps) with ([EUdp p] ++ map EUdp ps).
  by eapply go_bind_eq.
Qed.

Lemma udp_sent_map ps : udp_sent (map EUdp ps) = ps.
Proof. unfold udp_sent. induction ps; csimpl; congruence. Qed.

Lemma shaper_ep_step ph ep now ch woken :
  ep_inv ph ep -> step_post ph ep (ep_step now (AShaper ch woken) ep).
Proof.
  intros Hi. pose proof Hi as [H1 H2 H3 H4 H5 H6 H7]. unfold ep_step, shaper_act.
  destruct (run_step _ _) as [r|] eqn:HR; [|by exists ep, []].
  destruct H1 as [Hc Hl]. apply (run_step_ok (ep_hist ep)) in HR as (Hb & Hq & Hs & Hrun);
    [|apply Hc..|done].
  destruct (go_for_send now (r_sent r) (with_shaper (ep_s ep) (r_sh r))) as (s' & HE & Hcore).
  rewrite HE. simpl. eexists _, _. split; [done|]. split_and!; [|done|].
  - destruct (same_core_ok (ep_hist ep) ph (ep_wrote ep) (with_shaper (ep_s ep) (r_sh r)) s')
      as [S1 S2 S3 S4 S5]; [|by apply (rcv_inv_frame ph _ (ep_s ep)); try apply H2|done|].
    { apply (snd_inv_frame (ep_hist ep) (ep_s ep)); try done; try apply Hc. simpl.
      rewrite Hb. apply Hc. }
    constructor; simpl; try done.
    + eapply writer_inv_writing; [|done]. intros B HB. by apply S5.
    + by rewrite (sent_stream_pend _ (ep_s ep)).
    + by rewrite S4.
  - simpl. rewrite udp_sent_map. eapply Forall_impl; [done|]. intros. by left.
Qed.

(** ** Steps that cut a block *)

(** After [data] was read and the blocks [cut] were cut. *)
Record cut_ok (hist ph : list Block) (W : nat) (cut : list Block) (data : bytes) (s s' : Session)
    : Prop := {
  co_snd : snd_inv (hist ++ cut) s';
  co_rcv : rcv_inv ph W s';
  co_writing : forall B, writing ph W s B -> writing ph W s' B;
  co_cfg : s_cfg s' = s_cfg s;
  co_stream : sent_stream (hist ++ cut) s' = sent_stream hist s ++ data;
}.

Lemma cut_ok_nil hist ph W s s' :
  sess_ok hist ph W s s' -> cut_ok hist ph W [] [] s s'.
Proof.
  intros [H1 H2 H3 H4 H5]. constructor; rewrite ?app_nil_r; try done. by apply sent_stream_pend.
Qed.

Lemma flush_cut hist ph W s :
  snd_inv hist s -> rcv_inv ph W s ->
  exists s', flushPendingBlockLocked s = Some (tt, s', []) /\
    cut_ok hist ph W (cut_pending (s_tx s)) [] s s'.
Proof.
  intros [Hc Hl] Hr. unfold cut_pending. case_bool_decide as E.
  - exists s. split; [unfold flushPendingBlockLocked, go_bind; simpl; by rewrite bool_decide_eq_true_2|].
    by apply cut_ok_nil, same_core_ok.
  - destruct (flush_inv hist s Hc E) as (f & HE & Hf & Hi); [lia|]. exists (flushed s f).
    split; [done|]. constructor; try done.
    + by apply (rcv_inv_frame ph W s).
    + by rewrite sent_stream_flushed, app_nil_r.
Qed.

(** The invariant of an end after such a step. *)
Lemma ep_inv_cut ph ep pc s' cut data :
  ep_inv ph ep -> cut_ok (ep_hist ep) ph (ep_wrote ep) cut data (ep_s ep) s' ->
  ep_inv ph (mkEp s' pc (ep_wr ep) (ep_run ep) (ep_reset ep) (ep_in ep ++ data) (ep_out ep)
               (ep_hist ep ++ cut) (ep_wrote ep)).
Proof.
  intros [H1 H2 H3 H4 [H5 H5'] H6 H7] [C1 C2 C3 C4 C5]. constructor; simpl; try done.
  - by eapply writer_inv_writing.
  - by rewrite C5, H4.
  - split; [|done]. eapply Forall_impl; [done|]. intros b. apply hist_frame_prefix. by eexists.
  - by rewrite C4.
Qed.

Lemma cut_ok_after hist ph W cut data s s1 s2 :
  cut_ok hist ph W cut data s s1 -> sess_ok (hist ++ cut) ph W s1 s2 ->
  cut_ok hist ph W cut data s s2.
Proof.
  intros [C1 C2 C3 C4 C5] [S1 S2 S3 S4 S5]. constructor; try done; [by auto|congruence|].
  by rewrite (sent_stream_pend _ s1).
Qed.

(** One result of [Conn.Read]. *)
Lemma read_result_cut hist ph W now s data err :
  snd_inv hist s -> rcv_inv ph W s -> len data <= max_chunk -> bytes_ok data ->
  exists b s' es, readTCP_result now data err s = Some (b, s', es) /\
    cut_ok hist ph W (if len data >? 0 then cut_by_read (s_tx s) data else []) data s s' /\
    Forall ctl_effect es.
Proof.
  intros Hs Hr Hl Hd. unfold readTCP_result.
  assert (exists s1 es1, (if len data >? 0 then readTCP_data now data else go_ret tt) s =
      Some (tt, s1, es1) /\
    cut_ok hist ph W (if len data >? 0 then cut_by_read (s_tx s) data else []) data s s1 /\
    Forall ctl_effect es1) as (s1 & es1 & HE1 & HC1 & Ht1).
  { destruct (Z.gtb_spec (len data) 0) as [Hp|Hp].
    - destruct (read_inv hist s now data Hs Hl Hd) as (s1 & es1 & HE & Hi & Hst & Hrx & Hc & Ht).
      exists s1, es1. split; [done|]. split; [|by apply timers_only_ctl]. constructor; try done.
      + apply (rcv_inv_frame ph W s); rewrite ?Hrx; try done. apply Hi.
      + intros B. unfold writing. by rewrite Hrx.
    - assert (data = []) as -> by (destruct data; [done|rewrite len_cons in Hp;
        pose proof (len_nonneg data); lia]).
      exists s, []. split; [done|]. split; [|done]. by apply cut_ok_nil, same_core_ok. }
  destruct (readTCP_err_post (hist ++ (if len data >? 0 then cut_by_read (s_tx s) data else []))
    ph W now err s1) as (b & s2 & es2 & HE2 & Hok & Ht2); [apply HC1..|].
  exists b, s2, (es1 ++ es2). split; [by eapply go_bind_eq|].
  split; [by eapply cut_ok_after|by apply Forall_app].
Qed.

Lemma reader_cut hist ph W now ch data err pc s :
  snd_inv hist s -> rcv_inv ph W s -> len data <= max_chunk -> bytes_ok data ->
  exists pc' s' es, reader_step now ch data err pc s = Some (pc', s', es) /\
    cut_ok hist ph W (cut_by_reader pc s data) (read_by_reader pc data) s s' /\ Forall ctl_effect es.
Proof.
  intros Hs Hr Hl Hd. unfold reader_step. rewrite go_bind_get.
  assert (forall pc' : ReaderPC, exists (pc'' : ReaderPC) s' es, go_ret (E := Effect) pc' s = Some (pc'', s', es) /\
    cut_ok hist ph W [] [] s s' /\ Forall ctl_effect es) as Hstay.
  { intros pc'. exists pc', s, []. split; [done|]. split; [|done]. by apply cut_ok_nil, same_core_ok. }
  destruct pc as [| | | | |start|cl]; simpl; [by destruct (s_done s); apply Hstay| | | | | |apply Hstay].
  - destruct (_ >? _); [|apply Hstay]. destruct (_ && _); apply Hstay.
  - destruct (read_result_cut hist ph W now s data err) as (b & s' & es & HE & HC & Ht); [done..|].
    eexists _, s', (es ++ []). split; [by eapply go_bind_eq|]. by rewrite app_nil_r.
  - unfold mod_tx. rewrite go_bind_modify. set (s1 := with_tx s _).
    assert (sess_ok hist ph W s s1) as [S1 S2 _ _ _] by (apply same_core_ok; [done..|by repeat split]).
    assert (cut_ok hist ph W [] [] s s1) as HC0
      by (apply cut_ok_nil, same_core_ok; [done..|by repeat split]).
    destruct (s_done s); [by eexists _, s1, []|].
    destruct (flush_cut hist ph W s1 S1 S2) as (s2 & HE & [C1 C2 C3 C4 C5]).
    change (s_tx s1) with (set_sendClosed true (s_tx s)) in *.
    assert (cut_pending (set_sendClosed true (s_tx s)) = cut_pending (s_tx s)) as Hcp by done.
    rewrite Hcp in *.
    assert (cut_ok hist ph W (cut_pending (s_tx s)) [] s s2) as HC2 by (constructor; done).
    destruct (Z.gtb_spec (len (pendingData (s_tx s))) 0) as [Hp|Hp].
    + eexists _, s2, _. split; [by eapply go_bind_eq|done].
    + exists RdDrain, s1, []. split; [done|]. split; [|done].
      unfold cut_pending. rewrite bool_decide_eq_true_2; [done|].
      destruct (pendingData (s_tx s)) as [|x l]; [done|]. rewrite len_cons in Hp.
      pose proof (len_nonneg l). lia.
  - destruct (_ >? _); [|apply Hstay]. destruct (_ && _); apply Hstay.
  - destruct (_ <? _); [|apply Hstay]. destruct (all_acked _); [apply Hstay|].
    destruct (_ && _); apply Hstay.
Qed.

Lemma maxPayload_bound (cfg : Config) : c_LinkMTU cfg <= 2076 -> readTCP_maxPayload cfg <= max_chunk.
Proof. intros H. unfold readTCP_maxPayload, max_chunk. case_match; lia. Qed.

(** Every step of an end is defined and keeps its invariant. *)
Lemma ep_step_ok ph peer ep incoming now act :
  ep_inv ph ep -> ep_hist peer = ph -> Forall (sent_ok ph) incoming ->
  act_ok ep peer incoming act -> step_post ph ep (ep_step now act ep).
Proof.
  intros Hi Hph Hnet Hact. pose proof Hi as [H1 H2 H3 H4 H5 H6 H7].
  destruct act as [ch data err|werr|ch woken| |g|g pc|ch pc|b|].
  - destruct Hact as [Hl Hd].
    destruct (reader_cut (ep_hist ep) ph (ep_wrote ep) now ch data err (ep_rd ep) (ep_s ep))
      as (pc & s' & es & HE & HC & Ht); [done..| |done|].
    { etransitivity; [exact Hl|]. by apply maxPayload_bound. }
    unfold ep_step. rewrite HE. eexists _, es. split; [done|].
    split; [by apply ep_inv_cut|]. split; [by eexists|]. by apply udp_sent_ctl.
  - by apply writer_ep_step.
  - by apply shaper_ep_step.
  - destruct (flush_cut _ _ _ _ H1 H2) as (s' & HE & HC).
    unfold ep_step, flushPendingBlock. rewrite HE. eexists _, []. split; [done|].
    split; [|split; [by eexists|done]].
    pose proof (ep_inv_cut ph ep (ep_rd ep) s' _ [] Hi HC) as Hn. by rewrite app_nil_r in Hn.
  - apply step_session; [done|]. by apply timer_post.
  - apply step_session; [done|]. by apply nak_post.
  - apply step_session; [done|]. by apply closer_step_post.
  - destruct Hact as [Hb Ht]. rewrite Hph in Ht. apply recv_step; try done.
    by apply (proj1 (Forall_forall _ _) Hnet).
  - apply step_session; [done|]. by apply Close_post.
Qed.

(** ** The system invariant *)

Record sys_inv (sys : Sys) : Prop := {
  vi_a : ep_inv (ep_hist (sys_b sys)) (sys_a sys);
  vi_b : ep_inv (ep_hist (sys_a sys)) (sys_b sys);
  vi_ab : Forall (sent_ok (ep_hist (sys_a sys))) (net_ab sys);
  vi_ba : Forall (sent_ok (ep_hist (sys_b sys))) (net_ba sys);
}.

Lemma rx_ok_prefix hist hist' g rb : hist `prefix_of` hist' -> rx_ok hist g rb -> rx_ok hist' g rb.
Proof.
  intros [ext ->] [[H1 H2 H3 H4 H5 H6 H7] Hl]. split; [|done]. constructor; try done.
  intros i p Hp. destruct (H4 i p Hp) as (B & HB & Hs). exists B. split; [by apply lookup_app_l_Some|done].
Qed.

Lemma writer_inv_prefix hist hist' W s pc out :
  (W <= length hist)%nat -> hist `prefix_of` hist' ->
  writer_inv hist W s pc out -> writer_inv hist' W s pc out.
Proof.
  intros HW [ext ->]. revert hist HW. induction ext as [|B ext IH]; intros hist HW Hi.
  - by rewrite app_nil_r.
  - rewrite cons_middle, app_assoc. apply IH; [rewrite length_app; lia|]. by apply writer_inv_grow.
Qed.

(** An end does not mind the growth of the peer's history. *)
Lemma ep_inv_prefix ph ph' ep :
  Forall block_wf ph' -> ph `prefix_of` ph' -> ep_inv ph ep -> ep_inv ph' ep.
Proof.
  intros Hwf Hp [H1 [R1 R2 R3 R4 R5] H3 H4 H5 H6 H7]. constructor; try done.
  - constructor; try done. intros id rb Hr. destruct (R5 id rb Hr) as (g & ? & ? & ? & ?).
    exists g. split_and!; try done. by eapply rx_ok_prefix.
  - by eapply writer_inv_prefix.
  - apply prefix_length in Hp. lia.
Qed.

Lemma sys_inv_step sys sys' : sys_step sys sys' -> sys_inv sys -> sys_inv sys'.
Proof.
  intros [now act a b nab nba a' es Hact HE|now act a b nab nba b' es Hact HE] [Ha Hb Hab Hba]; simpl in *.
  - destruct (ep_step_ok _ b a nba now act Ha eq_refl Hba Hact) as (a2 & es2 & HE2 & Ha2 & Hp & Hes).
    rewrite HE in HE2. injection HE2 as <- <-. constructor; simpl; try done.
    + apply (ep_inv_prefix (ep_hist a)); try done. apply Ha2.
    + apply Forall_app. split; [|done]. eapply Forall_impl; [done|]. intros. by eapply sent_ok_prefix.
  - destruct (ep_step_ok _ a b nab now act Hb eq_refl Hab Hact) as (b2 & es2 & HE2 & Hb2 & Hp & Hes).
    rewrite HE in HE2. injection HE2 as <- <-. constructor; simpl; try done.
    + apply (ep_inv_prefix (ep_hist b)); try done. apply Hb2.
    + apply Forall_app. split; [|done]. eapply Forall_impl; [done|]. intros. by eapply sent_ok_prefix.
Qed.

(** A fresh session satisfies both invariants, and [Start] succeeds. *)
Lemma Start_ok now mtu bw remote peer srv :
  exists s es, Start (NewSession now sid remote peer srv mtu bw (Z.of_nat K) (Z.of_nat M)) =
      Some (tt, s, es) /\
    snd_inv [] s /\ rcv_inv [] 0 s /\ c_LinkMTU (s_cfg s) = mtu /\ pendingData (s_tx s) = [] /\
    (forall ph, writer_inv ph 0 s WrTop []).
Proof.
  destruct (new_block_ok [] 0 0 eq_refl) as (rb & Hn & Hok).
  unfold Start. rewrite go_bind_get. rewrite bool_decide_eq_true_2 by done.
  cbn [NewSession s_cfg c_FEC_K c_FEC_M].
  change 0 with (u16 (Z.of_nat 0)) at 1. rewrite Hn. cbn [go_opt]. rewrite go_bind_ret.
  eexists _, _. split; [by apply go_bind_emit|]. cbn -[burst_interval lqr_timeout].
  split_and!; try done.
  - split; [|simpl; lia]. constructor; try done; simpl; lia.
  - constructor; try done; simpl.
    intros id rb'. intros [[<- <-]|[_ Hr]]%lookup_insert_Some; [|by rewrite lookup_empty in Hr].
    exists 0%nat. split_and!; try done.
Qed.

Lemma ep_init_inv now mtu bw remote peer srv ep :
  mtu <= 2076 -> ep_init now mtu bw remote peer srv = Some ep ->
  ep_hist ep = [] /\ ep_inv [] ep.
Proof.
  intros Hm HE. unfold ep_init in HE.
  destruct (Start_ok now mtu bw remote peer srv) as (s & es & HS & H1 & H2 & H3 & H4 & H5).
  rewrite HS in HE. simpl in HE. injection HE as <-. split; [done|].
  constructor; simpl; try done; [|by rewrite H3]. unfold sent_stream. by rewrite H4.
Qed.

Lemma sys_init_inv sys : sys_init sys -> sys_inv sys.
Proof.
  intros ((?&?&?&?&?&?&Hm1&Ha) & (?&?&?&?&?&?&Hm2&Hb) & Hab & Hba).
  apply ep_init_inv in Ha as [Ha1 Ha2]; [|done]. apply ep_init_inv in Hb as [Hb1 Hb2]; [|done].
  constructor; rewrite ?Ha1, ?Hb1, ?Hab, ?Hba; done.
Qed.

Lemma sys_reachable_inv sys0 sys : sys_init sys0 -> rtc sys_step sys0 sys -> sys_inv sys.
Proof.
  intros Hi%sys_init_inv Hr. induction Hr as [|s1 s2 s3 Hs _ IH]; [done|].
  apply IH. by eapply sys_inv_step.
Qed.

(** What an end wrote is a prefix of what the peer read; at the top of its loop
    it has written exactly the first [ep_wrote] blocks. *)
Definition delivered (from to : Endpoint) : Prop :=
  ep_out to `prefix_of` ep_in from /\
  (ep_wr to = WrTop \/ ep_wr to = WrWait -> ep_out to = blocks_stream (take (ep_wrote to) (ep_hist from))).

Lemma delivered_ok from to :
  ep_inv (ep_hist to) from -> ep_inv (ep_hist from) to -> delivered from to.
Proof.
  intros Hf Ht. split.
  - rewrite <- (ei_in _ _ Hf). unfold sent_stream.
    transitivity (blocks_stream (ep_hist from)); [|by eexists].
    pose proof (ei_wr _ _ Ht) as Hw. destruct (ep_wr to) as [| |i| | | |]; simpl in Hw.
    1-2: rewrite Hw; apply blocks_stream_prefix.
    1: destruct Hw as (B & [HB _] & _ & ->); by apply partial_prefix.
    1-3: destruct Hw as (B & _ & ->); apply blocks_stream_prefix.
    done.
  - pose proof (ei_wr _ _ Ht) as Hw. intros [E|E]; by rewrite E in Hw.
Qed.

(** A stream of at most 32768 blocks cannot leave the window. *)
Lemma timely_short hist W b :
  Z.of_nat (length hist) <= 32768 -> Z.of_nat W < 32768 -> timely hist W b.
Proof.
  intros Hl HW (g & B & p & HB & Hp & HM). exists g. split; [by exists B, p|].
  apply lookup_lt_Some in HB. unfold in_window. lia.
Qed.

(** ** An executable driver for concrete schedules *)

Definition act_okb (me peer : Endpoint) (incoming : list bytes) (act : Act) : bool :=
  match act with
  | AReader _ data _ =>
      bool_decide (len data <= readTCP_maxPayload (s_cfg (ep_s me)) /\ bytes_ok data)
  | ALqrTimer grpID => bool_decide (is_u16 grpID)
  | ARecv b => bool_decide (b ∈ incoming) &&
      (Z.of_nat (length (ep_hist peer)) <=? 32768) && (Z.of_nat (ep_wrote me) <? 32768)
  | _ => true
  end.

Lemma act_okb_ok me peer incoming act :
  act_okb me peer incoming act = true -> act_ok me peer incoming act.
Proof.
  destruct act; simpl; try done; intros H.
  - by apply bool_decide_eq_true in H.
  - by apply bool_decide_eq_true in H.
  - go_bool. rewrite bool_decide_eq_true in H. split; [done|]. by apply timely_short.
Qed.

(** One event: the end ([true] is [a]), the clock, the action. *)
Definition sys_exec1 (e : bool * Z * Act) (sys : Sys) : option Sys :=
  let '(at_a, now, act) := e in
  let '(mkSys a b nab nba) := sys in
  if at_a : bool then
    if act_okb a b nba act then
      '(a', es) ← ep_step now act a; Some (mkSys a' b (nab ++ udp_sent es) nba)
    else None
  else
    if act_okb b a nab act then
      '(b', es) ← ep_step now act b; Some (mkSys a b' nab (nba ++ udp_sent es))
    else None.

Definition sys_exec (es : list (bool * Z * Act)) (sys : Sys) : option Sys :=
  foldl (fun acc e => sys ← acc; sys_exec1 e sys) (Some sys) es.

Lemma sys_exec1_sound e sys sys' : sys_exec1 e sys = Some sys' -> sys_step sys sys'.
Proof.
  destruct e as [[at_a now] act], sys as [a b nab nba]. simpl. intros H.
  destruct at_a.
  - destruct (act_okb _ _ _ _) eqn:E; [|done]. apply act_okb_ok in E.
    destruct (ep_step now act a) as [[a' es]|] eqn:HE; simpl in H; [|done].
    injection H as <-. by eapply step_a.
  - destruct (act_okb _ _ _ _) eqn:E; [|done]. apply act_okb_ok in E.
    destruct (ep_step now act b) as [[b' es]|] eqn:HE; simpl in H; [|done].
    injection H as <-. by eapply step_b.
Qed.

Lemma sys_exec_sound es sys sys' : sys_exec es sys = Some sys' -> rtc sys_step sys sys'.
Proof.
  unfold sys_exec. revert sys'. induction es as [|e es IH] using rev_ind; intros sys' H.
  - simpl in H. by injection H as <-.
  - rewrite foldl_app in H. simpl in H.
    destruct (foldl _ _ es) as [s1|]; simpl in H; [|done].
    eapply rtc_r; [by apply IH|by apply (sys_exec1_sound e)].
Qed.

(** ** Theorems *)

(** C1: The tunnel is transparent.  In every reachable state of two connected
    sessions, whatever the network loses, duplicates, delays or reorders, whatever
    the timers and goroutines interleave and wherever TCP reads and writes fail,
    the bytes each end has written to its TCP connection are a prefix of the bytes
    the other end has read from its own, in both directions; and a writer between
    two blocks has written exactly the blocks it has consumed. *)
Theorem tunnel_prefix sys0 sys :
  sys_init sys0 -> rtc sys_step sys0 sys ->
  delivered (sys_a sys) (sys_b sys) /\ delivered (sys_b sys) (sys_a sys).
Proof.
  intros Hi Hr. destruct (sys_reachable_inv sys0 sys Hi Hr) as [Ha Hb _ _].
  split; by apply delivered_ok.
Qed.

(** C2: No step panics.  In every reachable state, every action the environment
    may take at either end is executed to completion (no index out of range, no
    nil dereference, no negative [make]), and the shaper's goroutine is not in a
    panic either. *)
Theorem tunnel_no_panic sys0 sys now act :
  sys_init sys0 -> rtc sys_step sys0 sys ->
  (act_ok (sys_a sys) (sys_b sys) (net_ba sys) act -> is_Some (ep_step now act (sys_a sys))) /\
  (act_ok (sys_b sys) (sys_a sys) (net_ab sys) act -> is_Some (ep_step now act (sys_b sys))) /\
  ep_run (sys_a sys) <> RPanic /\ ep_run (sys_b sys) <> RPanic.
Proof.
  intros Hi Hr. destruct (sys_reachable_inv sys0 sys Hi Hr) as [Ha Hb Hab Hba].
  pose proof (ei_run _ _ Ha) as [_ HRa]. pose proof (ei_run _ _ Hb) as [_ HRb].
  split_and!; [intros Hact; edestruct ep_step_ok as (? & ? & -> & _); done..| |];
    intros E; [by rewrite E in HRa|by rewrite E in HRb].
Qed.

(** C10: A sender's tables stay bounded however many reports are lost: in every
    reachable state at most 101 sent blocks await a report and none of them is
    marked as reported, the retransmission cache holds at most 256 packets, fewer
    than [K] payloads are pending and the parity count is within [0..FEC_M]. *)
Theorem sender_bounded sys0 sys ep :
  sys_init sys0 -> rtc sys_step sys0 sys -> ep = sys_a sys \/ ep = sys_b sys ->
  let tx := s_tx (ep_s ep) in
  (size (txBlocks tx) <= 101)%nat /\
  map_Forall (fun _ b => tb_LQRRecved b = false) (txBlocks tx) /\
  (size (harqCache tx) <= 256)%nat /\ (length (pendingData tx) < K)%nat /\
  0 <= curM tx <= Z.of_nat M.
Proof.
  intros Hi Hr Hep. destruct (sys_reachable_inv sys0 sys Hi Hr) as [Ha Hb _ _].
  assert (snd_inv (ep_hist ep) (ep_s ep)) as [Hc Hl] by (destruct Hep as [->| ->]; [apply Ha|apply Hb]).
  cbv zeta. split_and!; try apply Hc; try done.
  - eapply tx_recent_size, Hc.
  - intros id b Hb'. by apply (si_recent _ _ Hc) in Hb' as [? _].
  - eapply cache_inv_size, Hc.
Qed.

End E2E.
