(* ===== verification/Frame.v ===== *)
(** * What no session operation changes

    The proxies hold many sessions whose goroutines run on their own.  Whatever a
    session does, its configuration stays, and once its context is cancelled it
    stays cancelled.  [keeps] says so of one computation; it is closed under the
    constructs of the monad, and the hint database [keeps] collects the methods. *)
From stdpp Require Import base gmap strings list pretty.
From S2P Require Import Prelude Protocol Fec Shaper Duration Session SessionRecv.
Local Open Scope string_scope.
Local Open Scope list_scope.
Local Open Scope Z_scope.
Local Open Scope go_scope.

Create HintDb keeps.

Section Frame.
Context {RS : ReedSolomon}.
Abbreviation SessM := (GoM Session Effect).

(** [s'] may follow [s] in the life of a session. *)
Definition evolves (s s' : Session) : Prop :=
  s_cfg s' = s_cfg s /\ (s_done s = true -> s_done s' = true).

#[global] Instance evolves_preorder : PreOrder evolves.
Proof.
  split; [by split|]. intros s1 s2 s3 [E1 H1] [E2 H2]. split; [congruence|auto].
Qed.

Definition keeps {A} (m : SessM A) : Prop :=
  forall s a s' es, m s = Some (a, s', es) -> evolves s s'.

Lemma keeps_ret {A} (a : A) : keeps (go_ret a).
Proof. by intros s b s' es [= <- <- <-]. Qed.

Lemma keeps_get : keeps go_get.
Proof. by intros s b s' es [= <- <- <-]. Qed.

Lemma keeps_emit e : keeps (go_emit e).
Proof. by intros s b s' es [= <- <- <-]. Qed.

Lemma keeps_panic {A} : keeps (@go_panic Session Effect A).
Proof. by intros s b s' es. Qed.

Lemma keeps_opt {A} (o : option A) : keeps (go_opt o).
Proof. destruct o; [apply keeps_ret|apply keeps_panic]. Qed.

Lemma keeps_modify f : (forall s, evolves s (f s)) -> keeps (go_modify f).
Proof. by intros H s b s' es [= <- <- <-]. Qed.

Lemma keeps_bind {A B} (m : SessM A) (k : A -> SessM B) :
  keeps m -> (forall a, keeps (k a)) -> keeps (go_bind m k).
Proof.
  intros Hm Hk s b s' es. unfold go_bind. destruct (m s) as [[[a s1] es1]|] eqn:E1; [|done].
  destruct (k a s1) as [[[b1 s2] es2]|] eqn:E2; [|done]. intros [= <- <- <-].
  etrans; [by eapply Hm|by eapply Hk].
Qed.

Lemma keeps_for {A} (l : list A) body : (forall x, keeps (body x)) -> keeps (go_for l body).
Proof. intros H. induction l; simpl; [apply keeps_ret|by apply keeps_bind]. Qed.

Lemma keeps_mod_tx f : keeps (mod_tx f).
Proof. by apply keeps_modify. Qed.
Lemma keeps_mod_rx f : keeps (mod_rx f).
Proof. by apply keeps_modify. Qed.
Lemma keeps_mod_st f : keeps (mod_st f).
Proof. by apply keeps_modify. Qed.
Lemma keeps_mod_shaper f : keeps (mod_shaper f).
Proof. by apply keeps_modify. Qed.
Lemma keeps_set_fec f : keeps (set_fec f).
Proof. by apply keeps_modify. Qed.
Lemma keeps_done : keeps (go_modify with_done).
Proof. by apply keeps_modify. Qed.

End Frame.

#[export] Hint Resolve keeps_ret keeps_get keeps_emit keeps_panic keeps_opt keeps_mod_tx keeps_mod_rx
  keeps_mod_st keeps_mod_shaper keeps_set_fec keeps_done : keeps.

(** Follow the structure of a computation down to the methods it calls. *)
Ltac go_keeps := repeat first
  [ match goal with |- forall _, _ => intros ? end | solve [eauto 2 with keeps] | apply keeps_bind
  | case_match | apply keeps_for | progress simpl ].

Section Methods.
Context {RS : ReedSolomon}.

Lemma Start_keeps : keeps Start.
Proof. unfold Start. go_keeps. Qed.
Lemma Close_keeps : keeps Close.
Proof. unfold Close. go_keeps. Qed.
Lemma RecordRx_keeps n : keeps (RecordRx n).
Proof. unfold RecordRx. go_keeps. Qed.
Lemma updateLastActive_keeps now : keeps (updateLastActive now).
Proof. unfold updateLastActive. go_keeps. Qed.
#[local] Hint Resolve Close_keeps RecordRx_keeps updateLastActive_keeps : keeps.
Lemma sendRawUDP_keeps now b : keeps (sendRawUDP now b).
Proof. unfold sendRawUDP. go_keeps. Qed.
#[local] Hint Resolve sendRawUDP_keeps : keeps.
Lemma sendPacketDirect_keeps now p : keeps (sendPacketDirect now p).
Proof. unfold sendPacketDirect. go_keeps. Qed.
Lemma updateShaperParams_keeps : keeps updateShaperParams.
Proof. unfold updateShaperParams. go_keeps. Qed.
Lemma flushPendingBlockLocked_keeps : keeps flushPendingBlockLocked.
Proof. unfold flushPendingBlockLocked. go_keeps. Qed.
#[local] Hint Resolve sendPacketDirect_keeps updateShaperParams_keeps flushPendingBlockLocked_keeps : keeps.
Lemma reader_step_keeps now ch data err pc : keeps (reader_step now ch data err pc).
Proof. unfold reader_step, readTCP_result, readTCP_data, readTCP_err. go_keeps. Qed.
Lemma closer_step_keeps now ch pc : keeps (closer_step now ch pc).
Proof. unfold closer_step. go_keeps. Qed.
Lemma HandleLQR_keeps now p : keeps (HandleLQR now p).
Proof. unfold HandleLQR. go_keeps. Qed.
Lemma HandleNak_keeps now p : keeps (HandleNak now p).
Proof. unfold HandleNak. go_keeps. Qed.
Lemma HandleClose_keeps : keeps HandleClose.
Proof. unfold HandleClose. go_keeps. Qed.
Lemma put_block_keeps g rb : keeps (put_block g rb).
Proof. unfold put_block. go_keeps. Qed.
#[local] Hint Resolve put_block_keeps : keeps.
Lemma tryDecodeBlock_keeps rb : keeps (tryDecodeBlock rb).
Proof. unfold tryDecodeBlock. go_keeps. Qed.
#[local] Hint Resolve tryDecodeBlock_keeps : keeps.
Lemma HandleDataPacket_keeps now p : keeps (HandleDataPacket now p).
Proof. unfold HandleDataPacket, insert_shard, get_or_create_block, decode_if_ready. go_keeps. Qed.
Lemma handleLQRTimeout_keeps now g : keeps (handleLQRTimeout now g).
Proof. unfold handleLQRTimeout. go_keeps. Qed.
Lemma nak_step_keeps now g pc : keeps (nak_step now g pc).
Proof. unfold nak_step. go_keeps. Qed.
#[local] Hint Resolve HandleLQR_keeps HandleNak_keeps HandleClose_keeps HandleDataPacket_keeps
  handleLQRTimeout_keeps : keeps.
Lemma writer_step_keeps now werr pc : keeps (writer_step now werr pc).
Proof. unfold writer_step, writer_top, writer_write, writer_exit. go_keeps. Qed.
Lemma Dispatch_keeps now n p : keeps (Dispatch now n p).
Proof. unfold Dispatch. go_keeps. Qed.

End Methods.

#[export] Hint Resolve Start_keeps Close_keeps Dispatch_keeps reader_step_keeps writer_step_keeps
  sendRawUDP_keeps flushPendingBlockLocked_keeps handleLQRTimeout_keeps nak_step_keeps
  closer_step_keeps : keeps.
