(* ===== verification/Frames.v ===== *)
(** * The frames a session sends

    The handshake of the proxies (CONNECT, CONN_ACK, CONN_ERR) and the traffic of
    the sessions share one socket.  Whatever a session does, the datagrams it sends
    are DATA, CLOSE, RESET, NAK or LQR frames: a session can neither open nor
    acknowledge a stream.  [tidies] says so of one computation, like [keeps]. *)
From stdpp Require Import base gmap strings list pretty.
From S2P Require Import Prelude Protocol Fec Shaper Duration Session SessionRecv.
Local Open Scope string_scope.
Local Open Scope list_scope.
Local Open Scope Z_scope.
Local Open Scope go_scope.

(** The type field of a frame. *)
Definition frame_type (b : bytes) : option Z :=
  match b with b0 :: _ => Some (Z.shiftr b0 4) | [] => None end.

Definition session_frame (b : bytes) : Prop := exists t, frame_type b = Some t /\ 3 <= t <= 7.

Lemma Marshal_type p b :
  Marshal p = Ok b -> 0 <= p_Type p <= 7 -> 0 <= p_StreamID p -> frame_type b = Some (p_Type p).
Proof.
  intros E Ht Hid. unfold Marshal in E. destruct (p_StreamID p >? 4095) eqn:Es; [done|]. go_bool.
  cbv zeta in E. rewrite base0_eq in E by lia.
  assert (exists rest, b = (p_Type p * 16 + p_StreamID p / 256) :: rest) as [rest ->]
    by (repeat case_match; simplify_eq/=; eauto).
  simpl. rewrite header_type by lia. done.
Qed.

Lemma Unmarshal_type b p : Unmarshal b = Some (Ok p) -> frame_type b = Some (p_Type p).
Proof.
  unfold Unmarshal. destruct b as [|b0 [|b1 rest]]; [done..|]. rewrite !len_cons.
  pose proof (len_nonneg rest). go_test. simpl.
  intros E. repeat match goal with
    | H : Some _ = Some (Ok _) |- _ => injection H as H
    | H : mbind _ ?o = Some (Ok _) |- _ => destruct o eqn:?; simpl in H; [|discriminate]
    | H : context [if ?b then _ else _] |- _ => destruct b eqn:?
    | H : Err _ = Ok _ |- _ => discriminate
    | H : Ok _ = Ok _ |- _ => injection H as <-
    end; by subst p.
Qed.

(** The receive buffer and the decoder on a frame that fits the buffer. *)
Lemma Marshal_received p b :
  Packet_wf p -> Marshal p = Ok b -> len b <= 2048 -> Unmarshal (ReadFrom b) = Some (Ok (wire_view p)).
Proof.
  intros Hp E Hl. unfold ReadFrom. rewrite take_ge by (unfold len, recv_buf in *; lia).
  destruct (Marshal_decode p b Hp E) as (rest & -> & Hr & Ht & Hid & Hd).
  by rewrite Marshal_header, Hd.
Qed.

Lemma Unmarshal_stream b p : bytes_ok b -> Unmarshal (ReadFrom b) = Some (Ok p) -> 0 <= p_StreamID p <= 4095.
Proof.
  intros Hb E. assert (bytes_ok (ReadFrom b)) as Hb' by (by apply Forall_take).
  destruct (Unmarshal_Ok_inv _ _ Hb' E) as (t & id & rest & Ht & Hid & Hr & _ & Hd).
  destruct (decode_body_wf t id rest p Hr Ht Hid Hd) as ((_ & Hs & _) & H & _). unfold is_u16 in Hs. lia.
Qed.

Lemma frame_type_ReadFrom b : frame_type (ReadFrom b) = frame_type b.
Proof. by destruct b. Qed.

Create HintDb tidies.

Section Frames.
Context {RS : ReedSolomon}.
Context (sid : Z) (Hsid : 0 <= sid).
Abbreviation SessM := (GoM Session Effect).

Definition cached_ok (cache : gmap Z Packet) : Prop :=
  map_Forall (fun _ p => p_Type p = TypeData /\ 0 <= p_StreamID p) cache.

Record tidy (s : Session) : Prop := {
  td_sid : c_StreamID (s_cfg s) = sid;
  td_queue : Forall session_frame (queue (s_Shaper s));
  td_cache : cached_ok (harqCache (s_tx s));
}.

Definition tidy_effect (e : Effect) : Prop :=
  match e with EUdp b => session_frame b | _ => True end.

Definition tidies {A} (m : SessM A) : Prop :=
  forall s a s' es, tidy s -> m s = Some (a, s', es) -> tidy s' /\ Forall tidy_effect es.

Lemma tidies_ret {A} (a : A) : tidies (go_ret a).
Proof. by intros s b s' es Hs [= <- <- <-]. Qed.

Lemma tidies_emit e : tidy_effect e -> tidies (go_emit e).
Proof. intros He s b s' es Hs [= <- <- <-]. split; [done|by constructor]. Qed.

Lemma tidies_panic {A} : tidies (@go_panic Session Effect A).
Proof. by intros s b s' es. Qed.

Lemma tidies_opt {A} (o : option A) : tidies (go_opt o).
Proof. destruct o; [apply tidies_ret|apply tidies_panic]. Qed.

Lemma tidies_modify f : (forall s, tidy s -> tidy (f s)) -> tidies (go_modify f).
Proof. intros H s b s' es Hs [= <- <- <-]. split; [by apply H|done]. Qed.

Lemma tidies_bind {A B} (m : SessM A) (k : A -> SessM B) :
  tidies m -> (forall a, tidies (k a)) -> tidies (go_bind m k).
Proof.
  intros Hm Hk s b s' es Hs. unfold go_bind. destruct (m s) as [[[a s1] es1]|] eqn:E1; [|done].
  destruct (k a s1) as [[[b1 s2] es2]|] eqn:E2; [|done]. intros [= <- <- <-].
  destruct (Hm _ _ _ _ Hs E1) as [H1 F1]. destruct (Hk _ _ _ _ _ H1 E2) as [H2 F2].
  split; [done|by apply Forall_app].
Qed.

(** What is read from the session is tidy. *)
Lemma tidies_get {B} (k : Session -> SessM B) :
  (forall s, tidy s -> tidies (k s)) -> tidies (go_bind go_get k).
Proof. intros H s b s' es Hs. rewrite go_bind_get. by apply H. Qed.

Lemma tidies_opt_bind {A B} (o : option A) (k : A -> SessM B) :
  (forall a, o = Some a -> tidies (k a)) -> tidies (go_bind (go_opt o) k).
Proof.
  intros H. destruct o as [a|]; simpl; [|by intros s b s' es].
  intros s b s' es Hs. rewrite go_bind_ret. by apply H.
Qed.

Lemma tidies_for {A} (l : list A) body : (forall x, tidies (body x)) -> tidies (go_for l body).
Proof. intros H. induction l; simpl; [apply tidies_ret|by apply tidies_bind]. Qed.

Lemma tidies_mod_tx f :
  (forall tx, cached_ok (harqCache tx) -> cached_ok (harqCache (f tx))) -> tidies (mod_tx f).
Proof. intros H. apply tidies_modify. intros s []. constructor; simpl; auto. Qed.
Lemma tidies_mod_rx f : tidies (mod_rx f).
Proof. apply tidies_modify. by intros s []. Qed.
Lemma tidies_mod_st f : tidies (mod_st f).
Proof. apply tidies_modify. by intros s []. Qed.
Lemma tidies_set_fec f : tidies (set_fec f).
Proof. apply tidies_modify. by intros s []. Qed.
Lemma tidies_done : tidies (go_modify with_done).
Proof. apply tidies_modify. by intros s []. Qed.
Lemma tidies_mod_shaper f :
  (forall sh, Forall session_frame (queue sh) -> Forall session_frame (queue (f sh))) -> tidies (mod_shaper f).
Proof. intros H. apply tidies_modify. intros s []. constructor; simpl; auto. Qed.

End Frames.

#[export] Hint Resolve tidies_ret tidies_panic tidies_opt tidies_mod_rx tidies_mod_st tidies_set_fec
  tidies_done : tidies.
#[export] Hint Extern 1 (tidies _ (go_emit _)) => apply tidies_emit; exact I : tidies.
#[export] Hint Extern 1 (tidies _ (mod_tx _)) => apply tidies_mod_tx; solve [auto] : tidies.
#[export] Hint Extern 1 (tidies _ (mod_shaper _)) => apply tidies_mod_shaper; solve [auto] : tidies.

(** Follow the structure of a computation down to the methods it calls. *)
Ltac go_tidies := repeat first
  [ match goal with |- forall _, _ => intros ? end | solve [eauto 2 with tidies] | apply tidies_get
  | apply tidies_opt_bind | apply tidies_bind | case_match | apply tidies_for | progress simpl ].

Section Methods.
Context {RS : ReedSolomon}.
Context (sid : Z) (Hsid : 0 <= sid).

Lemma session_frame_Marshal p b :
  Marshal p = Ok b -> 3 <= p_Type p <= 7 -> 0 <= p_StreamID p -> session_frame b.
Proof. intros E Ht Hid. exists (p_Type p). split; [by apply Marshal_type; [|lia|]|done]. Qed.

Lemma Start_tidies : tidies sid Start.
Proof. unfold Start. go_tidies. Qed.
Lemma Close_tidies : tidies sid Close.
Proof. unfold Close. go_tidies. Qed.
Lemma RecordRx_tidies n : tidies sid (RecordRx n).
Proof. unfold RecordRx. go_tidies. Qed.
Lemma updateLastActive_tidies now : tidies sid (updateLastActive now).
Proof. unfold updateLastActive. go_tidies. Qed.
Lemma updateShaperParams_tidies : tidies sid updateShaperParams.
Proof. unfold updateShaperParams. go_tidies. Qed.
#[local] Hint Resolve Close_tidies RecordRx_tidies updateLastActive_tidies updateShaperParams_tidies : tidies.

Lemma sendRawUDP_tidies now b : session_frame b -> tidies sid (sendRawUDP now b).
Proof. intros Hb. unfold sendRawUDP. go_tidies. by apply tidies_emit. Qed.

Lemma sendPacketDirect_tidies now p :
  3 <= p_Type p <= 7 -> 0 <= p_StreamID p -> tidies sid (sendPacketDirect now p).
Proof.
  intros Ht Hid. unfold sendPacketDirect. destruct (Marshal p) eqn:E; [|go_tidies].
  by eapply sendRawUDP_tidies, session_frame_Marshal.
Qed.

(** The packets of a block. *)
Lemma append_marshal_frames pkts p :
  Forall session_frame pkts -> p_Type p = TypeData -> 0 <= p_StreamID p ->
  Forall session_frame (append_marshal pkts p).
Proof.
  intros Hp Ht Hid. unfold append_marshal. destruct (Marshal p) eqn:E; [|done].
  apply Forall_app. split; [done|]. constructor; [|done].
  eapply session_frame_Marshal; [done| |done]. rewrite Ht. unfold TypeData. lia.
Qed.

Lemma data_loop_frames grp pending k st seq' cache' pkts' :
  cached_ok st.1.2 -> Forall session_frame st.2 ->
  data_loop sid grp pending k st = Some (seq', cache', pkts') ->
  cached_ok cache' /\ Forall session_frame pkts'.
Proof.
  revert seq' cache' pkts'. unfold data_loop.
  induction k as [|k IH]; intros seq' cache' pkts' Hc Hp.
  { simpl. intros E. by injection E as ->. }
  rewrite seq_S, foldl_app. simpl. destruct (foldl _ _ _) as [[[q c] pk]|] eqn:E; simpl; [|done].
  destruct (pending !! k) as [payload|]; simpl; [|done]. intros [= <- <- <-].
  destruct (IH q c pk Hc Hp) as [H1 H2]; [done|]. split; [by apply map_Forall_insert_2|].
  by apply append_marshal_frames.
Qed.

Lemma parity_loop_frames grp k parity m pkts pkts' :
  Forall session_frame pkts -> parity_loop sid grp k parity m pkts = Some pkts' ->
  Forall session_frame pkts'.
Proof.
  revert pkts'. unfold parity_loop. induction m as [|m IH]; intros pkts' Hp; [by intros [= <-]|].
  rewrite seq_S, foldl_app. simpl. destruct (foldl _ _ _) as [pk|] eqn:E; simpl; [|done].
  destruct (parity !! m) as [payload|]; simpl; [|done]. intros [= <-].
  apply append_marshal_frames; [by apply IH|done|done].
Qed.

Lemma Forall_Enqueue sh b : Forall session_frame (queue sh) -> session_frame b ->
  Forall session_frame (queue (Enqueue sh b)).
Proof. intros H Hb. unfold Enqueue. case_match; [done|]. apply Forall_app. split; [done|by constructor]. Qed.

Lemma Forall_EnqueueMany sh l : Forall session_frame (queue sh) -> Forall session_frame l ->
  Forall session_frame (queue (EnqueueMany sh l)).
Proof. intros H Hb. unfold EnqueueMany. case_match; [done|]. by apply Forall_app. Qed.

Lemma flushPendingBlockLocked_tidies : tidies sid flushPendingBlockLocked.
Proof.
  unfold flushPendingBlockLocked. apply tidies_get. intros s [Es Hq Hc]. case_match; [go_tidies|].
  apply tidies_bind; [go_tidies|]. intros _. destruct (Encode _ _ _ _) as [res fec].
  apply tidies_bind; [go_tidies|]. intros _. destruct res as [parity|]; [|go_tidies].
  apply tidies_opt_bind. intros [[q c] pk] E1. apply tidies_opt_bind. intros pkts E2. rewrite Es in *.
  apply data_loop_frames in E1 as [H1 H2]; [|done|done]. apply parity_loop_frames in E2; [|done].
  apply tidies_bind; [by apply tidies_mod_tx|]. intros _.
  apply tidies_bind; [|go_tidies]. apply tidies_mod_shaper. intros sh Hsh. by apply Forall_EnqueueMany.
Qed.

Lemma HandleNak_tidies now p : tidies sid (HandleNak now p).
Proof.
  unfold HandleNak. apply tidies_bind; [go_tidies|]. intros _. apply tidies_get. intros s [Es Hq Hc].
  destruct (harqCache (s_tx s) !! p_SeqNum p) as [pkt|] eqn:E; [|go_tidies].
  destruct (Hc _ _ E) as [Ht Hid]. destruct (Marshal pkt) as [b|] eqn:Em; [|go_tidies].
  apply tidies_bind; [|go_tidies]. apply tidies_mod_shaper. intros sh Hsh.
  apply Forall_Enqueue; [done|]. eapply session_frame_Marshal; [done| |done].
  rewrite Ht. unfold TypeData. lia.
Qed.

#[local] Hint Resolve flushPendingBlockLocked_tidies HandleNak_tidies : tidies.
#[local] Hint Extern 1 (tidies _ (sendPacketDirect _ _)) =>
  apply sendPacketDirect_tidies; simpl; [unfold_types; lia|lia] : tidies.
#[local] Hint Extern 0 => match goal with
  | H : tidy _ ?s |- context [c_StreamID (s_cfg ?s)] => rewrite (td_sid _ _ H) end : tidies.

Lemma readTCP_result_tidies now data err : tidies sid (readTCP_result now data err).
Proof. unfold readTCP_result, readTCP_data, readTCP_err. go_tidies. Qed.
#[local] Hint Resolve readTCP_result_tidies : tidies.
Lemma reader_step_tidies now ch data err pc : tidies sid (reader_step now ch data err pc).
Proof. unfold reader_step. go_tidies. Qed.
Lemma closer_step_tidies now ch pc : tidies sid (closer_step now ch pc).
Proof. unfold closer_step. go_tidies. Qed.
Lemma HandleLQR_tidies now p : tidies sid (HandleLQR now p).
Proof. unfold HandleLQR. go_tidies. Qed.
Lemma HandleClose_tidies : tidies sid HandleClose.
Proof. unfold HandleClose. go_tidies. Qed.
Lemma put_block_tidies g rb : tidies sid (put_block g rb).
Proof. unfold put_block. go_tidies. Qed.
#[local] Hint Resolve put_block_tidies : tidies.
Lemma tryDecodeBlock_tidies rb : tidies sid (tryDecodeBlock rb).
Proof. unfold tryDecodeBlock. go_tidies. Qed.
#[local] Hint Resolve tryDecodeBlock_tidies : tidies.
Lemma HandleDataPacket_tidies now p : tidies sid (HandleDataPacket now p).
Proof. unfold HandleDataPacket, insert_shard, get_or_create_block, decode_if_ready. go_tidies. Qed.
Lemma handleLQRTimeout_tidies now g : tidies sid (handleLQRTimeout now g).
Proof. unfold handleLQRTimeout. go_tidies. Qed.
Lemma nak_step_tidies now g pc : tidies sid (nak_step now g pc).
Proof. unfold nak_step. go_tidies. Qed.
#[local] Hint Resolve HandleLQR_tidies HandleClose_tidies HandleDataPacket_tidies
  handleLQRTimeout_tidies : tidies.
Lemma writer_step_tidies now werr pc : tidies sid (writer_step now werr pc).
Proof. unfold writer_step, writer_top, writer_write, writer_exit. go_tidies. Qed.
Lemma Dispatch_tidies now n p : tidies sid (Dispatch now n p).
Proof. unfold Dispatch. go_tidies. Qed.

End Methods.
