(* ===== verification/Pep.v ===== *)
(** * What the two proxies share (src/proxy/client.go, src/proxy/server.go)

    [ClientPEP] and [ServerPEP] have the same parameters, session table, context
    and shutdown logic.  Sessions are objects that the table, the demultiplexer
    and the handlers refer to by pointer: [pep_objs] is the store of the objects
    ever created, the table maps stream numbers to positions in it.  An object
    carries the program counters of its goroutines, which run once [Start] has
    been called. *)
From stdpp Require Import base gmap strings list pretty.
From S2P Require Import Prelude Protocol Fec Shaper Duration Session SessionRecv SendSpec RecvSpec E2E Frame.
Local Open Scope string_scope.
Local Open Scope list_scope.
Local Open Scope Z_scope.
Local Open Scope go_scope.

(** An accepted or dialled TCP connection. *)
Record Conn := mkConn { conn_id : nat; conn_remote : option string }.

#[global] Instance Conn_eq_dec : EqDecision Conn.
Proof. solve_decision. Defined.

Record PepConfig := mkPepConfig {
  pc_mtu : Z;
  pc_bandwidth : Z;
  pc_fecK : Z;
  pc_fecM : Z;
  pc_idleTimeout : Z;
}.

(** What a proxy does to the outside: a datagram to an address, closing a
    connection it has not handed to a session, its own sockets; [PSess ref e] is
    an effect of the session object [ref]. *)
Inductive PepEff :=
| PUdp (data : bytes) (addr : string)
| PConnClose (conn : Conn)
| PCloseListener
| PCloseUdp
| PSess (ref : nat) (e : Effect).

(** What a handshake channel carries: [nil] or an error. *)
Inductive ConnReply := ConnOk | ConnFailed (msg : string).

(** Where a demultiplexer is: at the top of its loop, in [ReadFrom], with a packet
    of [n] bytes for the session [ref] it has looked up, about to delete the
    session it has closed on a RESET, blocked on a full channel (client only), or
    returned. *)
Inductive DemuxPC :=
| DxTop
| DxRead
| DxDispatch (ref : nat) (n : Z) (pkt : Packet)
| DxDelete (id : Z)
| DxBlocked (ch : nat) (v : ConnReply)
| DxReturned.

#[global] Instance ConnReply_eq_dec : EqDecision ConnReply.
Proof. solve_decision. Defined.

Section Pep.
Context {RS : ReedSolomon}.

(** ** Session objects *)

Record Obj := mkObj {
  o_s : Session;
  o_started : bool;
  o_rd : ReaderPC;
  o_wr : WriterPC;
  o_run : RunPC;
  o_reset : option Z;
}.

Definition set_o_s (o : Obj) (s : Session) : Obj :=
  mkObj s (o_started o) (o_rd o) (o_wr o) (o_run o) (o_reset o).

(** One step of a goroutine or timer callback of a started session. *)
Definition obj_step (now : Z) (act : Act) (o : Obj) : option (Obj * list Effect) :=
  let s := o_s o in
  match act with
  | AReader ch data err =>
      '(pc, s', es) ← reader_step now ch data err (o_rd o) s;
      Some (mkObj s' (o_started o) pc (o_wr o) (o_run o) (o_reset o), es)
  | AWriter werr =>
      '(pc, s', es) ← writer_step now werr (o_wr o) s;
      Some (mkObj s' (o_started o) (o_rd o) pc (o_run o) (o_reset o), es)
  | AShaper ch woken =>
      match run_step ch (mkRunner (s_Shaper s) (o_run o) (o_reset o) woken (s_done s) now [] [] []) with
      | None => Some (o, [])
      | Some r =>
          '(_, s', es) ← go_for (r_sent r) (sendRawUDP now) (with_shaper s (r_sh r));
          Some (mkObj s' (o_started o) (o_rd o) (o_wr o) (r_pc r) (r_nextReset r), es)
      end
  | ABlockTimer => '(_, s', es) ← flushPendingBlock s; Some (set_o_s o s', es)
  | ALqrTimer grpID => '(_, s', es) ← handleLQRTimeout now grpID s; Some (set_o_s o s', es)
  | ANak grpID pc => '(_, s', es) ← nak_step now grpID pc s; Some (set_o_s o s', es)
  | ACloser ch pc => '(_, s', es) ← closer_step now ch pc s; Some (set_o_s o s', es)
  | ARecv _ | AClose => Some (o, [])
  end.

(** ** The state of a proxy *)

Record Pep := mkPep {
  pep_cfg : PepConfig;
  pep_isServer : bool;
  pep_sessions : gmap Z nat;
  pep_stopped : bool;
  pep_done : bool;                      (** the context is cancelled *)
  pep_objs : list Obj;
}.

Abbreviation PepM := (GoM Pep PepEff).

Definition with_sessions (p : Pep) (t : gmap Z nat) : Pep :=
  mkPep (pep_cfg p) (pep_isServer p) t (pep_stopped p) (pep_done p) (pep_objs p).
Definition with_objs (p : Pep) (l : list Obj) : Pep :=
  mkPep (pep_cfg p) (pep_isServer p) (pep_sessions p) (pep_stopped p) (pep_done p) l.
Definition with_stopped (p : Pep) : Pep :=
  mkPep (pep_cfg p) (pep_isServer p) (pep_sessions p) true (pep_done p) (pep_objs p).

Definition new_pep (cfg : PepConfig) (isServer : bool) : Pep :=
  mkPep cfg isServer ∅ false false [].

(** [c.cancel()]: the contexts of the sessions are children of the proxy's. *)
Definition cancel_pep (p : Pep) : Pep :=
  mkPep (pep_cfg p) (pep_isServer p) (pep_sessions p) (pep_stopped p) true
        (map (fun o => set_o_s o (with_done (o_s o))) (pep_objs p)).

(** A method call on the session object [ref]. *)
Definition call {A} (ref : nat) (m : GoM Session Effect A) : PepM A := fun p =>
  o ← pep_objs p !! ref;
  '(a, s', es) ← m (o_s o);
  Some (a, with_objs p (<[ref := set_o_s o s']> (pep_objs p)), map (PSess ref) es).

(** [NewSession(ctx, id, conn, addr, ...)] with the parameters of the proxy; the
    new session's context is cancelled if the parent's is. *)
Definition pep_NewSession (now id : Z) (conn : Conn) (addr : string) : PepM nat := fun p =>
  let cfg := pep_cfg p in
  let s := NewSession now id (conn_remote conn) addr (pep_isServer p)
             (pc_mtu cfg) (pc_bandwidth cfg) (pc_fecK cfg) (pc_fecM cfg) in
  let s := if pep_done p then with_done s else s in
  Some (length (pep_objs p),
        with_objs p (pep_objs p ++ [mkObj s false RdTop WrTop RTop None]), []).

(** [sess.Start()]: the first receive block and the [go] statements. *)
Definition pep_Start (ref : nat) : PepM unit :=
  do! call ref Start in
  go_modify (fun p => with_objs p (alter (fun o =>
    mkObj (o_s o) true (o_rd o) (o_wr o) (o_run o) (o_reset o)) ref (pep_objs p))).

(** [c.sessions[id] = sess] *)
Definition register (id : Z) (ref : nat) : PepM unit :=
  go_modify (fun p => with_sessions p (<[id := ref]> (pep_sessions p))).

(** [delete(c.sessions, id)] *)
Definition unregister (id : Z) : PepM unit :=
  go_modify (fun p => with_sessions p (delete id (pep_sessions p))).

(** [sess, ok := c.sessions[pkt.StreamID]]; a packet of an unknown stream is dropped. *)
Definition lookup_session (n : Z) (pkt : Packet) : PepM DemuxPC :=
  let! p := go_get in
  match pep_sessions p !! p_StreamID pkt with
  | None => go_ret DxTop
  | Some ref => go_ret (DxDispatch ref n pkt)
  end.

(** [RecordRx] and the [switch] on the packet type. *)
Definition dispatch_step (now : Z) (ref : nat) (n : Z) (pkt : Packet) : PepM DemuxPC :=
  let! remove := call ref (Dispatch now n pkt) in
  go_ret (if remove : bool then DxDelete (p_StreamID pkt) else DxTop).

(** The goroutine step [act] of session object [ref]. *)
Definition session_act (now : Z) (ref : nat) (act : Act) : GoM Pep PepEff unit := fun p =>
  o ← pep_objs p !! ref;
  if o_started o then
    '(o', es) ← obj_step now act o;
    Some (tt, with_objs p (<[ref := o']> (pep_objs p)), map (PSess ref) es)
  else Some (tt, p, []).

(** ** Clean-up *)

(** [sess.IsClosed() || now.Sub(sess.GetLastActive()) > c.idleTimeout] *)
Definition expired (now idle : Z) (s : Session) : bool :=
  IsClosed s || (now - GetLastActive s >? idle).

(** One tick of [cleanupLoop]. *)
Definition cleanup_tick (now : Z) : PepM unit :=
  let! p := go_get in
  go_for (map_to_list (pep_sessions p)) (fun '(id, ref) =>
    let! p := go_get in
    let! o := go_opt (pep_objs p !! ref) in
    if expired now (pc_idleTimeout (pep_cfg p)) (o_s o) then
      do! call ref Close in unregister id
    else go_ret tt).

(** ** Shutdown *)

Inductive StopPC := StTop | StSockets | StSessions | StReturned.

(** [for _, sess := range c.sessions { sess.Close() }] and the fresh table. *)
Definition close_sessions : PepM unit :=
  let! p := go_get in
  do! go_for (map_to_list (pep_sessions p)) (fun '(_, ref) => call ref Close) in
  go_modify (fun p => with_sessions p ∅).

(** [sockets]: the effects of closing the proxy's own sockets, those that are not [nil];
    after a successful [Start] that is all of them. *)
Definition stop_step (sockets : list PepEff) (pc : StopPC) : PepM StopPC :=
  let! p := go_get in
  match pc with
  | StTop =>
      if pep_stopped p then go_ret StReturned
      else do! go_modify with_stopped in go_ret StSockets
  | StSockets =>
      do! go_modify cancel_pep in
      do! go_for sockets go_emit in
      go_ret StSessions
  | StSessions => do! close_sessions in go_ret StReturned
  | StReturned => go_ret StReturned
  end.

(** The whole method, when nothing interferes. *)
Definition pep_Stop (sockets : list PepEff) : PepM StopPC :=
  let! pc := stop_step sockets StTop in
  let! pc := stop_step sockets pc in
  stop_step sockets pc.

(** ** The interface the monitoring servers use *)

Class PEPInstance (P : Type) := { GetSessions : P -> gmap Z Session }.

(** [res[k] = v] for every entry; the pointers are read through. *)
Definition snapshot (p : Pep) : gmap Z Session :=
  omap (fun ref => o_s <$> pep_objs p !! ref) (pep_sessions p).

#[export] Instance Pep_instance : PEPInstance Pep := {| GetSessions := snapshot |}.

(** ** Invariant *)

(** The configuration a session of this proxy has. *)
Definition cfg_of_pep (p : Pep) (c : Config) : Prop :=
  c_IsServer c = pep_isServer p /\ c_LinkMTU c = pc_mtu (pep_cfg p) /\
  c_Bandwidth c = pc_bandwidth (pep_cfg p) /\ c_FEC_K c = pc_fecK (pep_cfg p) /\
  c_FEC_M c = pc_fecM (pep_cfg p).

(** Table entries point to sessions of their own stream, every session has the
    parameters of the proxy, and cancelling the proxy has cancelled them all. *)
Record pep_inv (p : Pep) : Prop := {
  pi_tab : forall id ref, pep_sessions p !! id = Some ref ->
    exists o, pep_objs p !! ref = Some o /\ c_StreamID (s_cfg (o_s o)) = id;
  pi_cfg : Forall (fun o => cfg_of_pep p (s_cfg (o_s o))) (pep_objs p);
  pi_done : pep_done p = true -> Forall (fun o => s_done (o_s o) = true) (pep_objs p);
}.

(** Two proxies that differ in their store only by the life of the objects. *)
Definition obj_evolves (o o' : Obj) : Prop := evolves (o_s o) (o_s o').

#[global] Instance obj_evolves_preorder : PreOrder obj_evolves.
Proof. split; [by intros o|]. intros o1 o2 o3 H1 H2. unfold obj_evolves in *. by etrans. Qed.

Lemma pep_inv_objs p l :
  pep_inv p -> Forall2 obj_evolves (pep_objs p) l -> pep_inv (with_objs p l).
Proof.
  intros [Ht Hc Hd] Hl. constructor; simpl.
  - intros id ref Hid. destruct (Ht id ref Hid) as (o & Ho & Hs).
    destruct (Forall2_lookup_l _ _ _ _ _ Hl Ho) as (o' & Ho' & Hcfg & _).
    exists o'. split; [done|congruence].
  - apply Forall_lookup. intros i o' Ho'.
    destruct (Forall2_lookup_r _ _ _ _ _ Hl Ho') as (o & Ho & Hcfg & _). rewrite Hcfg.
    by apply (Forall_lookup_1 _ _ _ _ Hc Ho).
  - intros E. apply Forall_lookup. intros i o' Ho'.
    destruct (Forall2_lookup_r _ _ _ _ _ Hl Ho') as (o & Ho & _ & Hdone). apply Hdone.
    by apply (Forall_lookup_1 _ _ _ _ (Hd E) Ho).
Qed.

Lemma Forall2_insert_evolves l ref o o' :
  l !! ref = Some o -> obj_evolves o o' -> Forall2 obj_evolves l (<[ref := o']> l).
Proof.
  intros Ho He. apply Forall2_same_length_lookup. split; [by rewrite length_insert|].
  intros i x y Hx Hy. destruct (decide (i = ref)) as [->|Hne].
  - rewrite list_lookup_insert_eq in Hy by (by eapply lookup_lt_Some). congruence.
  - rewrite list_lookup_insert_ne in Hy by done. replace y with x by congruence. done.
Qed.

Lemma call_spec {A} ref (m : GoM Session Effect A) p a p' es :
  keeps m -> call ref m p = Some (a, p', es) ->
  exists o s' es0, pep_objs p !! ref = Some o /\ m (o_s o) = Some (a, s', es0) /\
    p' = with_objs p (<[ref := set_o_s o s']> (pep_objs p)) /\ evolves (o_s o) s' /\
    es = map (PSess ref) es0.
Proof.
  intros Hm. unfold call. destruct (pep_objs p !! ref) as [o|]; [|done]. simpl.
  destruct (m (o_s o)) as [[[a' s'] es0]|] eqn:E; [|done]. intros [= <- <- <-].
  exists o, s', es0. split_and!; try done; by eapply Hm.
Qed.

Lemma call_inv {A} ref (m : GoM Session Effect A) p a p' es :
  keeps m -> pep_inv p -> call ref m p = Some (a, p', es) -> pep_inv p'.
Proof.
  intros Hm Hp (o & s' & es0 & Ho & _ & -> & He & _)%call_spec; [|done].
  apply pep_inv_objs; [done|]. by eapply Forall2_insert_evolves.
Qed.

Lemma obj_step_evolves now act o o' es :
  obj_step now act o = Some (o', es) -> obj_evolves o o'.
Proof.
  assert (forall A (m : GoM Session Effect A) s (k : A -> Session -> list Effect -> option (Obj * list Effect)),
    keeps m -> (x ← m s; let '(a, s', es) := x in k a s' es) = Some (o', es) ->
    (forall a s' es0, k a s' es0 = Some (o', es) -> o_s o' = s') -> evolves s (o_s o')) as Hgen.
  { intros A m s k Hm E Hk. destruct (m s) as [[[a s'] es0]|] eqn:Em; [|done]. simpl in E.
    rewrite (Hk _ _ _ E). by eapply Hm. }
  unfold obj_evolves. destruct act; unfold obj_step; intros E; try (by simplify_eq).
  3: { case_match; [|by simplify_eq].
    eapply (Hgen _ _ (with_shaper (o_s o) _)) in E; [by etrans; [|exact E]| |by intros ? ? ? [= <- _]].
    apply keeps_for. eauto with keeps. }
  all: eapply Hgen in E; [done|unfold flushPendingBlock; eauto with keeps|by intros ? ? ? [= <- _]].
Qed.

(** The object [NewSession] makes. *)
Definition fresh_obj (now id : Z) (conn : Conn) (addr : string) (p : Pep) : Obj :=
  let cfg := pep_cfg p in
  let s := NewSession now id (conn_remote conn) addr (pep_isServer p)
             (pc_mtu cfg) (pc_bandwidth cfg) (pc_fecK cfg) (pc_fecM cfg) in
  mkObj (if pep_done p then with_done s else s) false RdTop WrTop RTop None.

Lemma pep_NewSession_eq now id conn addr p :
  pep_NewSession now id conn addr p =
  Some (length (pep_objs p), with_objs p (pep_objs p ++ [fresh_obj now id conn addr p]), []).
Proof. done. Qed.

Lemma fresh_obj_id now id conn addr p : c_StreamID (s_cfg (o_s (fresh_obj now id conn addr p))) = id.
Proof. unfold fresh_obj. simpl. by case_match. Qed.

Lemma new_pep_inv cfg isServer : pep_inv (new_pep cfg isServer).
Proof. constructor; simpl; [|done..]. intros id ref Hid. by rewrite lookup_empty in Hid. Qed.

Lemma fresh_obj_inv now id conn addr p :
  pep_inv p -> pep_inv (with_objs p (pep_objs p ++ [fresh_obj now id conn addr p])).
Proof.
  intros [Ht Hc Hd]. constructor; simpl.
  - intros i ref Hi. destruct (Ht i ref Hi) as (o & Ho & Hs). exists o. split; [|done].
    by apply lookup_app_l_Some.
  - apply Forall_app. split; [done|]. constructor; [|done]. unfold fresh_obj. by case_match.
  - intros E. apply Forall_app. split; [by apply Hd|]. constructor; [|done].
    unfold fresh_obj. by rewrite E.
Qed.

Lemma register_inv id ref o p :
  pep_inv p -> pep_objs p !! ref = Some o -> c_StreamID (s_cfg (o_s o)) = id ->
  pep_inv (with_sessions p (<[id := ref]> (pep_sessions p))).
Proof.
  intros [Ht Hc Hd] Ho Hid. constructor; simpl; [|done..].
  intros i r [[<- <-]|[_ Hi]]%lookup_insert_Some; [by exists o|by apply Ht].
Qed.

Lemma unregister_inv id p : pep_inv p -> pep_inv (with_sessions p (delete id (pep_sessions p))).
Proof.
  intros [Ht Hc Hd]. constructor; simpl; [|done..]. intros i r [_ Hi]%lookup_delete_Some. by apply Ht.
Qed.

(** ** Operations that only let the sessions live on

    [pep_safe m]: whatever [m] does to the proxy, the invariant stays and the store
    keeps its objects, each in a later state. *)
Definition pep_next (p p' : Pep) : Prop :=
  Forall2 obj_evolves (pep_objs p) (pep_objs p') /\ pep_cfg p' = pep_cfg p /\
  pep_isServer p' = pep_isServer p.

#[global] Instance pep_next_preorder : PreOrder pep_next.
Proof.
  split; [by intros p|]. intros p1 p2 p3 (H1 & H2 & H3) (H4 & H5 & H6). split; [by etrans|].
  split; congruence.
Qed.

Definition pep_safe {A} (m : PepM A) : Prop :=
  forall p a p' es, pep_inv p -> m p = Some (a, p', es) -> pep_inv p' /\ pep_next p p'.

Lemma pep_safe_ret {A} (a : A) : pep_safe (go_ret a).
Proof. by intros p b p' es Hp [= <- <- <-]. Qed.

Lemma pep_safe_get : pep_safe go_get.
Proof. by intros p b p' es Hp [= <- <- <-]. Qed.

Lemma pep_safe_emit e : pep_safe (go_emit e).
Proof. by intros p b p' es Hp [= <- <- <-]. Qed.

Lemma pep_safe_opt {A} (o : option A) : pep_safe (go_opt o).
Proof. destruct o; [apply pep_safe_ret|by intros ????]. Qed.

Lemma pep_safe_bind {A B} (m : PepM A) (k : A -> PepM B) :
  pep_safe m -> (forall a, pep_safe (k a)) -> pep_safe (go_bind m k).
Proof.
  intros Hm Hk p b p' es Hp. unfold go_bind. destruct (m p) as [[[a p1] es1]|] eqn:E1; [|done].
  destruct (k a p1) as [[[b1 p2] es2]|] eqn:E2; [|done]. intros [= <- <- <-].
  destruct (Hm _ _ _ _ Hp E1) as [Hp1 H1]. destruct (Hk _ _ _ _ _ Hp1 E2) as [Hp2 H2].
  split; [done|by etrans].
Qed.

Lemma pep_safe_for {A} (l : list A) body : (forall x, pep_safe (body x)) -> pep_safe (go_for l body).
Proof. intros H. induction l; simpl; [apply pep_safe_ret|by apply pep_safe_bind]. Qed.

Lemma pep_safe_call {A} ref (m : GoM Session Effect A) : keeps m -> pep_safe (call ref m).
Proof.
  intros Hm p a p' es Hp E. split; [by eapply call_inv|].
  apply call_spec in E as (o & s' & es0 & Ho & _ & -> & He & _); [|done].
  split; [by eapply Forall2_insert_evolves|done].
Qed.

Lemma pep_safe_modify f :
  (forall p, pep_inv p -> pep_inv (f p) /\ pep_next p (f p)) ->
  pep_safe (go_modify f).
Proof. intros H p a p' es Hp [= <- <- <-]. by apply H. Qed.

Lemma unregister_safe id : pep_safe (unregister id).
Proof. apply pep_safe_modify. intros p Hp. split; [by apply unregister_inv|done]. Qed.

Lemma cancel_inv p : pep_inv p ->
  pep_inv (cancel_pep p) /\ pep_next p (cancel_pep p).
Proof.
  intros Hp.
  assert (Forall2 obj_evolves (pep_objs p) (pep_objs (cancel_pep p))) as Hev.
  { simpl. apply Forall2_fmap_r, Forall_Forall2_diag, Forall_true. by intros o. }
  split; [|done]. destruct (pep_inv_objs p _ Hp Hev) as [Ht Hc Hd].
  constructor; simpl in *; [done..|]. intros _. apply Forall_fmap, Forall_true. by intros o.
Qed.

Lemma session_act_safe now ref act : pep_safe (session_act now ref act).
Proof.
  intros p a p' es Hp. unfold session_act. destruct (pep_objs p !! ref) as [o|] eqn:Ho; [|done]. simpl.
  destruct (o_started o); [|by intros [= <- <- <-]].
  destruct (obj_step now act o) as [[o' es']|] eqn:E; [|done]. intros [= <- <- <-].
  apply obj_step_evolves in E. assert (Forall2 obj_evolves (pep_objs p) (<[ref := o']> (pep_objs p)))
    by (by eapply Forall2_insert_evolves). split; [by apply pep_inv_objs|done].
Qed.

Lemma pep_Start_safe ref : pep_safe (pep_Start ref).
Proof.
  apply pep_safe_bind; [apply pep_safe_call; eauto with keeps|]. intros _. apply pep_safe_modify.
  intros p Hp. set (l := alter _ _ _).
  assert (Forall2 obj_evolves (pep_objs p) l) by (apply Forall2_alter_r; [done|by intros]).
  split; [by apply pep_inv_objs|done].
Qed.

Lemma lookup_session_safe n pkt : pep_safe (lookup_session n pkt).
Proof. apply pep_safe_bind; [apply pep_safe_get|]. intros p. case_match; apply pep_safe_ret. Qed.

Lemma dispatch_step_safe now ref n pkt : pep_safe (dispatch_step now ref n pkt).
Proof.
  apply pep_safe_bind; [apply pep_safe_call; eauto with keeps|]. intros b. apply pep_safe_ret.
Qed.

(** Neither of them blocks. *)
Lemma lookup_session_pc n pkt p pc p' es ch v :
  lookup_session n pkt p = Some (pc, p', es) -> pc <> DxBlocked ch v.
Proof. unfold lookup_session. rewrite go_bind_get. by case_match; intros [= <- <- <-]. Qed.

Lemma dispatch_step_pc now ref n pkt p pc p' es ch v :
  dispatch_step now ref n pkt p = Some (pc, p', es) -> pc <> DxBlocked ch v.
Proof.
  unfold dispatch_step, go_bind. destruct (call _ _ _) as [[[b p1] es1]|]; [|done]. simpl.
  intros [= <- <- <-]. by destruct b.
Qed.

Lemma cleanup_tick_safe now : pep_safe (cleanup_tick now).
Proof.
  apply pep_safe_bind; [apply pep_safe_get|]. intros p. apply pep_safe_for. intros [id ref].
  apply pep_safe_bind; [apply pep_safe_get|]. intros p1. apply pep_safe_bind; [apply pep_safe_opt|].
  intros o. case_match; [|apply pep_safe_ret].
  apply pep_safe_bind; [apply pep_safe_call; eauto with keeps|]. intros _. apply unregister_safe.
Qed.

Lemma close_sessions_safe : pep_safe close_sessions.
Proof.
  apply pep_safe_bind; [apply pep_safe_get|]. intros p. apply pep_safe_bind.
  - apply pep_safe_for. intros [id ref]. apply pep_safe_call. eauto with keeps.
  - intros _. apply pep_safe_modify. intros p1 [Ht Hc Hd]. split; [|done]. constructor; simpl; [|done..].
    intros id ref Hid. by rewrite lookup_empty in Hid.
Qed.

Lemma stop_step_safe sockets pc : pep_safe (stop_step sockets pc).
Proof.
  apply pep_safe_bind; [apply pep_safe_get|]. intros p. destruct pc; [case_match| | |]; try apply pep_safe_ret;
    (apply pep_safe_bind; [|intros _; try apply pep_safe_ret]).
  - apply pep_safe_modify. intros p1 Hp. split; [|done]. destruct Hp. by constructor.
  - apply pep_safe_modify, cancel_inv.
  - apply pep_safe_bind; [apply pep_safe_for; intros; apply pep_safe_emit|]. intros _. apply pep_safe_ret.
  - apply close_sessions_safe.
Qed.

(** ** Closing sessions *)

(** The object after [sess.Close()]. *)
Definition close_obj (o : Obj) : Obj :=
  set_o_s o (with_shaper (with_done (o_s o)) (Stop (s_Shaper (o_s o)))).

Definition is_closed (o : Obj) : Prop := s_done (o_s o) = true /\ stopped (s_Shaper (o_s o)) = true.

Lemma close_obj_closed o : is_closed (close_obj o).
Proof. by split. Qed.

Lemma close_obj_evolves o : obj_evolves o (close_obj o).
Proof. by split. Qed.

Lemma call_Close p ref o :
  pep_objs p !! ref = Some o ->
  exists es, call ref Close p = Some (tt, with_objs p (<[ref := close_obj o]> (pep_objs p)), es) /\
    PSess ref ETcpClose ∈ es.
Proof.
  intros Ho. unfold call. rewrite Ho. simpl. rewrite Close_eq. simpl.
  eexists. split; [done|]. apply list_elem_of_here.
Qed.

(** The body of the loop of [cleanup_tick] as a function of the state. *)
Definition sweep (now : Z) (p : Pep) (e : Z * nat) : Pep :=
  match pep_objs p !! e.2 with
  | Some o =>
      if expired now (pc_idleTimeout (pep_cfg p)) (o_s o)
      then with_sessions (with_objs p (<[e.2 := close_obj o]> (pep_objs p))) (delete e.1 (pep_sessions p))
      else p
  | None => p
  end.

Section Sweep.
Context (now : Z).

Lemma sweep_cfg p e : pep_cfg (sweep now p e) = pep_cfg p.
Proof. unfold sweep. by repeat case_match. Qed.

Lemma sweep_objs_ne p e ref : ref <> e.2 -> pep_objs (sweep now p e) !! ref = pep_objs p !! ref.
Proof.
  intros Hne. unfold sweep. repeat case_match; try done. simpl.
  by rewrite list_lookup_insert_ne.
Qed.

Lemma sweep_sessions_ne p e id : id <> e.1 -> pep_sessions (sweep now p e) !! id = pep_sessions p !! id.
Proof. intros Hne. unfold sweep. repeat case_match; try done. simpl. by rewrite lookup_delete_ne. Qed.

Lemma sweep_inv p e : pep_inv p -> pep_inv (sweep now p e).
Proof.
  intros Hp. unfold sweep. destruct (pep_objs p !! e.2) as [o|] eqn:Ho; [|done]. case_match; [|done].
  destruct (pep_inv_objs p (<[e.2 := close_obj o]> (pep_objs p)) Hp) as [Ht Hc Hd].
  { eapply Forall2_insert_evolves; [done|apply close_obj_evolves]. }
  constructor; simpl in *; [|done..].
  intros id ref [_ Hid]%lookup_delete_Some. by apply Ht.
Qed.

Lemma sweeps_objs_ne l p ref :
  ref ∉ l.*2 -> pep_objs (foldl (sweep now) p l) !! ref = pep_objs p !! ref.
Proof.
  revert p. induction l as [|e l IH]; intros p Hne; [done|]. simpl in *.
  rewrite not_elem_of_cons in Hne. destruct Hne as [H1 H2].
  rewrite IH by done. by apply sweep_objs_ne.
Qed.

Lemma sweeps_sessions_ne l p id :
  id ∉ l.*1 -> pep_sessions (foldl (sweep now) p l) !! id = pep_sessions p !! id.
Proof.
  revert p. induction l as [|e l IH]; intros p Hne; [done|]. simpl in *.
  rewrite not_elem_of_cons in Hne. destruct Hne as [H1 H2].
  rewrite IH by done. by apply sweep_sessions_ne.
Qed.

Lemma sweeps_entry l p id ref o :
  NoDup l.*1 -> NoDup l.*2 -> (id, ref) ∈ l -> pep_objs p !! ref = Some o ->
  let p' := foldl (sweep now) p l in
  if expired now (pc_idleTimeout (pep_cfg p)) (o_s o)
  then pep_sessions p' !! id = None /\ pep_objs p' !! ref = Some (close_obj o)
  else pep_sessions p' !! id = pep_sessions p !! id /\ pep_objs p' !! ref = Some o.
Proof.
  revert p. induction l as [|[id1 ref1] l IH]; intros p H1 H2 Hin Ho; [by apply elem_of_nil in Hin|].
  simpl in *. apply NoDup_cons in H1 as [N1 H1]. apply NoDup_cons in H2 as [N2 H2].
  apply elem_of_cons in Hin as [[= <- <-]|Hin].
  - rewrite sweeps_sessions_ne, sweeps_objs_ne by done. unfold sweep. simpl. rewrite Ho.
    case_match; simpl; [|done]. rewrite lookup_delete_eq, list_lookup_insert_eq; [done|].
    by eapply lookup_lt_Some.
  - assert (ref <> ref1) by (intros ->; apply N2, list_elem_of_fmap; by exists (id, ref1)).
    assert (id <> id1) by (intros ->; apply N1, list_elem_of_fmap; by exists (id1, ref)).
    specialize (IH (sweep now p (id1, ref1)) H1 H2 Hin).
    rewrite sweep_cfg, sweep_objs_ne, sweep_sessions_ne in IH by done. by apply IH.
Qed.

Lemma expired_spec idle (s : Session) :
  expired now idle s = true <-> s_done s = true \/ idle < now - lastActive (s_st s).
Proof. unfold expired, IsClosed, GetLastActive. rewrite orb_true_iff, Z.gtb_ltb, Z.ltb_lt. done. Qed.

(** The loop of [cleanup_tick]; it closes the connection of every session it removes. *)
Lemma cleanup_loop l p :
  Forall (fun e => is_Some (pep_objs p !! e.2)) l ->
  exists es, go_for l (fun '(id, ref) =>
      let! p := go_get in
      let! o := go_opt (pep_objs p !! ref) in
      if expired now (pc_idleTimeout (pep_cfg p)) (o_s o) then
        do! call ref Close in unregister id
      else go_ret tt) p = Some (tt, foldl (sweep now) p l, es) /\
    forall e o, e ∈ l -> pep_objs p !! e.2 = Some o ->
      expired now (pc_idleTimeout (pep_cfg p)) (o_s o) = true -> PSess e.2 ETcpClose ∈ es.
Proof.
  revert p. induction l as [|[id ref] l IH]; intros p Hl.
  { exists []. split; [done|]. by intros e o ?%elem_of_nil. }
  simpl.
  apply Forall_cons in Hl as [[o Ho] Hl]. simpl in Ho.
  assert (Forall (fun e => is_Some (pep_objs (sweep now p (id, ref)) !! e.2)) l) as Hl'.
  { eapply Forall_impl; [exact Hl|]. intros [i r] [o' Ho']. simpl in *. unfold sweep. simpl.
    rewrite Ho. case_match; [|by eexists]. simpl.
    apply list_lookup_insert_is_Some. eauto. }
  destruct (IH _ Hl') as (es1 & E1 & H1).
  assert (exists es0, (let! p := go_get in
      let! o := go_opt (pep_objs p !! ref) in
      if expired now (pc_idleTimeout (pep_cfg p)) (o_s o) then
        do! call ref Close in unregister id
      else go_ret tt) p = Some (tt, sweep now p (id, ref), es0) /\
      (expired now (pc_idleTimeout (pep_cfg p)) (o_s o) = true -> PSess ref ETcpClose ∈ es0)) as (es0 & E0 & H0).
  { rewrite go_bind_get. rewrite Ho. simpl. unfold sweep. simpl. rewrite Ho, go_bind_ret.
    case_match; [|by eexists]. destruct (call_Close p ref o Ho) as (es & E & Hc).
    eexists. split; [by eapply go_bind_eq|]. intros _. apply elem_of_app. by left. }
  exists (es0 ++ es1). split; [by eapply go_bind_eq|].
  intros e o' He Ho' Hx. rewrite elem_of_app. destruct (decide (e.2 = ref)) as [E|Hne].
  { left. rewrite E in Ho' |- *. simplify_eq. by apply H0. }
  right. apply elem_of_cons in He as [->|He]; [done|]. apply (H1 e o' He).
  - by rewrite sweep_objs_ne.
  - by rewrite sweep_cfg.
Qed.

End Sweep.

(** The pointers of the table are distinct: each names the stream of its object. *)
Lemma pep_inv_refs p : pep_inv p -> NoDup (map_to_list (pep_sessions p)).*2.
Proof.
  intros Hp. apply NoDup_fmap_2_strong; [|apply NoDup_map_to_list].
  intros [id1 r1] [id2 r2] H1 H2 E. simpl in E. subst r2.
  apply elem_of_map_to_list in H1, H2. simpl in *.
  destruct (pi_tab p Hp _ _ H1) as (o1 & Ho1 & <-). destruct (pi_tab p Hp _ _ H2) as (o2 & Ho2 & <-).
  congruence.
Qed.

Lemma pep_inv_live p : pep_inv p ->
  Forall (fun e => is_Some (pep_objs p !! e.2)) (map_to_list (pep_sessions p)).
Proof.
  intros Hp. apply Forall_forall. intros [id ref] Hin. apply elem_of_map_to_list in Hin.
  destruct (pi_tab p Hp _ _ Hin) as (o & Ho & _). by exists o.
Qed.

(** C22: The clean-up of a proxy.  A tick of [cleanupLoop] always completes.  For every
    session of the table: if its context is cancelled, or its last activity is further
    back than the idle timeout, its connection is closed, its goroutines and its shaper
    are stopped and it leaves the table; otherwise, at exactly the timeout included,
    it stays as it is.  No entry is added and no other session is touched. *)
Theorem cleanup_spec now p :
  pep_inv p ->
  exists p' es, cleanup_tick now p = Some (tt, p', es) /\ pep_inv p' /\
    (forall id ref o, pep_sessions p !! id = Some ref -> pep_objs p !! ref = Some o ->
       (s_done (o_s o) = true \/ pc_idleTimeout (pep_cfg p) < now - lastActive (s_st (o_s o)) ->
        pep_sessions p' !! id = None /\ PSess ref ETcpClose ∈ es /\
        exists o', pep_objs p' !! ref = Some o' /\ s_done (o_s o') = true /\ stopped (s_Shaper (o_s o')) = true) /\
       (s_done (o_s o) = false -> now - lastActive (s_st (o_s o)) <= pc_idleTimeout (pep_cfg p) ->
        pep_sessions p' !! id = Some ref /\ pep_objs p' !! ref = Some o)) /\
    (forall id, pep_sessions p !! id = None -> pep_sessions p' !! id = None) /\
    (forall ref, (forall id, pep_sessions p !! id <> Some ref) -> pep_objs p' !! ref = pep_objs p !! ref).
Proof.
  intros Hp. destruct (cleanup_loop now _ p (pep_inv_live p Hp)) as (es & E & Hes).
  eexists _, es. unfold cleanup_tick. rewrite go_bind_get. split; [exact E|].
  pose proof (NoDup_fst_map_to_list (pep_sessions p)) as N1. pose proof (pep_inv_refs p Hp) as N2.
  split_and!.
  - clear -Hp. generalize (map_to_list (pep_sessions p)). intros l. revert p Hp.
    induction l as [|e l IH]; intros p Hp; [done|]. simpl. by apply IH, sweep_inv.
  - intros id ref o Hid Ho. apply elem_of_map_to_list in Hid as Hin.
    pose proof (sweeps_entry now _ p id ref o N1 N2 Hin Ho) as H. simpl in H. rewrite Hid in H. split.
    + intros Hx%expired_spec. rewrite Hx in H. destruct H as [H1 H2].
      split; [done|]. split; [by apply (Hes (id, ref) o)|]. eexists. split; [exact H2|apply close_obj_closed].
    + intros Hd Hl. destruct (expired _ _ _) eqn:Hx; [|done]. apply expired_spec in Hx as [Hx|Hx]; [congruence|lia].
  - intros id Hid. rewrite sweeps_sessions_ne; [done|].
    intros ([id' ref] & -> & Hin)%list_elem_of_fmap. apply elem_of_map_to_list in Hin. simpl in Hid. congruence.
  - intros ref Hr. apply sweeps_objs_ne. intros ([id ref'] & -> & Hin)%list_elem_of_fmap.
    apply elem_of_map_to_list in Hin. by apply (Hr id).
Qed.

Lemma stop_loop (l : list (Z * nat)) p :
  Forall (fun e => is_Some (pep_objs p !! e.2)) l ->
  exists objs es, go_for l (fun '(_, ref) => call ref Close) p = Some (tt, with_objs p objs, es) /\
    Forall2 obj_evolves (pep_objs p) objs /\
    (forall ref o, pep_objs p !! ref = Some o -> is_closed o \/ ref ∈ l.*2 ->
       exists o', objs !! ref = Some o' /\ is_closed o').
Proof.
  revert p. induction l as [|[id ref] l IH]; intros p Hl; simpl.
  { exists (pep_objs p), []. split; [by destruct p|]. split; [apply Forall_Forall2_diag, Forall_true; by intros x|].
    intros ref o Ho [Hc|Hin]; [by exists o|by apply elem_of_nil in Hin]. }
  apply Forall_cons in Hl as [[o Ho] Hl]. simpl in Ho.
  destruct (call_Close p ref o Ho) as (es1 & E1 & _).
  set (p1 := with_objs p (<[ref := close_obj o]> (pep_objs p))) in *.
  destruct (IH p1) as (objs & es2 & E2 & Hev & Hcl).
  { eapply Forall_impl; [exact Hl|]. intros e [o' Ho']. simpl. apply list_lookup_insert_is_Some. eauto. }
  exists objs, (es1 ++ es2). split; [by eapply go_bind_eq|]. split.
  { etrans; [by eapply Forall2_insert_evolves, close_obj_evolves|exact Hev]. }
  intros r o' Ho' Hc. destruct (decide (r = ref)) as [->|Hne].
  - apply (Hcl ref (close_obj o)); [|left; apply close_obj_closed].
    apply list_lookup_insert_eq. by eapply lookup_lt_Some.
  - apply (Hcl r o'); [simpl; by rewrite list_lookup_insert_ne|].
    destruct Hc as [Hc|Hc]; [by left|]. right. simpl in Hc. apply elem_of_cons in Hc as [->|Hc]; done.
Qed.

Lemma go_for_emit {S} (l : list PepEff) (s : S) : go_for l go_emit s = Some (tt, s, l).
Proof. induction l as [|e l IH]; [done|]. simpl. unfold go_bind. simpl. by rewrite IH. Qed.

(** C23: Shutdown.  [Stop] completes, cancels the context of every session the
    proxy ever made, closes its sockets and every session of its table, and
    empties the table; a second [Stop] does nothing. *)
Theorem Stop_spec sockets p :
  pep_inv p -> pep_stopped p = false ->
  exists p' es, pep_Stop sockets p = Some (StReturned, p', es) /\ pep_inv p' /\
    pep_sessions p' = ∅ /\ pep_stopped p' = true /\ pep_done p' = true /\
    sockets `prefix_of` es /\
    (forall ref o', pep_objs p' !! ref = Some o' -> s_done (o_s o') = true) /\
    (forall id ref, pep_sessions p !! id = Some ref ->
       exists o', pep_objs p' !! ref = Some o' /\ is_closed o') /\
    pep_Stop sockets p' = Some (StReturned, p', []).
Proof.
  intros Hp Hs. set (p1 := cancel_pep (with_stopped p)).
  assert (pep_inv p1) as Hp1 by (apply cancel_inv; destruct Hp; by constructor).
  destruct (stop_loop _ p1 (pep_inv_live p1 Hp1)) as (objs & es & E & Hev & Hcl).
  pose proof (pep_inv_objs p1 objs Hp1 Hev) as Hp2.
  exists (with_sessions (with_objs p1 objs) ∅), (sockets ++ es).
  assert (pep_inv (with_sessions (with_objs p1 objs) ∅)) as Hp3.
  { destruct Hp2 as [Ht Hc Hd]. constructor; simpl in *; [|done..]. intros id ref Hid. by rewrite lookup_empty in Hid. }
  split_and!; try done.
  - unfold pep_Stop, stop_step, close_sessions, go_bind at 1 2 3. simpl. rewrite Hs. simpl.
    unfold go_bind. simpl. rewrite go_for_emit. cbn.
    change (pep_sessions p) with (pep_sessions p1). fold p1. rewrite E. cbn. by rewrite !app_nil_r.
  - by apply prefix_app_r.
  - intros ref o' Ho'. apply (Forall_lookup_1 _ _ _ _ (pi_done _ Hp3 eq_refl) Ho').
  - intros id ref Hid. destruct (pi_tab p1 Hp1 id ref Hid) as (o & Ho & _). apply (Hcl ref o Ho). right.
    apply list_elem_of_fmap. exists (id, ref). split; [done|]. by apply elem_of_map_to_list.
Qed.

(** ** Operations that cannot fail *)

Lemma cleanup_tick_total now p : pep_inv p -> exists p' es, cleanup_tick now p = Some (tt, p', es).
Proof.
  intros Hp. destruct (cleanup_loop now _ p (pep_inv_live p Hp)) as (es & E & _).
  eexists _, es. unfold cleanup_tick. rewrite go_bind_get. exact E.
Qed.

Lemma stop_step_total sockets pc p : pep_inv p -> exists pc' p' es, stop_step sockets pc p = Some (pc', p', es).
Proof.
  intros Hp. unfold stop_step. rewrite go_bind_get. destruct pc.
  - case_match; eexists _, _, _; reflexivity.
  - rewrite go_bind_modify. unfold go_bind. rewrite go_for_emit. eexists _, _, _. reflexivity.
  - destruct (stop_loop _ p (pep_inv_live p Hp)) as (objs & es & E & _).
    unfold close_sessions, go_bind. simpl. rewrite E. eexists _, _, _. reflexivity.
  - eexists _, _, _. reflexivity.
Qed.

Lemma list_alter_insert_eq {A} (f : A -> A) (l : list A) i x : alter f i (<[i := x]> l) = <[i := f x]> l.
Proof. revert i. induction l; intros [|i]; f_equal/=; auto. Qed.

Lemma Start_total (s : Session) : 0 <= c_FEC_K (s_cfg s) -> 0 <= c_FEC_M (s_cfg s) ->
  exists s' es, Start s = Some (tt, s', es) /\ s_cfg s' = s_cfg s /\ s_done s' = s_done s.
Proof.
  intros Hk Hm. unfold Start. rewrite go_bind_get. case_match; [|eexists _, _; done].
  unfold new_RxBlock. rewrite !(proj2 (Z.ltb_ge _ _)) by lia. simpl. eexists _, _. done.
Qed.

(** [sess.Start()] on the object [ref]. *)
Lemma pep_Start_eq p ref o :
  pep_inv p -> pep_objs p !! ref = Some o ->
  0 <= pc_fecK (pep_cfg p) -> 0 <= pc_fecM (pep_cfg p) ->
  exists o' es, pep_Start ref p = Some (tt, with_objs p (<[ref := o']> (pep_objs p)), map (PSess ref) es) /\
    o_started o' = true /\ s_cfg (o_s o') = s_cfg (o_s o) /\ s_done (o_s o') = s_done (o_s o).
Proof.
  intros Hp Ho Hk Hm.
  destruct (Forall_lookup_1 _ _ _ _ (pi_cfg p Hp) Ho) as (_ & _ & _ & Ek & Em).
  destruct (Start_total (o_s o)) as (s' & es & E & Ec & Ed); [lia..|].
  exists (mkObj s' true (o_rd o) (o_wr o) (o_run o) (o_reset o)), es. split_and!; try done.
  unfold pep_Start, go_bind, call. rewrite Ho. simpl. rewrite E. simpl. rewrite app_nil_r.
  unfold with_objs at 1. simpl. by rewrite list_alter_insert_eq.
Qed.

Lemma pep_Start_total p ref : pep_inv p -> (ref < length (pep_objs p))%nat ->
  0 <= pc_fecK (pep_cfg p) -> 0 <= pc_fecM (pep_cfg p) ->
  exists a p' es, pep_Start ref p = Some (a, p', es).
Proof.
  intros Hp Hr Hk Hm. apply lookup_lt_is_Some in Hr as [o Ho].
  destruct (pep_Start_eq p ref o Hp Ho Hk Hm) as (o' & es & -> & _). eauto.
Qed.

End Pep.

#[local] Existing Instance XorCode.xor_rs.

(** A proxy with three sessions: stream 1 was last active at time 0, stream 2 at
    200 seconds, stream 3 at 250 seconds, and its context is cancelled. *)
Definition demo_pep : Pep :=
  let p := new_pep (mkPepConfig 1200 128000 2 1 (300 * Second)) false in
  let o3 := fresh_obj (250 * Second) 3 (mkConn 2 None) "peer:1" p in
  let p := with_objs p [fresh_obj 0 1 (mkConn 0 None) "peer:1" p;
                        fresh_obj (200 * Second) 2 (mkConn 1 None) "peer:1" p;
                        set_o_s o3 (with_done (o_s o3))] in
  with_sessions p {[1 := 0%nat; 2 := 1%nat; 3 := 2%nat]}.

Lemma demo_pep_inv : pep_inv demo_pep.
Proof.
  constructor; simpl.
  - intros id ref [[<- <-]|[_ H]]%lookup_insert_Some; [by eexists|].
    apply lookup_insert_Some in H as [[<- <-]|[_ H]]; [by eexists|].
    apply lookup_singleton_Some in H as [<- <-]. by eexists.
  - by repeat constructor.
  - done.
Qed.

Lemma cleanup_spec_witness :
  exists p' es, cleanup_tick (301 * Second) demo_pep = Some (tt, p', es) /\
    pep_sessions p' !! 1 = None /\ pep_sessions p' !! 2 = Some 1%nat /\ pep_sessions p' !! 3 = None.
Proof.
  destruct (cleanup_spec (301 * Second) demo_pep demo_pep_inv) as (p' & es & E & _ & H & _).
  exists p', es. split; [exact E|]. split_and!.
  - apply (proj1 (H 1 0%nat _ eq_refl eq_refl)). right. vm_compute. reflexivity.
  - apply (proj2 (H 2 1%nat _ eq_refl eq_refl)); [reflexivity|]. vm_compute. discriminate.
  - apply (proj1 (H 3 2%nat _ eq_refl eq_refl)). left. reflexivity.
Defined.

Lemma Stop_spec_witness :
  exists p' es, pep_Stop [PCloseUdp] demo_pep = Some (StReturned, p', es) /\ pep_sessions p' = ∅.
Proof.
  destruct (Stop_spec [PCloseUdp] demo_pep demo_pep_inv eq_refl) as (p' & es & E & _ & H & _).
  exists p', es. split; [exact E|exact H].
Defined.
