(* ===== verification/PepFrames.v ===== *)
(** * The frames of a proxy's sessions

    [tidy] lifted to the store of session objects: in every state of a proxy the
    datagrams its sessions have queued, hold or send are session frames, and a
    session object keeps its stream number. *)
From stdpp Require Import base gmap strings list pretty.
From S2P Require Import Prelude Protocol Fec Shaper Duration Session SessionRecv SendSpec RecvSpec E2E Frame Frames Pep.
Local Open Scope string_scope.
Local Open Scope list_scope.
Local Open Scope Z_scope.
Local Open Scope go_scope.

Lemma run_step_frames (P : bytes -> Prop) ch sh pc nr woken err now r :
  Forall P (queue sh) -> Forall P (in_flight pc) ->
  run_step ch (mkRunner sh pc nr woken err now [] [] []) = Some r ->
  Forall P (queue (r_sh r)) /\ Forall P (in_flight (r_pc r)) /\ Forall P (r_sent r).
Proof.
  intros Hq Hf HR. unfold run_step in HR.
  destruct pc as [| |sz iv|ps|sz iv u|sz iv|iv ps|ps| |]; simpl in *; try done;
    repeat (match type of HR with context [match ?x with _ => _ end] => destruct x eqn:? end;
            simplify_eq/=; try done); simplify_eq/=.
  all: try match goal with H : Forall _ (_ :: _) |- _ => apply Forall_cons in H as [??] end.
  all: split_and!; try done; try (by constructor); first [by apply Forall_take|by apply Forall_drop].
Qed.

Section PepFrames.
Context {RS : ReedSolomon}.

Record obj_tidy (o : Obj) : Prop := {
  ot_sid : 0 <= c_StreamID (s_cfg (o_s o));
  ot_s : tidy (c_StreamID (s_cfg (o_s o))) (o_s o);
  ot_run : Forall session_frame (in_flight (o_run o));
}.

(** The operations on sessions send nothing themselves, and what a session sends is
    a session frame. *)
Definition pep_effect_ok (e : PepEff) : Prop :=
  match e with PUdp _ _ => False | PSess _ (EUdp b) => session_frame b | _ => True end.

Lemma pep_effects_ok ref es : Forall tidy_effect es -> Forall pep_effect_ok (map (PSess ref) es).
Proof. intros H. apply Forall_fmap. eapply Forall_impl; [exact H|]. by intros []. Qed.

Lemma fresh_obj_tidy now id conn addr p : 0 <= id -> obj_tidy (fresh_obj now id conn addr p).
Proof.
  intros Hid. unfold fresh_obj. constructor; simpl; try done; case_match; try done; by constructor.
Qed.

(** The state of a session after a method call. *)
Lemma obj_tidy_call {A} (m : GoM Session Effect A) o a s' es :
  (forall sid, 0 <= sid -> tidies sid m) -> obj_tidy o -> m (o_s o) = Some (a, s', es) ->
  obj_tidy (set_o_s o s') /\ Forall tidy_effect es.
Proof.
  intros Hm [Hsid Hs Hr] E. destruct (Hm _ Hsid _ _ _ _ Hs E) as [H1 H2].
  split; [|done]. pose proof (td_sid _ _ H1) as Es. constructor; simpl; [lia| |done]. by rewrite Es.
Qed.

Lemma obj_tidy_pcs o st rd wr run rs :
  obj_tidy o -> Forall session_frame (in_flight run) -> obj_tidy (mkObj (o_s o) st rd wr run rs).
Proof. intros [] H. by constructor. Qed.

Lemma obj_step_tidy now act o o' es :
  obj_tidy o -> obj_step now act o = Some (o', es) -> obj_tidy o' /\ Forall tidy_effect es.
Proof.
  intros Ho. pose proof Ho as [Hsid Hs Hr].
  destruct act as [ch data err|werr|ch woken| |grp|grp pc|ch pc|b|]; unfold obj_step; intros E.
  - destruct (reader_step _ _ _ _ _ _) as [[[pc s'] es']|] eqn:Em; simpl in E; simplify_eq.
    apply obj_tidy_call in Em as [H1 H2]; [|intros; by apply reader_step_tidies|done].
    split; [|done]. by apply (obj_tidy_pcs (set_o_s o s')).
  - destruct (writer_step _ _ _ _) as [[[pc s'] es']|] eqn:Em; simpl in E; simplify_eq.
    apply obj_tidy_call in Em as [H1 H2]; [|intros; by apply writer_step_tidies|done].
    split; [|done]. by apply (obj_tidy_pcs (set_o_s o s')).
  - destruct (run_step _ _) as [r|] eqn:HR; [|by simplify_eq].
    apply (run_step_frames session_frame) in HR as (Hq & Hf & Hsent); [|apply Hs|done].
    set (o1 := set_o_s o (with_shaper (o_s o) (r_sh r))) in *.
    assert (obj_tidy o1) as Ho1.
    { constructor; simpl; [done| |done]. destruct Hs. by constructor. }
    destruct (go_for _ _ _) as [[[u s'] es']|] eqn:Em; simpl in E; [|done].
    destruct (obj_tidy_call (go_for (r_sent r) (sendRawUDP now)) o1 u s' es') as [H1 H2]; [|done|done|].
    + intros sid Hid. clear -Hsent Hid. induction Hsent as [|b l Hb _ IH]; simpl; [apply tidies_ret|].
      apply tidies_bind; [by apply sendRawUDP_tidies|done].
    + injection E as <- <-. split; [|done]. by apply (obj_tidy_pcs (set_o_s o1 s')).
  - destruct (flushPendingBlock _) as [[[u s'] es']|] eqn:Em; simpl in E; simplify_eq.
    eapply obj_tidy_call; [|done|exact Em]. intros. by apply flushPendingBlockLocked_tidies.
  - destruct (handleLQRTimeout _ _ _) as [[[u s'] es']|] eqn:Em; simpl in E; simplify_eq.
    eapply obj_tidy_call; [|done|exact Em]. intros. by apply handleLQRTimeout_tidies.
  - destruct (nak_step _ _ _ _) as [[[u s'] es']|] eqn:Em; simpl in E; simplify_eq.
    eapply obj_tidy_call; [|done|exact Em]. intros. by apply nak_step_tidies.
  - destruct (closer_step _ _ _ _) as [[[u s'] es']|] eqn:Em; simpl in E; simplify_eq.
    eapply obj_tidy_call; [|done|exact Em]. intros. by apply closer_step_tidies.
  - by simplify_eq.
  - by simplify_eq.
Qed.

(** ** Computations on the proxy *)

Definition store_tidy (p : Pep) : Prop := Forall obj_tidy (pep_objs p).

Definition pep_tidies {A} (m : GoM Pep PepEff A) : Prop :=
  forall p a p' es, store_tidy p -> m p = Some (a, p', es) -> store_tidy p' /\ Forall pep_effect_ok es.

Lemma pep_tidies_ret {A} (a : A) : pep_tidies (go_ret a).
Proof. by intros p b p' es Hp [= <- <- <-]. Qed.

Lemma pep_tidies_get : pep_tidies go_get.
Proof. by intros p b p' es Hp [= <- <- <-]. Qed.

Lemma pep_tidies_emit e : pep_effect_ok e -> pep_tidies (go_emit e).
Proof. intros He p b p' es Hp [= <- <- <-]. split; [done|by constructor]. Qed.

Lemma pep_tidies_opt {A} (o : option A) : pep_tidies (go_opt o).
Proof. destruct o; [apply pep_tidies_ret|by intros ????]. Qed.

Lemma pep_tidies_modify f : (forall p, store_tidy p -> store_tidy (f p)) -> pep_tidies (go_modify f).
Proof. intros H p a p' es Hp [= <- <- <-]. split; [by apply H|done]. Qed.

Lemma pep_tidies_bind {A B} (m : GoM Pep PepEff A) (k : A -> GoM Pep PepEff B) :
  pep_tidies m -> (forall a, pep_tidies (k a)) -> pep_tidies (go_bind m k).
Proof.
  intros Hm Hk p b p' es Hp. unfold go_bind. destruct (m p) as [[[a p1] es1]|] eqn:E1; [|done].
  destruct (k a p1) as [[[b1 p2] es2]|] eqn:E2; [|done]. intros [= <- <- <-].
  destruct (Hm _ _ _ _ Hp E1) as [H1 F1]. destruct (Hk _ _ _ _ _ H1 E2) as [H2 F2].
  split; [done|by apply Forall_app].
Qed.

Lemma pep_tidies_for {A} (l : list A) body : (forall x, pep_tidies (body x)) -> pep_tidies (go_for l body).
Proof. intros H. induction l; simpl; [apply pep_tidies_ret|by apply pep_tidies_bind]. Qed.

Lemma pep_tidies_call {A} ref (m : GoM Session Effect A) :
  (forall sid, 0 <= sid -> tidies sid m) -> pep_tidies (call ref m).
Proof.
  intros Hm p a p' es Hp. unfold call. destruct (pep_objs p !! ref) as [o|] eqn:Ho; [|done]. simpl.
  destruct (m (o_s o)) as [[[b s'] es0]|] eqn:E; [|done]. intros [= <- <- <-].
  destruct (obj_tidy_call m o b s' es0 Hm (Forall_lookup_1 _ _ _ _ Hp Ho) E) as [H1 H2].
  split; [by apply Forall_insert|by apply pep_effects_ok].
Qed.

End PepFrames.

Create HintDb pep_tidies.
#[export] Hint Resolve pep_tidies_ret pep_tidies_get pep_tidies_opt : pep_tidies.
#[export] Hint Extern 1 (pep_tidies (call _ _)) => apply pep_tidies_call; intros : pep_tidies.
#[export] Hint Extern 1 (pep_tidies (go_modify _)) => apply pep_tidies_modify; solve [auto] : pep_tidies.

Ltac go_pep_tidies := repeat first
  [ match goal with |- forall _, _ => intros ? end | solve [eauto 2 with pep_tidies] | apply pep_tidies_bind
  | case_match | apply pep_tidies_for | progress simpl ].

Section Operations.
Context {RS : ReedSolomon}.

Lemma Close_pep_tidies ref : pep_tidies (call ref Close).
Proof. apply pep_tidies_call. intros. apply Close_tidies. Qed.
#[local] Hint Resolve Close_pep_tidies : pep_tidies.

Lemma unregister_tidies id : pep_tidies (unregister id).
Proof. unfold unregister. go_pep_tidies. Qed.
Lemma register_tidies id ref : pep_tidies (register id ref).
Proof. unfold register. go_pep_tidies. Qed.
#[local] Hint Resolve unregister_tidies : pep_tidies.

Lemma cleanup_tick_tidies now : pep_tidies (cleanup_tick now).
Proof. unfold cleanup_tick. go_pep_tidies. Qed.

Lemma emits_tidies (l : list PepEff) : Forall pep_effect_ok l -> pep_tidies (go_for l go_emit).
Proof. intros Hl p a p' es Hp. rewrite go_for_emit. by intros [= <- <- <-]. Qed.

Lemma cancel_tidy p : store_tidy p -> store_tidy (cancel_pep p).
Proof.
  intros Hp. apply Forall_fmap. eapply Forall_impl; [exact Hp|].
  intros o [H1 H2 H3]. constructor; simpl; try done. destruct H2. by constructor.
Qed.

Lemma stop_step_tidies sockets pc : Forall pep_effect_ok sockets -> pep_tidies (stop_step sockets pc).
Proof.
  intros Hsock. pose proof (emits_tidies _ Hsock). pose proof (pep_tidies_modify _ cancel_tidy).
  unfold stop_step, close_sessions. go_pep_tidies.
Qed.

Lemma lookup_session_tidies n pkt : pep_tidies (lookup_session n pkt).
Proof. unfold lookup_session. go_pep_tidies. Qed.

Lemma dispatch_step_tidies now ref n pkt : pep_tidies (dispatch_step now ref n pkt).
Proof.
  unfold dispatch_step. apply pep_tidies_bind; [|go_pep_tidies].
  apply pep_tidies_call. intros. by apply Dispatch_tidies.
Qed.

Lemma pep_Start_tidies ref : pep_tidies (pep_Start ref).
Proof.
  unfold pep_Start. apply pep_tidies_bind; [apply pep_tidies_call; intros; by apply Start_tidies|].
  intros _. apply pep_tidies_modify. intros p Hp. apply Forall_alter; [done|].
  intros o Ho [H1 H2 H3]. by constructor.
Qed.

Lemma session_act_tidies now ref act : pep_tidies (session_act now ref act).
Proof.
  intros p a p' es Hp. unfold session_act. destruct (pep_objs p !! ref) as [o|] eqn:Ho; [|done]. simpl.
  destruct (o_started o); [|by intros [= <- <- <-]].
  destruct (obj_step now act o) as [[o' es']|] eqn:E; [|done]. intros [= <- <- <-].
  destruct (obj_step_tidy now act o o' es' (Forall_lookup_1 _ _ _ _ Hp Ho) E) as [H1 H2].
  split; [by apply Forall_insert|by apply pep_effects_ok].
Qed.

Lemma pep_NewSession_tidies now id conn addr : 0 <= id -> pep_tidies (pep_NewSession now id conn addr).
Proof.
  intros Hid p a p' es Hp. rewrite pep_NewSession_eq. intros [= <- <- <-]. split; [|done].
  apply Forall_app. split; [done|]. constructor; [by apply fresh_obj_tidy|done].
Qed.

End Operations.
