(* ===== verification/Recovery.v ===== *)
(** * Loss recovery: FEC, link-quality reports and HARQ

    What the receiver reports and requests, what the sender does with it, and
    that the two repair mechanisms work: any [K] shards of a block are enough, and
    a requested data packet is sent again. *)
From stdpp Require Import base gmap strings list pretty.
From S2P Require Import Prelude Protocol Fec Shaper Duration Session SessionRecv SendSpec RecvSpec.
Local Open Scope string_scope.
Local Open Scope list_scope.
Local Open Scope Z_scope.

(** ** Counting losses *)

Lemma max_index_snoc l o :
  max_index (l ++ [o]) = match o with Some _ => Z.of_nat (length l) | None => max_index l end.
Proof.
  unfold max_index. rewrite imap_app, foldl_app. simpl. rewrite Nat.add_0_r. by destruct o.
Qed.

(** [max_index] is the index of the last filled slot. *)
Lemma max_index_spec l :
  (max_index l = -1 /\ forall i x, l !! i <> Some (Some x)) \/
  (exists i x, max_index l = Z.of_nat i /\ l !! i = Some (Some x) /\
     forall j y, l !! j = Some (Some y) -> (j <= i)%nat).
Proof.
  induction l as [|o l IH] using rev_ind; [by left|]. rewrite max_index_snoc.
  destruct o as [x|].
  - right. exists (length l), x. split; [done|]. split; [by apply list_lookup_middle|].
    intros j y Hj. apply lookup_lt_Some in Hj. rewrite length_app in Hj. simpl in Hj. lia.
  - destruct IH as [[E Hn]|(i & x & E & Hx & Hmax)].
    + left. split; [done|]. intros i x [H|[_ H]]%lookup_app_Some; [by eapply Hn|].
      by apply list_lookup_singleton_Some in H as [_ ?].
    + right. exists i, x. split; [done|]. split; [by apply lookup_app_l_Some|].
      intros j y [H|[_ H]]%lookup_app_Some; [by eapply Hmax|].
      by apply list_lookup_singleton_Some in H as [_ ?].
Qed.

(** The number of empty slots. *)
Definition missing_count {A} (l : list (option A)) : nat := (length l - present_count l)%nat.

Lemma present_count_take {A} (l : list (option A)) n :
  (forall j y, l !! j = Some (Some y) -> (j < n)%nat) -> present_count (take n l) = present_count l.
Proof.
  intros H. rewrite <- (take_drop n l) at 2. rewrite present_count_app.
  destruct (decide (present_count (drop n l) = 0%nat)) as [E|E]; [lia|].
  destruct (present_count_pos (drop n l)) as (i & x & Hx); [lia|].
  rewrite lookup_drop in Hx. apply H in Hx. lia.
Qed.

Section Recovery.
Context {RS : ReedSolomon} {L : Link}.
#[local] Abbreviation K := lnk_K.
#[local] Abbreviation M := lnk_M.
#[local] Abbreviation sid := lnk_sid.
Let Hsid : 0 <= sid <= 4095 := lnk_sid_range.
Let HK : (1 <= K)%nat := lnk_K_pos.
Let HKM : (K + M <= 32)%nat := lnk_KM.

(** The packets of a block known to have been sent are the first [n]: the [K] data
    packets, and the parity packets up to the last one received. *)
Definition known_sent (packets : list (option bytes)) (n : nat) : Prop :=
  (K <= n)%nat /\ (forall i p, packets !! i = Some (Some p) -> (i < n)%nat) /\
  (n = K \/ exists p, packets !! (n - 1)%nat = Some (Some p)).

Lemma known_sent_max_index packets :
  known_sent packets (Z.to_nat (Z.max (Z.of_nat K) (max_index packets + 1))).
Proof.
  destruct (max_index_spec packets) as [[-> Hn]|(i & x & -> & Hx & Hm)].
  - replace (Z.to_nat _) with K by lia. split; [lia|]. split; [by intros i p ?%Hn|by left].
  - split; [lia|]. split; [intros j p ?%Hm; lia|].
    destruct (decide (i < K)%nat); [left; lia|right]. exists x. by replace (_ - 1)%nat with i by lia.
Qed.

(** No packet beyond those the sender made is known. *)
Lemma known_sent_le hist g B rb n :
  rx_ok hist g rb -> hist !! g = Some B -> known_sent (rb_Packets rb) n -> (n <= K + blk_m B)%nat.
Proof.
  intros [Hc _] HB (H1 & H2 & [->|[p Hp]]); [lia|]. destruct (decide (n <= K)%nat); [lia|].
  destruct (rx_slots _ _ _ Hc _ _ Hp) as (B' & HB' & Hs). simplify_eq.
  assert (shard_at B (n - 1) = Some p) as Hsh.
  { destruct (rb_Decoded rb); [|done]. destruct Hs as [Hs|(d & Hi & _)]; [done|lia]. }
  unfold shard_at in Hsh. destruct (Nat.ltb_spec (n - 1) K); [lia|].
  destruct (Nat.ltb_spec (n - 1 - K) (blk_m B)); [lia|done].
Qed.

Lemma known_sent_counts hist g rb n :
  rx_ok hist g rb -> known_sent (rb_Packets rb) n ->
  (n <= K + M)%nat /\ rb_ReceivedCnt rb <= Z.of_nat n /\
  Z.of_nat (missing_count (take n (rb_Packets rb))) =
    Z.of_nat n - Z.of_nat (present_count (rb_Packets rb)).
Proof.
  intros [Hc _] (H1 & H2 & H3). pose proof (rx_len _ _ _ Hc) as Hlen. pose proof (rx_cnt _ _ _ Hc) as Hcnt.
  assert (n <= K + M)%nat as Hn.
  { destruct H3 as [->|[p Hp]]; [lia|]. apply lookup_lt_Some in Hp. lia. }
  pose proof (present_count_le_length (take n (rb_Packets rb))) as Hle.
  rewrite length_take_le, present_count_take in Hle by (done || lia). unfold missing_count.
  rewrite length_take_le, present_count_take by (done || lia). split_and!; lia.
Qed.

(** The computed number, within a byte. *)
Lemma block_losses_eq hist g rb :
  rx_ok hist g rb ->
  exists n, known_sent (rb_Packets rb) n /\ block_losses rb = Z.of_nat n - rb_ReceivedCnt rb /\
    is_u8 (block_losses rb).
Proof.
  intros Hok. pose proof (known_sent_max_index (rb_Packets rb)) as Hks. eexists. split; [exact Hks|].
  pose proof (known_sent_counts hist g rb _ Hok Hks) as (H1 & H2 & _). destruct Hok as [Hc Hl].
  assert (0 <= rb_ReceivedCnt rb) as H0 by (pose proof (rx_cnt _ _ _ Hc); case_match; lia).
  unfold block_losses, is_u8. rewrite (rx_K _ _ _ Hc). rewrite Z.geb_leb, !Z.gtb_ltb.
  repeat case_match; go_bool; lia.
Qed.

(** The timeout of a block that was not reported yet: the report, then the timer of
    the NAK loop; a second timeout does nothing. *)
Lemma handleLQRTimeout_report hist W s now g rb :
  rcv_inv hist W s -> is_u16 g -> rxBlocks (s_rx s) !! g = Some rb -> rb_LQRReported rb = false ->
  is_u8 (block_losses rb) ->
  exists s' b,
    handleLQRTimeout now g s = Some (tt, s', [EUdp b; EAfterFunc (c_NAKDelayDur (s_cfg s)) (TNak g)]) /\
    Unmarshal (ReadFrom b) = Some (Ok (lqr_packet sid g (block_losses rb))) /\
    forall now', handleLQRTimeout now' g s' = Some (tt, s', []).
Proof.
  intros Hi Hg E Hr Hb. pose proof Hi as [(Hc1 & _) _ _ _ _].
  pose proof (lqr_ctl g _ Hg Hb) as Hctl. destruct Hctl as (_ & Hwf & _).
  destruct (session_ctl_frame (lqr_packet sid g (block_losses rb))) as (b & HM & _ & Hsend); [by apply lqr_ctl|].
  unfold handleLQRTimeout at 1, go_bind, go_get. rewrite E, Hr, Hc1, (u8_small _ Hb). simpl. rewrite Hsend. simpl.
  eexists _, b. split; [done|]. split.
  - rewrite ReadFrom_small by (by rewrite (Marshal_len _ _ HM)).
    destruct (Marshal_decode _ b Hwf HM) as (rest & -> & Hrs & Hty & Hid & HD). by rewrite Marshal_header, HD.
  - intros now'. unfold handleLQRTimeout, go_bind, go_get. simpl. by rewrite lookup_insert_eq.
Qed.

(** C9: What a link-quality report says.  When the timer of a block of which some
    packet arrived fires, the receiver sends one LQR packet for the block, starts the
    NAK timer and never reports the block again.  The reported number is the number
    [n] of packets known to have been sent (the [K] data packets, and the parity packets
    up to the last one received) less the packets counted as received, so it never
    exceeds what the sender transmitted less that count.  For a block
    that is not decoded it is exactly the number of empty slots among those [n]; for
    a decoded one, whose data slots may have been filled by reconstruction (a packet that
    arrives for such a slot later is not counted), it is at least the empty slots and at
    most the number of parity packets the sender made. *)
Theorem LQR_counts_losses hist W now g B rb s :
  rcv_inv hist W s -> (W <= g)%nat -> in_window W g -> hist !! g = Some B ->
  rxBlocks (s_rx s) !! u16 (Z.of_nat g) = Some rb ->
  rb_LQRReported rb = false -> 0 < rb_ReceivedCnt rb ->
  exists s' b n losses,
    handleLQRTimeout now (u16 (Z.of_nat g)) s =
      Some (tt, s', [EUdp b; EAfterFunc (c_NAKDelayDur (s_cfg s)) (TNak (u16 (Z.of_nat g)))]) /\
    Unmarshal (ReadFrom b) = Some (Ok (lqr_packet sid (u16 (Z.of_nat g)) losses)) /\
    (forall now', handleLQRTimeout now' (u16 (Z.of_nat g)) s' = Some (tt, s', [])) /\
    known_sent (rb_Packets rb) n /\ losses = Z.of_nat n - rb_ReceivedCnt rb /\
    losses <= Z.of_nat (K + blk_m B) - rb_ReceivedCnt rb /\
    (rb_Decoded rb = false -> losses = Z.of_nat (missing_count (take n (rb_Packets rb)))) /\
    (rb_Decoded rb = true ->
       Z.of_nat (missing_count (take n (rb_Packets rb))) <= losses <= Z.of_nat (blk_m B)).
Proof.
  intros Hi Hg Hw HB Hrb Hr _.
  assert (rx_ok hist g rb) as Hok.
  { destruct (ri_blocks _ _ _ Hi _ _ Hrb) as (g' & Hid & Hg' & Hw' & Hok).
    apply (in_window_inj W g g' Hw Hw') in Hid as <-; done. }
  destruct (block_losses_eq hist g rb Hok) as (n & Hn & HL & Hb).
  destruct (handleLQRTimeout_report hist W s now (u16 (Z.of_nat g)) rb) as (s' & b & HE & HU & H2);
    [done|apply u16_range|done..|].
  destruct (known_sent_counts hist g rb n Hok Hn) as (_ & _ & Hmiss).
  pose proof (known_sent_le hist g B rb n Hok HB Hn) as Hle. destruct Hok as [Hc _].
  pose proof (rx_cnt _ _ _ Hc) as Hcnt. exists s', b, n, (block_losses rb).
  split_and!; try done; [lia| |].
  - intros Hd. rewrite HL, Hmiss, (rx_cnt_eq _ _ _ Hc Hd). done.
  - intros Hd. rewrite Hd in Hcnt. lia.
Qed.

(** A block of which nothing arrived: the report says [K], which is all the receiver can
    know to be missing.  The design document asks for [K + M]. *)
Lemma LQR_total_loss hist W now g rb s :
  rcv_inv hist W s -> is_u16 g -> rxBlocks (s_rx s) !! g = Some rb ->
  rb_LQRReported rb = false -> (forall i p, rb_Packets rb !! i <> Some (Some p)) ->
  exists s' b es, handleLQRTimeout now g s = Some (tt, s', EUdp b :: es) /\
    Unmarshal (ReadFrom b) = Some (Ok (lqr_packet sid g (Z.of_nat K))).
Proof.
  intros Hi Hg Hrb Hr Hn. destruct (ri_blocks _ _ _ Hi _ _ Hrb) as (g' & -> & _ & _ & Hok).
  destruct (block_losses_eq hist g' rb Hok) as (n & (H1 & H2 & H3) & HL & Hb).
  assert (block_losses rb = Z.of_nat K) as E.
  { assert (n = K) as -> by (destruct H3 as [|[p Hp]]; [done|by apply Hn in Hp]).
    assert (present_count (rb_Packets rb) = 0)%nat as H0.
    { destruct (decide (0 < present_count (rb_Packets rb))%nat) as [Hp|]; [|lia].
      apply present_count_pos in Hp as (i & x & Hx). by apply Hn in Hx. }
    destruct Hok as [Hc _]. pose proof (rx_cnt _ _ _ Hc). rewrite H0 in *. case_match; lia. }
  destruct (handleLQRTimeout_report hist W s now _ rb Hi Hg Hrb Hr Hb) as (s' & b & HE & HU & _).
  rewrite E in HU. eauto 6.
Qed.

(** ** FEC recovery *)

(** What the writer sends to the TCP connection for a block. *)
Definition block_output (rb : RxBlock) : bytes :=
  concat (map (fun o => default [] (shard_data (slice_bytes o))) (take K (rb_Packets rb))).

Lemma decoded_output hist g B rb :
  rx_ok hist g rb -> rb_Decoded rb = true -> hist !! g = Some B -> block_wf B ->
  block_output rb = stream_of (blk_data B).
Proof.
  intros [Hc _] Hd HB HBw. pose proof HBw as (HBK & HBp & _).
  unfold block_output, stream_of. f_equal. apply list_eq. intros i.
  rewrite !list_lookup_fmap. destruct (decide (i < K)%nat) as [Hi|Hi]; last first.
  { by rewrite !lookup_ge_None_2 by (rewrite ?length_take; lia). }
  rewrite lookup_take_lt by done. destruct (rx_dec _ _ _ Hc Hd i Hi) as [p Hp]. rewrite Hp. simpl.
  destruct (rx_slots _ _ _ Hc i p Hp) as (B' & HB' & Hs). rewrite Hd in Hs. simplify_eq.
  destruct (slot_ok_data B i p HBw Hi Hs) as (chunk & Hchunk & Hdata). rewrite Hchunk. simpl.
  change (slice_bytes (Some p)) with p. rewrite Hdata. case_bool_decide as E; simpl; [by subst|done].
Qed.

(** The indices of the filled slots. *)
Fixpoint filled_idx {A} (l : list (option A)) : list nat :=
  match l with
  | [] => []
  | o :: l => (match o with Some _ => [0%nat] | None => [] end) ++ map S (filled_idx l)
  end.

Lemma length_filled_idx {A} (l : list (option A)) : length (filled_idx l) = present_count l.
Proof.
  unfold present_count. induction l as [|[x|] l IH]; csimpl; rewrite ?length_map; congruence.
Qed.

Lemma elem_of_filled_idx {A} (l : list (option A)) i x :
  l !! i = Some (Some x) -> i ∈ filled_idx l.
Proof.
  revert i. induction l as [|o l IH]; intros [|i] Hi; simplify_eq/=; [constructor|].
  apply elem_of_app. right. by apply list_elem_of_fmap_2, IH.
Qed.

Lemma present_count_NoDup {A} (l : list (option A)) (ixs : list nat) :
  NoDup ixs -> (forall i, i ∈ ixs -> exists x, l !! i = Some (Some x)) ->
  (length ixs <= present_count l)%nat.
Proof.
  intros Hnd Hall. rewrite <- length_filled_idx. apply submseteq_length, NoDup_submseteq; [done|].
  intros i Hi. destruct (Hall i Hi) as [x Hx]. by eapply elem_of_filled_idx.
Qed.

Lemma HandleData_all hist W now g B ps s :
  rcv_inv hist W s -> recvClosed (s_rx s) = false -> hist !! g = Some B -> (W <= g)%nat ->
  in_window W g -> (forall p, p ∈ ps -> p ∈ block_pkts g B) ->
  exists s' es, go_for ps (HandleDataPacket now) s = Some (tt, s', es) /\ rcv_inv hist W s' /\
    rx_frame s s' /\
    forall p, p ∈ ps -> filled s' (u16 (Z.of_nat g)) (Z.to_nat (p_Idx p)).
Proof.
  intros Hi Hcl HB Hg Hw. revert s Hi Hcl. induction ps as [|p ps IH]; intros s Hi Hcl Hps.
  { exists s, []. split_and!; try done. intros p Hp. by apply elem_of_nil in Hp. }
  destruct (HandleData_ok hist W s now g B p) as (s1 & es1 & HE1 & Hi1 & Hf1 & _ & Hfl1);
    [done..|apply Hps; constructor|done|].
  destruct (IH s1 Hi1) as (s2 & es2 & HE2 & Hi2 & Hf2 & Hfl2).
  { destruct Hf1 as [(_ & _ & _ & _ & _ & E) _]. by rewrite E. }
  { intros q Hq. apply Hps. by constructor. }
  exists s2, (es1 ++ es2). split; [simpl; by eapply go_bind_eq|]. split; [done|].
  split; [by transitivity s1|]. intros q Hq. apply elem_of_cons in Hq as [->|Hq]; [|by apply Hfl2].
  eapply rx_frame_filled; [done|]. by apply Hfl1.
Qed.

(** C3: Forward error correction works.  When any [K] distinct packets of a block
    (data or parity, in any order, duplicates and repeats of old packets allowed)
    have been handled by an open receiver, the block is decoded, and what the
    writer will send to the TCP connection for it is exactly what the sender read
    for it, padding and length headers removed. *)
Theorem fec_recovery hist W now g B ps s :
  rcv_inv hist W s -> recvClosed (s_rx s) = false -> hist !! g = Some B -> (W <= g)%nat ->
  in_window W g -> (forall p, p ∈ ps -> p ∈ block_pkts g B) ->
  (K <= length (remove_dups (map p_Idx ps)))%nat ->
  exists s' es rb, go_for ps (HandleDataPacket now) s = Some (tt, s', es) /\
    rxBlocks (s_rx s') !! u16 (Z.of_nat g) = Some rb /\ rb_Decoded rb = true /\
    block_output rb = stream_of (blk_data B).
Proof.
  intros Hi Hcl HB Hg Hw Hps Hn.
  destruct (HandleData_all hist W now g B ps s) as (s' & es & HE & Hi' & _ & Hfl); [done..|].
  assert (block_wf B) as HBw by (eapply Forall_lookup_1; [apply Hi|done]).
  assert (forall q, q ∈ remove_dups (map p_Idx ps) -> filled s' (u16 (Z.of_nat g)) (Z.to_nat q) /\ 0 <= q)
    as Hall.
  { intros q Hq. apply elem_of_remove_dups, list_elem_of_fmap in Hq as (p & -> & Hp).
    split; [by apply Hfl|]. destruct (block_pkt_inv g B p HBw (Hps p Hp)) as (i & ? & _ & _ & _ & _ & _ & E & _).
    rewrite E. lia. }
  destruct (remove_dups (map p_Idx ps)) as [|q0 qs] eqn:Eq; [simpl in Hn; lia|].
  destruct (Hall q0) as [(rb & x & Hr & _) _]; [constructor|].
  destruct (ri_blocks _ _ _ Hi' _ _ Hr) as (g' & Hid & Hg' & Hw' & Hok).
  apply (in_window_inj W) in Hid as <-; try done.
  assert (rb_Decoded rb = true) as Hd.
  { destruct (rb_Decoded rb) eqn:Hd; [done|]. destruct Hok as [Hc Hlow].
    specialize (Hlow Hd). rewrite (rx_cnt_eq _ _ _ Hc Hd) in Hlow.
    pose proof (present_count_NoDup (rb_Packets rb) (map Z.to_nat (q0 :: qs))) as Hle.
    rewrite length_map in Hle. enough (length (q0 :: qs) <= present_count (rb_Packets rb))%nat by lia.
    apply Hle.
    - apply NoDup_fmap_2_strong; [|rewrite <- Eq; apply NoDup_remove_dups].
      intros a b Ha Hb. destruct (Hall a Ha), (Hall b Hb). lia.
    - intros i Hin. apply list_elem_of_fmap in Hin as (q & -> & Hq).
      destruct (Hall q Hq) as [(rb' & y & Hr' & Hy) _]. simplify_eq. by exists y. }
  exists s', es, rb. split_and!; try done. by eapply decoded_output.
Qed.

(** ** Retransmission requests *)

(** The sequence number under which the sender transmitted data shard [i] of
    block [g]. *)
Definition seq_of (g i : nat) : Z := u8 (Z.of_nat (g * K + i)).

(** The frame of a NAK. *)
Definition nak_frame (q : Z) : list Effect :=
  match Marshal (nak_packet sid q) with Ok b => [EUdp b] | Err _ => [] end.

(** The data shards of the block that are missing from index [i] on. *)
Definition missing_from (rb : RxBlock) (i : nat) : list nat :=
  filter (fun j => rb_Packets rb !! j = Some None) (seq i (K - i)).

Lemma missing_from_cons rb i :
  (i < K)%nat ->
  missing_from rb i =
  (if decide (rb_Packets rb !! i = Some None) then [i] else []) ++ missing_from rb (S i).
Proof.
  intros Hi. unfold missing_from. replace (K - i)%nat with (S (K - S i)) by lia. simpl.
  rewrite filter_cons. by case_decide.
Qed.

(** The two steps of the scan. *)
Lemma nak_scan_some now g i (s : Session) rb q :
  rxBlocks (s_rx s) !! g = Some rb -> rb_K rb = Z.of_nat K -> (i < K)%nat ->
  rb_Packets rb !! i = Some (Some q) -> nak_step now g (NkScan i) s = Some (NkScan (S i), s, []).
Proof.
  intros Hr HrK Hi Hq. unfold nak_step. rewrite go_bind_get, Hr, HrK.
  rewrite (proj2 (Z.ltb_lt _ _)) by lia. by rewrite Hq.
Qed.

Lemma nak_scan_none hist now g g' i (s : Session) rb :
  cfg_is (s_cfg s) -> rxBlocks (s_rx s) !! g = Some rb -> rx_core hist g' rb -> (i < K)%nat ->
  rb_Packets rb !! i = Some None ->
  exists b s', Marshal (nak_packet sid (seq_of g' i)) = Ok b /\
    nak_step now g (NkScan i) s = Some (NkScan (S i), s', [EUdp b]) /\
    s_rx s' = s_rx s /\ s_cfg s' = s_cfg s /\ s_FEC s' = s_FEC s.
Proof.
  intros (Hc1 & _) Hr Hc Hi Hq. unfold nak_step. rewrite go_bind_get, Hr, (rx_K _ _ _ Hc).
  rewrite (proj2 (Z.ltb_lt _ _)) by lia. rewrite Hq. cbn [go_opt]. rewrite go_bind_ret.
  rewrite (rx_seqs _ _ _ Hc), list_lookup_fmap, lookup_seq_lt by done. simpl. rewrite go_bind_ret, Hc1.
  destruct (session_ctl_frame (nak_packet sid (seq_of g' i))) as (b & HM & _ & Hsend);
    [apply nak_ctl, u8_range|].
  exists b. eexists. split; [done|]. split; [by eapply (go_bind_eq _ _ _ _ _ [EUdp b] _ _ [])|done].
Qed.

Lemma nak_scan_run hist now g g' rb n i (s : Session) :
  cfg_is (s_cfg s) -> rxBlocks (s_rx s) !! g = Some rb -> rx_core hist g' rb ->
  (i + n = K)%nat ->
  exists s', nak_run (n + 2) now g (NkScan i) s =
    Some (NkReturned, s', concat (map (fun j => nak_frame (seq_of g' j)) (missing_from rb i)) ++
                          [EAfterFunc (c_NAKDelayDur (s_cfg s)) (TNak g)]).
Proof.
  intros Hcfg Hr Hc. revert i s Hcfg Hr. induction n as [|n IH]; intros i s Hcfg Hr Hn.
  - assert (missing_from rb i = []) as ->.
    { unfold missing_from. by replace (K - i)%nat with 0%nat by lia. }
    assert (nak_step now g (NkScan i) s = Some (NkRearm, s, [])) as E1.
    { unfold nak_step. rewrite go_bind_get, Hr, (rx_K _ _ _ Hc).
      by rewrite (proj2 (Z.ltb_ge _ _)) by lia. }
    exists s. change (0 + 2)%nat with 2%nat. cbn [nak_run].
    by eapply (go_bind_eq _ _ _ _ _ [] _ _ _ E1).
  - rewrite missing_from_cons, map_app, concat_app, <- app_assoc by lia. cbn [nak_run Nat.add].
    destruct (lookup_lt_is_Some_2 (rb_Packets rb) i) as [[q|] Hq];
      [rewrite (rx_len _ _ _ Hc); lia| |].
    + rewrite decide_False by congruence.
      destruct (IH (S i) s Hcfg Hr ltac:(lia)) as (s' & HE). exists s'.
      refine (eq_trans (go_bind_eq _ _ _ _ _ [] _ _ _ _ HE) _); [|done].
      apply (nak_scan_some now g i s rb q); [done|apply Hc|lia|done].
    + rewrite decide_True by done.
      destruct (nak_scan_none hist now g g' i s rb) as (b & s1 & HM & HE1 & Erx & Ec & _); [done..|lia|done|].
      destruct (IH (S i) s1) as (s' & HE); [by rewrite Ec|by rewrite Erx|lia|]. exists s'.
      refine (eq_trans (go_bind_eq _ _ _ _ _ _ _ _ _ HE1 HE) _). cbn [map concat].
      unfold nak_frame at 2. by rewrite HM, Ec.
Qed.

(** C7: The NAK callback requests exactly what is missing.  Run to its end without
    interference, [sendNakPeriodic] on a block that is not decoded terminates,
    sends one NAK for each missing data shard, in order and with the sequence
    number under which the sender transmitted that shard, and re-arms its timer. *)
Theorem nak_requests_missing hist W now g rb s :
  rcv_inv hist W s -> s_done s = false -> (W <= g)%nat -> in_window W g ->
  rxBlocks (s_rx s) !! u16 (Z.of_nat g) = Some rb -> rb_Decoded rb = false ->
  exists s', nak_run (K + 3) now (u16 (Z.of_nat g)) NkStart s =
    Some (NkReturned, s',
      concat (map (fun j => nak_frame (seq_of g j)) (missing_from rb 0)) ++
      [EAfterFunc (c_NAKDelayDur (s_cfg s)) (TNak (u16 (Z.of_nat g)))]).
Proof.
  intros Hi Hdone Hg Hw Hr Hd.
  destruct (ri_blocks _ _ _ Hi _ _ Hr) as (g' & Hid & Hg' & Hw' & [Hc Hlow]).
  apply (in_window_inj W) in Hid as <-; try done.
  destruct (nak_scan_run hist now (u16 (Z.of_nat g)) g rb K 0 s) as (s' & HE);
    [apply Hi|done..|]. exists s'.
  replace (K + 3)%nat with (S (K + 2)) by lia. cbn [nak_run].
  unfold go_bind at 1, nak_step at 1. rewrite go_bind_get, Hdone, Hr, Hd.
  rewrite (rx_K _ _ _ Hc), (proj2 (Z.ltb_lt _ _)) by (by apply Hlow). simpl go_ret.
  unfold go_ret. by rewrite HE.
Qed.

(** ** Retransmission *)

(** The loop of a repair: the datagram [b1] is received by the sender [s], whose
    reaction [b2] is received by [r]. *)
Definition repairs (now : Z) (g : Z) (i : nat) (s r : Session) : Prop :=
  exists r1 b1 p s' b2 q r2 es,
    nak_step now g (NkScan i) r = Some (NkScan (S i), r1, [EUdp b1]) /\
    Unmarshal (ReadFrom b1) = Some (Ok p) /\ HandleNak now p s = Some (tt, s', []) /\
    queue (s_Shaper s') = queue (s_Shaper s) ++ [b2] /\
    Unmarshal (ReadFrom b2) = Some (Ok q) /\ HandleDataPacket now q r1 = Some (tt, r2, es) /\
    filled r2 g i.

Lemma nak_decodes q b :
  is_u8 q -> Marshal (nak_packet sid q) = Ok b -> Unmarshal (ReadFrom b) = Some (Ok (nak_packet sid q)).
Proof.
  intros Hq HM. destruct (nak_ctl q Hq) as (_ & Hwf & _).
  rewrite ReadFrom_small by (rewrite (Marshal_len _ _ HM); done).
  destruct (Marshal_decode _ b Hwf HM) as (rest & -> & Hr & Hty & Hid & HD).
  by rewrite Marshal_header, HD.
Qed.

(** C4: Selective repair.  If data shard [i] of block [g] is missing at the
    receiver and the sender has sent at most 256 data packets from that one on,
    then the NAK the receiver sends, the retransmission the sender queues for it
    and the reception of that datagram fill exactly that slot. *)
Theorem harq_repair hist W now g i B rb (s r : Session) :
  snd_inv hist s -> rcv_inv hist W r -> stopped (s_Shaper s) = false ->
  recvClosed (s_rx r) = false -> (W <= g)%nat -> in_window W g -> hist !! g = Some B ->
  (i < K)%nat -> (length hist * K <= g * K + i + 256)%nat ->
  rxBlocks (s_rx r) !! u16 (Z.of_nat g) = Some rb -> rb_Packets rb !! i = Some None ->
  repairs now (u16 (Z.of_nat g)) i s r.
Proof.
  intros Hs Hr Hst Hcl Hg Hw HB Hi Hn Hrb Hslot.
  destruct (ri_blocks _ _ _ Hr _ _ Hrb) as (g' & Hid & Hg' & Hw' & [Hc Hlow]).
  apply (in_window_inj W) in Hid as <-; try done.
  assert (block_wf B) as HBw by (eapply Forall_lookup_1; [apply Hr|done]).
  destruct (nak_scan_none hist now (u16 (Z.of_nat g)) g i r rb)
    as (b1 & r1 & HM1 & HE1 & Erx & Ecfg & Efec); [apply Hr|done..|].
  destruct (lookup_lt_is_Some_2 (blk_data B) i) as [d Hd]; [destruct HBw; lia|].
  pose proof (nth_pkt_block hist g B i d HB Hd Hi) as Hnth.
  set (q := data_packet _ _ _ _ _) in Hnth.
  assert (q ∈ block_pkts g B) as Hq.
  { apply elem_of_app. left. apply list_elem_of_lookup. exists i. by apply lookup_block_data_pkts. }
  destruct (HandleNak_cached hist now (nak_packet sid (seq_of g i)) (g * K + i) q s)
    as (s' & b2 & HE2 & HM2 & _ & Hq2 & _); try done.
  { apply lookup_lt_Some in HB. nia. }
  destruct (HandleData_ok hist W r1 now g B q) as (r2 & es & HE3 & _ & _ & _ & Hfl); try done.
  { apply (rcv_inv_frame hist W r); rewrite ?Erx, ?Efec; try done. apply Hr. }
  rewrite Erx in Hfl. specialize (Hfl Hcl Hg). simpl in Hfl.
  rewrite u8_small, Nat2Z.id in Hfl by (unfold is_u8; lia).
  exists r1, b1, (nak_packet sid (seq_of g i)), s', b2, q, r2, es. split_and!; try done.
  - apply nak_decodes; [apply u8_range|done].
  - by eapply data_frame_decodes; [apply Hr|..].
Qed.

End Recovery.
