(* ===== verification/Demo.v ===== *)
(** * A concrete stream

    Two data shards and one xor parity shard per block.  [default_link] shows that the
    assumptions on a link hold of the default parameters too.  Schedules of this stream
    are executed by the model and used as instances of the theorems. *)
From stdpp Require Import base gmap strings list pretty relations.
From S2P Require Import Prelude Protocol Fec GF256 Shaper Duration Session SessionRecv SendSpec RecvSpec E2E Recovery.
Local Open Scope string_scope.
Local Open Scope list_scope.
Local Open Scope Z_scope.

Module Demo.

#[local] Existing Instance XorCode.xor_rs.
#[local] Instance demo_link : Link.
Proof. refine {| lnk_K := 2; lnk_M := 1; lnk_code := XorLaws.xor_code 1; lnk_sid := 5 |}; lia. Defined.

(** The parameters of the command line's defaults, ten data and three parity shards,
    with the Reed-Solomon code of [GF256.v]. *)
Definition default_link : @Link RS.gf_rs.
Proof.
  refine (@Build_Link RS.gf_rs 10 3 (RS.gf_code 10 3 _ _) 5 _ _ _); lia.
Defined.

Definition demo0 : option Sys :=
  a ← ep_init 0 1500 0 None "b" false; b ← ep_init 0 1500 0 None "a" true;
  Some (mkSys a b [] []).

Definition demo (es : list (bool * Z * Act)) : option Sys := s0 ← demo0; sys_exec es s0.

(** [a] reads a chunk. *)
Definition read_chunk (data : bytes) : list (bool * Z * Act) :=
  [(true, 1, AReader false [] ReadNil); (true, 1, AReader false [] ReadNil);
   (true, 2, AReader false data ReadNil)].

(** [a] reads two chunks, which fill a block. *)
Definition reads : list (bool * Z * Act) := read_chunk [104; 105] ++ read_chunk [33].
Definition sends : list (bool * Z * Act) := replicate 6 (true, 5, AShaper false true).

(** The second data packet and the parity packet reach [b]; the first is lost. *)
Definition frame1 : bytes := [48; 5; 1; 0; 0; 9; 0; 1; 33].
Definition frame2 : bytes := [48; 5; 0; 0; 0; 18; 0; 3; 73; 105].
Definition half : list (bool * Z * Act) := reads ++ sends ++ [(false, 7, ARecv frame1)].
Definition full : list (bool * Z * Act) :=
  half ++ [(false, 8, ARecv frame2)] ++ replicate 6 (false, 9, AWriter None).

Definition block0 : Block := mkBlock [[0; 2; 104; 105]; [0; 1; 33]] 1.

Lemma demo_reachable es sys :
  demo es = Some sys -> exists s0, sys_init s0 /\ rtc sys_step s0 sys.
Proof.
  unfold demo. intros H. destruct demo0 as [s0|] eqn:E0; simpl in H; [|done].
  exists s0. split; [|by eapply sys_exec_sound].
  unfold demo0 in E0. destruct (ep_init 0 1500 0 None "b" false) as [a|] eqn:Ea; simpl in E0; [|done].
  destruct (ep_init 0 1500 0 None "a" true) as [b|] eqn:Eb; simpl in E0; [|done]. injection E0 as <-.
  split_and!; try done; [exists 0, 1500, 0, None, "b", false|exists 0, 1500, 0, None, "a", true];
    (split; [lia|done]).
Qed.

(** Observing a state of the run. *)
Lemma demo_at {A} (f : Sys -> A) es v :
  f <$> demo es = Some v ->
  exists sys, demo es = Some sys /\ f sys = v /\ sys_inv sys /\
    exists s0, sys_init s0 /\ rtc sys_step s0 sys.
Proof.
  intros H. destruct (demo es) as [sys|] eqn:E; [|done]. injection H as <-.
  destruct (demo_reachable es sys E) as (s0 & Hi & Hr). exists sys.
  split_and!; [done..| |by exists s0]. by eapply sys_reachable_inv.
Qed.

(** ** The tunnel *)

Lemma tunnel_prefix_witness :
  exists sys, demo full = Some sys /\
    (ep_in (sys_a sys), ep_out (sys_b sys)) = ([104; 105; 33], [104; 105; 33]) /\
    delivered (sys_a sys) (sys_b sys) /\ delivered (sys_b sys) (sys_a sys).
Proof.
  destruct (demo_at (fun sys => (ep_in (sys_a sys), ep_out (sys_b sys))) full
    ([104; 105; 33], [104; 105; 33])) as (sys & E & Hv & _ & s0 & Hi & Hr);
    [vm_compute; reflexivity|].
  exists sys. split; [exact E|]. split; [exact Hv|]. exact (tunnel_prefix s0 sys Hi Hr).
Defined.

Lemma tunnel_no_panic_witness :
  exists sys, demo full = Some sys /\ ep_wr (sys_b sys) = WrDelete /\
    is_Some (ep_step 10 (AWriter None) (sys_b sys)).
Proof.
  destruct (demo_at (fun sys => ep_wr (sys_b sys)) full WrDelete) as (sys & E & Hv & _ & s0 & Hi & Hr);
    [vm_compute; reflexivity|].
  exists sys. split; [exact E|]. split; [exact Hv|].
  apply (tunnel_no_panic s0 sys 10 (AWriter None) Hi Hr). exact I.
Defined.

Lemma sender_bounded_witness :
  exists sys, demo full = Some sys /\ (size (txBlocks (s_tx (ep_s (sys_a sys)))) <= 101)%nat.
Proof.
  destruct (demo_at (fun sys => ep_wr (sys_b sys)) full WrDelete) as (sys & E & Hv & _ & s0 & Hi & Hr);
    [vm_compute; reflexivity|].
  exists sys. split; [exact E|].
  apply (sender_bounded s0 sys (sys_a sys) Hi Hr). left. reflexivity.
Defined.

(** ** The sender *)

Lemma flush_block_spec_witness :
  exists s s', (demo (read_chunk [104; 105]) ≫= fun sys => Some (ep_s (sys_a sys))) = Some s /\
    flushPendingBlock s = Some (tt, s', []) /\ pendingData (s_tx s') = [].
Proof.
  destruct (demo_at (fun sys => pendingData (s_tx (ep_s (sys_a sys)))) (read_chunk [104; 105])
    [[0; 2; 104; 105]]) as (sys & E & Hv & Hinv & _); [vm_compute; reflexivity|].
  destruct (flush_block_spec (ep_hist (sys_a sys)) (ep_s (sys_a sys))) as (s' & HE & _ & Hp & _).
  - apply (vi_a _ Hinv).
  - rewrite Hv. discriminate.
  - exists (ep_s (sys_a sys)), s'. rewrite E. split; [reflexivity|]. split; [exact HE|exact Hp].
Defined.


(** ** Loss recovery *)

(** The state in which [b] has received the second data packet only. *)
Definition obs_half (sys : Sys) : list Block * nat * bool * bool * bool * option RxBlock :=
  (ep_hist (sys_a sys), ep_wrote (sys_b sys), recvClosed (s_rx (ep_s (sys_b sys))),
   s_done (ep_s (sys_b sys)), stopped (s_Shaper (ep_s (sys_a sys))),
   rxBlocks (s_rx (ep_s (sys_b sys))) !! 0).

Definition half_block : RxBlock :=
  mkRxBlock 0 2 1 [None; Some [0; 1; 33]; None] [0; 1] 1 true false false.

Lemma half_state :
  exists sys, demo half = Some sys /\ sys_inv sys /\ ep_hist (sys_a sys) = [block0] /\
    ep_wrote (sys_b sys) = 0%nat /\ recvClosed (s_rx (ep_s (sys_b sys))) = false /\
    s_done (ep_s (sys_b sys)) = false /\ stopped (s_Shaper (ep_s (sys_a sys))) = false /\
    rxBlocks (s_rx (ep_s (sys_b sys))) !! 0 = Some half_block /\
    snd_inv [block0] (ep_s (sys_a sys)) /\ rcv_inv [block0] 0 (ep_s (sys_b sys)).
Proof.
  destruct (demo_at obs_half half ([block0], 0%nat, false, false, false, Some half_block))
    as (sys & E & Hv & Hinv & _); [vm_compute; reflexivity|].
  injection Hv as H1 H2 H3 H4 H5 H6. exists sys.
  split_and!; [exact E|exact Hinv|exact H1|exact H2|exact H3|exact H4|exact H5|exact H6| |].
  - rewrite <- H1. apply (vi_a _ Hinv).
  - rewrite <- H1, <- H2. apply (vi_b _ Hinv).
Qed.

Lemma window0 : in_window 0 0.
Proof. unfold in_window. lia. Qed.

Lemma block0_wf : block_wf block0.
Proof.
  split; [done|]. split; [|simpl; lia].
  repeat constructor; [exists [104; 105]|exists [33]]; (split; [done|]); unfold max_chunk;
    (split; [vm_compute; congruence|]); repeat constructor; lia.
Qed.

Lemma LQR_counts_losses_witness :
  exists s s' b d, handleLQRTimeout 9 0 s = Some (tt, s', [EUdp b; EAfterFunc d (TNak 0)]) /\
    Unmarshal (ReadFrom b) = Some (Ok (lqr_packet 5 0 1)).
Proof.
  destruct half_state as (sys & _ & _ & _ & _ & _ & _ & _ & Hb & _ & Hr).
  destruct (LQR_counts_losses [block0] 0 9 0 block0 half_block (ep_s (sys_b sys)))
    as (s' & b & n & l & HE & HU & _ & Hn & Hl & _);
    [exact Hr|lia|exact window0|reflexivity|exact Hb|reflexivity|reflexivity|].
  exists (ep_s (sys_b sys)), s', b, (c_NAKDelayDur (s_cfg (ep_s (sys_b sys)))). split; [exact HE|].
  assert (n = 2%nat) as En.
  { destruct Hn as (H1 & _ & [H2|[p Hp]]); [exact H2|]. simpl in H1.
    destruct n as [|[|[|[|n]]]]; simpl in H1, Hp; [lia|lia|reflexivity|discriminate|].
    apply lookup_lt_Some in Hp. simpl in Hp. lia. }
  subst n. subst l. exact HU.
Defined.

Lemma fec_recovery_witness :
  exists s s' es rb, go_for (drop 1 (block_pkts 0 block0)) (HandleDataPacket 9) s = Some (tt, s', es) /\
    rxBlocks (s_rx s') !! 0 = Some rb /\ rb_Decoded rb = true /\ block_output rb = [104; 105; 33].
Proof.
  destruct half_state as (sys & _ & _ & _ & _ & Hcl & _ & _ & Hb & _ & Hr).
  exists (ep_s (sys_b sys)).
  apply (fec_recovery [block0] 0 9 0 block0 (drop 1 (block_pkts 0 block0)) (ep_s (sys_b sys))).
  - exact Hr.
  - exact Hcl.
  - reflexivity.
  - lia.
  - exact window0.
  - intros p Hp. rewrite <- (take_drop 1 (block_pkts 0 block0)); apply elem_of_app. right. exact Hp.
  - vm_compute. lia.
Defined.

Lemma nak_requests_missing_witness :
  exists s s' d, nak_run 5 9 0 NkStart s = Some (NkReturned, s', [EUdp [96; 5; 0]; EAfterFunc d (TNak 0)]).
Proof.
  destruct half_state as (sys & _ & _ & _ & _ & _ & Hdone & _ & Hb & _ & Hr).
  destruct (nak_requests_missing [block0] 0 9 0 half_block (ep_s (sys_b sys))) as (s' & HE).
  - exact Hr.
  - exact Hdone.
  - lia.
  - exact window0.
  - exact Hb.
  - reflexivity.
  - exists (ep_s (sys_b sys)), s', (c_NAKDelayDur (s_cfg (ep_s (sys_b sys)))). exact HE.
Defined.

Lemma HandleNak_retransmits_witness :
  exists s s', HandleNak 9 (nak_packet 5 0) s = Some (tt, s', []) /\
    queue (s_Shaper s') = queue (s_Shaper s) ++ [[48; 5; 0; 0; 0; 1; 0; 2; 104; 105]].
Proof.
  destruct half_state as (sys & _ & _ & _ & _ & _ & _ & Hst & _ & Hs & _).
  destruct (HandleNak_retransmits [block0] 9 (nak_packet 5 0) 0 (data_packet 5 0 0 0 [0; 2; 104; 105])
    (ep_s (sys_a sys))) as (s' & b & HE & HM & Hq & _).
  - exact Hs.
  - exact Hst.
  - simpl. lia.
  - simpl. lia.
  - reflexivity.
  - reflexivity.
  - exists (ep_s (sys_a sys)), s'. split; [exact HE|]. injection HM as <-. exact Hq.
Defined.

Lemma harq_repair_witness : exists s r, repairs 9 0 0 s r.
Proof.
  destruct half_state as (sys & _ & _ & _ & _ & Hcl & _ & Hst & Hb & Hs & Hr).
  exists (ep_s (sys_a sys)), (ep_s (sys_b sys)).
  apply (harq_repair [block0] 0 9 0 0 block0 half_block (ep_s (sys_a sys)) (ep_s (sys_b sys)));
    [exact Hs|exact Hr|exact Hst|exact Hcl|lia|exact window0|reflexivity|simpl; lia|simpl; lia
    |exact Hb|reflexivity].
Defined.

End Demo.
