(* ===== verification/Lifecycle.v ===== *)
(** * Closing a session

    The CLOSE handshake between the CLOSE goroutine of the reader and
    [HandleClose], in both orders. *)
From stdpp Require Import base gmap strings list pretty.
From S2P Require Import Prelude Protocol Fec Shaper Duration Session SessionRecv.
Local Open Scope string_scope.
Local Open Scope list_scope.
Local Open Scope Z_scope.
Local Open Scope go_scope.

Section Lifecycle.
Context {RS : ReedSolomon}.

(** How often the TCP connection is closed. *)
Definition tcp_closes (es : list Effect) : nat :=
  length (filter (fun e => e = ETcpClose) es).

Lemma HandleClose_first (s : Session) :
  closeSent (s_tx s) = false ->
  HandleClose s = Some (tt, with_tx s (set_closeRecv true (s_tx s)), [EBroadcast]).
Proof. intros E. unfold HandleClose, go_bind. simpl. by rewrite E. Qed.

Lemma HandleClose_second (s : Session) :
  closeSent (s_tx s) = true ->
  exists s' es, HandleClose s = Some (tt, s', es) /\ s_done s' = true /\ stopped (s_Shaper s') = true /\
    closeRecv (s_tx s') = true /\ tcp_closes es = 1%nat.
Proof.
  intros E. unfold HandleClose, mod_tx. rewrite go_bind_modify, go_bind_get. simpl. rewrite E.
  unfold go_bind. simpl. rewrite Close_eq. simpl. eexists _, _. split_and!; try done.
  by destruct (blockTimer (s_tx s)).
Qed.

Lemma closer_sent_first now ch (s : Session) :
  closeRecv (s_tx s) = false ->
  closer_step now ch ClSent s = Some (ClTick, with_tx s (set_closeSent true (s_tx s)), []).
Proof. intros E. unfold closer_step, go_bind. simpl. by rewrite E. Qed.

Lemma closer_sent_second now ch (s : Session) :
  closeRecv (s_tx s) = true ->
  exists s' es, closer_step now ch ClSent s = Some (ClReturned, s', es) /\ s_done s' = true /\
    stopped (s_Shaper s') = true /\ closeSent (s_tx s') = true /\ tcp_closes es = 1%nat.
Proof.
  intros E. unfold closer_step, mod_tx. rewrite go_bind_get, go_bind_modify, E.
  unfold go_bind. rewrite Close_eq. simpl. eexists _, _. split_and!; try done.
  by destruct (blockTimer (s_tx s)).
Qed.

(** C38: The session is closed once both directions are.  Whether the peer's CLOSE
    arrives before or after our own has been sent, the second of the two events
    cancels the session, stops its shaper and closes the TCP connection exactly
    once, and the first one does none of that. *)
Theorem close_handshake now ch (s : Session) :
  closeSent (s_tx s) = false -> closeRecv (s_tx s) = false -> s_done s = false ->
  (exists s1 s2 es1 es2,
     HandleClose s = Some (tt, s1, es1) /\ s_done s1 = false /\ tcp_closes es1 = 0%nat /\
     closer_step now ch ClSent s1 = Some (ClReturned, s2, es2) /\
     s_done s2 = true /\ stopped (s_Shaper s2) = true /\ tcp_closes es2 = 1%nat) /\
  (exists s1 s2 es1 es2,
     closer_step now ch ClSent s = Some (ClTick, s1, es1) /\ s_done s1 = false /\
     tcp_closes es1 = 0%nat /\ HandleClose s1 = Some (tt, s2, es2) /\
     s_done s2 = true /\ stopped (s_Shaper s2) = true /\ tcp_closes es2 = 1%nat).
Proof.
  intros E1 E2 Ed. split.
  - rewrite HandleClose_first by done.
    destruct (closer_sent_second now ch (with_tx s (set_closeRecv true (s_tx s)))) as (s2 & es2 & H & ? & ? & _ & ?);
      [done|]. eexists _, s2, _, es2. by split_and!.
  - rewrite closer_sent_first by done.
    destruct (HandleClose_second (with_tx s (set_closeSent true (s_tx s)))) as (s2 & es2 & H & ? & ? & _ & ?);
      [done|]. eexists _, s2, _, es2. by split_and!.
Qed.

End Lifecycle.

#[local] Existing Instance XorCode.xor_rs.

Lemma close_handshake_witness :
  exists s1 s2 es1 es2,
    HandleClose (NewSession 0 5 None "peer" false 1500 0 2 1) = Some (tt, s1, es1) /\
    closer_step 1 false ClSent s1 = Some (ClReturned, s2, es2) /\ s_done s2 = true.
Proof.
  destruct (close_handshake 1 false (NewSession 0 5 None "peer" false 1500 0 2 1)
    eq_refl eq_refl eq_refl) as [(s1 & s2 & es1 & es2 & H1 & _ & _ & H2 & H3 & _) _].
  exists s1, s2, es1, es2. split; [exact H1|]. split; [exact H2|exact H3].
Defined.
