(* ===== verification/NetAddr.v ===== *)
(** * Addresses: the parts of Go's [net] and [net/netip] the program uses

    [SplitHostPort], [ParseAddr] (IPv4 and IPv6), [ParseIP], [ParseCIDR] and
    [IPNet.Contains] on byte strings, as src/config/config.go uses them, and the
    printing of an IPv4 address as src/proxy/proxy_linux.go uses it. *)
From stdpp Require Import base list strings pretty.
From Stdlib Require Import Ascii.
From S2P Require Import Prelude.
Local Open Scope string_scope.
Local Open Scope list_scope.
Local Open Scope Z_scope.

(** The code of a character. *)
Definition chr (a : ascii) : Z := Z.of_nat (nat_of_ascii a).
Definition dot : Z := Eval vm_compute in chr ".".
Definition colon : Z := Eval vm_compute in chr ":".
Definition slash : Z := Eval vm_compute in chr "/".
Definition percent : Z := Eval vm_compute in chr "%".
Definition lbracket : Z := Eval vm_compute in chr "[".
Definition rbracket : Z := Eval vm_compute in chr "]".

(** ** Searching *)

(** [strings.IndexByte] and [strings.LastIndexByte]; [None] is [-1]. *)
Fixpoint index_byte (c : Z) (s : bytes) : option nat :=
  match s with
  | [] => None
  | x :: s' => if x =? c then Some 0%nat else S <$> index_byte c s'
  end.

Fixpoint last_index_byte (c : Z) (s : bytes) : option nat :=
  match s with
  | [] => None
  | x :: s' =>
      match last_index_byte c s' with
      | Some i => Some (S i)
      | None => if x =? c then Some 0%nat else None
      end
  end.

Definition contains_byte (c : Z) (s : bytes) : bool :=
  match index_byte c s with Some _ => true | None => false end.

(** ** [net.SplitHostPort] *)

Definition SplitHostPort (hostport : bytes) : result (bytes * bytes) :=
  match last_index_byte colon hostport with
  | None => Err "missing port in address"
  | Some i =>
      let port := drop (S i) hostport in
      if bool_decide (head hostport = Some lbracket) then
        match index_byte rbracket hostport with
        | None => Err "missing ']' in address"
        | Some e =>
            if (e + 1 =? length hostport)%nat then Err "missing port in address"
            else if (e + 1 =? i)%nat then
              if contains_byte lbracket (drop 1 hostport) then Err "unexpected '[' in address"
              else if contains_byte rbracket (drop (e + 1) hostport) then Err "unexpected ']' in address"
              else Ok (take (e - 1) (drop 1 hostport), port)
            else if bool_decide (hostport !! (e + 1)%nat = Some colon) then Err "too many colons in address"
            else Err "missing port in address"
        end
      else
        let host := take i hostport in
        if contains_byte colon host then Err "too many colons in address"
        else if contains_byte lbracket hostport then Err "unexpected '[' in address"
        else if contains_byte rbracket hostport then Err "unexpected ']' in address"
        else Ok (host, port)
  end.

(** ** IPv4 *)

Definition is_digit (c : Z) : bool := (48 <=? c) && (c <=? 57).

(** [parseIPv4Fields]: the fields read so far, the value and the length of the
    current one. *)
Fixpoint ipv4_fields (s : bytes) (fields : list Z) (val : Z) (digLen : nat) : option (list Z) :=
  match s with
  | [] => if (digLen =? 0)%nat || negb (length fields =? 3)%nat then None else Some (fields ++ [val])
  | c :: s' =>
      if is_digit c then
        if (digLen =? 1)%nat && (val =? 0) then None
        else
          let val := val * 10 + (c - 48) in
          if val >? 255 then None else ipv4_fields s' fields val (S digLen)
      else if c =? dot then
        if (digLen =? 0)%nat || (length fields =? 3)%nat then None
        else ipv4_fields s' (fields ++ [val]) 0 0
      else None
  end.

Definition parseIPv4 (s : bytes) : option (list Z) := ipv4_fields s [] 0 0.

(** ** IPv6 *)

Definition hex_val (c : Z) : option Z :=
  if is_digit c then Some (c - 48)
  else if (97 <=? c) && (c <=? 102) then Some (c - 87)
  else if (65 <=? c) && (c <=? 70) then Some (c - 55)
  else None.

(** One group: the value, the number of digits, and what follows; [None] after a
    fifth digit. *)
Fixpoint hex_group (s : bytes) (acc : Z) (off : nat) : option (Z * nat * bytes) :=
  match s with
  | [] => Some (acc, off, s)
  | c :: s' =>
      match hex_val c with
      | None => Some (acc, off, s)
      | Some v => if (3 <? off)%nat then None else hex_group s' (acc * 16 + v) (S off)
      end
  end.

(** The loop of [parseIPv6]: the bytes so far, the position of the ellipsis.
    A round that goes on adds two bytes and the loop stops at 16, so nine rounds
    are enough; the result is the bytes, the ellipsis and the input left over. *)
Fixpoint ipv6_loop (fuel : nat) (s : bytes) (ip : list Z) (ell : option nat)
    : option (list Z * option nat * bytes) :=
  match fuel with
  | O => Some (ip, ell, s)
  | S fuel =>
      if (16 <=? length ip)%nat then Some (ip, ell, s)
      else
        '(acc, off, rest) ← hex_group s 0 0;
        if (off =? 0)%nat then None
        else if bool_decide (head rest = Some dot) then
          if bool_decide (ell = None) && negb (length ip =? 12)%nat then None
          else if (16 <? length ip + 4)%nat then None
          else v4 ← parseIPv4 s; Some (ip ++ v4, ell, [])
        else
          let ip := ip ++ [acc / 256; acc mod 256] in
          match rest with
          | [] => Some (ip, ell, [])
          | c :: rest' =>
              if negb (c =? colon) then None
              else
                match rest' with
                | [] => None
                | c' :: rest'' =>
                    if c' =? colon then
                      if bool_decide (ell = None) then
                        match rest'' with
                        | [] => Some (ip, Some (length ip), [])
                        | _ => ipv6_loop fuel rest'' ip (Some (length ip))
                        end
                      else None
                    else ipv6_loop fuel rest' ip ell
                end
          end
  end.

(** [None] when the address does not parse; a zone is split off first. *)
Definition parseIPv6 (addr : bytes) : option (list Z * bytes) :=
  '(s, zone) ← (match index_byte percent addr with
                | None => Some (addr, [])
                | Some i => if bool_decide (drop (S i) addr = []) then None
                            else Some (take i addr, drop (S i) addr)
                end);
  let '(s, ell) := match s with
                   | c :: c' :: s' => if (c =? colon) && (c' =? colon) then (s', Some 0%nat) else (s, None)
                   | _ => (s, None)
                   end in
  if bool_decide (s = []) && bool_decide (ell = Some 0%nat) then Some (replicate 16 0, zone)
  else
    '(ip, ell, rest) ← ipv6_loop 9 s [] ell;
    if negb (bool_decide (rest = [])) then None
    else if (length ip <? 16)%nat then
      e ← ell;
      Some (take e ip ++ replicate (16 - length ip) 0 ++ drop e ip, zone)
    else if bool_decide (ell = None) then Some (ip, zone) else None.

(** ** [netip.ParseAddr], [net.ParseIP] *)

(** An address: 4 or 16 bytes, with its zone. *)
Inductive Addr := Addr4 (ip : list Z) | Addr6 (ip : list Z) (zone : bytes).

(** The first of ['.'], [':'], ['%'] decides. *)
Fixpoint addr_kind (s : bytes) : option bool :=
  match s with
  | [] => None
  | c :: s' =>
      if c =? dot then Some true
      else if c =? colon then Some false
      else if c =? percent then None
      else addr_kind s'
  end.

Definition ParseAddr (s : bytes) : option Addr :=
  match addr_kind s with
  | Some true => Addr4 <$> parseIPv4 s
  | Some false => '(ip, zone) ← parseIPv6 s; Some (Addr6 ip zone)
  | None => None
  end.

Definition v4InV6Prefix : list Z := replicate 10 0 ++ [255; 255].

(** [net.IP]: always 16 bytes here; [nil] is [None]. *)
Definition ParseIP (s : bytes) : option (list Z) :=
  match ParseAddr s with
  | Some (Addr4 ip) => Some (v4InV6Prefix ++ ip)
  | Some (Addr6 ip []) => Some ip
  | _ => None
  end.

(** [ip.To4()] *)
Definition To4 (ip : list Z) : option (list Z) :=
  if (length ip =? 4)%nat then Some ip
  else if (length ip =? 16)%nat && bool_decide (take 12 ip = v4InV6Prefix) then Some (drop 12 ip)
  else None.

(** ** [net.ParseCIDR] and [IPNet.Contains] *)

Record IPNet := mkIPNet { net_IP : list Z; net_Mask : list Z }.

(** [dtoi]: the leading decimal digits, how many there are, and whether the value
    is below [0xFFFFFF]. *)
Fixpoint dtoi_go (s : bytes) (n : Z) (i : nat) : Z * nat * bool :=
  match s with
  | [] => (n, i, negb (i =? 0)%nat)
  | c :: s' =>
      if is_digit c then
        let n := n * 10 + (c - 48) in
        if n >=? 16777215 then (16777215, i, false) else dtoi_go s' n (S i)
      else (n, i, negb (i =? 0)%nat)
  end.
Definition dtoi (s : bytes) : Z * nat * bool := dtoi_go s 0 0.

(** [net.CIDRMask n bits]: [n] ones followed by zeros. *)
Definition mask_byte (n : Z) (i : nat) : Z :=
  let k := Z.max 0 (Z.min 8 (n - 8 * Z.of_nat i)) in 255 - (2 ^ (8 - k) - 1).
Definition CIDRMask (n : Z) (bits : nat) : list Z := map (mask_byte n) (seq 0 (bits / 8)).

(** [ip.Mask(mask)] for an address and a mask of the same length. *)
Definition and_bytes (a b : list Z) : list Z := zip_with Z.land a b.

Definition ParseCIDR (s : bytes) : option IPNet :=
  i ← index_byte slash s;
  let addr := take i s in
  let mask := drop (S i) s in
  a ← ParseAddr addr;
  '(ip, bits) ← (match a with
                 | Addr4 ip => Some (ip, 32%nat)
                 | Addr6 ip [] => Some (ip, 128%nat)
                 | Addr6 _ _ => None
                 end);
  let '(n, j, ok) := dtoi mask in
  if negb ok || negb (j =? length mask)%nat || (n <? 0) || (n >? Z.of_nat bits) then None
  else let m := CIDRMask n bits in Some (mkIPNet (and_bytes ip m) m).

(** [networkNumberAndMask] *)
Definition network_and_mask (n : IPNet) : option (list Z * list Z) :=
  let ip := default (net_IP n) (To4 (net_IP n)) in
  if negb ((length ip =? 4)%nat || (length ip =? 16)%nat) then None
  else if (length (net_Mask n) =? 4)%nat then
    if (length ip =? 4)%nat then Some (ip, net_Mask n) else None
  else if (length (net_Mask n) =? 16)%nat then
    Some (ip, if (length ip =? 4)%nat then drop 12 (net_Mask n) else net_Mask n)
  else None.

Definition Contains (n : IPNet) (ip : list Z) : bool :=
  let ip := default ip (To4 ip) in
  match network_and_mask n with
  | None => (length ip =? 0)%nat
  | Some (nn, m) =>
      if (length ip =? length nn)%nat then bool_decide (and_bytes nn m = and_bytes ip m) else false
  end.

(** ** Printing *)

Definition dec (n : Z) : bytes := bytes_of_string (pretty n).

(** [net.IP(addr[:]).String()] for four bytes, and ["%s:%d"]. *)
Definition ipv4_string (ip : list Z) : bytes :=
  match ip with
  | [a; b; c; d] => dec a ++ [dot] ++ dec b ++ [dot] ++ dec c ++ [dot] ++ dec d
  | _ => []
  end.
Definition host_port (host : bytes) (port : Z) : bytes := host ++ [colon] ++ dec port.

(** ** Lemmas: searching *)

Lemma index_byte_None c s : index_byte c s = None <-> Forall (fun x => x <> c) s.
Proof.
  induction s as [|x s IH]; simpl; [by split; [constructor|]|].
  destruct (Z.eqb_spec x c) as [->|Hne].
  - split; [done|]. intros H. by apply Forall_cons in H as [? _].
  - rewrite Forall_cons, <- IH. destruct (index_byte c s); simpl; split; intros H; try done; by destruct H.
Qed.

Lemma contains_byte_false c s : Forall (fun x => x <> c) s -> contains_byte c s = false.
Proof. intros H. unfold contains_byte. by rewrite (proj2 (index_byte_None c s)). Qed.

Lemma last_index_byte_None c s : Forall (fun x => x <> c) s -> last_index_byte c s = None.
Proof.
  induction 1 as [|x s Hx _ IH]; [done|]. simpl. rewrite IH.
  by rewrite (proj2 (Z.eqb_neq _ _)).
Qed.

Lemma last_index_byte_app c s t :
  Forall (fun x => x <> c) t -> last_index_byte c (s ++ c :: t) = Some (length s).
Proof.
  intros Ht. induction s as [|x s IH]; simpl; [|by rewrite IH].
  by rewrite last_index_byte_None, Z.eqb_refl.
Qed.

(** ** Lemmas: decimal numerals *)

Lemma pretty_N_go_digits x s :
  Forall (fun c => is_digit c = true) (bytes_of_string s) ->
  Forall (fun c => is_digit c = true) (bytes_of_string (pretty_N_go x s)).
Proof.
  revert s. induction (N.lt_wf_0 x) as [x _ IH]; intros s Hs.
  destruct (decide (0 < x)%N).
  - rewrite pretty_N_go_step by done. apply IH; [by apply N.div_lt|].
    constructor; [|done]. unfold pretty_N_char. by repeat case_match.
  - by replace x with 0%N by lia.
Qed.

Lemma dec_digits n : 0 <= n -> Forall (fun c => is_digit c = true) (dec n).
Proof.
  intros Hn. unfold dec. destruct n as [|p|p]; [by repeat constructor| |lia].
  unfold pretty, pretty_Z, pretty, pretty_positive, pretty, pretty_N. case_decide; [by repeat constructor|].
  apply pretty_N_go_digits. constructor.
Qed.

Lemma digits_avoid c s :
  is_digit c = false -> Forall (fun x => is_digit x = true) s -> Forall (fun x => x <> c) s.
Proof. intros Hc Hs. eapply Forall_impl; [done|]. simpl. intros x Hx ->. congruence. Qed.

(** The numeral of a byte, digit by digit. *)
Definition dec3 (a : Z) : bytes :=
  if a <? 10 then [48 + a]
  else if a <? 100 then [48 + a / 10; 48 + a mod 10]
  else [48 + a / 100; 48 + a / 10 mod 10; 48 + a mod 10].

Lemma dec_byte a : is_u8 a -> dec a = dec3 a.
Proof.
  intros Ha. assert (Forall (fun i => dec (Z.of_nat i) = dec3 (Z.of_nat i)) (seq 0 256)) as H
    by (apply (bool_decide_unpack _); vm_compute; exact I).
  rewrite Forall_forall in H. specialize (H (Z.to_nat a)). unfold is_u8 in Ha.
  rewrite Z2Nat.id in H by lia. apply H, elem_of_seq. lia.
Qed.

(** ** Lemmas: IPv4 addresses *)

Definition ipv4_ok (ip : list Z) : Prop := length ip = 4%nat /\ bytes_ok ip.

Lemma is_digit_48 d : 0 <= d <= 9 -> is_digit (48 + d) = true.
Proof. intros. unfold is_digit. by go_tests. Qed.

(** Reading the numeral of a byte. *)
Lemma ipv4_fields_byte a rest fields :
  is_u8 a -> exists d, (0 < d)%nat /\
    ipv4_fields (dec a ++ rest) fields 0 0 = ipv4_fields rest fields a d.
Proof.
  intros Ha. rewrite dec_byte by done. unfold dec3, is_u8 in *.
  destruct (Z.ltb_spec a 10); [|destruct (Z.ltb_spec a 100)]; simpl;
    rewrite !is_digit_48 by (Z.to_euclidean_division_equations; lia).
  - exists 1%nat. split; [lia|]. replace (0 * 10 + (48 + a - 48)) with a by lia. by go_tests.
  - exists 2%nat. split; [lia|].
    replace (0 * 10 + (48 + a / 10 - 48)) with (a / 10) by lia.
    rewrite (proj2 (Z.eqb_neq (a / 10) 0)) by (Z.to_euclidean_division_equations; lia).
    replace (a / 10 * 10 + (48 + a mod 10 - 48)) with a by (Z.to_euclidean_division_equations; lia).
    rewrite !Z.gtb_ltb, !(proj2 (Z.ltb_ge _ _)) by (Z.to_euclidean_division_equations; lia). done.
  - exists 3%nat. split; [lia|].
    replace (0 * 10 + (48 + a / 100 - 48)) with (a / 100) by lia.
    rewrite (proj2 (Z.eqb_neq (a / 100) 0)) by (Z.to_euclidean_division_equations; lia).
    replace (a / 100 * 10 + (48 + a / 10 mod 10 - 48)) with (a / 10)
      by (Z.to_euclidean_division_equations; lia).
    replace (a / 10 * 10 + (48 + a mod 10 - 48)) with a by (Z.to_euclidean_division_equations; lia).
    rewrite !Z.gtb_ltb, !(proj2 (Z.ltb_ge _ _)) by (Z.to_euclidean_division_equations; lia). done.
Qed.

Lemma ipv4_fields_dot rest fields a d :
  (0 < d)%nat -> length fields <> 3%nat ->
  ipv4_fields (dot :: rest) fields a d = ipv4_fields rest (fields ++ [a]) 0 0.
Proof. intros Hd Hf. simpl. by rewrite !(proj2 (Nat.eqb_neq _ _)) by lia. Qed.

Lemma parseIPv4_string ip : ipv4_ok ip -> parseIPv4 (ipv4_string ip) = Some ip.
Proof.
  intros [Hl Hb]. destruct ip as [|a [|b [|c [|d [|]]]]]; try done.
  unfold bytes_ok in Hb. decompose_Forall_hyps. unfold parseIPv4, ipv4_string.
  destruct (ipv4_fields_byte a (dot :: dec b ++ dot :: dec c ++ dot :: dec d) []) as (n1 & ? & ->); [done|].
  rewrite ipv4_fields_dot by done.
  destruct (ipv4_fields_byte b (dot :: dec c ++ dot :: dec d) ([] ++ [a])) as (n2 & ? & ->); [done|].
  rewrite ipv4_fields_dot by done.
  destruct (ipv4_fields_byte c (dot :: dec d) (([] ++ [a]) ++ [b])) as (n3 & ? & ->); [done|].
  rewrite ipv4_fields_dot by done.
  rewrite <- (app_nil_r (dec d)).
  destruct (ipv4_fields_byte d [] ((([] ++ [a]) ++ [b]) ++ [c])) as (n4 & ? & ->); [done|].
  simpl. by rewrite (proj2 (Nat.eqb_neq _ _)) by lia.
Qed.

(** The characters of a printed address are digits and dots. *)
Definition ipv4_char (c : Z) : bool := is_digit c || (c =? dot).

Lemma ipv4_string_chars ip : bytes_ok ip -> Forall (fun c => ipv4_char c = true) (ipv4_string ip).
Proof.
  intros Hb. destruct ip as [|a [|b [|c [|d [|]]]]]; try by constructor.
  assert (forall x, is_u8 x -> Forall (fun c => ipv4_char c = true) (dec x)) as Hd.
  { intros x Hx. eapply Forall_impl; [apply dec_digits; unfold is_u8 in Hx; lia|].
    intros y Hy. unfold ipv4_char. by rewrite Hy. }
  unfold bytes_ok in Hb. decompose_Forall_hyps. unfold ipv4_string.
  repeat first [apply Hd; done|apply Forall_app_2|apply Forall_cons_2|apply Forall_nil_2|done].
Qed.

Lemma ipv4_char_avoid c s :
  ipv4_char c = false -> Forall (fun x => ipv4_char x = true) s -> Forall (fun x => x <> c) s.
Proof. intros Hc Hs. eapply Forall_impl; [done|]. simpl. intros x Hx ->. congruence. Qed.

Lemma addr_kind_ipv4 s :
  Forall (fun c => ipv4_char c = true) s -> contains_byte dot s = true -> addr_kind s = Some true.
Proof.
  intros Hs. induction Hs as [|c s Hc _ IH]; [done|]. unfold contains_byte in *. simpl.
  destruct (Z.eqb_spec c dot) as [->|Hne]; [done|]. intros H.
  rewrite (proj2 (Z.eqb_neq c colon)), (proj2 (Z.eqb_neq c percent)) by (intros ->; done).
  apply IH. by destruct (index_byte dot s).
Qed.

Lemma ParseAddr_ipv4 ip : ipv4_ok ip -> ParseAddr (ipv4_string ip) = Some (Addr4 ip).
Proof.
  intros Hok. unfold ParseAddr. rewrite addr_kind_ipv4.
  - by rewrite parseIPv4_string.
  - apply ipv4_string_chars, Hok.
  - destruct Hok as [Hl _]. destruct ip as [|a [|b [|c [|d [|]]]]]; try done. unfold contains_byte.
    destruct (index_byte dot _) eqn:E; [done|]. apply index_byte_None in E. exfalso.
    unfold ipv4_string in E. apply Forall_app in E as [_ E]. by apply Forall_cons in E as [? _].
Qed.

Lemma ParseIP_ipv4 ip : ipv4_ok ip -> ParseIP (ipv4_string ip) = Some (v4InV6Prefix ++ ip).
Proof. intros H. unfold ParseIP. by rewrite ParseAddr_ipv4. Qed.

Lemma drop_S_app {A} (l : list A) x t : drop (S (length l)) (l ++ x :: t) = t.
Proof. induction l as [|y l IH]; [done|]. exact IH. Qed.

Lemma SplitHostPort_ipv4 ip port :
  ipv4_ok ip -> 0 <= port ->
  SplitHostPort (host_port (ipv4_string ip) port) = Ok (ipv4_string ip, dec port).
Proof.
  intros [Hl Hb] Hp. pose proof (ipv4_string_chars ip Hb) as Hc.
  pose proof (dec_digits port Hp) as Hd. unfold SplitHostPort, host_port.
  change (ipv4_string ip ++ [colon] ++ dec port) with (ipv4_string ip ++ colon :: dec port).
  rewrite last_index_byte_app by (by apply digits_avoid).
  assert (forall c, ipv4_char c = false -> c <> colon -> is_digit c = false ->
    Forall (fun x => x <> c) (ipv4_string ip ++ colon :: dec port)) as Hav.
  { intros c H1 H2 H3. apply Forall_app. split; [by apply ipv4_char_avoid|].
    constructor; [done|]. by apply digits_avoid. }
  rewrite bool_decide_eq_false_2.
  - rewrite take_app_length. rewrite !contains_byte_false; [|by apply Hav..|by apply ipv4_char_avoid].
    by rewrite drop_S_app.
  - intros E. specialize (Hav lbracket eq_refl ltac:(done) eq_refl).
    destruct (ipv4_string ip ++ colon :: dec port) as [|x l]; [done|]. injection E as ->.
    by apply Forall_cons in Hav as [? _].
Qed.

(** ** Lemmas: subnets *)

(** The bits of an address, most significant first. *)
Definition byte_bits (x : Z) : list bool := map (Z.testbit x) [7; 6; 5; 4; 3; 2; 1; 0].
Definition ip_bits (ip : list Z) : list bool := concat (map byte_bits ip).

Lemma byte_bits_inj x y : is_u8 x -> is_u8 y -> byte_bits x = byte_bits y -> x = y.
Proof.
  assert (Forall (fun x => foldl (fun acc b => 2 * acc + Z.b2z b) 0 (byte_bits (Z.of_nat x)) = Z.of_nat x)
    (seq 0 256)) as H by (apply (bool_decide_unpack _); vm_compute; exact I).
  rewrite Forall_forall in H. unfold is_u8. intros Hx Hy E.
  pose proof (H (Z.to_nat x) ltac:(apply elem_of_seq; lia)) as H1.
  pose proof (H (Z.to_nat y) ltac:(apply elem_of_seq; lia)) as H2.
  rewrite Z2Nat.id in H1, H2 by lia. congruence.
Qed.

(** Masking a byte keeps its first [k] bits. *)
Lemma mask_bits x k :
  is_u8 x -> (k <= 8)%nat ->
  byte_bits (Z.land x (255 - (2 ^ (8 - Z.of_nat k) - 1))) =
    take k (byte_bits x) ++ replicate (8 - k) false /\
  is_u8 (Z.land x (255 - (2 ^ (8 - Z.of_nat k) - 1))).
Proof.
  intros Hx Hk.
  assert (Forall (fun k => Forall (fun x =>
    byte_bits (Z.land (Z.of_nat x) (255 - (2 ^ (8 - Z.of_nat k) - 1))) =
      take k (byte_bits (Z.of_nat x)) ++ replicate (8 - k) false /\
    is_u8 (Z.land (Z.of_nat x) (255 - (2 ^ (8 - Z.of_nat k) - 1))))
    (seq 0 256)) (seq 0 9)) as H by (apply (bool_decide_unpack _); vm_compute; exact I).
  rewrite Forall_forall in H. specialize (H k ltac:(apply elem_of_seq; lia)).
  rewrite Forall_forall in H. unfold is_u8 in Hx.
  specialize (H (Z.to_nat x) ltac:(apply elem_of_seq; lia)). by rewrite Z2Nat.id in H by lia.
Qed.

Lemma mask_byte_eq x y n :
  is_u8 x -> is_u8 y ->
  Z.land x (mask_byte n 0) = Z.land y (mask_byte n 0) <->
  take (Z.to_nat n) (byte_bits x) = take (Z.to_nat n) (byte_bits y).
Proof.
  intros Hx Hy. unfold mask_byte. change (8 * Z.of_nat 0) with 0. rewrite Z.sub_0_r.
  set (k := Z.to_nat (Z.min 8 n)). replace (Z.max 0 (Z.min 8 n)) with (Z.of_nat k) by lia.
  assert (forall z, take (Z.to_nat n) (byte_bits z) = take k (byte_bits z)) as Htk.
  { intros z. destruct (decide (n <= 8)); [f_equal; lia|]. by rewrite !take_ge by (simpl; lia). }
  rewrite !Htk. destruct (mask_bits x k Hx ltac:(lia)) as [Bx Ox].
  destruct (mask_bits y k Hy ltac:(lia)) as [By Oy]. split; intros E.
  - rewrite E in Bx. rewrite By in Bx. by apply app_inv_tail in Bx.
  - apply byte_bits_inj; [done..|]. by rewrite Bx, By, E.
Qed.

Lemma mask_byte_S n i : mask_byte n (S i) = mask_byte (n - 8) i.
Proof. unfold mask_byte. do 5 f_equal. lia. Qed.

Lemma masks_cons n k :
  map (mask_byte n) (seq 0 (S k)) = mask_byte n 0 :: map (mask_byte (n - 8)) (seq 0 k).
Proof.
  simpl. f_equal. rewrite <- seq_shift, map_map. apply map_ext. intros i. apply mask_byte_S.
Qed.

Lemma take_app_eq {A} n (l1 l2 r1 r2 : list A) :
  length l1 = length l2 ->
  take n (l1 ++ r1) = take n (l2 ++ r2) <->
  take n l1 = take n l2 /\ take (n - length l1) r1 = take (n - length l2) r2.
Proof.
  intros Hl. rewrite !take_app. split.
  - intros E. apply app_inj_1 in E; [done|]. rewrite !length_take. lia.
  - intros [-> ->]. done.
Qed.

(** Masked addresses agree exactly when the first [n] bits do. *)
Lemma and_mask_eq n a b :
  bytes_ok a -> bytes_ok b -> length a = length b ->
  and_bytes a (map (mask_byte n) (seq 0 (length a))) = and_bytes b (map (mask_byte n) (seq 0 (length b))) <->
  take (Z.to_nat n) (ip_bits a) = take (Z.to_nat n) (ip_bits b).
Proof.
  intros Ha. revert n b. induction Ha as [|x a Hx Ha IH]; intros n [|y b] Hb Hl; try done.
  apply Forall_cons in Hb as [Hy Hb]. simpl in Hl. simpl length. rewrite !masks_cons.
  change (ip_bits (x :: a)) with (byte_bits x ++ ip_bits a).
  change (ip_bits (y :: b)) with (byte_bits y ++ ip_bits b). rewrite take_app_eq by done.
  change (length (byte_bits x)) with 8%nat. change (length (byte_bits y)) with 8%nat.
  replace (Z.to_nat n - 8)%nat with (Z.to_nat (n - 8)) by lia.
  rewrite <- (mask_byte_eq x y n) by done.
  rewrite <- (IH (n - 8) b) by (done || lia). unfold and_bytes. simpl. split.
  - by intros [= ? ?].
  - by intros [-> ->].
Qed.

Lemma and_bytes_idem a m : and_bytes (and_bytes a m) m = and_bytes a m.
Proof.
  revert m. induction a as [|x a IH]; intros [|y m]; try done. unfold and_bytes in *. simpl.
  by rewrite IH, <- Z.land_assoc, Z.land_diag.
Qed.

Lemma dtoi_dec n : 0 <= n <= 32 -> dtoi (dec n) = (n, length (dec n), true).
Proof.
  intros Hn. assert (Forall (fun i => dtoi (dec (Z.of_nat i)) = (Z.of_nat i, length (dec (Z.of_nat i)), true))
    (seq 0 33)) as H by (apply (bool_decide_unpack _); vm_compute; exact I).
  rewrite Forall_forall in H. specialize (H (Z.to_nat n) ltac:(apply elem_of_seq; lia)).
  by rewrite Z2Nat.id in H by lia.
Qed.

Lemma index_byte_app c s t : Forall (fun x => x <> c) s -> index_byte c (s ++ c :: t) = Some (length s).
Proof.
  induction 1 as [|x s Hx _ IH]; simpl; [by rewrite Z.eqb_refl|].
  by rewrite (proj2 (Z.eqb_neq _ _)), IH by done.
Qed.

(** The text of an IPv4 subnet. *)
Definition cidr_string (ip : list Z) (n : Z) : bytes := ipv4_string ip ++ slash :: dec n.

Lemma ParseCIDR_ipv4 ip n :
  ipv4_ok ip -> 0 <= n <= 32 ->
  ParseCIDR (cidr_string ip n) = Some (mkIPNet (and_bytes ip (CIDRMask n 32)) (CIDRMask n 32)).
Proof.
  intros Hok Hn. unfold ParseCIDR, cidr_string.
  rewrite index_byte_app by (apply ipv4_char_avoid; [done|apply ipv4_string_chars, Hok]).
  simpl mbind. rewrite take_app_length, drop_S_app, ParseAddr_ipv4 by done. simpl mbind.
  rewrite dtoi_dec by done. rewrite Nat.eqb_refl. simpl. rewrite Z.gtb_ltb.
  by rewrite !(proj2 (Z.ltb_ge _ _)) by lia.
Qed.

Lemma Contains_ipv4 net ip n :
  ipv4_ok net -> ipv4_ok ip ->
  Contains (mkIPNet (and_bytes net (CIDRMask n 32)) (CIDRMask n 32)) (v4InV6Prefix ++ ip) =
  bool_decide (take (Z.to_nat n) (ip_bits net) = take (Z.to_nat n) (ip_bits ip)).
Proof.
  intros [Hl1 Hb1] [Hl2 Hb2]. unfold Contains.
  assert (To4 (v4InV6Prefix ++ ip) = Some ip) as ->.
  { unfold To4. rewrite length_app, Hl2. simpl. done. }
  assert (length (and_bytes net (CIDRMask n 32)) = 4%nat) as Hl.
  { unfold and_bytes, CIDRMask. rewrite length_zip_with, length_map, length_seq, Hl1. done. }
  assert (length (CIDRMask n 32) = 4%nat) as Hlm by done.
  assert (To4 (and_bytes net (CIDRMask n 32)) = Some (and_bytes net (CIDRMask n 32))) as HT
    by (unfold To4; by rewrite Hl).
  unfold network_and_mask. cbn [net_IP net_Mask]. rewrite HT. cbn -[and_bytes CIDRMask length].
  rewrite Hl, Hlm. cbn -[and_bytes CIDRMask length].
  rewrite Hl, Hl2. simpl. rewrite and_bytes_idem. apply bool_decide_ext.
  rewrite <- and_mask_eq by (done || lia). by rewrite Hl1, Hl2.
Qed.
