(* ===== verification/Router.v ===== *)
(** * Routing (src/config/config.go)

    [LoadConfig] builds the exact-match table and the subnet list from the parsed
    YAML file; [Lookup] resolves a destination.  The YAML library is a parameter.
    The theorems state the priorities of [Lookup], what [LoadConfig] accepts, and
    that a destination printed from a socket address is routed by its first
    matching subnet. *)
From stdpp Require Import base gmap strings list pretty.
From S2P Require Import Prelude NetAddr.
Local Open Scope string_scope.
Local Open Scope list_scope.
Local Open Scope Z_scope.

Record RouteConfig := mkRoute { OriginalDst : string; ServerPEP : string }.

(** The top-level [Config] struct. *)
Record RoutesFile := mkRoutes { Routes : list RouteConfig }.

Record subnetRoute := mkSubnet { sn_ipNet : IPNet; sn_serverPEP : string }.

Record Router := mkRouter {
  exactMatches : gmap string string;
  subnets : list subnetRoute;
}.

Definition empty_router : Router := mkRouter ∅ [].

(** The body of the loop over the routes. *)
Definition add_route (router : Router) (r : RouteConfig) : result Router :=
  if contains_byte slash (bytes_of_string (OriginalDst r)) then
    match ParseCIDR (bytes_of_string (OriginalDst r)) with
    | None => Err ("invalid CIDR route " +:+ OriginalDst r +:+ ": invalid CIDR address: " +:+ OriginalDst r)
    | Some ipNet =>
        Ok (mkRouter (exactMatches router) (subnets router ++ [mkSubnet ipNet (ServerPEP r)]))
    end
  else Ok (mkRouter (<[OriginalDst r := ServerPEP r]> (exactMatches router)) (subnets router)).

Fixpoint add_routes (routes : list RouteConfig) (router : Router) : result Router :=
  match routes with
  | [] => Ok router
  | r :: routes =>
      match add_route router r with
      | Err e => Err e
      | Ok router => add_routes routes router
      end
  end.

(** [file] is what [os.ReadFile] returned, [unmarshal] is [yaml.Unmarshal]. *)
Definition LoadConfig (unmarshal : bytes -> result RoutesFile) (file : result bytes) : result Router :=
  match file with
  | Err e => Err e
  | Ok data =>
      match unmarshal data with
      | Err e => Err e
      | Ok cfg => add_routes (Routes cfg) empty_router
      end
  end.

(** The first subnet that contains the address. *)
Fixpoint match_subnet (l : list subnetRoute) (ip : list Z) : option string :=
  match l with
  | [] => None
  | sn :: l => if Contains (sn_ipNet sn) ip then Some (sn_serverPEP sn) else match_subnet l ip
  end.

Definition Lookup (r : Router) (destAddr : string) : result string :=
  match exactMatches r !! destAddr with
  | Some pep => Ok pep
  | None =>
      let split := SplitHostPort (bytes_of_string destAddr) in
      let by_host := match split with
                     | Ok (host, _) => exactMatches r !! string_of_bytes host
                     | Err _ => None
                     end in
      match by_host with
      | Some pep => Ok pep
      | None =>
          let host := match split with Ok (host, _) => host | Err _ => bytes_of_string destAddr end in
          let by_subnet := ip ← ParseIP host; match_subnet (subnets r) ip in
          match by_subnet with
          | Some pep => Ok pep
          | None => Err ("no route found for destination " +:+ destAddr)
          end
      end
  end.

(** ** Reference: the table as a function of the configuration file *)

Definition is_subnet (r : RouteConfig) : bool := contains_byte slash (bytes_of_string (OriginalDst r)).

(** The last exact route for a destination. *)
Definition last_exact (routes : list RouteConfig) (dst : string) : option string :=
  foldl (fun acc r => if negb (is_subnet r) && bool_decide (OriginalDst r = dst)
                      then Some (ServerPEP r) else acc) None routes.

Definition subnet_routes (routes : list RouteConfig) : list subnetRoute :=
  omap (fun r => if is_subnet r then
                   n ← ParseCIDR (bytes_of_string (OriginalDst r)); Some (mkSubnet n (ServerPEP r))
                 else None) routes.

Definition route_ok (r : RouteConfig) : bool :=
  negb (is_subnet r) || bool_decide (is_Some (ParseCIDR (bytes_of_string (OriginalDst r)))).

Lemma add_routes_app l1 l2 router :
  add_routes (l1 ++ l2) router =
  match add_routes l1 router with Ok r => add_routes l2 r | Err e => Err e end.
Proof.
  revert router. induction l1 as [|r l1 IH]; intros router; [done|]. simpl.
  by destruct (add_route router r).
Qed.

Lemma add_routes_ok routes :
  forallb route_ok routes = true ->
  exists r, add_routes routes empty_router = Ok r /\
    (forall dst, exactMatches r !! dst = last_exact routes dst) /\ subnets r = subnet_routes routes.
Proof.
  induction routes as [|rt routes IH] using rev_ind; intros H; [by exists empty_router|].
  rewrite forallb_app in H. simpl in H. apply andb_true_iff in H as [H1 H2].
  rewrite andb_true_r in H2. destruct (IH H1) as (r & Hr & Hex & Hsub).
  rewrite add_routes_app, Hr. simpl. unfold add_route, route_ok, is_subnet in *.
  unfold last_exact, subnet_routes, is_subnet in *. setoid_rewrite foldl_app. rewrite omap_app. csimpl.
  destruct (contains_byte slash (bytes_of_string (OriginalDst rt))) eqn:E; simpl in *.
  - rewrite bool_decide_eq_true in H2. destruct H2 as [n Hn]. rewrite Hn. simpl.
    eexists. split; [done|]. simpl. by rewrite Hsub.
  - eexists. split; [done|]. simpl. split; [|by rewrite app_nil_r].
    intros dst. case_bool_decide as Ed; [subst dst; apply lookup_insert_eq|].
    by rewrite lookup_insert_ne by done.
Qed.

Lemma add_routes_bad routes router :
  forallb route_ok routes = false -> is_Ok (add_routes routes router) = false.
Proof.
  revert router. induction routes as [|rt routes IH]; intros router H; [done|]. simpl in *.
  unfold add_route. apply andb_false_iff in H. unfold route_ok, is_subnet in H.
  destruct (contains_byte slash (bytes_of_string (OriginalDst rt))) eqn:E; simpl in *.
  - destruct (ParseCIDR _) as [n|] eqn:En; [|done]. apply IH. destruct H as [H|H]; [|done].
    by rewrite bool_decide_eq_true_2 in H by (by eexists).
  - apply IH. by destruct H as [H|H].
Qed.

(** ** Theorems *)

(** C40: [LoadConfig] accepts a file exactly when it can be read, parses as YAML
    and every route with a ["/"] is a valid CIDR; the table then maps each
    destination without ["/"] to its last route, and keeps the subnets in file
    order. *)
Theorem LoadConfig_spec unmarshal file :
  match LoadConfig unmarshal file with
  | Ok r => exists data cfg, file = Ok data /\ unmarshal data = Ok cfg /\
      forallb route_ok (Routes cfg) = true /\
      (forall dst, exactMatches r !! dst = last_exact (Routes cfg) dst) /\
      subnets r = subnet_routes (Routes cfg)
  | Err _ => forall data cfg, file = Ok data -> unmarshal data = Ok cfg ->
      forallb route_ok (Routes cfg) = false
  end.
Proof.
  unfold LoadConfig. destruct file as [data|e]; [|done].
  destruct (unmarshal data) as [cfg|e] eqn:Eu; [|intros ? ? [= <-]; congruence].
  destruct (forallb route_ok (Routes cfg)) eqn:E.
  - destruct (add_routes_ok (Routes cfg) E) as (r & -> & Hex & Hsub). by exists data, cfg.
  - pose proof (add_routes_bad (Routes cfg) empty_router E) as Hb.
    destruct (add_routes _ _); [done|]. intros ? ? [= <-]. congruence.
Qed.

(** Subnet routes as the administrator writes them: address, prefix length, PEP. *)
Definition subnet_text (x : list Z * Z * string) : RouteConfig :=
  let '(net, n, pep) := x in mkRoute (string_of_bytes (cidr_string net n)) pep.
Definition subnet_wf (x : list Z * Z * string) : Prop :=
  let '(net, n, _) := x in ipv4_ok net /\ 0 <= n <= 32.

(** Reference routing: the first subnet whose prefix the address shares. *)
Fixpoint ipv4_route (l : list (list Z * Z * string)) (ip : list Z) : option string :=
  match l with
  | [] => None
  | (net, n, pep) :: l =>
      if decide (take (Z.to_nat n) (ip_bits net) = take (Z.to_nat n) (ip_bits ip))
      then Some pep else ipv4_route l ip
  end.

Lemma ipv4_char_byte c : ipv4_char c = true -> is_u8 c.
Proof.
  unfold ipv4_char, is_digit, is_u8. intros H. apply orb_true_iff in H as [H|H]; go_bool; [lia|].
  subst. unfold dot. lia.
Qed.

Lemma ipv4_string_ok ip : bytes_ok ip -> bytes_ok (ipv4_string ip).
Proof. intros H. eapply Forall_impl; [by apply ipv4_string_chars|]. apply ipv4_char_byte. Qed.

Lemma dec_ok n : bytes_ok (dec n).
Proof. apply bytes_of_string_ok. Qed.

Lemma cidr_string_ok ip n : ipv4_ok ip -> bytes_ok (cidr_string ip n).
Proof.
  intros [_ Hb]. apply Forall_app. split; [by apply ipv4_string_ok|].
  constructor; [unfold slash, is_u8; lia|apply dec_ok].
Qed.

Lemma host_port_ok ip port : ipv4_ok ip -> bytes_ok (host_port (ipv4_string ip) port).
Proof.
  intros [_ Hb]. apply Forall_app. split; [by apply ipv4_string_ok|].
  constructor; [unfold colon, is_u8; lia|apply dec_ok].
Qed.

Lemma subnet_routes_match l ip :
  Forall subnet_wf l -> ipv4_ok ip ->
  match_subnet (subnet_routes (map subnet_text l)) (v4InV6Prefix ++ ip) = ipv4_route l ip.
Proof.
  intros Hl Hip. pose proof (fun net n Hnet => Contains_ipv4 net ip n Hnet Hip) as HC.
  revert HC. generalize (v4InV6Prefix ++ ip) as ip6. intros ip6 HC.
  induction Hl as [|[[net n] pep] l [Hnet Hn] _ IH]; [done|].
  unfold subnet_routes in *. csimpl. unfold is_subnet. cbn [OriginalDst ServerPEP].
  rewrite bytes_of_string_of_bytes by (by apply cidr_string_ok).
  rewrite ParseCIDR_ipv4 by done. unfold contains_byte.
  unfold cidr_string at 1. rewrite index_byte_app
    by (apply ipv4_char_avoid; [done|apply ipv4_string_chars, Hnet]).
  cbn -[Contains CIDRMask and_bytes omap ip_bits]. rewrite HC by done. case_decide; [by rewrite bool_decide_eq_true_2|].
  by rewrite bool_decide_eq_false_2.
Qed.

(** C39: Routing of an intercepted connection.  For a destination printed as
    ["a.b.c.d:port"], [Lookup] returns, in this order of priority, the exact route
    of ["a.b.c.d:port"], the exact route of ["a.b.c.d"], the first subnet of the
    configuration whose prefix bits the address shares, and an error if there is
    none. *)
Theorem Lookup_priority r l ip port :
  Forall subnet_wf l -> subnets r = subnet_routes (map subnet_text l) ->
  ipv4_ok ip -> 0 <= port ->
  let host := string_of_bytes (ipv4_string ip) in
  let dest := string_of_bytes (host_port (ipv4_string ip) port) in
  Lookup r dest =
    match exactMatches r !! dest with
    | Some pep => Ok pep
    | None =>
        match exactMatches r !! host with
        | Some pep => Ok pep
        | None =>
            match ipv4_route l ip with
            | Some pep => Ok pep
            | None => Err ("no route found for destination " +:+ dest)
            end
        end
    end.
Proof.
  intros Hl Hs Hip Hp host dest. unfold Lookup. destruct (exactMatches r !! dest); [done|].
  unfold dest at 1 2. rewrite bytes_of_string_of_bytes by (by apply host_port_ok).
  rewrite SplitHostPort_ipv4 by done. fold host. destruct (exactMatches r !! host); [done|].
  rewrite ParseIP_ipv4 by done.
  rewrite Hs. by rewrite <- (subnet_routes_match l ip Hl Hip).
Qed.

Lemma Lookup_priority_witness :
  Lookup (mkRouter {["10.0.0.1" := "exact:1"]}
            (subnet_routes (map subnet_text [([10; 0; 0; 0], 8, "wide:1"); ([10; 1; 0; 0], 16, "narrow:1")])))
         "10.1.2.3:80" = Ok "wide:1".
Proof.
  refine (Lookup_priority _ [([10; 0; 0; 0], 8, "wide:1"); ([10; 1; 0; 0], 16, "narrow:1")]
    [10; 1; 2; 3] 80 _ _ _ _).
  - repeat constructor; unfold is_u8; lia.
  - reflexivity.
  - split; [reflexivity|]. repeat constructor; unfold is_u8; lia.
  - lia.
Defined.
