(* ===== verification/OrigDst.v ===== *)
(** * The original destination: src/proxy/proxy_linux.go, proxy_darwin.go and
    fallback.go

    [GetOriginalDST] asks the kernel for the destination of an intercepted connection
    and prints it; the routing table parses the text again.  What the system calls
    return is an input.  IPv4 and IPv6 addresses are printed as Go's [net.IP.String]
    does, and the theorem says that for every address and port the kernel can report
    the routing table decides on exactly that address. *)
From stdpp Require Import base gmap list strings pretty.
From Stdlib Require Import Ascii.
From S2P Require Import Prelude NetAddr Router.
Local Open Scope string_scope.
Local Open Scope list_scope.
Local Open Scope Z_scope.

(** ** [net.IP.String] and [net.JoinHostPort] *)

Definition hex_digit (d : Z) : Z := if d <? 10 then 48 + d else 87 + d.

(** [appendHex]: a group without leading zeros. *)
Definition hex (x : Z) : bytes :=
  (if x >=? 4096 then [hex_digit (x / 4096)] else []) ++
  (if x >=? 256 then [hex_digit (x / 256 mod 16)] else []) ++
  (if x >=? 16 then [hex_digit (x / 16 mod 16)] else []) ++
  [hex_digit (x mod 16)].

(** The eight groups of 16 bytes. *)
Fixpoint groups (ip : list Z) : list Z :=
  match ip with a :: b :: ip' => a * 256 + b :: groups ip' | _ => [] end.

(** The number of zero groups at the front. *)
Fixpoint leading_zeros (gs : list Z) : nat :=
  match gs with g :: gs' => if g =? 0 then S (leading_zeros gs') else O | [] => O end.

(** [zeroStart] and [zeroEnd]: the first longest run of at least two zero groups;
    both are 255 if there is none. *)
Definition zero_run (gs : list Z) : nat * nat :=
  foldl (fun '(zs, ze) i =>
    let j := (i + leading_zeros (drop i gs))%nat in
    let l := (j - i)%nat in
    if (2 <=? l)%nat && (ze - zs <? l)%nat then (i, j) else (zs, ze))
    (255%nat, 255%nat) (seq 0 8).

(** The loop of [appendTo6]; eight rounds are enough. *)
Fixpoint append6 (fuel : nat) (gs : list Z) (zs ze i : nat) : bytes :=
  match fuel with
  | O => []
  | S fuel =>
      if (i <? 8)%nat then
        if (i =? zs)%nat then
          [colon; colon] ++
          (if (8 <=? ze)%nat then [] else hex (nth ze gs 0) ++ append6 fuel gs zs ze (S ze))
        else (if (0 <? i)%nat then [colon] else []) ++ hex (nth i gs 0) ++ append6 fuel gs zs ze (S i)
      else []
  end.
Definition ipv6_string (ip : list Z) : bytes :=
  let gs := groups ip in let '(zs, ze) := zero_run gs in append6 8 gs zs ze 0.

(** [ip.String()] for 4 or 16 bytes. *)
Definition IP_String (ip : list Z) : bytes :=
  match To4 ip with Some ip4 => ipv4_string ip4 | None => ipv6_string ip end.

Definition JoinHostPort (host : bytes) (port : Z) : bytes :=
  if contains_byte colon host || contains_byte percent host
  then [lbracket] ++ host ++ [rbracket; colon] ++ dec port
  else host ++ [colon] ++ dec port.

(** ** The fallback destination *)

(** The package variable [fallbackDst] under its lock. *)
Definition SetFallbackDst (addr : string) (fallbackDst : string) : string := addr.
Definition getFallbackDst (fallbackDst : string) : string := fallbackDst.

(** ** [GetOriginalDST] *)

(** What [getsockopt] wrote: the two bytes of the port, in network order, and the
    address. *)
Record Sockaddr := mkSockaddr { sa_port : Z * Z; sa_addr : list Z }.

(** What the calls on the connection return: [SyscallConn], [Control], and the two
    [getsockopt] calls with their error. *)
Record SockCalls := mkSockCalls {
  sc_SyscallConn : result unit;
  sc_Control : result unit;
  sc_opt4 : result Sockaddr;
  sc_opt6 : result Sockaddr;
}.

(** The function passed to [Control]: the address or the error of the second call. *)
Definition query (k : SockCalls) : result bytes :=
  match sc_opt4 k with
  | Ok val => Ok (host_port (IP_String (sa_addr val)) (Uint16 (sa_port val).1 (sa_port val).2))
  | Err _ =>
      match sc_opt6 k with
      | Ok val6 => Ok (JoinHostPort (IP_String (sa_addr val6)) (Uint16 (sa_port val6).1 (sa_port val6).2))
      | Err errno => Err errno
      end
  end.

(** On Linux.  [fb1] and [fb2] are the fallback destination at its two reads. *)
Definition GetOriginalDST (fb1 fb2 : string) (k : SockCalls) : result string :=
  if negb (bool_decide (getFallbackDst fb1 = "")) then Ok (getFallbackDst fb1)
  else
    match sc_SyscallConn k with
    | Err e => Err e
    | Ok _ =>
        match sc_Control k with
        | Err e => Err e
        | Ok _ =>
            match query k with
            | Ok originalAddr => Ok (string_of_bytes originalAddr)
            | Err errno =>
                if negb (bool_decide (getFallbackDst fb2 = "")) then Ok (getFallbackDst fb2)
                else Err ("getsockopt SO_ORIGINAL_DST failed: " +:+ errno)
            end
        end
    end.

(** Elsewhere (proxy_darwin.go). *)
Definition GetOriginalDST_other (fb : string) : result string :=
  let dst := getFallbackDst fb in
  if bool_decide (dst = "") then Ok "127.0.0.1:8080" else Ok dst.

(** ** Printing and parsing IPv6 *)

Definition group_ok (g : Z) : Prop := 0 <= g < 65536.
Definition gbytes (gs : list Z) : list Z := flat_map (fun g => [g / 256; g mod 256]) gs.

Fixpoint join (gs : list Z) : bytes :=
  match gs with
  | [] => []
  | [g] => hex g
  | g :: gs' => hex g ++ colon :: join gs'
  end.

Lemma length_gbytes gs : length (gbytes gs) = (2 * length gs)%nat.
Proof. induction gs as [|g gs IH]; [done|]. simpl. rewrite IH. lia. Qed.

Lemma gbytes_groups ip : bytes_ok ip -> Nat.even (length ip) = true -> gbytes (groups ip) = ip.
Proof.
  revert ip. fix IH 1. intros [|a [|b ip]] Hok Hev; [done|done|]. simpl in *.
  apply Forall_cons in Hok as [Ha Hok], Hok as [Hb Hok]. fold (bytes_ok ip) in Hok.
  assert (gbytes (groups ip) = ip) as -> by (by apply IH).
  f_equal; [|f_equal]; unfold is_u8 in *; Z.to_euclidean_division_equations; lia.
Qed.

Lemma groups_ok ip : bytes_ok ip -> Forall group_ok (groups ip).
Proof.
  revert ip. fix IH 1. intros [|a [|b ip]] Hok; [constructor|constructor|].
  apply Forall_cons in Hok as [Ha Hok], Hok as [Hb Hok]. constructor; [|by apply IH].
  unfold group_ok, is_u8 in *. lia.
Qed.

Lemma hex_val_digit d : 0 <= d < 16 -> hex_val (hex_digit d) = Some d.
Proof.
  intros H. unfold hex_digit, hex_val, is_digit. destruct (Z.ltb_spec d 10); go_tests; simpl; f_equal; lia.
Qed.

Definition not_hex (s : bytes) : Prop := match s with [] => True | c :: _ => hex_val c = None end.

Lemma hex_group_stop s acc off : not_hex s -> hex_group s acc off = Some (acc, off, s).
Proof. destruct s; [done|]. simpl. by intros ->. Qed.

Lemma hex_group_digit d s acc off : 0 <= d < 16 -> (off <= 3)%nat ->
  hex_group (hex_digit d :: s) acc off = hex_group s (acc * 16 + d) (S off).
Proof. intros Hd Ho. simpl. rewrite hex_val_digit by done. destruct (Nat.ltb_spec 3 off); [lia|done]. Qed.

Lemma hex_group_hex x rest : group_ok x -> not_hex rest ->
  hex_group (hex x ++ rest) 0 0 = Some (x, length (hex x), rest).
Proof.
  intros Hx Hr. unfold hex, group_ok in *.
  destruct (Z.geb_spec x 4096); [|destruct (Z.geb_spec x 256); [|destruct (Z.geb_spec x 16)]];
    repeat match goal with |- context [?a >=? ?b] => rewrite (Z.geb_leb a b) end; go_tests;
    cbn [app length]; rewrite !hex_group_digit by (lia || Z.to_euclidean_division_equations; lia);
    rewrite hex_group_stop by done; f_equal; f_equal; f_equal; Z.to_euclidean_division_equations; lia.
Qed.

Lemma hex_chars x : group_ok x -> Forall (fun c => hex_val c <> None) (hex x) /\ hex x <> [].
Proof.
  intros Hx. unfold hex, group_ok in *.
  assert (forall d, 0 <= d < 16 -> hex_val (hex_digit d) <> None) as Hd by (intros d H; by rewrite hex_val_digit).
  split; [|by repeat case_match].
  repeat (apply Forall_app; split); repeat case_match; repeat constructor; apply Hd;
    try (Z.to_euclidean_division_equations; lia); go_bool; Z.to_euclidean_division_equations; lia.
Qed.

(** The texts: groups and colons. *)
Definition v6_char (c : Z) : Prop := hex_val c <> None \/ c = colon.

Lemma join_cons g gs : gs <> [] -> join (g :: gs) = hex g ++ colon :: join gs.
Proof. by destruct gs. Qed.

Lemma join_chars gs : Forall group_ok gs -> Forall v6_char (join gs).
Proof.
  induction 1 as [|g gs Hg _ IH]; [constructor|].
  assert (Forall v6_char (hex g)) by (eapply Forall_impl; [apply (hex_chars g Hg)|by left]).
  destruct gs as [|g' gs]; [done|]. rewrite join_cons by done.
  apply Forall_app. split; [done|]. constructor; [by right|done].
Qed.

Lemma v6_avoid c s : hex_val c = None -> c <> colon -> Forall v6_char s -> Forall (fun x => x <> c) s.
Proof. intros H1 H2 Hs. eapply Forall_impl; [done|]. intros x Hx ->. by destruct Hx. Qed.

(** A nonempty list of groups starts with a hexadecimal digit. *)
Lemma join_head g gs : group_ok g -> exists c s, join (g :: gs) = c :: s /\ hex_val c <> None.
Proof.
  intros Hg. destruct (hex_chars g Hg) as [Hc Hne]. destruct (hex g) as [|c s] eqn:E; [done|].
  apply Forall_inv in Hc. destruct gs as [|g' gs]; [simpl; rewrite E|rewrite join_cons, E by done]; simpl; eauto.
Qed.

Lemma hex_not_colon c : hex_val c <> None -> (c =? colon) = false.
Proof. intros H. apply Z.eqb_neq. by intros ->. Qed.

(** One round of the parser. *)
Lemma loop_round fuel g rest ip ell : group_ok g -> not_hex rest -> head rest <> Some dot -> (length ip < 16)%nat ->
  ipv6_loop (S fuel) (hex g ++ rest) ip ell =
    let ip := ip ++ [g / 256; g mod 256] in
    match rest with
    | [] => Some (ip, ell, [])
    | c :: rest' =>
        if negb (c =? colon) then None
        else
          match rest' with
          | [] => None
          | c' :: rest'' =>
              if c' =? colon then
                if bool_decide (ell = None) then
                  match rest'' with
                  | [] => Some (ip, Some (length ip), [])
                  | _ => ipv6_loop fuel rest'' ip (Some (length ip))
                  end
                else None
              else ipv6_loop fuel rest' ip ell
          end
    end.
Proof.
  intros Hg Hr Hd Hl. cbn [ipv6_loop]. destruct (Nat.leb_spec 16 (length ip)); [lia|].
  rewrite hex_group_hex by done. cbn [mbind option_bind].
  destruct (Nat.eqb_spec (length (hex g)) 0) as [E|_]; [by apply nil_length_inv in E; apply hex_chars in Hg as [_ ?]|].
  by rewrite bool_decide_eq_false_2.
Qed.

Lemma loop_join gs : forall fuel ip ell, gs <> [] -> Forall group_ok gs ->
  (length ip + 2 * length gs <= 16)%nat -> (length gs <= fuel)%nat ->
  ipv6_loop fuel (join gs) ip ell = Some (ip ++ gbytes gs, ell, []).
Proof.
  induction gs as [|g gs IH]; intros [|fuel] ip ell Hne Hok Hl Hf; try done; simpl in Hl, Hf; [lia|].
  apply Forall_cons in Hok as [Hg Hok]. destruct gs as [|g' gs].
  - simpl join. rewrite <- (app_nil_r (hex g)), loop_round by (done || lia). done.
  - rewrite join_cons, loop_round by (done || lia).
    destruct (join_head g' gs) as (c & s & E & Hc); [by apply Forall_inv in Hok|]. rewrite E. cbv zeta. cbn [negb Z.eqb colon Pos.eqb].
    rewrite hex_not_colon, <- E by done. rewrite IH by (done || rewrite ?length_app; simpl in *; lia).
    by rewrite <- app_assoc.
Qed.

Lemma loop_ellipsis gs hs : forall fuel ip, gs <> [] -> Forall group_ok gs -> Forall group_ok hs ->
  (length ip + 2 * (length gs + length hs) <= 14)%nat -> (length gs + length hs <= fuel)%nat ->
  ipv6_loop fuel (join gs ++ colon :: colon :: join hs) ip None =
    Some (ip ++ gbytes gs ++ gbytes hs, Some (length ip + 2 * length gs)%nat, []).
Proof.
  induction gs as [|g gs IH]; intros [|fuel] ip Hne Hok Hh Hl Hf; try done; simpl in Hl, Hf; [lia|].
  apply Forall_cons in Hok as [Hg Hok]. destruct gs as [|g' gs].
  - simpl join. rewrite loop_round by (done || lia). cbv zeta. cbn [negb Z.eqb colon Pos.eqb].
    rewrite bool_decide_eq_true_2, length_app by done. destruct hs as [|h hs].
    { simpl. by rewrite ?app_nil_r. }
    destruct (join_head h hs) as (c & s & E & _); [by apply Forall_inv in Hh|]. rewrite E, <- E.
    rewrite loop_join by (done || rewrite ?length_app; simpl in *; lia). by rewrite <- app_assoc.
  - rewrite join_cons, <- app_assoc by done. cbn [app]. rewrite loop_round by (done || lia).
    destruct (join_head g' gs) as (c & s & E & Hc); [by apply Forall_inv in Hok|]. rewrite E. cbv zeta.
    cbn [app negb Z.eqb colon Pos.eqb]. rewrite hex_not_colon by done. change (c :: s ++ ?x) with ((c :: s) ++ x).
    rewrite <- E, IH by (done || rewrite ?length_app; simpl in *; lia).
    rewrite <- app_assoc, length_app. cbn [length]. do 3 f_equal. f_equal. lia.
Qed.

Lemma parseIPv6_full gs : Forall group_ok gs -> length gs = 8%nat -> parseIPv6 (join gs) = Some (gbytes gs, []).
Proof.
  intros Hok Hl. unfold parseIPv6.
  rewrite (proj2 (index_byte_None _ _)) by (apply v6_avoid; [done..|by apply join_chars]). cbn [mbind option_bind].
  destruct gs as [|g gs]; [done|]. destruct (join_head g gs) as (c & s & E & Hc); [by apply Forall_inv in Hok|].
  rewrite E. destruct s as [|c' s']; [|rewrite (hex_not_colon c) by done; cbn [andb]]; rewrite <- E;
    (rewrite bool_decide_eq_false_2 by (by rewrite E)); cbn [andb];
    rewrite loop_join by (done || simpl in *; lia); cbn [mbind option_bind app];
    rewrite bool_decide_eq_true_2 by done; cbn [negb]; rewrite length_gbytes, Hl; done.
Qed.

Lemma parseIPv6_ellipsis gs n hs : Forall group_ok gs -> Forall group_ok hs ->
  (length gs + n + length hs = 8)%nat -> (0 < n)%nat ->
  parseIPv6 (join gs ++ colon :: colon :: join hs) = Some (gbytes gs ++ replicate (2 * n) 0 ++ gbytes hs, []).
Proof.
  intros Hok Hh Hl Hn. unfold parseIPv6.
  rewrite (proj2 (index_byte_None _ _)).
  2: { apply v6_avoid; [done..|]. apply Forall_app. split; [by apply join_chars|].
       repeat (constructor; [by right|]). by apply join_chars. }
  cbn [mbind option_bind]. destruct gs as [|g gs].
  - cbn [join app andb Z.eqb colon Pos.eqb]. destruct hs as [|h hs].
    { simpl in Hl. replace n with 8%nat by lia. done. }
    destruct (join_head h hs) as (c & s & E & Hc); [by apply Forall_inv in Hh|].
    rewrite bool_decide_eq_false_2 by (by rewrite E). cbn [andb].
    rewrite loop_join by (done || simpl in *; lia). cbn [mbind option_bind app].
    rewrite bool_decide_eq_true_2 by done. cbn [negb]. rewrite length_gbytes.
    destruct (Nat.ltb_spec (2 * length (h :: hs)) 16); [|simpl in *; lia].
    rewrite take_0, drop_0. cbn [app gbytes flat_map]. repeat f_equal. simpl in *; lia.
  - destruct (join_head g gs) as (c & s & E & Hc); [by apply Forall_inv in Hok|].
    rewrite E. cbn [app]. destruct (s ++ colon :: colon :: join hs) as [|c' s'] eqn:Es; [by destruct s|].
    rewrite (hex_not_colon c) by done. cbn [andb]. rewrite <- Es. change (c :: s ++ ?x) with ((c :: s) ++ x).
    rewrite <- E. rewrite bool_decide_eq_false_2 by (by rewrite E). cbn [andb].
    rewrite loop_ellipsis by (done || simpl in *; lia). cbn [mbind option_bind app].
    rewrite bool_decide_eq_true_2 by done. cbn [negb]. rewrite length_app, !length_gbytes.
    destruct (Nat.ltb_spec (2 * length (g :: gs) + 2 * length hs) 16); [|simpl in *; lia].
    cbn [length]. rewrite Nat.add_0_l.
    rewrite take_app_length', drop_app_length' by (by rewrite length_gbytes). repeat f_equal. simpl in *; lia.
Qed.

(** ** The run of zeros and the loop of [appendTo6] *)

Lemma leading_zeros_spec gs : take (leading_zeros gs) gs = replicate (leading_zeros gs) 0 /\
  (leading_zeros gs <= length gs)%nat.
Proof.
  induction gs as [|g gs [IH1 IH2]]; [done|]. simpl. destruct (Z.eqb_spec g 0) as [->|]; [|simpl; split; [done|lia]].
  simpl. rewrite IH1. split; [done|lia].
Qed.

Definition run_ok (gs : list Z) (r : nat * nat) : Prop :=
  r = (255%nat, 255%nat) \/
  (r.1 + 2 <= r.2 <= 8)%nat /\ take (r.2 - r.1) (drop r.1 gs) = replicate (r.2 - r.1) 0.

Lemma foldl_inv {A B} (P : A -> Prop) (f : A -> B -> A) l a :
  P a -> (forall a b, b ∈ l -> P a -> P (f a b)) -> P (foldl f a l).
Proof.
  revert a. induction l as [|b l IH]; intros a Ha Hf; [done|]. simpl. apply IH; [apply Hf; [by left|done]|].
  intros a' b' Hb. apply Hf. by right.
Qed.

Lemma zero_run_ok gs : length gs = 8%nat -> run_ok gs (zero_run gs).
Proof.
  intros Hl. apply (foldl_inv (run_ok gs)); [by left|]. intros [zs ze] i Hi Hr.
  cbv beta iota zeta. destruct (_ && _) eqn:E; [|done]. apply andb_true_iff in E as [E _]. apply Nat.leb_le in E.
  destruct (leading_zeros_spec (drop i gs)) as [H1 H2]. rewrite length_drop in H2.
  apply elem_of_seq in Hi. right. cbn [fst snd] in *.
  replace (i + leading_zeros (drop i gs) - i)%nat with (leading_zeros (drop i gs)) in * by lia.
  split; [lia|done].
Qed.

#[local] Arguments hex : simpl never.

Ltac list8 gs := let H := fresh in
  destruct gs as [|? [|? [|? [|? [|? [|? [|? [|? [|? ?]]]]]]]]]; intros H; try discriminate H; clear H.

Lemma append6_full gs : length gs = 8%nat -> append6 8 gs 255 255 0 = join gs.
Proof. list8 gs. simpl. by rewrite app_nil_r. Qed.

Lemma append6_run gs zs ze : length gs = 8%nat -> (zs + 2 <= ze <= 8)%nat ->
  append6 8 gs zs ze 0 = join (take zs gs) ++ colon :: colon :: join (drop ze gs).
Proof.
  list8 gs. intros Hr.
  assert (exists a b, zs = a /\ ze = b /\ In (a, b) (flat_map (fun a => map (fun k => (a, a + 2 + k)%nat) (seq 0 (7 - a))) (seq 0 7)))
    as (a & b & -> & -> & Hin).
  { exists zs, ze. split; [done|]. split; [done|]. apply in_flat_map. exists zs. split; [apply in_seq; lia|].
    apply in_map_iff. exists (ze - zs - 2)%nat. split; [f_equal; lia|]. apply in_seq. lia. }
  simpl in Hin. repeat destruct Hin as [[= <- <-]|Hin]; try done;
    simpl; repeat (rewrite <- app_assoc; simpl); rewrite ?app_nil_r; reflexivity.
Qed.

Lemma contains_byte_app c s t : contains_byte c (s ++ c :: t) = true.
Proof.
  unfold contains_byte. destruct (index_byte c (s ++ c :: t)) eqn:E; [done|].
  apply index_byte_None, Forall_app in E as [_ E]. by apply Forall_inv in E.
Qed.

Lemma gbytes_app gs hs : gbytes (gs ++ hs) = gbytes gs ++ gbytes hs.
Proof. apply flat_map_app. Qed.

Lemma gbytes_zeros n : gbytes (replicate n 0) = replicate (2 * n) 0.
Proof. induction n as [|n IH]; [done|]. replace (2 * S n)%nat with (S (S (2 * n))) by lia. cbn [replicate]. rewrite <- IH. done. Qed.

(** The text around a run of zeros. *)
Lemma split_run gs zs ze : (zs <= ze <= length gs)%nat ->
  take (ze - zs) (drop zs gs) = replicate (ze - zs) 0 ->
  gbytes (take zs gs) ++ replicate (2 * (ze - zs)) 0 ++ gbytes (drop ze gs) = gbytes gs.
Proof.
  intros Hl Hz. rewrite <- gbytes_zeros, <- Hz, <- !gbytes_app. f_equal.
  rewrite <- (take_drop zs gs) at 4. f_equal. rewrite <- (take_drop (ze - zs) (drop zs gs)) at 2.
  f_equal. rewrite drop_drop. f_equal. lia.
Qed.

(** Any IPv6 address is read back from its text. *)
Lemma ipv6_string_parse ip : length ip = 16%nat -> bytes_ok ip ->
  parseIPv6 (ipv6_string ip) = Some (ip, []) /\ Forall v6_char (ipv6_string ip) /\
  contains_byte colon (ipv6_string ip) = true.
Proof.
  intros Hl Hok. pose proof (groups_ok ip Hok) as Hg.
  assert (gbytes (groups ip) = ip) as Hb by (apply gbytes_groups; [done|by rewrite Hl]).
  assert (length (groups ip) = 8%nat) as H8 by (pose proof (length_gbytes (groups ip)) as E; rewrite Hb in E; lia).
  unfold ipv6_string. destruct (zero_run (groups ip)) as [zs ze] eqn:Ez.
  pose proof (zero_run_ok _ H8) as Hr. rewrite Ez in Hr. destruct Hr as [[= -> ->]|[Hr Hz]].
  - rewrite append6_full by done. rewrite parseIPv6_full by done. rewrite Hb. split; [done|].
    split; [by apply join_chars|]. destruct (groups ip) as [|g [|g' gs]]; try discriminate H8.
    rewrite join_cons by done. apply contains_byte_app.
  - cbn [fst snd] in Hr, Hz. rewrite append6_run by done.
    assert (Forall group_ok (take zs (groups ip)) /\ Forall group_ok (drop ze (groups ip))) as [H1 H2]
      by (split; [by apply Forall_take|by apply Forall_drop]).
    rewrite (parseIPv6_ellipsis _ (ze - zs)) by (rewrite ?length_take, ?length_drop; done || lia).
    rewrite split_run, Hb by (done || lia). split; [done|]. split; [|apply contains_byte_app].
    apply Forall_app. split; [by apply join_chars|]. repeat (constructor; [by right|]). by apply join_chars.
Qed.

Lemma addr_kind_v6 s : Forall v6_char s -> contains_byte colon s = true -> addr_kind s = Some false.
Proof.
  intros Hs Hc. unfold contains_byte in Hc. induction Hs as [|c s Hv _ IH]; [done|]. cbn [addr_kind index_byte] in *.
  destruct Hv as [Hv| ->]; [|done]. rewrite hex_not_colon in * by done.
  assert (c <> dot /\ c <> percent) as [H1 H2] by (split; by intros ->).
  rewrite (proj2 (Z.eqb_neq c dot)), (proj2 (Z.eqb_neq c percent)) by done. apply IH.
  by destruct (index_byte colon s).
Qed.

(** The 16 bytes [net.ParseIP] has for an address. *)
Definition norm16 (ip : list Z) : list Z := if (length ip =? 4)%nat then v4InV6Prefix ++ ip else ip.
Definition ip_ok (ip : list Z) : Prop := (length ip = 4%nat \/ length ip = 16%nat) /\ bytes_ok ip.

(** The two shapes of a printed address. *)
Lemma IP_String_cases ip : ip_ok ip ->
  (exists ip4, ipv4_ok ip4 /\ IP_String ip = ipv4_string ip4 /\ norm16 ip = v4InV6Prefix ++ ip4) \/
  (length ip = 16%nat /\ IP_String ip = ipv6_string ip /\ norm16 ip = ip).
Proof.
  intros [Hl Hok]. unfold IP_String, To4, norm16. destruct (Nat.eqb_spec (length ip) 4) as [H4|H4].
  - left. by exists ip.
  - destruct Hl as [Hl|Hl]; [done|]. rewrite Hl. cbn [Nat.eqb andb]. case_bool_decide as Hp; [|by right].
    left. exists (drop 12 ip). split; [split; [rewrite length_drop; lia|by apply Forall_drop]|].
    split; [done|]. rewrite <- Hp. by rewrite take_drop.
Qed.

Lemma ParseIP_IP_String ip : ip_ok ip -> ParseIP (IP_String ip) = Some (norm16 ip).
Proof.
  intros Hip. destruct (IP_String_cases ip Hip) as [(ip4 & H4 & -> & ->)|(Hl & -> & ->)]; [by apply ParseIP_ipv4|].
  destruct (ipv6_string_parse ip Hl) as (Hp & Hc & Hcol); [apply Hip|].
  unfold ParseIP, ParseAddr. by rewrite addr_kind_v6, Hp by done.
Qed.

Lemma SplitHostPort_bracket host port : Forall v6_char host -> 0 <= port ->
  SplitHostPort ([lbracket] ++ host ++ [rbracket; colon] ++ dec port) = Ok (host, dec port).
Proof.
  intros Hh Hp. unfold SplitHostPort.
  assert (Forall (fun x => x <> colon) (dec port)) as Hd by (eapply digits_avoid; [done|by apply dec_digits]).
  replace ([lbracket] ++ host ++ [rbracket; colon] ++ dec port)
    with ((lbracket :: host ++ [rbracket]) ++ colon :: dec port) by (simpl; by rewrite <- app_assoc).
  rewrite last_index_byte_app by done. rewrite drop_S_app. cbn [app head].
  rewrite bool_decide_eq_true_2 by done. rewrite <- app_assoc. cbn [app].
  change (lbracket :: host ++ rbracket :: colon :: dec port) with ((lbracket :: host) ++ rbracket :: (colon :: dec port)).
  rewrite index_byte_app by (constructor; [done|by apply v6_avoid]).
  rewrite (proj2 (Nat.eqb_neq _ _)) by (rewrite length_app; simpl; lia).
  rewrite (proj2 (Nat.eqb_eq _ _)) by (simpl; rewrite length_app; simpl; lia).
  assert (forall c, hex_val c = None -> c <> colon -> c <> rbracket -> is_digit c = false ->
    contains_byte c (host ++ rbracket :: colon :: dec port) = false) as Hav.
  { intros c H1 H2 H3 H4. apply contains_byte_false, Forall_app. split; [by apply v6_avoid|].
    repeat (constructor; [done|]). apply digits_avoid; [done|by apply dec_digits]. }
  cbn [drop app]. rewrite drop_0, Hav by done.
  change (lbracket :: host ++ rbracket :: colon :: dec port) with ((lbracket :: host) ++ rbracket :: colon :: dec port).
  rewrite Nat.add_1_r, drop_S_app, contains_byte_false.
  - cbn [length]. replace (S (length host) - 1)%nat with (length host) by lia. by rewrite take_app_length.
  - constructor; [done|]. apply digits_avoid; [done|by apply dec_digits].
Qed.

Lemma SplitHostPort_Join ip port : ip_ok ip -> 0 <= port ->
  SplitHostPort (JoinHostPort (IP_String ip) port) = Ok (IP_String ip, dec port).
Proof.
  intros Hip Hp. destruct (IP_String_cases ip Hip) as [(ip4 & H4 & -> & _)|(Hl & -> & _)]; unfold JoinHostPort.
  - pose proof (ipv4_string_chars ip4 ltac:(apply H4)) as Hc.
    rewrite !contains_byte_false by (by eapply ipv4_char_avoid). by apply SplitHostPort_ipv4.
  - destruct (ipv6_string_parse ip Hl) as (_ & Hc & Hcol); [apply Hip|]. rewrite Hcol.
    by apply SplitHostPort_bracket.
Qed.

Lemma IP_String_v4 ip port : ipv4_ok ip -> host_port (IP_String ip) port = JoinHostPort (IP_String ip) port.
Proof.
  intros H4. assert (IP_String ip = ipv4_string ip) as -> by (unfold IP_String, To4; by rewrite (proj1 H4)).
  unfold JoinHostPort. pose proof (ipv4_string_chars ip ltac:(apply H4)) as Hc.
  by rewrite !contains_byte_false by (by eapply ipv4_char_avoid).
Qed.

Lemma v6_char_byte c : v6_char c -> is_u8 c.
Proof.
  intros [H| ->]; [|done]. unfold hex_val, is_digit in H. unfold is_u8.
  repeat (case_match; [go_bool; lia|]). done.
Qed.

Lemma JoinHostPort_ok ip port : ip_ok ip -> bytes_ok (IP_String ip) /\ bytes_ok (JoinHostPort (IP_String ip) port).
Proof.
  intros Hip. assert (bytes_ok (IP_String ip)) as Hs.
  { destruct (IP_String_cases ip Hip) as [(ip4 & H4 & -> & _)|(Hl & -> & _)]; [apply ipv4_string_ok, H4|].
    destruct (ipv6_string_parse ip Hl) as (_ & Hc & _); [apply Hip|].
    eapply Forall_impl; [done|]. apply v6_char_byte. }
  split; [done|]. pose proof (dec_ok port) as Hd. unfold JoinHostPort, bytes_ok in *.
  case_match; repeat (apply Forall_app; split); try done; repeat (constructor; try done).
Qed.

(** ** Theorems *)

(** What the kernel reports: an IPv4 address on the first call, or an IPv6 address on
    the second. *)
Definition kernel_dst (k : SockCalls) (ip : list Z) (p0 p1 : Z) : Prop :=
  sc_SyscallConn k = Ok () /\ sc_Control k = Ok () /\
  ((length ip = 4%nat /\ sc_opt4 k = Ok (mkSockaddr (p0, p1) ip)) \/
   (length ip = 16%nat /\ is_Ok (sc_opt4 k) = false /\ sc_opt6 k = Ok (mkSockaddr (p0, p1) ip))).

Lemma query_kernel k ip p0 p1 : bytes_ok ip -> kernel_dst k ip p0 p1 ->
  ip_ok ip /\ query k = Ok (JoinHostPort (IP_String ip) (Uint16 p0 p1)).
Proof.
  intros Hok (_ & _ & [[Hl E]|(Hl & E4 & E)]); (split; [split; [auto|done]|]); unfold query.
  - rewrite E. cbn [sa_addr sa_port fst snd]. f_equal. by apply IP_String_v4.
  - rewrite E. by destruct (sc_opt4 k).
Qed.

(** C24: Routing of what the kernel reports.  For every IPv4 or IPv6 address and port
    of an intercepted connection, [GetOriginalDST] prints a destination whose host
    and port [net.SplitHostPort] gives back and whose address [net.ParseIP] reads
    back byte by byte, so that [Lookup] decides on the exact text, on the host, or on
    the first subnet that contains exactly this address. *)
Theorem original_dst_routed fb2 k ip p0 p1 r :
  bytes_ok ip -> is_u8 p0 -> is_u8 p1 -> kernel_dst k ip p0 p1 ->
  exists dst, GetOriginalDST "" fb2 k = Ok dst /\
    SplitHostPort (bytes_of_string dst) = Ok (IP_String ip, dec (p1 + p0 * 256)) /\
    ParseIP (IP_String ip) = Some (norm16 ip) /\
    Lookup r dst =
      match exactMatches r !! dst with
      | Some pep => Ok pep
      | None =>
          match exactMatches r !! string_of_bytes (IP_String ip) with
          | Some pep => Ok pep
          | None =>
              match match_subnet (subnets r) (norm16 ip) with
              | Some pep => Ok pep
              | None => Err ("no route found for destination " +:+ dst)
              end
          end
      end.
Proof.
  intros Hok H0 H1 Hk. destruct (query_kernel k ip p0 p1 Hok Hk) as [Hip Hq].
  destruct Hk as (Hs & Hc & _). unfold is_u8 in *. rewrite Uint16_add in Hq by done.
  destruct (JoinHostPort_ok ip (p1 + p0 * 256) Hip) as [Hb1 Hb2].
  eexists. split; [unfold GetOriginalDST; by rewrite Hs, Hc, Hq|].
  rewrite bytes_of_string_of_bytes by done. rewrite SplitHostPort_Join by (done || lia).
  split; [done|]. split; [by apply ParseIP_IP_String|]. unfold Lookup.
  rewrite bytes_of_string_of_bytes by done. rewrite SplitHostPort_Join by (done || lia).
  rewrite ParseIP_IP_String by done. done.
Qed.

(** The fallback destination and errors.  A fallback that is set is returned
    without a system call; when neither call of the kernel succeeds the fallback read
    then decides, and without one the error is reported; outside Linux there is
    always a destination. *)
Theorem original_dst_fallback fb1 fb2 k :
  (fb1 <> "" -> GetOriginalDST fb1 fb2 k = Ok fb1) /\
  (fb1 = "" -> forall e4 e6, sc_SyscallConn k = Ok () -> sc_Control k = Ok () ->
     sc_opt4 k = Err e4 -> sc_opt6 k = Err e6 ->
     GetOriginalDST fb1 fb2 k =
       if bool_decide (fb2 = "") then Err ("getsockopt SO_ORIGINAL_DST failed: " +:+ e6) else Ok fb2) /\
  is_Ok (GetOriginalDST_other fb1) = true.
Proof.
  unfold GetOriginalDST, GetOriginalDST_other, getFallbackDst. split_and!.
  - intros H. by rewrite bool_decide_eq_false_2.
  - intros -> e4 e6 H1 H2 H3 H4. unfold query. rewrite H1, H2, H3, H4. simpl. by destruct (bool_decide (fb2 = "")).
  - by case_match.
Qed.

(** ** Witness *)

Definition demo_calls : SockCalls :=
  mkSockCalls (Ok ()) (Ok ()) (Err "no such file or directory")
    (Ok (mkSockaddr (1, 187) [32; 1; 13; 184; 0; 0; 0; 0; 0; 0; 0; 0; 0; 0; 0; 7])).

Lemma original_dst_routed_witness :
  GetOriginalDST "" "" demo_calls = Ok "[2001:db8::7]:443" /\
  exists dst, GetOriginalDST "" "" demo_calls = Ok dst /\
    ParseIP (IP_String [32; 1; 13; 184; 0; 0; 0; 0; 0; 0; 0; 0; 0; 0; 0; 7]) =
      Some [32; 1; 13; 184; 0; 0; 0; 0; 0; 0; 0; 0; 0; 0; 0; 7] /\
    Lookup (mkRouter {["2001:db8::7" := "192.0.2.1:9000"]} []) dst = Ok "192.0.2.1:9000".
Proof.
  split; [by vm_compute|].
  destruct (original_dst_routed "" demo_calls [32; 1; 13; 184; 0; 0; 0; 0; 0; 0; 0; 0; 0; 0; 0; 7] 1 187
    (mkRouter {["2001:db8::7" := "192.0.2.1:9000"]} [])) as (dst & H1 & H2 & H3 & H4).
  - go_decide.
  - done.
  - done.
  - repeat split. right. repeat split.
  - exists dst. split; [exact H1|]. split; [exact H3|].
    assert (dst = "[2001:db8::7]:443") as -> by (vm_compute in H1; congruence). by vm_compute.
Defined.
