(* ===== verification/Text.v ===== *)
(** * Strings: the parts of Go's [strings], [strconv] and [unicode/utf8] the
    monitoring servers use

    Prefixes, decimal numerals, UTF-8 decoding and lower-casing, on byte strings;
    that [Atoi] reads what [Itoa] prints, and that decoding is prefix-stable. *)
From stdpp Require Import base list strings pretty.
From Stdlib Require Import Ascii.
From S2P Require Import Prelude NetAddr.
Local Open Scope string_scope.
Local Open Scope list_scope.
Local Open Scope Z_scope.

(** ** Prefixes *)

(** [strings.HasPrefix] and [strings.TrimPrefix]. *)
Definition HasPrefix (s prefix : bytes) : bool := bool_decide (take (length prefix) s = prefix).
Definition TrimPrefix (s prefix : bytes) : bytes :=
  if HasPrefix s prefix then drop (length prefix) s else s.

(** ** [strconv] *)

(** [Itoa], [FormatUint] with base ten and the verb [%d] print alike. *)
Definition Itoa (n : Z) : bytes := dec n.

(** The digits of [ParseUint]; [None] on a byte that is not a digit. *)
Fixpoint parse_digits (s : bytes) (n : Z) : option Z :=
  match s with
  | [] => Some n
  | c :: s' => if is_digit c then parse_digits s' (n * 10 + (c - 48)) else None
  end.

(** [Atoi]: an optional sign, at least one digit, a value in the range of [int];
    [None] is an error, be it of syntax or of range. *)
Definition plus : Z := Eval vm_compute in chr "+".
Definition minus : Z := Eval vm_compute in chr "-".

Definition Atoi (s : bytes) : option Z :=
  let '(neg, ds) :=
    match s with
    | c :: s' => if c =? minus then (true, s') else if c =? plus then (false, s') else (false, s)
    | [] => (false, s)
    end in
  match ds with
  | [] => None
  | _ =>
      n ← parse_digits ds 0;
      let v := if neg : bool then - n else n in
      if (- 2 ^ 63 <=? v) && (v <? 2 ^ 63) then Some v else None
  end.

(** ** UTF-8 *)

Definition RuneError : Z := 65533.
Definition RuneSelf : Z := 128.

Definition in_rng (lo hi c : Z) : bool := (lo <=? c) && (c <=? hi).

(** The range of the second byte after the first byte [c] of a sequence of three
    or of four bytes. *)
Definition second_rng (c : Z) : Z * Z :=
  if c =? 224 then (160, 191)
  else if c =? 237 then (128, 159)
  else if c =? 240 then (144, 191)
  else if c =? 244 then (128, 143)
  else (128, 191).

(** [utf8.DecodeRuneInString]: the rune and the number of bytes it takes. *)
Definition DecodeRune (s : bytes) : Z * nat :=
  match s with
  | [] => (RuneError, 0%nat)
  | c0 :: s1 =>
      if c0 <? RuneSelf then (c0, 1%nat)
      else if in_rng 194 223 c0 then
        match s1 with
        | c1 :: _ =>
            if in_rng 128 191 c1 then ((c0 - 192) * 64 + (c1 - 128), 2%nat) else (RuneError, 1%nat)
        | _ => (RuneError, 1%nat)
        end
      else if in_rng 224 239 c0 then
        match s1 with
        | c1 :: c2 :: _ =>
            let '(lo, hi) := second_rng c0 in
            if in_rng lo hi c1 && in_rng 128 191 c2
            then ((c0 - 224) * 4096 + (c1 - 128) * 64 + (c2 - 128), 3%nat) else (RuneError, 1%nat)
        | _ => (RuneError, 1%nat)
        end
      else if in_rng 240 244 c0 then
        match s1 with
        | c1 :: c2 :: c3 :: _ =>
            let '(lo, hi) := second_rng c0 in
            if in_rng lo hi c1 && in_rng 128 191 c2 && in_rng 128 191 c3
            then ((c0 - 240) * 262144 + (c1 - 128) * 4096 + (c2 - 128) * 64 + (c3 - 128), 4%nat)
            else (RuneError, 1%nat)
        | _ => (RuneError, 1%nat)
        end
      else (RuneError, 1%nat)
  end.

(** The runes of [for _, r := range s]; a string has at most as many as bytes. *)
Fixpoint runes_go (fuel : nat) (s : bytes) : list Z :=
  match fuel, s with
  | S fuel, _ :: _ => let '(r, n) := DecodeRune s in r :: runes_go fuel (drop n s)
  | _, _ => []
  end.
Definition runes (s : bytes) : list Z := runes_go (length s) s.

(** [unicode.ToLower] where its result is ASCII: the letters [A]-[Z], the capital I
    with a dot (U+0130) and the Kelvin sign (U+212A); [None] is a result that is
    not ASCII. *)
Definition lower_ascii (r : Z) : option Z :=
  if in_rng 65 90 r then Some (r + 32)
  else if r <? RuneSelf then Some r
  else if r =? 304 then Some 105
  else if r =? 8490 then Some 107
  else None.

(** [strings.ToLower] where its result is ASCII. *)
Definition ToLower_ascii (s : bytes) : option bytes := mapM lower_ascii (runes s).

(** ** Numerals *)

Lemma parse_digits_app s t n :
  parse_digits (s ++ t) n = (m ← parse_digits s n; parse_digits t m).
Proof. revert n. induction s as [|c s IH]; intros n; simpl; [done|]. by destruct (is_digit c). Qed.

Lemma digit_char d : (d < 10)%N ->
  nat_of_ascii (pretty_N_char d) = (48 + N.to_nat d)%nat.
Proof.
  intros H. assert (Forall (fun d => nat_of_ascii (pretty_N_char d) = (48 + N.to_nat d)%nat)
    (map N.of_nat (seq 0 10))) as Ht by (repeat constructor).
  rewrite Forall_forall in Ht. apply Ht, list_elem_of_fmap. exists (N.to_nat d).
  split; [by rewrite N2Nat.id|]. apply elem_of_seq. lia.
Qed.

Lemma parse_digits_pretty x s m : parse_digits (bytes_of_string s) (Z.of_N x) = Some m ->
  parse_digits (bytes_of_string (pretty_N_go x s)) 0 = Some m.
Proof.
  revert s. induction (N.lt_wf_0 x) as [x _ IH]; intros s Hs.
  destruct (decide (0 < x)%N) as [Hx|Hx]; [|by replace x with 0%N in * by lia].
  rewrite pretty_N_go_step by done. apply IH; [by apply N.div_lt|].
  cbn [bytes_of_string String.list_ascii_of_string map parse_digits].
  rewrite digit_char by (by apply N.mod_lt).
  pose proof (N.mod_lt x 10 ltac:(done)) as Hd. pose proof (N.div_mod' x 10) as Hx'.
  set (d := (x mod 10)%N) in *. set (q := (x / 10)%N) in *. clearbody d q.
  replace (is_digit _) with true by (unfold is_digit; symmetry; apply andb_true_iff; rewrite !Z.leb_le; lia).
  rewrite <- Hs. unfold bytes_of_string. f_equal. lia.
Qed.

Lemma parse_digits_dec n : 0 <= n -> parse_digits (dec n) 0 = Some n.
Proof.
  intros Hn. unfold dec. destruct n as [|p|p]; [done| |lia].
  unfold pretty, pretty_Z, pretty, pretty_positive, pretty, pretty_N.
  case_decide; [done|]. by apply parse_digits_pretty.
Qed.

Lemma dec_nonempty n : 0 <= n -> exists c s, dec n = c :: s /\ is_digit c = true.
Proof.
  intros Hn. pose proof (parse_digits_dec n Hn) as Hp. pose proof (dec_digits n Hn) as Hd.
  destruct (dec n) as [|c s] eqn:E; [|by inversion Hd; subst; eauto].
  exfalso. injection Hp as <-. discriminate.
Qed.

(** What [Itoa] prints is read back by [Atoi]. *)
Lemma Atoi_Itoa n : 0 <= n < 2 ^ 63 -> Atoi (Itoa n) = Some n.
Proof.
  intros Hn. unfold Atoi, Itoa. destruct (dec_nonempty n) as (c & s & E & Hc); [lia|].
  pose proof (parse_digits_dec n) as Hp. rewrite E in *. unfold is_digit in Hc.
  unfold minus, plus. go_bool. go_tests. rewrite Hp by lia. simpl. by go_tests.
Qed.

Lemma dec_inj n m : 0 <= n -> 0 <= m -> dec n = dec m -> n = m.
Proof.
  intros Hn Hm E. pose proof (parse_digits_dec n Hn) as H1.
  pose proof (parse_digits_dec m Hm) as H2. rewrite E in H1. congruence.
Qed.

(** ** Prefixes *)

Lemma HasPrefix_app p s : HasPrefix (p ++ s) p = true.
Proof. apply bool_decide_eq_true_2. by rewrite take_app_length. Qed.

Lemma TrimPrefix_app p s : TrimPrefix (p ++ s) p = s.
Proof. unfold TrimPrefix. by rewrite HasPrefix_app, drop_app_length. Qed.

(** ** Decoding *)

Lemma DecodeRune_ascii c s : c < 128 -> DecodeRune (c :: s) = (c, 1%nat).
Proof. intros H. simpl. unfold RuneSelf. by go_tests. Qed.

(** The tests of a hypothesis, and the lower bound a continuation byte has. *)
Local Ltac rewrite_b := match goal with H : _ = _ :> bool |- _ => rewrite H; clear H
  | H : second_rng _ = _ |- _ => rewrite H; clear H end.

Lemma second_rng_ge c lo hi : second_rng c = (lo, hi) -> 128 <= lo.
Proof. unfold second_rng. intros H. repeat case_match; simplify_eq; lia. Qed.

Local Ltac rng_ge := repeat match goal with H : second_rng _ = _ |- _ => apply second_rng_ge in H end;
  unfold in_rng in *; go_bool; repeat (apply Forall_cons_2; [lia|]); apply Forall_nil_2.

(** A rune that is not an encoding error is a nonempty prefix of the string, whatever
    follows it; if it is not ASCII then none of its bytes is. *)
Lemma DecodeRune_prefix s r n :
  s <> [] -> DecodeRune s = (r, n) -> (r = RuneError /\ n = 1%nat) \/
  exists pre rest, s = pre ++ rest /\ length pre = n /\ (0 < n)%nat /\
    (forall t, DecodeRune (pre ++ t) = (r, n)) /\
    (pre = [r] /\ r < 128 \/ Forall (fun c => 128 <= c) pre).
Proof.
  intros Hs E. destruct s as [|c0 s1]; [done|].
  cbn [DecodeRune] in E. destruct (c0 <? RuneSelf) eqn:H0.
  { injection E as <- <-. right. exists [c0], s1. unfold RuneSelf in H0. go_bool.
    split_and!; try done; try lia; [|by left]. intros t. by apply DecodeRune_ascii. }
  assert (128 <= c0) by (unfold RuneSelf in H0; go_bool; lia).
  repeat case_match; simplify_eq; try (by left); right;
    repeat match goal with H : (_ && _)%bool = true |- _ => apply andb_true_iff in H as [? ?] end.
  - eexists [_; _], _. split_and!; [done..|lia| |right; rng_ge].
    intros t. cbn. by repeat (rewrite_b).
  - eexists [_; _; _], _. split_and!; [done..|lia| |right; rng_ge].
    intros t. cbn. by repeat (rewrite_b).
  - eexists [_; _; _; _], _. split_and!; [done..|lia| |right; rng_ge].
    intros t. cbn. by repeat (rewrite_b).
Qed.
