(* ===== verification/Glob.v ===== *)
(** * Key patterns: Go's [path.Match], as src/proxy/redis_server.go uses it

    [Match] with its helpers [scanChunk], [matchChunk] and [getEsc], translated loop
    by loop; a reference matcher, which parses the whole pattern into tokens and tries
    every way to split the name; and the proof that the two agree on names of ASCII
    characters without a slash, which the keys of the monitoring server are. *)
From stdpp Require Import base list strings.
From Stdlib Require Import Ascii.
From S2P Require Import Prelude NetAddr Text.
Local Open Scope list_scope.
Local Open Scope Z_scope.

Definition star : Z := Eval vm_compute in chr "*".
Definition quest : Z := Eval vm_compute in chr "?".
Definition backslash : Z := Eval vm_compute in chr "\".
Definition caret : Z := Eval vm_compute in chr "^".

(** ** [path.Match]

    A function that can return [ErrBadPattern] returns [None] for it. *)

(** The rune at the start of a class item; more of the class must follow. *)
Definition class_rune (chunk : bytes) : option (Z * bytes) :=
  let '(r, n) := DecodeRune chunk in
  if (r =? RuneError) && (n =? 1)%nat then None
  else match drop n chunk with [] => None | nchunk => Some (r, nchunk) end.

(** [getEsc]: a possibly escaped character of a class. *)
Definition getEsc (chunk : bytes) : option (Z * bytes) :=
  match chunk with
  | [] => None
  | c :: chunk' =>
      if (c =? minus) || (c =? rbracket) then None
      else if c =? backslash then
        match chunk' with [] => None | _ => class_rune chunk' end
      else class_rune chunk
  end.

(** [lo] and, after a dash, [hi]. *)
Definition get_range (chunk : bytes) : option (Z * Z * bytes) :=
  '(lo, chunk1) ← getEsc chunk;
  match chunk1 with
  | [] => None
  | c :: chunk2 =>
      if c =? minus then '(hi, chunk3) ← getEsc chunk2; Some (lo, hi, chunk3)
      else Some (lo, lo, chunk1)
  end.

(** The loop over the ranges of a class; [nrange] is whether there was one. *)
Fixpoint class_loop (fuel : nat) (r : Z) (chunk : bytes) (nrange : bool) (matched : bool) : option (bool * bytes) :=
  match fuel with
  | O => None
  | S fuel =>
      if bool_decide (head chunk = Some rbracket) && nrange then Some (matched, drop 1 chunk)
      else
        '(lo, hi, chunk') ← get_range chunk;
        class_loop fuel r chunk' true (matched || ((lo <=? r) && (r <=? hi)))
  end.

(** A caret after the opening bracket. *)
Definition get_negated (chunk : bytes) : bool * bytes :=
  if bool_decide (head chunk = Some caret) then (true, drop 1 chunk) else (false, chunk).

(** [matchChunk]: [Some None] is a chunk that does not match, [Some (Some rest)] one
    that matches. *)
Fixpoint match_loop (fuel : nat) (chunk s : bytes) (failed : bool) : option (option bytes) :=
  match fuel with
  | O => None
  | S fuel =>
      match chunk with
      | [] => Some (if failed then None else Some s)
      | c :: chunk1 =>
          let failed := failed || bool_decide (s = []) in
          if c =? lbracket then
            let '(r, n) := if failed then (0, 0%nat) else DecodeRune s in
            let '(negated, chunk2) := get_negated chunk1 in
            '(matched, chunk3) ← class_loop (S (length chunk2)) r chunk2 false false;
            match_loop fuel chunk3 (drop n s) (failed || eqb matched negated)
          else if c =? quest then
            if failed then match_loop fuel chunk1 s failed
            else match_loop fuel chunk1 (drop (DecodeRune s).2 s) (bool_decide (head s = Some slash))
          else
            match (if c =? backslash then chunk1 else chunk) with
            | [] => None
            | d :: chunk2 =>
                if failed then match_loop fuel chunk2 s failed
                else match_loop fuel chunk2 (drop 1 s) (negb (bool_decide (head s = Some d)))
            end
      end
  end.
Definition matchChunk (chunk s : bytes) : option (option bytes) :=
  match_loop (S (length chunk)) chunk s false.

(** The scan of [scanChunk] to the next star outside a class. *)
Fixpoint scan (inrange : bool) (p : bytes) : bytes * bytes :=
  match p with
  | [] => ([], [])
  | c :: p1 =>
      if c =? backslash then
        match p1 with
        | [] => ([c], [])
        | d :: p2 => let '(a, b) := scan inrange p2 in (c :: d :: a, b)
        end
      else if (c =? star) && negb inrange then ([], p)
      else
        let inrange := if c =? lbracket then true else if c =? rbracket then false else inrange in
        let '(a, b) := scan inrange p1 in (c :: a, b)
  end.

(** The leading stars. *)
Fixpoint skip_stars (p : bytes) : bool * bytes :=
  match p with
  | c :: p1 => if c =? star then (true, (skip_stars p1).2) else (false, p)
  | [] => (false, [])
  end.

Definition scanChunk (p : bytes) : bool * bytes * bytes :=
  let '(st, p1) := skip_stars p in
  let '(chunk, rest) := scan false p1 in (st, chunk, rest).

(** The loop that skips bytes of the name before the chunk; [last] says that the
    pattern ends with it. *)
Fixpoint star_loop (chunk : bytes) (last : bool) (name : bytes) : option (option bytes) :=
  match name with
  | [] => Some None
  | c :: name1 =>
      if c =? slash then Some None
      else
        match matchChunk chunk name1 with
        | None => None
        | Some (Some t) =>
            if last && negb (bool_decide (t = [])) then star_loop chunk last name1 else Some (Some t)
        | Some None => star_loop chunk last name1
        end
  end.

(** The check of the rest of the pattern before [false] is returned. *)
Fixpoint check_rest (fuel : nat) (p : bytes) : option unit :=
  match fuel, p with
  | O, _ => None
  | _, [] => Some ()
  | S fuel, _ =>
      let '(_, chunk, rest) := scanChunk p in
      _ ← matchChunk chunk [];
      check_rest fuel rest
  end.

Fixpoint Match_loop (fuel : nat) (p name : bytes) : option bool :=
  match fuel, p with
  | O, _ => None
  | _, [] => Some (bool_decide (name = []))
  | S fuel, _ =>
      let '(st, chunk, rest) := scanChunk p in
      if st && bool_decide (chunk = []) then Some (negb (contains_byte slash name))
      else
        let last := bool_decide (rest = []) in
        let no_match := _ ← check_rest (S (length rest)) rest; Some false in
        let skip :=
          if st then
            r ← star_loop chunk last name;
            match r with Some t => Match_loop fuel rest t | None => no_match end
          else no_match in
        match matchChunk chunk name with
        | None => None
        | Some (Some t) => if bool_decide (t = []) || negb last then Match_loop fuel rest t else skip
        | Some None => skip
        end
  end.
Definition Match (p name : bytes) : option bool := Match_loop (S (length p)) p name.

(** [matchPattern] of src/proxy/redis_server.go. *)
Definition matchPattern (pattern key : bytes) : bool :=
  match Match pattern key with Some matched => matched | None => false end.

(** ** Reference *)

Inductive tok := TStar | TAny | TLit (c : Z) | TClass (negated : bool) (rs : list (Z * Z)).

Fixpoint parse_class (fuel : nat) (p : bytes) (nrange : bool) : option (list (Z * Z) * bytes) :=
  match fuel with
  | O => None
  | S fuel =>
      if bool_decide (head p = Some rbracket) && nrange then Some ([], drop 1 p)
      else
        '(lo, hi, p') ← get_range p;
        '(rs, p'') ← parse_class fuel p' true;
        Some ((lo, hi) :: rs, p'')
  end.

(** The tokens of a pattern, or [None] if it is malformed. *)
Fixpoint parse_go (fuel : nat) (p : bytes) : option (list tok) :=
  match fuel with
  | O => None
  | S fuel =>
      match p with
      | [] => Some []
      | c :: p1 =>
          if c =? star then cons TStar <$> parse_go fuel p1
          else if c =? quest then cons TAny <$> parse_go fuel p1
          else if c =? lbracket then
            let '(neg, p2) := get_negated p1 in
            '(rs, p3) ← parse_class (S (length p2)) p2 false;
            cons (TClass neg rs) <$> parse_go fuel p3
          else if c =? backslash then
            match p1 with [] => None | d :: p2 => cons (TLit d) <$> parse_go fuel p2 end
          else cons (TLit c) <$> parse_go fuel p1
      end
  end.
Definition parse (p : bytes) : option (list tok) := parse_go (S (length p)) p.

(** Whether a token other than a star matches a character. *)
Definition tok_match (t : tok) (c : Z) : bool :=
  match t with
  | TStar => false
  | TAny => negb (c =? slash)
  | TLit d => c =? d
  | TClass neg rs => xorb neg (existsb (fun '(lo, hi) => (lo <=? c) && (c <=? hi)) rs)
  end.

(** The meaning of a pattern: a star stands for any characters but slashes, every
    other token for one character. *)
Fixpoint glob (ts : list tok) (s : bytes) : bool :=
  match ts with
  | [] => bool_decide (s = [])
  | TStar :: ts' =>
      (fix any (s : bytes) : bool :=
         glob ts' s || match s with c :: s' => negb (c =? slash) && any s' | [] => false end) s
  | t :: ts' => match s with c :: s' => tok_match t c && glob ts' s' | [] => false end
  end.

(** Parse, then match. *)
Definition ref_match (p name : bytes) : option bool := (fun ts => glob ts name) <$> parse p.

(** ** Lexical lemmas

    A class item, a range or a class that was read is a prefix of the pattern; it
    is read in the same way whatever follows, and the scan passes over it. *)

Lemma scan_high b pre x : Forall (fun c => 128 <= c) pre ->
  scan b (pre ++ x) = (pre ++ (scan b x).1, (scan b x).2).
Proof.
  induction 1 as [|c pre Hc _ IH]; simpl; [by destruct (scan b x)|].
  unfold backslash, star, lbracket, rbracket. go_tests. simpl. by rewrite IH.
Qed.

(** What the scan does at a character other than the two brackets, within a class. *)
Lemma scan_in c x : c <> rbracket -> c <> backslash ->
  scan true (c :: x) = (c :: (scan true x).1, (scan true x).2).
Proof.
  intros H1 H2. simpl. rewrite (proj2 (Z.eqb_neq c backslash)), (proj2 (Z.eqb_neq c rbracket)) by done.
  rewrite andb_false_r. destruct (c =? lbracket); by destruct (scan true x).
Qed.

Lemma scan_esc b d x : scan b (backslash :: d :: x) = (backslash :: d :: (scan b x).1, (scan b x).2).
Proof. simpl. by destruct (scan b x). Qed.

Definition passes (b b' : bool) (pre : bytes) : Prop :=
  forall x, scan b (pre ++ x) = (pre ++ (scan b' x).1, (scan b' x).2).

Lemma passes_app b1 b2 b3 p q : passes b1 b2 p -> passes b2 b3 q -> passes b1 b3 (p ++ q).
Proof. intros H1 H2 x. rewrite <- !app_assoc, H1, H2. done. Qed.

Lemma drop_prefix {A} (pre : list A) x n : length pre = n -> drop n (pre ++ x) = x.
Proof. intros <-. apply drop_app_length. Qed.

Lemma class_rune_prefix s r c' : s <> [] -> class_rune s = Some (r, c') ->
  exists pre, s = pre ++ c' /\ pre <> [] /\ c' <> [] /\
    (forall x, x <> [] -> class_rune (pre ++ x) = Some (r, x)) /\
    (pre = [r] \/ Forall (fun c => 128 <= c) pre).
Proof.
  intros Hs E. unfold class_rune in E. destruct (DecodeRune s) as [r0 n] eqn:D.
  destruct ((r0 =? RuneError) && (n =? 1)%nat) eqn:Er; [done|].
  apply DecodeRune_prefix in D as [[-> ->]|(pre & rest & -> & Hlen & Hn & Hst & Hk)]; [done| |done].
  rewrite drop_prefix in E by done. destruct rest as [|e rest]; [done|]. injection E as <- <-.
  exists pre. split_and!; [done|by intros ->; simpl in *; lia|done| |tauto].
  intros x Hx. unfold class_rune. rewrite Hst, Er, drop_prefix by done. by destruct x.
Qed.

Lemma getEsc_prefix c r c' : getEsc c = Some (r, c') ->
  exists pre, c = pre ++ c' /\ pre <> [] /\ c' <> [] /\ passes true true pre /\
    forall x, x <> [] -> getEsc (pre ++ x) = Some (r, x).
Proof.
  unfold getEsc at 1. destruct c as [|c0 c1]; [done|].
  destruct ((c0 =? minus) || (c0 =? rbracket)) eqn:H0; [done|].
  destruct (c0 =? backslash) eqn:Hb; intros E.
  - apply Z.eqb_eq in Hb as ->. assert (c1 <> []) by by destruct c1.
    replace (match c1 with [] => None | _ => class_rune c1 end) with (class_rune c1) in E by by destruct c1.
    apply class_rune_prefix in E as (pre & -> & Hne & Hc' & Hst & Hk); [|done].
    exists (backslash :: pre). split_and!; try done.
    + intros x. destruct Hk as [->|Hk]; [apply scan_esc|]. destruct Hk as [|d pre _ Hk]; [done|].
      cbn [app]. by rewrite scan_esc, scan_high.
    + intros x Hx. cbn. rewrite Hst by done. by destruct pre.
  - apply class_rune_prefix in E as (pre & E & Hne & Hc' & Hst & Hk); [|done].
    exists pre. split_and!; try done.
    + destruct Hk as [->|Hk]; [|by intros x; apply scan_high].
      injection E as -> ->. go_bool. intros x. by apply scan_in.
    + intros x Hx. destruct pre as [|d pre]; [done|]. injection E as <- ->.
      cbn [app getEsc]. rewrite H0, Hb. by apply Hst.
Qed.

Lemma get_range_prefix c lo hi c' : get_range c = Some (lo, hi, c') ->
  exists pre, c = pre ++ c' /\ pre <> [] /\ c' <> [] /\ passes true true pre /\
    forall x, x <> [] -> head x = head c' -> get_range (pre ++ x) = Some (lo, hi, x).
Proof.
  unfold get_range at 1. destruct (getEsc c) as [[lo0 c1]|] eqn:E1; [|done]. simpl.
  apply getEsc_prefix in E1 as (pre & -> & Hne & Hc1 & Hp & Hst).
  destruct c1 as [|d c2]; [done|]. destruct (d =? minus) eqn:Hd.
  - destruct (getEsc c2) as [[hi0 c3]|] eqn:E2; [|done]. simpl. intros [= <- <- <-].
    apply getEsc_prefix in E2 as (pre2 & -> & Hne2 & Hc3 & Hp2 & Hst2).
    apply Z.eqb_eq in Hd as ->. exists (pre ++ minus :: pre2). split_and!; try done.
    + by rewrite <- app_assoc.
    + by destruct pre.
    + eapply passes_app; [exact Hp|]. apply (passes_app true true true [minus]); [|exact Hp2].
      intros x. by apply scan_in.
    + intros x Hx Hh. unfold get_range. rewrite <- app_assoc, Hst by done. simpl. by rewrite Hst2.
  - intros [= <- <- <-]. exists pre. split_and!; try done.
    intros x Hx Hh. unfold get_range. rewrite Hst by done. simpl. destruct x as [|e x]; [done|].
    injection Hh as ->. by rewrite Hd.
Qed.

Lemma parse_class_prefix fuel c n rs c' : parse_class fuel c n = Some (rs, c') ->
  exists pre, c = pre ++ c' /\ pre <> [] /\ passes true false pre /\
    forall x fuel', (length pre <= fuel')%nat -> parse_class fuel' (pre ++ x) n = Some (rs, x).
Proof.
  revert c n rs. induction fuel as [|fuel IH]; intros c n rs; [done|]. cbn [parse_class].
  destruct (bool_decide (head c = Some rbracket) && n) eqn:Hb.
  - intros [= <- <-]. apply andb_true_iff in Hb as [Hb ->]. apply bool_decide_eq_true in Hb.
    destruct c as [|d c]; [done|]. injection Hb as ->. exists [rbracket]. split_and!; try done.
    + intros x. cbn. by destruct (scan false x).
    + intros x [|fuel'] Hf; [simpl in Hf; lia|done].
  - destruct (get_range c) as [[[lo hi] c1]|] eqn:E1; [|done]. simpl.
    destruct (parse_class fuel c1 true) as [[rs1 c2]|] eqn:E2; [|done]. simpl. intros [= <- <-].
    apply IH in E2 as (pre2 & -> & Hne2 & Hp2 & Hst2).
    apply get_range_prefix in E1 as (pre & -> & Hne & _ & Hp & Hst).
    exists (pre ++ pre2). split_and!.
    + by rewrite <- app_assoc.
    + by destruct pre.
    + by eapply passes_app.
    + intros x [|fuel'] Hf; rewrite length_app in Hf; destruct pre as [|d pre]; try done; simpl in Hf; [lia|].
      cbn [parse_class]. rewrite <- app_assoc. cbn [app head] in *. rewrite Hb.
      rewrite (Hst (pre2 ++ x)) by (by destruct pre2). simpl. rewrite Hst2 by lia. done.
Qed.

Lemma get_negated_split p neg p2 : get_negated p = (neg, p2) ->
  p = (if neg : bool then [caret] else []) ++ p2 /\ (neg = false -> head p2 <> Some caret).
Proof.
  unfold get_negated. case_bool_decide as H; intros [= <- <-]; [|done].
  destruct p as [|d p]; [done|]. by injection H as ->.
Qed.

(** ** The scan *)

Lemma scan_spec p : forall b a r, scan b p = (a, r) ->
  p = a ++ r /\ scan b a = (a, []) /\ (r = [] \/ exists r', r = star :: r').
Proof.
  induction p as [p IH] using (induction_ltof1 _ (@length Z)). unfold ltof in IH. intros b a r.
  destruct p as [|c p1]; [intros [= <- <-]; auto|]. cbn [scan].
  destruct (c =? backslash) eqn:Hb; [destruct p1 as [|d p2]|].
  - intros [= <- <-]. cbn. rewrite Hb. auto.
  - destruct (scan b p2) as [a2 r2] eqn:E. intros [= <- <-].
    apply IH in E as (-> & E & Hr); [|simpl; lia]. cbn. rewrite Hb, E. auto.
  - destruct ((c =? star) && negb b) eqn:Hs.
    { intros [= <- <-]. split_and!; try done. right. apply andb_true_iff in Hs as [Hs _].
      apply Z.eqb_eq in Hs as ->. eauto. }
    destruct (scan _ p1) as [a2 r2] eqn:E. intros [= <- <-].
    apply IH in E as (-> & E & Hr); [|simpl; lia]. cbn [scan app]. rewrite Hb, Hs, E. auto.
Qed.

(** ** Parsing *)

Lemma parse_class_length fuel p n rs p' : parse_class fuel p n = Some (rs, p') -> (length p' < length p)%nat.
Proof.
  intros E. apply parse_class_prefix in E as (pre & -> & Hne & _). rewrite length_app.
  destruct pre; [done|simpl; lia].
Qed.

Lemma get_negated_length p neg p2 : get_negated p = (neg, p2) -> (length p2 <= length p)%nat.
Proof. intros E. apply get_negated_split in E as [-> _]. rewrite length_app. lia. Qed.

Lemma parse_go_fuel f1 : forall f2 p, (length p < f1)%nat -> (length p < f2)%nat -> parse_go f1 p = parse_go f2 p.
Proof.
  induction f1 as [|f1 IH]; intros [|f2] p H1 H2; try lia.
  destruct p as [|c p1]; [done|]. cbn [parse_go]. simpl in H1, H2.
  destruct (get_negated p1) as [neg p2] eqn:En. pose proof (get_negated_length _ _ _ En).
  repeat case_match; try done; try (f_equal; apply IH; simpl in *; lia).
  destruct (parse_class _ p2 false) as [[rs p3]|] eqn:Ec; [|done]. simpl. f_equal.
  apply parse_class_length in Ec. apply IH; lia.
Qed.

(** The equation of [parse] on a nonempty pattern. *)
Definition parse_step (rec : bytes -> option (list tok)) (c : Z) (p1 : bytes) : option (list tok) :=
  if c =? star then cons TStar <$> rec p1
  else if c =? quest then cons TAny <$> rec p1
  else if c =? lbracket then
    let '(neg, p2) := get_negated p1 in
    '(rs, p3) ← parse_class (S (length p2)) p2 false;
    cons (TClass neg rs) <$> rec p3
  else if c =? backslash then
    match p1 with [] => None | d :: p2 => cons (TLit d) <$> rec p2 end
  else cons (TLit c) <$> rec p1.

Lemma parse_cons c p1 : parse (c :: p1) = parse_step parse c p1.
Proof.
  transitivity (parse_step (parse_go (S (length p1))) c p1); [done|].
  unfold parse_step. destruct (get_negated p1) as [neg p2] eqn:En.
  pose proof (get_negated_length _ _ _ En). repeat case_match; try done.
  - destruct (parse_class _ p2 false) as [[rs p3]|] eqn:Ec; [|done]. cbn [mbind option_bind]. f_equal.
    apply parse_class_length in Ec. apply parse_go_fuel; lia.
  - f_equal. apply parse_go_fuel; simpl; lia.
Qed.

Definition in_ranges (r : Z) (rs : list (Z * Z)) : bool :=
  existsb (fun '(lo, hi) => (lo <=? r) && (r <=? hi)) rs.

Lemma class_loop_parse fuel r : forall c n m, class_loop fuel r c n m =
  (fun '(rs, rest) => (m || in_ranges r rs, rest)) <$> parse_class fuel c n.
Proof.
  induction fuel as [|fuel IH]; intros c n m; [done|]. cbn [class_loop parse_class].
  destruct (_ && n); [by destruct m|].
  destruct (get_range c) as [[[lo hi] c1]|]; [|done]. cbn [mbind option_bind]. rewrite IH.
  destruct (parse_class fuel c1 true) as [[rs c2]|]; [|done]. simpl. by rewrite orb_assoc.
Qed.

#[local] Arguments parse : simpl never.
#[local] Arguments parse_class : simpl never.
#[local] Arguments class_loop : simpl never.

(** A pattern is parsed chunk by chunk. *)
Definition parse_seq (p q : bytes) : option (list tok) :=
  ts1 ← parse p; ts2 ← parse q; Some (ts1 ++ ts2).

Lemma parse_seq_cons t (o1 o2 : option (list tok)) :
  (ts1 ← cons t <$> o1; ts2 ← o2; Some (ts1 ++ ts2)) = cons t <$> (ts1 ← o1; ts2 ← o2; Some (ts1 ++ ts2)).
Proof. by destruct o1, o2. Qed.

Lemma parse_class_scan p1 neg p2 rs p3 a r :
  get_negated p1 = (neg, p2) -> parse_class (S (length p2)) p2 false = Some (rs, p3) ->
  scan true p1 = (a, r) ->
  exists pre a3, scan false p3 = (a3, r) /\ a = (if neg then [caret] else []) ++ pre ++ a3 /\
    get_negated a = (neg, pre ++ a3) /\
    parse_class (S (length (pre ++ a3))) (pre ++ a3) false = Some (rs, a3).
Proof.
  intros En Ec Es. pose proof Ec as Ec'. apply parse_class_prefix in Ec' as (pre & -> & Hne & Hp & Hst).
  destruct (get_negated_split _ _ _ En) as [-> Hneg]. exists pre, (scan false p3).1.
  assert (passes true true (if neg then [caret] else [])) as Hpn.
  { intros x. destruct neg; [by apply scan_in|]. simpl. by destruct (scan true x). }
  rewrite Hpn, Hp in Es. injection Es as <- <-. split; [by destruct (scan false p3)|].
  split; [done|]. split; [|apply Hst; rewrite length_app; lia].
  unfold get_negated. destruct neg; [done|]. rewrite bool_decide_eq_false_2; [done|].
  destruct pre as [|d pre]; [done|]. by apply Hneg.
Qed.

Lemma parse_class_ext a r neg a2 rs a3 :
  get_negated a = (neg, a2) -> parse_class (S (length a2)) a2 false = Some (rs, a3) ->
  get_negated (a ++ r) = (neg, a2 ++ r) /\
  parse_class (S (length (a2 ++ r))) (a2 ++ r) false = Some (rs, a3 ++ r).
Proof.
  intros En Ec. destruct (parse_class_prefix _ _ _ _ _ Ec) as (pre & -> & Hne & _ & Hst). split.
  - destruct (get_negated_split _ _ _ En) as [-> Hneg]. unfold get_negated.
    destruct neg; [done|]. rewrite bool_decide_eq_false_2; [done|].
    destruct pre as [|d pre]; [done|]. by apply Hneg.
  - rewrite <- app_assoc. apply Hst. rewrite length_app. lia.
Qed.

Lemma scan_parse p : forall a r, scan false p = (a, r) -> parse p = parse_seq a r.
Proof.
  induction p as [p IH] using (induction_ltof1 _ (@length Z)). unfold ltof in IH. intros a r.
  destruct p as [|c p1]; [by intros [= <- <-]|]. cbn [scan].
  destruct (c =? backslash) eqn:Hb; [apply Z.eqb_eq in Hb as ->; destruct p1 as [|d p2]|].
  - intros [= <- <-]. done.
  - destruct (scan false p2) as [a2 r2] eqn:E. intros [= <- <-]. rewrite parse_cons. unfold parse_step. simpl.
    rewrite (IH p2 ltac:(simpl; lia) _ _ E). unfold parse_seq. rewrite (parse_cons backslash). unfold parse_step. simpl.
    by rewrite parse_seq_cons.
  - destruct (c =? star) eqn:Hs; cbn [andb negb].
    { intros [= <- <-]. unfold parse_seq. simpl. by destruct (parse (c :: p1)). }
    destruct (c =? lbracket) eqn:Hl.
    + destruct (scan true p1) as [a1 r1] eqn:E. intros [= <- <-].
      destruct (get_negated p1) as [neg p2] eqn:En. pose proof (get_negated_length _ _ _ En).
      apply Z.eqb_eq in Hl as ->. rewrite parse_cons. unfold parse_step. simpl. rewrite En.
      unfold parse_seq. rewrite (parse_cons lbracket). unfold parse_step. simpl.
      destruct (parse_class _ p2 false) as [[rs p3]|] eqn:Ec.
      * destruct (parse_class_scan _ _ _ _ _ _ _ En Ec E) as (pre & a3 & Es & -> & -> & ->).
        apply parse_class_length in Ec. cbn [mbind option_bind]. rewrite parse_seq_cons. f_equal.
        apply IH; [simpl; lia|done].
      * destruct (get_negated a1) as [neg' a2] eqn:En'.
        destruct (parse_class _ a2 false) as [[rs a3]|] eqn:Ec'; [|done].
        destruct (scan_spec _ _ _ _ E) as (-> & _).
        destruct (parse_class_ext _ r1 _ _ _ _ En' Ec') as [En2 Ec2]. congruence.
    + destruct (scan _ p1) as [a1 r1] eqn:E. intros [= <- <-]. unfold parse_seq.
      rewrite !parse_cons. unfold parse_step. rewrite Hs, Hl, Hb. replace (if c =? rbracket then false else false) with false in E by by case_match.
      rewrite (IH p1 ltac:(simpl; lia) _ _ E). unfold parse_seq.
      destruct (c =? quest); by rewrite parse_seq_cons.
Qed.

(** ** One chunk *)

(** The tokens of a chunk against a name. *)
Fixpoint match_toks (ts : list tok) (s : bytes) : option bytes :=
  match ts, s with
  | [], _ => Some s
  | t :: ts', c :: s' => if tok_match t c then match_toks ts' s' else None
  | _ :: _, [] => None
  end.

Definition ascii_name (s : bytes) : Prop := Forall (fun c => c < 128) s.

Lemma ascii_drop s n : ascii_name s -> ascii_name (drop n s).
Proof. apply Forall_drop. Qed.

Lemma lit_step d x ts s :
  (if negb (bool_decide (Some x = Some d)) then None else match_toks ts s) = match_toks (TLit d :: ts) (x :: s).
Proof.
  simpl. destruct (Z.eqb_spec x d); [by subst; rewrite bool_decide_eq_true_2|].
  by rewrite bool_decide_eq_false_2 by congruence.
Qed.

(** A class that was read, within a chunk without stars. *)
Lemma class_in_chunk chunk1 neg chunk2 rs chunk3 :
  get_negated chunk1 = (neg, chunk2) ->
  parse_class (S (length chunk2)) chunk2 false = Some (rs, chunk3) ->
  scan true chunk1 = (chunk1, []) -> scan false chunk3 = (chunk3, []) /\ (length chunk3 <= length chunk1)%nat.
Proof.
  intros En Ec Es. destruct (parse_class_scan _ _ _ _ _ _ _ En Ec Es) as (pre & a3 & E3 & _).
  split; [|apply get_negated_length in En; apply parse_class_length in Ec; lia].
  destruct (scan_spec _ _ _ _ E3) as (-> & ? & _). by rewrite app_nil_r.
Qed.

Lemma match_loop_parse fuel : forall chunk s failed, (length chunk < fuel)%nat ->
  scan false chunk = (chunk, []) -> ascii_name s ->
  match_loop fuel chunk s failed =
    (fun ts => if failed : bool then None else match_toks ts s) <$> parse chunk.
Proof.
  induction fuel as [|fuel IH]; intros chunk s failed Hf Hs Ha; [lia|].
  destruct chunk as [|c chunk1]; [by destruct failed|]. simpl in Hf.
  cbn [match_loop]. rewrite parse_cons. unfold parse_step. cbn [scan] in Hs.
  destruct (c =? lbracket) eqn:Hl; [apply Z.eqb_eq in Hl as ->; simpl in Hs|].
  - destruct (scan true chunk1) as [a1 r1] eqn:E. injection Hs as -> ->. simpl.
    destruct (get_negated chunk1) as [neg chunk2] eqn:En.
    destruct (if failed || bool_decide (s = []) then _ else _) as [r n] eqn:Er.
    rewrite class_loop_parse. destruct (parse_class _ chunk2 false) as [[rs chunk3]|] eqn:Ec; [|done].
    destruct (class_in_chunk _ _ _ _ _ En Ec E). simpl. rewrite IH by (try done; try lia; by apply ascii_drop).
    destruct (parse chunk3) as [ts|]; [|done]. simpl. f_equal. destruct failed; [done|].
    destruct s as [|x s]; [done|]. simpl. inversion Ha; subst.
    simpl in Er. rewrite (proj2 (Z.ltb_lt x RuneSelf)) in Er by done. injection Er as <- <-.
    unfold in_ranges. destruct neg, (existsb _ rs); done.
  - assert (forall chunk2, (length chunk2 <= length chunk1)%nat -> scan false chunk2 = (chunk2, []) ->
      forall t (s2 : bytes) (failed2 : bool), ascii_name s2 ->
      (forall ts, (if failed2 then None else match_toks ts s2) = if failed then None else match_toks (t :: ts) s) ->
      match_loop fuel chunk2 s2 failed2 =
        (fun ts => if failed then None else match_toks ts s) <$> (cons t <$> parse chunk2)) as Hstep.
    { intros chunk2 Hlen Hs2 t s2 failed2 Ha2 Heq. rewrite IH by (done || lia).
      destruct (parse chunk2) as [ts|]; [|done]. simpl. f_equal. by apply Heq. }
    destruct (c =? backslash) eqn:Hb; [apply Z.eqb_eq in Hb as ->; destruct chunk1 as [|d chunk2]; [done|]|].
    + destruct (scan false chunk2) as [a2 r2] eqn:E. injection Hs as -> ->. simpl.
      destruct failed; [by apply Hstep; [simpl; lia|done..]|]. destruct s as [|x s]; simpl.
      { by apply Hstep; [simpl; lia|done..]. }
      apply Hstep; [simpl; lia|done|by apply Forall_inv_tail in Ha|]. intros ts. apply lit_step.
    + destruct ((c =? star) && negb false) eqn:Hst; [done|]. rewrite andb_true_r in Hst. rewrite Hst.
      replace (if c =? rbracket then false else false) with false in Hs by by destruct (c =? rbracket).
      destruct (scan false chunk1) as [a2 r2] eqn:E. injection Hs as -> ->. simpl.
      destruct (c =? quest); (destruct failed; [by apply Hstep; [lia|done..]|]);
        (destruct s as [|x s]; simpl; [by apply Hstep; [lia|done..]|]);
        inversion Ha as [|?? Hx Hs]; subst; [unfold RuneSelf; go_tests|];
        (apply Hstep; [lia|done..|]); intros ts; [|apply lit_step].
      simpl. rewrite drop_0. destruct (Z.eqb_spec x slash); [by subst|].
      by rewrite bool_decide_eq_false_2 by congruence.
Qed.

Lemma matchChunk_parse chunk s : scan false chunk = (chunk, []) -> ascii_name s ->
  matchChunk chunk s = (fun ts => match_toks ts s) <$> parse chunk.
Proof. intros H1 H2. unfold matchChunk. by rewrite match_loop_parse by (done || lia). Qed.

(** ** Globs *)

Definition star_free (ts : list tok) : Prop := Forall (fun t => t <> TStar) ts.

Lemma parse_star_free p : forall ts, scan false p = (p, []) -> parse p = Some ts -> star_free ts.
Proof.
  induction p as [p IH] using (induction_ltof1 _ (@length Z)). unfold ltof in IH. intros ts Hs Hp.
  destruct p as [|c p1]; [injection Hp as <-; constructor|].
  rewrite parse_cons in Hp. unfold parse_step in Hp. cbn [scan] in Hs.
  assert (forall q t o, (length q < length (c :: p1))%nat -> scan false q = (q, []) -> t <> TStar ->
    cons t <$> parse q = o -> o = Some ts -> star_free ts) as Hstep.
  { intros q t o Hlen Hq Ht <- Ho. destruct (parse q) as [ts'|] eqn:E; [|done]. injection Ho as <-.
    constructor; [done|]. by eapply IH. }
  destruct (c =? star) eqn:Hst.
  { apply Z.eqb_eq in Hst as ->. discriminate Hs. }
  destruct (c =? lbracket) eqn:Hl; [apply Z.eqb_eq in Hl as ->; simpl in Hs, Hp|].
  - destruct (scan true p1) as [a1 r1] eqn:E. injection Hs as -> ->.
    destruct (get_negated p1) as [neg p2] eqn:En.
    destruct (parse_class _ p2 false) as [[rs p3]|] eqn:Ec; [|done].
    destruct (class_in_chunk _ _ _ _ _ En Ec E). simpl in Hp.
    eapply (Hstep p3); [simpl; lia|done| |reflexivity|exact Hp]; done.
  - destruct (c =? backslash) eqn:Hb; [apply Z.eqb_eq in Hb as ->; destruct p1 as [|d p2]; [done|]|].
    + destruct (scan false p2) as [a1 r1] eqn:E. injection Hs as -> ->.
      eapply (Hstep p2); [simpl; lia|done| |reflexivity|exact Hp]; done.
    + simpl in Hs. replace (if c =? rbracket then false else false) with false in Hs by by destruct (c =? rbracket).
      destruct (scan false p1) as [a1 r1] eqn:E. injection Hs as -> ->.
      destruct (c =? quest); (eapply (Hstep p1); [simpl; lia|exact E| |reflexivity|exact Hp]; done).
Qed.

Lemma glob_app tc ts s : star_free tc ->
  glob (tc ++ ts) s = match match_toks tc s with Some t => glob ts t | None => false end.
Proof.
  intros H. revert s. induction H as [|t tc Ht _ IH]; intros s; [done|].
  destruct t; [done| | |]; (destruct s as [|x s]; [done|]); cbn [app glob match_toks];
    rewrite IH; by destruct (tok_match _ x).
Qed.

Lemma match_toks_drop tc : forall s t, match_toks tc s = Some t -> t = drop (length tc) s.
Proof.
  induction tc as [|k tc IH]; intros s t; [by intros [= <-]|].
  destruct s as [|c s]; [done|]. simpl. destruct (tok_match k c); [by apply IH|done].
Qed.

Definition no_slash (s : bytes) : Prop := Forall (fun c => c <> slash) s.

Lemma glob_star ts c s : glob (TStar :: ts) (c :: s) =
  glob ts (c :: s) || (negb (c =? slash) && glob (TStar :: ts) s).
Proof. done. Qed.

Lemma glob_star_nil ts : glob (TStar :: ts) [] = glob ts [].
Proof. simpl. by rewrite orb_false_r. Qed.

Lemma glob_star_here ts s : glob ts s = true -> glob (TStar :: ts) s = true.
Proof. intros H. destruct s; [by rewrite glob_star_nil|]. by rewrite glob_star, H. Qed.

Lemma glob_star_star ts s : glob (TStar :: TStar :: ts) s = glob (TStar :: ts) s.
Proof.
  induction s as [|c s IH]; [by rewrite !glob_star_nil|]. rewrite (glob_star (TStar :: ts)), IH, glob_star.
  by destruct (glob ts (c :: s)), (negb (c =? slash) && glob (TStar :: ts) s).
Qed.

Lemma glob_star_drop ts s i : no_slash s -> glob (TStar :: ts) (drop i s) = true -> glob (TStar :: ts) s = true.
Proof.
  intros Hs. revert i. induction Hs as [|c s Hc Hs IH]; intros [|i] H; try done.
  rewrite glob_star, (proj2 (Z.eqb_neq c slash)), (IH i H) by done. apply orb_true_r.
Qed.

(** A star before tokens that match a suffix. *)
Lemma glob_star_suffix ts s : no_slash s ->
  glob (TStar :: ts) s = true <-> exists i, glob ts (drop i s) = true.
Proof.
  intros Hs. split.
  - induction Hs as [|c s Hc Hs IH]; [rewrite glob_star_nil; by exists 0%nat|].
    rewrite glob_star. intros [H|H]%orb_true_iff; [by exists 0%nat|].
    apply andb_true_iff in H as [_ H]. destruct (IH H) as [i Hi]. by exists (S i).
  - intros [i Hi]. eapply glob_star_drop; [done|]. by apply glob_star_here.
Qed.

(** ** [Match] *)

(** [ts] are the tokens of what follows a chunk: nothing after the last one, else a
    star first. *)
Definition follows (last : bool) (ts : list tok) : Prop :=
  if last then ts = [] else exists ts', ts = TStar :: ts'.

Definition after (ts : list tok) (r : option bytes) : bool :=
  match r with Some t => glob ts t | None => false end.

(** The first place where a chunk matches is as good as any later one. *)
Lemma leftmost tc ts s t : star_free tc -> no_slash s -> match_toks tc s = Some t ->
  glob (TStar :: tc ++ TStar :: ts) s = glob (TStar :: ts) t.
Proof.
  intros Hsf Hns Hm. apply eq_true_iff_eq. rewrite glob_star_suffix by done. split.
  - intros [i Hi]. rewrite glob_app in Hi by done.
    destruct (match_toks tc (drop i s)) as [t'|] eqn:Hm'; [|done].
    apply match_toks_drop in Hm as ->, Hm' as ->. rewrite drop_drop in Hi.
    apply (glob_star_drop _ _ i); [by apply Forall_drop|]. rewrite drop_drop. by rewrite Nat.add_comm.
  - intros H. exists 0%nat. rewrite drop_0, glob_app by done. by rewrite Hm.
Qed.

Section Chunk.
Context (chunk : bytes) (tc ts : list tok) (last : bool).
Context (Hchunk : scan false chunk = (chunk, [])) (Htc : parse chunk = Some tc) (Hts : follows last ts).

Lemma chunk_star_free : star_free tc.
Proof. by eapply parse_star_free. Qed.

Lemma chunk_match s : ascii_name s -> matchChunk chunk s = Some (match_toks tc s).
Proof. intros Ha. by rewrite matchChunk_parse, Htc. Qed.

(** A match is taken unless the pattern ends and the name does not. *)
Lemma chunk_taken s t : no_slash s -> match_toks tc s = Some t ->
  (if last && negb (bool_decide (t = [])) then glob (tc ++ ts) s = false
   else glob (TStar :: tc ++ ts) s = glob ts t).
Proof.
  intros Hns Hm. pose proof chunk_star_free as Hsf. unfold follows in Hts.
  destruct last; simpl; [subst ts|].
  - case_bool_decide as Ht; simpl; [subst|].
    + apply eq_true_iff_eq. split; [done|intros _]. apply glob_star_here. by rewrite glob_app, Hm.
    + rewrite glob_app, Hm by done. simpl. by apply bool_decide_eq_false_2.
  - destruct Hts as [ts' ->]. by apply leftmost.
Qed.

Lemma star_loop_spec name : ascii_name name -> no_slash name ->
  exists r, star_loop chunk last name = Some r /\ (forall t, r = Some t -> t `suffix_of` name) /\
    after ts r = match name with [] => false | _ :: name1 => glob (TStar :: tc ++ ts) name1 end.
Proof.
  induction name as [|c name IH]; intros Ha Hns; [by exists None|].
  apply Forall_cons in Ha as [Hc Ha], Hns as [Hcs Hns]. cbn [star_loop].
  rewrite (proj2 (Z.eqb_neq c slash)), chunk_match by done.
  destruct (IH Ha Hns) as (r & Er & Hsuf & Hr).
  assert (forall t, r = Some t -> t `suffix_of` c :: name) as Hsuf' by (intros t Ht; by apply suffix_cons_r, Hsuf).
  assert (glob (tc ++ ts) name = false -> after ts r = glob (TStar :: tc ++ ts) name) as Hskip.
  { intros Hf. rewrite Hr. destruct name as [|d name]; [by rewrite glob_star_nil|].
    apply Forall_cons in Hns as [Hd _]. by rewrite glob_star, Hf, (proj2 (Z.eqb_neq d slash)). }
  destruct (match_toks tc name) as [t|] eqn:Hm.
  - pose proof (chunk_taken name t Hns Hm) as Ht. destruct (last && _); [by eauto|].
    exists (Some t). split_and!; [done| |done]. intros ? [= <-]. apply match_toks_drop in Hm as ->.
    apply suffix_cons_r. by apply suffix_drop.
  - exists r. split_and!; [done..|]. apply Hskip. rewrite glob_app by apply chunk_star_free. by rewrite Hm.
Qed.
End Chunk.

Lemma skip_stars_spec p : forall st p1, skip_stars p = (st, p1) ->
  head p1 <> Some star /\ (length p1 + (if st then 1 else 0) <= length p)%nat /\
  exists n, (n = 0%nat <-> st = false) /\ parse p = app (replicate n TStar) <$> parse p1.
Proof.
  induction p as [|c p IH]; intros st p1; simpl.
  { intros [= <- <-]. split_and!; [done..|]. exists 0%nat. split; [done|]. by destruct (parse []). }
  destruct (c =? star) eqn:Hc.
  - destruct (skip_stars p) as [st' p2] eqn:E. simpl. intros [= <- <-].
    destruct (IH _ _ eq_refl) as (Hh & Hlen & n & _ & Hp). split; [done|]. split; [destruct st'; lia|].
    exists (S n). split; [done|]. rewrite parse_cons. unfold parse_step. rewrite Hc, Hp. by destruct (parse p2).
  - intros [= <- <-]. split; [by intros [= ->]|]. split; [simpl; lia|]. exists 0%nat.
    split; [done|]. by destruct (parse (c :: p)).
Qed.

Lemma glob_stars n ts s : glob (replicate (S n) TStar ++ ts) s = glob (TStar :: ts) s.
Proof.
  induction n as [|n IH]; [done|]. rewrite <- IH. cbn [replicate app]. apply glob_star_star.
Qed.

Definition star_prefix (st : bool) (ts : list tok) : list tok := if st then TStar :: ts else ts.

Lemma scanChunk_spec p st chunk rest : scanChunk p = (st, chunk, rest) -> p <> [] ->
  scan false chunk = (chunk, []) /\ (length rest < length p)%nat /\
  (chunk = [] -> st = true /\ rest = []) /\
  (forall ts, parse rest = Some ts -> follows (bool_decide (rest = [])) ts) /\
  (forall name, ref_match p name =
     (tc ← parse chunk; ts ← parse rest; Some (glob (star_prefix st (tc ++ ts)) name))).
Proof.
  unfold scanChunk. destruct (skip_stars p) as [st' p1] eqn:Ek. destruct (scan false p1) as [a r] eqn:Es.
  intros [= -> -> ->] Hne. destruct (skip_stars_spec _ _ _ Ek) as (Hh & Hlen & n & Hn & Hp).
  destruct (scan_spec _ _ _ _ Es) as (E1 & E2 & E3).
  assert (chunk = [] -> rest = []) as Hcr.
  { intros ->. destruct E3 as [|[r' ->]]; [done|]. by rewrite E1 in Hh. }
  split; [done|]. split.
  { rewrite E1, length_app in Hlen. destruct st; [lia|]. destruct chunk; [|simpl in Hlen; lia].
    rewrite Hcr in * by done. destruct p; [done|simpl; lia]. }
  split.
  { intros Hc. split; [|auto]. destruct st; [done|]. exfalso. rewrite Hc, (Hcr Hc) in E1.
    destruct p as [|c p]; [done|]. cbn [skip_stars] in Ek. case_match; simplify_eq. }
  split.
  { intros ts Ht. unfold follows. destruct E3 as [->|[r' ->]]; [by injection Ht as <-|].
    rewrite bool_decide_eq_false_2 by done. rewrite parse_cons in Ht. unfold parse_step in Ht. simpl in Ht.
    destruct (parse r') as [ts'|]; [|done]. injection Ht as <-. eauto. }
  intros name. unfold ref_match. rewrite Hp, (scan_parse _ _ _ Es). unfold parse_seq.
  destruct (parse chunk) as [tc|]; [|done]. simpl. destruct (parse rest) as [ts|]; [|done]. simpl.
  f_equal. destruct st; [|by rewrite (proj2 Hn)].
  destruct n as [|n]; [by discriminate (proj1 Hn eq_refl)|]. apply glob_stars.
Qed.

Lemma check_rest_parse fuel : forall p, (length p < fuel)%nat -> check_rest fuel p = (fun _ => ()) <$> parse p.
Proof.
  induction fuel as [|fuel IH]; intros p Hf; [lia|]. destruct p as [|c p]; [done|]. cbn [check_rest].
  destruct (scanChunk (c :: p)) as [[st chunk] rest] eqn:E.
  apply scanChunk_spec in E as (E1 & Hlen & _ & _ & E4); [|done]. specialize (E4 []).
  rewrite matchChunk_parse by (done || constructor). unfold ref_match in E4.
  destruct (parse chunk) as [tc|]; simpl in *; [|by destruct (parse (c :: p))].
  rewrite IH by lia. destruct (parse rest), (parse (c :: p)); done.
Qed.

Lemma contains_slash s : no_slash s -> contains_byte slash s = false.
Proof. apply contains_byte_false. Qed.

Lemma glob_all s : no_slash s -> glob [TStar] s = true.
Proof. intros H. apply glob_star_suffix; [done|]. exists (length s). by rewrite drop_all. Qed.

Lemma suffix_Forall {A} (P : A -> Prop) (t s : list A) : t `suffix_of` s -> Forall P s -> Forall P t.
Proof. intros [k ->]. by intros [_ ?]%Forall_app. Qed.

(** The part of an iteration after a chunk did not match at the start of the name. *)
Lemma skip_spec chunk tc rest st name (k : bytes -> option bool) (no_match : option bool) :
  scan false chunk = (chunk, []) -> parse chunk = Some tc -> ascii_name name -> no_slash name ->
  (forall ts, parse rest = Some ts -> follows (bool_decide (rest = [])) ts) ->
  (forall t, t `suffix_of` name -> k t = (fun ts => glob ts t) <$> parse rest) ->
  no_match = (fun _ => false) <$> parse rest ->
  (if st : bool then
     r ← star_loop chunk (bool_decide (rest = [])) name;
     match r with Some t => k t | None => no_match end
   else no_match) =
  (fun ts => st && match name with [] => false | _ :: name1 => glob (TStar :: tc ++ ts) name1 end) <$> parse rest.
Proof.
  intros Hc Htc Ha Hns Hfol Hk ->. destruct st; [|done]. simpl.
  assert (exists ts, follows (bool_decide (rest = [])) ts /\ (parse rest = None \/ parse rest = Some ts)) as (ts & Hts & Hp).
  { destruct (parse rest) as [ts|] eqn:E; [by eauto|]. exists [TStar].
    destruct rest; [done|]. rewrite bool_decide_eq_false_2 by done. split; [by exists []|by left]. }
  destruct (star_loop_spec chunk tc ts _ Hc Htc Hts name Ha Hns) as (r & -> & Hsuf & Hr). simpl.
  destruct r as [t|]; [rewrite Hk by auto|]; destruct Hp as [->| ->]; try done; simpl in *; by rewrite <- Hr.
Qed.

Lemma match_toks_suffix tc name t : match_toks tc name = Some t -> t `suffix_of` name.
Proof. intros H. apply match_toks_drop in H as ->. apply suffix_drop. Qed.

Lemma skip_miss st ts name : no_slash name -> glob ts name = false ->
  st && match name with [] => false | _ :: name1 => glob (TStar :: ts) name1 end = glob (star_prefix st ts) name.
Proof.
  intros Hns Hf. destruct st; [rewrite andb_true_l|by symmetry]. unfold star_prefix.
  destruct Hns as [|c name Hc _]; [by rewrite glob_star_nil|].
  by rewrite glob_star, Hf, (proj2 (Z.eqb_neq c slash)).
Qed.

(** The two matchers agree on names of ASCII characters without a slash. *)
Lemma Match_loop_ref fuel : forall p name, (length p < fuel)%nat -> ascii_name name -> no_slash name ->
  Match_loop fuel p name = ref_match p name.
Proof.
  induction fuel as [|fuel IH]; intros p name Hf Ha Hns; [lia|]. destruct p as [|c p]; [done|].
  cbn [Match_loop]. destruct (scanChunk (c :: p)) as [[st chunk] rest] eqn:E.
  apply scanChunk_spec in E as (E1 & Hlen & Hempty & Hfol & ->); [|done].
  rewrite check_rest_parse, matchChunk_parse by (done || lia).
  destruct (st && bool_decide (chunk = [])) eqn:Hsc.
  { apply andb_true_iff in Hsc as [-> Hc]. apply bool_decide_eq_true in Hc.
    destruct (Hempty Hc) as [_ ->]. subst chunk. rewrite contains_slash by done.
    change (parse []) with (Some (@nil tok)). cbn [mbind option_bind app star_prefix]. by rewrite glob_all. }
  destruct (parse chunk) as [tc|] eqn:Etc; [|done]. cbn [mbind option_bind fmap option_fmap option_map].
  assert (forall t, t `suffix_of` name -> Match_loop fuel rest t = (fun ts => glob ts t) <$> parse rest) as Hk.
  { intros t Ht. apply IH; [simpl in *; lia|by eapply suffix_Forall..]. }
  rewrite (skip_spec chunk tc rest st name _ _ E1 Etc Ha Hns Hfol Hk) by (by destruct (parse rest)).
  assert (star_free tc) as Hsf by by eapply chunk_star_free.
  destruct (match_toks tc name) as [t|] eqn:Hm.
  - destruct (parse rest) as [ts|] eqn:Ep; [|rewrite Hk by (eapply match_toks_suffix; done); by case_match].
    pose proof (chunk_taken _ _ _ _ E1 Etc (Hfol ts eq_refl) name t Hns Hm) as Ht.
    replace (bool_decide (t = []) || negb (bool_decide (rest = [])))
      with (negb (bool_decide (rest = []) && negb (bool_decide (t = []))))
      by (by destruct (bool_decide (rest = [])), (bool_decide (t = []))).
    destruct (bool_decide (rest = []) && negb (bool_decide (t = []))); cbn [negb fmap option_fmap option_map mbind option_bind].
    { f_equal. by apply skip_miss. }
    rewrite Hk by (by eapply match_toks_suffix). simpl. f_equal.
    destruct st; [by rewrite <- Ht|]. unfold star_prefix. by rewrite glob_app, Hm.
  - destruct (parse rest) as [ts|]; [|done]. simpl. f_equal. apply skip_miss; [done|].
    rewrite glob_app by done. by rewrite Hm.
Qed.

Lemma matchPattern_glob pattern key : ascii_name key -> no_slash key ->
  matchPattern pattern key = match parse pattern with Some ts => glob ts key | None => false end.
Proof.
  intros Ha Hs. unfold matchPattern, Match. rewrite Match_loop_ref by (done || lia).
  unfold ref_match. by destruct (parse pattern).
Qed.
