(* ===== verification/Clock.v ===== *)
(** * Times: the part of Go's [time] the monitoring snapshot uses

    [time.Unix] and the layout [time.RFC3339]; the calendar is the proleptic
    Gregorian one.  A printed time read back gives the second it was printed for. *)
From stdpp Require Import base list strings.
From Stdlib Require Import Ascii.
From S2P Require Import Prelude NetAddr Text.
Local Open Scope list_scope.
Local Open Scope Z_scope.

(** ** The calendar

    Days are counted from 1970-01-01; a computational year starts in March, 719468
    days are from 0000-03-01 to the epoch, and 400 years have 146097 days. *)

Definition year_of_era (doe : Z) : Z := (doe - doe / 1460 + doe / 36524 - doe / 146096) / 365.

(** Year, month, day. *)
Definition civil (days : Z) : Z * Z * Z :=
  let z := days + 719468 in
  let era := z / 146097 in
  let doe := z mod 146097 in
  let yoe := year_of_era doe in
  let doy := doe - (365 * yoe + yoe / 4 - yoe / 100) in
  let mp := (5 * doy + 2) / 153 in
  let d := doy - (153 * mp + 2) / 5 + 1 in
  let m := if mp <? 10 then mp + 3 else mp - 9 in
  (yoe + era * 400 + (if m <=? 2 then 1 else 0), m, d).

(** The number of a date, counted directly: whole years, leap days, months. *)
Definition is_leap (y : Z) : bool :=
  (y mod 4 =? 0) && (negb (y mod 100 =? 0) || (y mod 400 =? 0)).
Definition month_days (y m : Z) : Z :=
  if m =? 2 then (if is_leap y then 29 else 28)
  else if (m =? 4) || (m =? 6) || (m =? 9) || (m =? 11) then 30 else 31.
Definition leaps_before (y : Z) : Z := (y - 1) / 4 - (y - 1) / 100 + (y - 1) / 400.
Definition days_before_year (y : Z) : Z := 365 * (y - 1970) + (leaps_before y - leaps_before 1970).
Definition days_before_month (y m : Z) : Z :=
  foldr (fun i acc => month_days y (Z.of_nat i) + acc) 0 (seq 1 (Z.to_nat (m - 1))).
Definition days_of (y m d : Z) : Z := days_before_year y + days_before_month y m + (d - 1).

(** ** RFC 3339 *)

Definition pad2 (n : Z) : bytes := [48 + n / 10; 48 + n mod 10].
Definition pad4 (n : Z) : bytes := pad2 (n / 100) ++ pad2 (n mod 100).

Definition T_ : Z := Eval vm_compute in chr "T".
Definition Z_ : Z := Eval vm_compute in chr "Z".

(** The zone: [Z], or the sign, hours and minutes of an offset in seconds. *)
Definition zone_text (offset : Z) : bytes :=
  if offset =? 0 then [Z_]
  else
    let zone := Z.quot offset 60 in
    let '(sign, zone) := if zone <? 0 then (minus, - zone) else (plus, zone) in
    sign :: pad2 (zone / 60) ++ [colon] ++ pad2 (zone mod 60).

(** [t.Format(time.RFC3339)] of the Unix second [sec] in a zone [offset] seconds east
    of Greenwich, for the years 0 to 9999. *)
Definition FormatRFC3339 (offset sec : Z) : bytes :=
  let abs := sec + offset in
  let '(y, m, d) := civil (abs / 86400) in
  let s := abs mod 86400 in
  pad4 y ++ [minus] ++ pad2 m ++ [minus] ++ pad2 d ++ [T_] ++
  pad2 (s / 3600) ++ [colon] ++ pad2 (s / 60 mod 60) ++ [colon] ++ pad2 (s mod 60) ++ zone_text offset.

(** ** Reading it back *)

Definition two (a b : Z) : option Z :=
  if is_digit a && is_digit b then Some ((a - 48) * 10 + (b - 48)) else None.

Definition read_zone (s : bytes) : option Z :=
  match s with
  | [z] => if z =? Z_ then Some 0 else None
  | [sg; h1; h2; c; m1; m2] =>
      h ← two h1 h2; m ← two m1 m2;
      if c =? colon then
        if sg =? plus then Some (h * 3600 + m * 60)
        else if sg =? minus then Some (- (h * 3600 + m * 60)) else None
      else None
  | _ => None
  end.

(** The Unix second of an RFC 3339 text. *)
Definition ReadRFC3339 (s : bytes) : option Z :=
  match s with
  | y1 :: y2 :: y3 :: y4 :: s1 :: m1 :: m2 :: s2 :: d1 :: d2 :: t :: h1 :: h2 :: c1 :: n1 :: n2 :: c2 :: e1 :: e2 :: zn =>
      if (s1 =? minus) && (s2 =? minus) && (t =? T_) && (c1 =? colon) && (c2 =? colon) then
        ya ← two y1 y2; yb ← two y3 y4; m ← two m1 m2; d ← two d1 d2;
        h ← two h1 h2; mi ← two n1 n2; e ← two e1 e2; off ← read_zone zn;
        Some (days_of (ya * 100 + yb) m d * 86400 + h * 3600 + mi * 60 + e - off)
      else None
  | _ => None
  end.

(** ** The calendar is right *)

Lemma year_of_era_spec doe : 0 <= doe < 146097 ->
  0 <= year_of_era doe <= 399 /\
  0 <= doe - (365 * year_of_era doe + year_of_era doe / 4 - year_of_era doe / 100) <= 365.
Proof.
  intros H. unfold year_of_era. destruct (decide (doe = 146096)) as [->|]; [vm_compute; split; split; discriminate|].
  rewrite (Z.div_small doe 146096) by lia. Z.to_euclidean_division_equations; lia.
Qed.

(** The days before a month, written out. *)
Lemma days_before_month_eq y m : 1 <= m <= 12 ->
  days_before_month y m =
    (if m <=? 2 then 31 * (m - 1)
     else 59 + (if is_leap y then 1 else 0) + (153 * (m - 3) + 2) / 5).
Proof.
  intros Hm. assert (m = 1 \/ m = 2 \/ m = 3 \/ m = 4 \/ m = 5 \/ m = 6 \/ m = 7 \/ m = 8 \/ m = 9 \/ m = 10
    \/ m = 11 \/ m = 12) as Hc by lia.
  unfold days_before_month, month_days. destruct (is_leap y); intuition subst; reflexivity.
Qed.

Lemma is_leap_count y : leaps_before (y + 1) = leaps_before y + (if is_leap y then 1 else 0).
Proof.
  unfold leaps_before, is_leap.
  destruct (Z.eqb_spec (y mod 4) 0), (Z.eqb_spec (y mod 100) 0), (Z.eqb_spec (y mod 400) 0); simpl;
    Z.to_euclidean_division_equations; lia.
Qed.

Lemma civil_spec days y m d : civil days = (y, m, d) ->
  days_of y m d = days /\ 1 <= m <= 12 /\ 1 <= d <= 31.
Proof.
  unfold civil. pose proof (Z.mod_pos_bound (days + 719468) 146097 ltac:(lia)) as Hb.
  pose proof (Z.div_mod (days + 719468) 146097 ltac:(lia)) as Hdm.
  remember ((days + 719468) / 146097) as era in *. remember ((days + 719468) mod 146097) as doe in *.
  destruct (year_of_era_spec doe Hb) as [Hy Hd]. remember (year_of_era doe) as yoe in *.
  remember (doe - (365 * yoe + yoe / 4 - yoe / 100)) as doy eqn:Hdoy in *.
  remember ((5 * doy + 2) / 153) as mp eqn:Hmp in *. clear Heqera Heqdoe Heqyoe. intros [= Ey Em Ed].
  assert (0 <= mp <= 11) by (clear - Hmp Hd; Z.to_euclidean_division_equations; lia).
  assert (1 <= d <= 31) as Hd' by (clear - Hmp Hd Ed; Z.to_euclidean_division_equations; lia).
  assert (1 <= m <= 12) as Hm by (subst m; destruct (Z.ltb_spec mp 10); lia).
  rewrite Em in Ey. split; [|done]. unfold days_of. rewrite days_before_month_eq by done.
  unfold days_before_year. change (leaps_before 1970) with 477.
  destruct (Z.ltb_spec mp 10).
  - rewrite (proj2 (Z.leb_gt m 2)) in * by lia. cbv iota in Ey.
    pose proof (is_leap_count y) as Hl. unfold leaps_before in Hl at 1.
    replace (y + 1 - 1) with y in Hl by lia. replace (m - 3) with mp by lia.
    assert (y / 4 - y / 100 + y / 400 = yoe / 4 - yoe / 100 + 97 * era) as Hq
      by (clear - Ey Hy; subst y; Z.to_euclidean_division_equations; lia).
    lia.
  - rewrite (proj2 (Z.leb_le m 2)) in * by lia. cbv iota in Ey.
    assert (leaps_before y = yoe / 4 - yoe / 100 + 97 * era) as Hq
      by (clear - Ey Hy; unfold leaps_before; subst y; Z.to_euclidean_division_equations; lia).
    assert ((153 * mp + 2) / 5 = 306 + 31 * (mp - 10)) as Hmp'
      by (assert (mp = 10 \/ mp = 11) as [->| ->] by lia; reflexivity).
    lia.
Qed.

Lemma civil_year days y m d : civil days = (y, m, d) -> -719000 <= days < 2786000 -> 0 <= y <= 9999.
Proof.
  unfold civil. intros [= Ey _ _] H.
  pose proof (Z.mod_pos_bound (days + 719468) 146097 ltac:(lia)) as Hb.
  destruct (year_of_era_spec _ Hb) as [Hy _]. set (yoe := year_of_era _) in *. clearbody yoe.
  subst y. case_match; Z.to_euclidean_division_equations; lia.
Qed.

(** ** The round trip *)

Lemma two_pad2 n : 0 <= n < 100 -> two (48 + n / 10) (48 + n mod 10) = Some n.
Proof.
  intros H. unfold two, is_digit.
  assert (0 <= n / 10 <= 9 /\ 0 <= n mod 10 <= 9) by (Z.to_euclidean_division_equations; lia).
  go_tests. simpl. f_equal. Z.to_euclidean_division_equations; lia.
Qed.

(** An offset in whole minutes, of less than 24 hours. *)
Definition zone_ok (offset : Z) : Prop := offset mod 60 = 0 /\ -86400 < offset < 86400.

Lemma read_zone_text offset : zone_ok offset -> read_zone (zone_text offset) = Some offset.
Proof.
  intros [Hm Hr]. unfold zone_text. destruct (Z.eqb_spec offset 0) as [->|Hne]; [done|].
  destruct (Z.ltb_spec (Z.quot offset 60) 0); cbn [app pad2 read_zone];
    rewrite !two_pad2 by (Z.to_euclidean_division_equations; lia); cbn; f_equal;
    Z.to_euclidean_division_equations; lia.
Qed.

(** A time printed by [FormatRFC3339] is read back to its second. *)
Lemma Read_Format offset sec : zone_ok offset -> -62000000000 <= sec <= 240000000000 ->
  ReadRFC3339 (FormatRFC3339 offset sec) = Some sec.
Proof.
  intros Hz Hs. unfold FormatRFC3339. destruct (civil ((sec + offset) / 86400)) as [[y m] d] eqn:E.
  pose proof Hz as [_ Hz'].
  assert (-719000 <= (sec + offset) / 86400 < 2786000) as Hdays by (Z.to_euclidean_division_equations; lia).
  pose proof (civil_year _ _ _ _ E Hdays) as Hy. apply civil_spec in E as (Ed & Hm & Hd).
  unfold pad4. cbn [app pad2 ReadRFC3339 Z.eqb Pos.eqb minus T_ colon andb].
  rewrite !two_pad2 by (Z.to_euclidean_division_equations; lia). cbn [mbind option_bind].
  rewrite read_zone_text by done. cbn [mbind option_bind]. f_equal.
  replace (y / 100 * 100 + y mod 100) with y by (Z.to_euclidean_division_equations; lia).
  rewrite Ed. clear. Z.to_euclidean_division_equations; lia.
Qed.
