(* ===== verification/Client.v ===== *)
(** * The client proxy (src/proxy/client.go)

    Stream numbers, the CONNECT handshake of an intercepted connection, the
    demultiplexer, clean-up and shutdown of [ClientPEP].  Every goroutine is a
    step function, one step per critical section; [client_step] interleaves any
    number of handlers with the other goroutines and with the environment. *)
From stdpp Require Import base gmap strings list list_numbers pretty relations.
From S2P Require Import Prelude Protocol Fec Shaper Duration Session SessionRecv SendSpec RecvSpec E2E Frame Pep NetAddr Router.
Local Open Scope string_scope.
Local Open Scope list_scope.
Local Open Scope Z_scope.
Local Open Scope go_scope.

(** ** Stream numbers *)

Definition next_id (last : Z) : Z := last mod 4095 + 1.

(** The loop of [getNextStreamID]: the new [lastID] and the result; [None] when
    the fuel is used up. *)
Fixpoint next_id_loop (fuel : nat) (used : gmap Z nat) (start last : Z) : option (Z * result Z) :=
  match fuel with
  | O => None
  | S fuel =>
      let last := next_id last in
      match used !! last with
      | None => Some (last, Ok last)
      | Some _ =>
          if last =? start then Some (last, Err "out of stream IDs")
          else next_id_loop fuel used start last
      end
  end.

Definition id_fuel : nat := Z.to_nat 4096.

(** ** Reference: the numbers in the order they are tried *)

Definition id_order (last : Z) : list Z := map (fun i => (last + i) mod 4095 + 1) (seqZ 0 4095).

Definition first_free (used : gmap Z nat) (l : list Z) : option Z :=
  head (filter (fun id => used !! id = None) l).

Lemma next_id_range last : 0 <= last -> 1 <= next_id last <= 4095.
Proof. intros. unfold next_id. go_range. Qed.

Lemma next_id_iter last i : 0 <= last -> 0 <= i ->
  next_id ((last + i) mod 4095 + 1) = (last + (i + 1)) mod 4095 + 1.
Proof. intros. unfold next_id. rewrite Z.add_assoc. f_equal. by rewrite Zplus_mod_idemp_l. Qed.

(** The [i]-th candidate after [last]. *)
Abbreviation candidate last i := ((last + i) mod 4095 + 1).

Lemma candidate_start start i : 1 <= start <= 4095 -> 0 <= i < 4095 ->
  candidate start i = start <-> i = 4094.
Proof.
  intros Hs Hi. split; intros H; [|subst i; go_range].
  assert ((start + i) mod 4095 = start - 1) as E by lia.
  pose proof (Z.div_mod (start + i) 4095). pose proof (Z.mod_pos_bound (start + i) 4095).
  assert (4095 * ((start + i) / 4095) = i + 1) by lia.
  assert ((start + i) / 4095 = 1) by nia. lia.
Qed.

(** The loop when [n] candidates are left, from the [i]-th on. *)
Lemma next_id_loop_spec n used start : forall i last fuel,
  0 <= i -> i + Z.of_nat n = 4095 -> (n < fuel)%nat ->
  next_id last = candidate start i -> 0 <= start <= 4095 ->
  start <> 0 \/ first_free used (map (fun j => candidate start j) (seqZ i (Z.of_nat n))) <> None ->
  (1 <= n)%nat ->
  next_id_loop fuel used start last =
  match first_free used (map (fun j => candidate start j) (seqZ i (Z.of_nat n))) with
  | Some id => Some (id, Ok id)
  | None => Some (start, Err "out of stream IDs")
  end.
Proof.
  induction n as [|n IH]; intros i last fuel Hi Hn Hf Hnext Hs Hfree Hpos; [lia|].
  destruct fuel as [|fuel]; [lia|]. simpl next_id_loop. rewrite Hnext.
  rewrite seqZ_cons in * by lia. rewrite (Nat2Z.inj_succ n), Z.pred_succ in *.
  unfold first_free in *. simpl map in *. rewrite filter_cons in *.
  destruct (used !! candidate start i) as [ref|] eqn:Eu.
  2: { rewrite decide_True by done. done. }
  rewrite decide_False in * by done.
  destruct (decide (n = 0%nat)) as [->|Hn0].
  - change (Z.of_nat 0) with 0 in *. simpl in *. destruct Hfree as [Hfree|Hfree]; [|done].
    rewrite (proj2 (candidate_start start i ltac:(lia) ltac:(lia))) by lia. by rewrite Z.eqb_refl.
  - destruct (Z.eqb_spec (candidate start i) start) as [E|E].
    { exfalso. destruct (decide (start = 0)) as [->|]; [pose proof (Z.mod_pos_bound (0 + i) 4095); lia|].
      apply candidate_start in E; lia. }
    apply (IH (Z.succ i)); try lia; [|done].
    unfold Z.succ. apply next_id_iter; lia.
Qed.

Lemma id_order_elem last id : 0 <= last -> id ∈ id_order last <-> 1 <= id <= 4095.
Proof.
  intros Hl. unfold id_order. rewrite list_elem_of_fmap. split.
  - intros (i & -> & _). pose proof (Z.mod_pos_bound (last + i) 4095). lia.
  - intros Hid. exists ((id - 1 - last) mod 4095). rewrite elem_of_seqZ.
    split; [|pose proof (Z.mod_pos_bound (id - 1 - last) 4095); lia].
    rewrite Zplus_mod_idemp_r. replace (last + (id - 1 - last)) with (id - 1) by lia.
    rewrite Z.mod_small by lia. lia.
Qed.

Lemma candidate_inj last i j : 0 <= i < 4095 -> 0 <= j < 4095 ->
  candidate last i = candidate last j -> i = j.
Proof.
  intros Hi Hj E. assert ((last + i) mod 4095 = (last + j) mod 4095) as E' by lia.
  pose proof (Z.div_mod (last + i) 4095). pose proof (Z.div_mod (last + j) 4095).
  assert (i - j = 4095 * ((last + i) / 4095 - (last + j) / 4095)) by lia.
  assert ((last + i) / 4095 - (last + j) / 4095 = 0) by nia. lia.
Qed.

Lemma id_order_NoDup last : NoDup (id_order last).
Proof.
  apply NoDup_fmap_2_strong; [|apply NoDup_seqZ]. intros i j Hi%elem_of_seqZ Hj%elem_of_seqZ E.
  by eapply candidate_inj.
Qed.

Lemma first_free_Some used l id : first_free used l = Some id -> id ∈ l /\ used !! id = None.
Proof.
  unfold first_free. intros H%head_Some_elem_of. apply list_elem_of_filter in H. tauto.
Qed.

Lemma first_free_None used l id : first_free used l = None -> used !! id = None -> id ∈ l -> False.
Proof.
  unfold first_free. intros H%head_None Hid Hin.
  assert (id ∈ filter (fun id => used !! id = None) l) as Hf by (by apply list_elem_of_filter).
  rewrite H in Hf. by apply elem_of_nil in Hf.
Qed.

Lemma length_id_order last : Z.of_nat (length (id_order last)) = 4095.
Proof. unfold id_order. rewrite length_map, length_seqZ. lia. Qed.

Lemma id_order_lookup last j : Z.of_nat j < 4095 ->
  id_order last !! j = Some (candidate last (Z.of_nat j)).
Proof.
  intros Hj. unfold id_order. rewrite list_lookup_fmap.
  rewrite (proj2 (lookup_seqZ 0 4095 j (Z.of_nat j))); [done|]. lia.
Qed.

(** After the [i]-th candidate the order continues where it left off. *)
Lemma id_order_split last l1 id l2 :
  id_order last = l1 ++ id :: l2 -> id_order id = l2 ++ l1 ++ [id].
Proof.
  intros E. pose proof (length_id_order last) as Hlen. pose proof (length_id_order id) as Hlen'.
  rewrite E, length_app in Hlen. simpl in Hlen.
  assert (id = candidate last (Z.of_nat (length l1))) as Hid.
  { pose proof (id_order_lookup last (length l1) ltac:(lia)) as H. rewrite E in H.
    rewrite list_lookup_middle in H by done. by injection H. }
  eapply (list_eq_same_length _ _ (length (id_order id))); [|done|].
  { rewrite !length_app. simpl. lia. }
  intros j x y Hj Hx Hy. rewrite id_order_lookup in Hx by lia. simplify_eq Hx. intros <-.
  replace (candidate id (Z.of_nat j)) with (candidate last (Z.of_nat (length l1) + 1 + Z.of_nat j)).
  2: { rewrite Hid, <- (Z.add_assoc (_ mod _)), Zplus_mod_idemp_l. do 2 f_equal. lia. }
  destruct (decide (j < length l2)%nat) as [Hlt|Hge].
  - rewrite lookup_app_l in Hy by done.
    pose proof (id_order_lookup last (length l1 + S j) ltac:(lia)) as H. rewrite E in H.
    rewrite lookup_app_r in H by lia. replace (length l1 + S j - length l1)%nat with (S j) in H by lia.
    simpl in H. rewrite Hy in H. injection H as ->. do 2 f_equal. lia.
  - rewrite lookup_app_r in Hy by lia.
    pose proof (id_order_lookup last (j - length l2) ltac:(lia)) as H. rewrite E in H.
    replace (l1 ++ id :: l2) with ((l1 ++ [id]) ++ l2) in H by (by rewrite <- app_assoc).
    rewrite lookup_app_l, Hy in H by (rewrite length_app; simpl; lia). injection H as ->.
    f_equal. replace (last + (Z.of_nat (length l1) + 1 + Z.of_nat j))
      with (last + Z.of_nat (j - length l2) + 1 * 4095) by lia. by rewrite Z.mod_add.
Qed.

Lemma filter_cons_split {A} (P : A -> Prop) `{forall x, Decision (P x)} (l : list A) x rest :
  filter P l = x :: rest -> exists l1 l2, l = l1 ++ x :: l2 /\ filter P l1 = [] /\ P x /\ filter P l2 = rest.
Proof.
  induction l as [|y l IH]; [done|]. rewrite filter_cons. destruct (decide (P y)) as [Hy|Hy].
  - intros [= <- <-]. by exists [], l.
  - intros E. destruct (IH E) as (l1 & l2 & -> & H1 & H2 & H3).
    exists (y :: l1), l2. split_and!; try done. by rewrite filter_cons_False.
Qed.

Lemma id_order_rotate (used : gmap Z nat) last id rest :
  0 <= last -> filter (fun id => used !! id = None) (id_order last) = id :: rest ->
  1 <= id <= 4095 /\ filter (fun id => used !! id = None) (id_order id) = rest ++ [id].
Proof.
  intros Hl E. destruct (filter_cons_split _ _ _ _ E) as (l1 & l2 & El & F1 & Hid & F2). split.
  - apply (id_order_elem last id Hl). rewrite El. apply elem_of_app. right. apply list_elem_of_here.
  - rewrite (id_order_split _ _ _ _ El), !filter_app, F1, F2. by rewrite filter_cons_True.
Qed.

Lemma rotate_lookup {A} (x : A) l i :
  (l ++ [x]) !! (i mod (length l + 1))%nat = (x :: l) !! (S i mod S (length l))%nat.
Proof.
  rewrite Nat.add_1_r. set (n := length l).
  pose proof (Nat.mod_upper_bound i (S n) ltac:(lia)) as Hb.
  pose proof (Nat.div_mod_eq i (S n)) as Hd. set (q := (i / S n)%nat) in *. set (r := (i mod S n)%nat) in *.
  destruct (decide (r = n)) as [Er|Hr].
  - rewrite lookup_app_r by lia. replace (r - length l)%nat with 0%nat by lia.
    replace (S i) with (0 + (S q) * S n)%nat by lia. by rewrite Nat.Div0.mod_add, Nat.Div0.mod_0_l.
  - rewrite lookup_app_l by lia. replace (S i) with (S r + q * S n)%nat by lia.
    rewrite Nat.Div0.mod_add, Nat.mod_small by lia. done.
Qed.

Section Client.
Context {RS : ReedSolomon}.

(** ** The proxy *)

(** A channel of capacity one is its buffer; [pendingConnects] refers to channels
    by their position in [cl_chans]. *)
Record ClientPEP := mkClient {
  cl_pep : Pep;
  cl_listenAddr : string;
  cl_router : Router;
  cl_lastID : Z;
  cl_pending : gmap Z nat;
  cl_chans : list (option ConnReply);
}.

Abbreviation ClientM := (GoM ClientPEP PepEff).

Definition with_pep (c : ClientPEP) (p : Pep) : ClientPEP :=
  mkClient p (cl_listenAddr c) (cl_router c) (cl_lastID c) (cl_pending c) (cl_chans c).
Definition with_router (r : Router) (c : ClientPEP) : ClientPEP :=
  mkClient (cl_pep c) (cl_listenAddr c) r (cl_lastID c) (cl_pending c) (cl_chans c).
Definition with_lastID (id : Z) (c : ClientPEP) : ClientPEP :=
  mkClient (cl_pep c) (cl_listenAddr c) (cl_router c) id (cl_pending c) (cl_chans c).
Definition with_pending (m : gmap Z nat) (c : ClientPEP) : ClientPEP :=
  mkClient (cl_pep c) (cl_listenAddr c) (cl_router c) (cl_lastID c) m (cl_chans c).
Definition with_chans (l : list (option ConnReply)) (c : ClientPEP) : ClientPEP :=
  mkClient (cl_pep c) (cl_listenAddr c) (cl_router c) (cl_lastID c) (cl_pending c) l.

Definition on_pep {A} (m : GoM Pep PepEff A) : ClientM A := fun c =>
  '(a, p, es) ← m (cl_pep c); Some (a, with_pep c p, es).

Definition NewClientPEP (listenAddr : string) (router : Router) (mtu bandwidth k m idleTimeout : Z)
    : ClientPEP :=
  mkClient (new_pep (mkPepConfig mtu bandwidth k m idleTimeout) false) listenAddr router 0 ∅ [].

(** [None] is a loop that does not end: see [getNextStreamID_spec]. *)
Definition getNextStreamID : ClientM (result Z) :=
  let! c := go_get in
  let! r := go_opt (next_id_loop id_fuel (pep_sessions (cl_pep c)) (cl_lastID c) (cl_lastID c)) in
  do! go_modify (with_lastID r.1) in
  go_ret r.2.

Definition UpdateRouter (newRouter : Router) : ClientM unit := go_modify (with_router newRouter).

(** ** The handler of an intercepted connection *)

Definition connect_packet (id : Z) (dst : string) : Packet :=
  mkPacket TypeConnect id dst 0 0 0 false None 0.

(** Where [handleTCPConn] is: at its start, routed and about to allocate a stream
    number, about to register its channel, about to send the first CONNECT, in the
    [select] loop (with the time of the next tick and the deadline), after the
    handshake, about to start the session, returned. *)
Inductive HandlerPC :=
| HStart (conn : Conn)
| HAlloc (conn : Conn) (dst addr : string)
| HRegister (conn : Conn) (dst addr : string) (id : Z)
| HConnect (conn : Conn) (dst addr : string) (id : Z) (ch : nat)
| HWait (conn : Conn) (addr : string) (id : Z) (ch : nat) (buf : bytes) (tick deadline : Z)
| HSucceeded (conn : Conn) (addr : string) (id : Z)
| HRun (ref : nat)
| HReturned.

(** The case the [select] takes. *)
Inductive SelectCase := SelChan | SelTick | SelTimeout.

(** [_ = conn.Close(); return] *)
Definition give_up_conn (conn : Conn) : ClientM HandlerPC :=
  do! go_emit (PConnClose conn) in go_ret HReturned.

Definition delete_pending (id : Z) : ClientM unit :=
  go_modify (fun c => with_pending (delete id (cl_pending c)) c).

(** The ticker of 300 ms drops the ticks that nobody received. *)
Definition next_tick (now tick : Z) : Z :=
  tick + 300 * Millisecond * ((now - tick) / (300 * Millisecond) + 1).

(** [select] in the loop that waits for the answer.  A case that is not ready
    leaves everything as it is. *)
Definition handler_select (now : Z) (sel : SelectCase) (conn : Conn) (addr : string) (id : Z)
    (ch : nat) (buf : bytes) (tick deadline : Z) : ClientM HandlerPC :=
  let! c := go_get in
  match sel with
  | SelChan =>
      match cl_chans c !! ch with
      | Some (Some reply) =>
          do! go_modify (with_chans (<[ch := None]> (cl_chans c))) in
          match reply with
          | ConnFailed _ => give_up_conn conn
          | ConnOk => go_ret (HSucceeded conn addr id)
          end
      | _ => go_ret (HWait conn addr id ch buf tick deadline)
      end
  | SelTick =>
      if tick <=? now then
        do! go_emit (PUdp buf addr) in
        go_ret (HWait conn addr id ch buf (next_tick now tick) deadline)
      else go_ret (HWait conn addr id ch buf tick deadline)
  | SelTimeout =>
      if deadline <=? now then
        do! go_emit (PConnClose conn) in
        do! delete_pending id in
        go_ret HReturned
      else go_ret (HWait conn addr id ch buf tick deadline)
  end.

(** One step of [handleTCPConn].  [orig] is what [GetOriginalDST] returns,
    [resolve] is [net.ResolveUDPAddr]. *)
Definition handler_step (now : Z) (orig : result string) (resolve : string -> result string)
    (sel : SelectCase) (pc : HandlerPC) : ClientM HandlerPC :=
  let! c := go_get in
  match pc with
  | HStart conn =>
      match orig with
      | Err _ => give_up_conn conn
      | Ok dst =>
          match Lookup (cl_router c) dst with
          | Err _ => give_up_conn conn
          | Ok serverPEPStr =>
              match resolve serverPEPStr with
              | Err _ => give_up_conn conn
              | Ok addr => go_ret (HAlloc conn dst addr)
              end
          end
      end
  | HAlloc conn dst addr =>
      let! r := getNextStreamID in
      match r with
      | Err _ => give_up_conn conn
      | Ok id => go_ret (HRegister conn dst addr id)
      end
  | HRegister conn dst addr id =>
      let ch := length (cl_chans c) in
      do! go_modify (fun c => with_pending (<[id := ch]> (cl_pending c))
                                (with_chans (cl_chans c ++ [None]) c)) in
      go_ret (HConnect conn dst addr id ch)
  | HConnect conn dst addr id ch =>
      match Marshal (connect_packet id dst) with
      | Err _ =>
          do! go_emit (PConnClose conn) in
          do! delete_pending id in
          go_ret HReturned
      | Ok buf =>
          do! go_emit (PUdp buf addr) in
          go_ret (HWait conn addr id ch buf (now + 300 * Millisecond) (now + 15 * Second))
      end
  | HWait conn addr id ch buf tick deadline => handler_select now sel conn addr id ch buf tick deadline
  | HSucceeded conn addr id =>
      let! ref := on_pep (pep_NewSession now id conn addr) in
      do! on_pep (register id ref) in
      go_ret (HRun ref)
  | HRun ref => do! on_pep (pep_Start ref) in go_ret HReturned
  | HReturned => go_ret HReturned
  end.

(** ** The demultiplexer *)

(** [ch <- v]; the demultiplexer blocks, holding [muConnect], if the buffer is full. *)
Definition chan_send (ch : nat) (v : ConnReply) : ClientM DemuxPC :=
  let! c := go_get in
  match cl_chans c !! ch with
  | Some None => do! go_modify (with_chans (<[ch := Some v]> (cl_chans c))) in go_ret DxTop
  | _ => go_ret (DxBlocked ch v)
  end.

Definition reply_of (pkt : Packet) : ConnReply :=
  if p_Type pkt =? TypeConnAck then ConnOk
  else ConnFailed ("remote connection failed: " +:+ p_Addr pkt).

(** One step of [udpDemuxLoop]; [inp] is what [ReadFrom] returns, [None] for an error. *)
Definition demux_step (now : Z) (inp : option bytes) (pc : DemuxPC) : ClientM DemuxPC :=
  let! c := go_get in
  match pc with
  | DxTop => if pep_done (cl_pep c) then go_ret DxReturned else go_ret DxRead
  | DxRead =>
      match inp with
      | None => if pep_stopped (cl_pep c) then go_ret DxReturned else go_ret DxTop
      | Some datagram =>
          let buf := ReadFrom datagram in
          let! r := go_opt (Unmarshal buf) in
          match r with
          | Err _ => go_ret DxTop
          | Ok pkt =>
              if (p_Type pkt =? TypeConnAck) || (p_Type pkt =? TypeConnErr) then
                match cl_pending c !! p_StreamID pkt with
                | Some ch =>
                    do! delete_pending (p_StreamID pkt) in
                    chan_send ch (reply_of pkt)
                | None => go_ret DxTop
                end
              else on_pep (lookup_session (len buf) pkt)
          end
      end
  | DxDispatch ref n pkt => on_pep (dispatch_step now ref n pkt)
  | DxDelete id => do! on_pep (unregister id) in go_ret DxTop
  | DxBlocked ch v => chan_send ch v
  | DxReturned => go_ret DxReturned
  end.

(** One turn of [acceptLoop]: whether it goes on and the handler it starts; [res] is
    what [AcceptTCP] returns. *)
Definition accept_step (res : result Conn) : ClientM (bool * list HandlerPC) :=
  let! c := go_get in
  match res with
  | Ok conn => go_ret (true, [HStart conn])
  | Err _ => go_ret (negb (pep_stopped (cl_pep c)), [])
  end.

(** [Stop], one step per critical section. *)
Definition client_stop_step (pc : StopPC) : ClientM StopPC :=
  on_pep (stop_step [PCloseListener; PCloseUdp] pc).

(** ** The goroutines together *)

Record ClientSys := mkClientSys {
  cs_c : ClientPEP;
  cs_accepting : bool;                  (** [acceptLoop] has not returned *)
  cs_handlers : list HandlerPC;
  cs_demux : DemuxPC;
  cs_stop : StopPC;
  cs_read : list bytes;                 (** history: the datagrams read *)
  cs_chan_ids : list Z;                 (** history: the stream each channel was made for *)
}.

Inductive ClientAct :=
| CaAccept (res : result Conn)
| CaHandler (i : nat) (orig : result string) (resolve : string -> result string) (sel : SelectCase)
| CaDemux (inp : option bytes)
| CaCleanup
| CaStop
| CaUpdateRouter (r : Router)
| CaSession (ref : nat) (act : Act).

Definition read_by_demux (pc : DemuxPC) (inp : option bytes) : list bytes :=
  match pc, inp with DxRead, Some b => [b] | _, _ => [] end.

Definition chan_by_handler (pc : HandlerPC) : list Z :=
  match pc with HRegister _ _ _ id => [id] | _ => [] end.

(** One step of the proxy; [None] when it panics. *)
Definition client_step (now : Z) (act : ClientAct) (sys : ClientSys) : option (ClientSys * list PepEff) :=
  let c := cs_c sys in
  match act with
  | CaAccept res =>
      if cs_accepting sys then
        '(r, c', es) ← accept_step res c;
        Some (mkClientSys c' r.1 (cs_handlers sys ++ r.2) (cs_demux sys) (cs_stop sys)
                (cs_read sys) (cs_chan_ids sys), es)
      else Some (sys, [])
  | CaHandler i orig resolve sel =>
      match cs_handlers sys !! i with
      | None => Some (sys, [])
      | Some pc =>
          '(pc', c', es) ← handler_step now orig resolve sel pc c;
          Some (mkClientSys c' (cs_accepting sys) (<[i := pc']> (cs_handlers sys)) (cs_demux sys)
                  (cs_stop sys) (cs_read sys) (cs_chan_ids sys ++ chan_by_handler pc), es)
      end
  | CaDemux inp =>
      '(pc', c', es) ← demux_step now inp (cs_demux sys) c;
      Some (mkClientSys c' (cs_accepting sys) (cs_handlers sys) pc' (cs_stop sys)
              (cs_read sys ++ read_by_demux (cs_demux sys) inp) (cs_chan_ids sys), es)
  | CaCleanup =>
      '(_, c', es) ← on_pep (cleanup_tick now) c;
      Some (mkClientSys c' (cs_accepting sys) (cs_handlers sys) (cs_demux sys) (cs_stop sys)
              (cs_read sys) (cs_chan_ids sys), es)
  | CaStop =>
      '(pc', c', es) ← client_stop_step (cs_stop sys) c;
      Some (mkClientSys c' (cs_accepting sys) (cs_handlers sys) (cs_demux sys) pc'
              (cs_read sys) (cs_chan_ids sys), es)
  | CaUpdateRouter r =>
      '(_, c', es) ← UpdateRouter r c;
      Some (mkClientSys c' (cs_accepting sys) (cs_handlers sys) (cs_demux sys) (cs_stop sys)
              (cs_read sys) (cs_chan_ids sys), es)
  | CaSession ref sact =>
      '(_, c', es) ← on_pep (session_act now ref sact) c;
      Some (mkClientSys c' (cs_accepting sys) (cs_handlers sys) (cs_demux sys) (cs_stop sys)
              (cs_read sys) (cs_chan_ids sys), es)
  end.

Definition client_init (c : ClientPEP) : ClientSys := mkClientSys c true [] DxTop StTop [] [].

(** [Start]: the two sockets, then the goroutines.  The arguments are what the
    functions of net return; on an error the listener that was opened is closed. *)
Definition Start (ResolveTCPAddr ResolveUDPAddr : string -> result string)
    (ListenTCP ListenUDP : string -> result unit) (c : ClientPEP) : result ClientSys * list PepEff :=
  match ResolveTCPAddr (cl_listenAddr c) with
  | Err e => (Err e, [])
  | Ok lAddr =>
      match ListenTCP lAddr with
      | Err e => (Err e, [])
      | Ok _ =>
          match ResolveUDPAddr ":0" with
          | Err e => (Err e, [PCloseListener])
          | Ok uAddr =>
              match ListenUDP uAddr with
              | Err e => (Err e, [PCloseListener])
              | Ok _ => (Ok (client_init c), [])
              end
          end
      end
  end.

Inductive client_reach (c0 : ClientPEP) : ClientSys -> Prop :=
| client_reach_init : client_reach c0 (client_init c0)
| client_reach_step now act sys sys' es :
    client_reach c0 sys -> client_step now act sys = Some (sys', es) -> client_reach c0 sys'.

#[export] Instance ClientPEP_instance : PEPInstance ClientPEP := {| GetSessions c := snapshot (cl_pep c) |}.

(** ** Stream numbers *)

Lemma getNextStreamID_eq c :
  0 <= cl_lastID c <= 4095 -> (cl_lastID c = 0 -> pep_sessions (cl_pep c) = ∅) ->
  getNextStreamID c =
    match first_free (pep_sessions (cl_pep c)) (id_order (cl_lastID c)) with
    | Some id => Some (Ok id, with_lastID id c, [])
    | None => Some (Err "out of stream IDs", c, [])
    end.
Proof.
  intros Hr H0. unfold getNextStreamID. rewrite go_bind_get.
  rewrite (next_id_loop_spec (Z.to_nat 4095) _ (cl_lastID c) 0).
  - rewrite Z2Nat.id by lia. fold (id_order (cl_lastID c)).
    destruct (first_free _ _); simpl; [done|]. unfold go_bind. simpl. by destruct c.
  - lia.
  - rewrite Z2Nat.id; lia.
  - unfold id_fuel. lia.
  - unfold next_id. by rewrite Z.add_0_r.
  - done.
  - destruct (decide (cl_lastID c = 0)) as [E|]; [right|by left]. rewrite (H0 E), Z2Nat.id, E by lia.
    rewrite seqZ_cons by lia. unfold first_free. rewrite map_cons, filter_cons_True; [done|].
    apply lookup_empty.
  - lia.
Qed.

(** C20: Allocation of stream numbers.  The loop ends; it returns the first number
    after [lastID], in cyclic order over 1..4095, that no session of the table
    has, and remembers it; when all 4095 are taken it fails and [lastID] stays.
    ([lastID = 0] is the state before the first allocation, when the table is
    empty.)  The space of the 12-bit numbers is the only limit: the bound of 1024
    connections of the design document is not in the code (see
    [getNextStreamID_unlimited]). *)
Theorem getNextStreamID_spec c :
  0 <= cl_lastID c <= 4095 -> (cl_lastID c = 0 -> pep_sessions (cl_pep c) = ∅) ->
  match first_free (pep_sessions (cl_pep c)) (id_order (cl_lastID c)) with
  | Some id =>
      getNextStreamID c = Some (Ok id, with_lastID id c, []) /\
      1 <= id <= 4095 /\ pep_sessions (cl_pep c) !! id = None
  | None =>
      getNextStreamID c = Some (Err "out of stream IDs", c, []) /\
      forall id, 1 <= id <= 4095 -> is_Some (pep_sessions (cl_pep c) !! id)
  end.
Proof.
  intros Hr H0. rewrite getNextStreamID_eq by done.
  destruct (first_free _ _) as [id|] eqn:E; split; [done| |done|].
  - apply first_free_Some in E as [H1 H2]. split; [|done]. apply id_order_elem in H1; lia.
  - intros id Hid. rewrite <- not_eq_None_Some. intros Hn.
    eapply first_free_None; [done..|]. apply id_order_elem; lia.
Qed.

(** A table of fewer than 4095 sessions is never refused a number, also one that has
    the 1024 sessions the design document gives as the maximum. *)
Lemma getNextStreamID_unlimited c :
  0 <= cl_lastID c <= 4095 -> (cl_lastID c = 0 -> pep_sessions (cl_pep c) = ∅) ->
  Z.of_nat (size (pep_sessions (cl_pep c))) < 4095 ->
  exists id, getNextStreamID c = Some (Ok id, with_lastID id c, []).
Proof.
  intros Hr H0 Hsz. rewrite getNextStreamID_eq by done.
  destruct (first_free _ _) as [id|] eqn:E; [by exists id|]. exfalso.
  assert (list_to_set (seqZ 1 4095) ⊆@{gset Z} dom (pep_sessions (cl_pep c))) as Hsub.
  { intros id Hid%elem_of_list_to_set%elem_of_seqZ. apply elem_of_dom. rewrite <- not_eq_None_Some. intros Hn.
    eapply first_free_None; [done..|]. apply id_order_elem; lia. }
  apply subseteq_size in Hsub. rewrite size_list_to_set, length_seqZ, size_dom in Hsub by apply NoDup_seqZ. lia.
Qed.

(** [n] allocations in a row. *)
Fixpoint alloc_many (n : nat) : ClientM (list (result Z)) :=
  match n with
  | O => go_ret []
  | S n => let! r := getNextStreamID in let! rs := alloc_many n in go_ret (r :: rs)
  end.

(** C21: Consecutive allocations.  While the table stays the same, allocations go
    through the free numbers cyclically: no number is given out twice before every
    free one was, and after that they are given out again, whether or not their
    handshake is still pending. *)
Theorem alloc_cycles n c :
  1 <= cl_lastID c <= 4095 ->
  let free := filter (fun id => pep_sessions (cl_pep c) !! id = None) (id_order (cl_lastID c)) in
  free <> [] ->
  exists ids c', alloc_many n c = Some (map Ok ids, c', []) /\ length ids = n /\
    (forall i, (i < n)%nat -> ids !! i = free !! (i mod length free)%nat) /\
    NoDup free /\ (forall id, id ∈ free <-> 1 <= id <= 4095 /\ pep_sessions (cl_pep c) !! id = None).
Proof.
  intros Hr free Hfree.
  assert (NoDup free /\ (forall id, id ∈ free <-> 1 <= id <= 4095 /\ pep_sessions (cl_pep c) !! id = None)) as Hf.
  { split; [apply NoDup_filter, id_order_NoDup|]. intros id. unfold free.
    rewrite list_elem_of_filter, id_order_elem by lia. naive_solver. }
  enough (exists ids c', alloc_many n c = Some (map Ok ids, c', []) /\ length ids = n /\
    (forall i, (i < n)%nat -> ids !! i = free !! (i mod length free)%nat)) as (ids & c' & H1 & H2 & H3)
    by (exists ids, c'; naive_solver).
  clear Hf. revert c Hr free Hfree. induction n as [|n IH]; intros c Hr free Hfree.
  { exists [], c. split; [done|]. split; [done|]. intros i Hi. lia. }
  destruct free as [|id free'] eqn:Ef; [done|]. 
  destruct (id_order_rotate (pep_sessions (cl_pep c)) (cl_lastID c) id free') as [Hid Hrot]; [lia|done|].
  specialize (IH (with_lastID id c) Hid). simpl in IH. rewrite Hrot in IH.
  destruct IH as (ids & c' & E & Hlen & Hnth); [by destruct free'|].
  exists (id :: ids), c'. split_and!.
  - simpl. eapply go_bind_eq with (es := []); [rewrite getNextStreamID_eq|].
    + by unfold first_free; fold free; rewrite Ef.
    + lia.
    + lia.
    + by eapply go_bind_eq with (es := []).
  - by rewrite <- Hlen.
  - intros [|i] Hi.
    + by rewrite Nat.Div0.mod_0_l.
    + rewrite lookup_cons_ne_0 by done. simpl pred. rewrite Hnth by lia. rewrite length_app.
      apply rotate_lookup.
Qed.

(** ** Invariant of the client *)

(** A CONN_ACK for stream [id] was read. *)
Definition acked (reads : list bytes) (id : Z) : Prop :=
  exists d p, d ∈ reads /\ Unmarshal (ReadFrom d) = Some (Ok p) /\
    p_Type p = TypeConnAck /\ p_StreamID p = id.

Definition id_ok (id : Z) : Prop := 1 <= id <= 4095.

Definition handler_ok (reads : list bytes) (ids : list Z) (objs : nat) (pc : HandlerPC) : Prop :=
  match pc with
  | HStart _ | HAlloc _ _ _ | HReturned => True
  | HRegister _ _ _ id => id_ok id
  | HConnect _ _ _ id ch => id_ok id /\ ids !! ch = Some id
  | HWait _ _ id ch buf _ _ =>
      id_ok id /\ ids !! ch = Some id /\ exists dst, Marshal (connect_packet id dst) = Ok buf
  | HSucceeded _ _ id => id_ok id /\ acked reads id
  | HRun ref => (ref < objs)%nat
  end.

(** The handler has not been given a stream number. *)
Definition unallocated (pc : HandlerPC) : Prop :=
  match pc with HStart _ | HAlloc _ _ _ | HReturned => True | _ => False end.

Section Invariant.
Context (cfg0 : PepConfig).

Record client_inv (sys : ClientSys) : Prop := {
  ci_cfg : pep_cfg (cl_pep (cs_c sys)) = cfg0;
  ci_pep : pep_inv (cl_pep (cs_c sys));
  ci_last : 0 <= cl_lastID (cs_c sys) <= 4095;
  ci_zero : cl_lastID (cs_c sys) = 0 ->
    pep_objs (cl_pep (cs_c sys)) = [] /\ Forall unallocated (cs_handlers sys);
  ci_len : length (cs_chan_ids sys) = length (cl_chans (cs_c sys));
  ci_pending : forall id ch, cl_pending (cs_c sys) !! id = Some ch ->
    cl_chans (cs_c sys) !! ch = Some None /\ cs_chan_ids sys !! ch = Some id;
  ci_chan : forall ch id, cl_chans (cs_c sys) !! ch = Some (Some ConnOk) ->
    cs_chan_ids sys !! ch = Some id -> acked (cs_read sys) id;
  ci_obj : Forall (fun o => id_ok (c_StreamID (s_cfg (o_s o))) /\
    acked (cs_read sys) (c_StreamID (s_cfg (o_s o)))) (pep_objs (cl_pep (cs_c sys)));
  ci_handlers : Forall (handler_ok (cs_read sys) (cs_chan_ids sys)
    (length (pep_objs (cl_pep (cs_c sys))))) (cs_handlers sys);
  ci_demux : forall ch v, cs_demux sys <> DxBlocked ch v;
}.

Lemma acked_mono reads reads' id : reads `prefix_of` reads' -> acked reads id -> acked reads' id.
Proof.
  intros [k ->] (d & p & Hd & H). exists d, p. split; [|done]. apply elem_of_app. by left.
Qed.

Lemma handler_ok_mono reads reads' ids ids' n n' pc :
  reads `prefix_of` reads' -> ids `prefix_of` ids' -> (n <= n')%nat ->
  handler_ok reads ids n pc -> handler_ok reads' ids' n' pc.
Proof.
  intros Hr Hi Hn. destruct pc; simpl; try done; try lia.
  - intros [H1 H2]. split; [done|by eapply prefix_lookup_Some].
  - intros (H1 & H2 & H3). split_and!; try done. by eapply prefix_lookup_Some.
  - intros [H1 H2]. split; [done|by eapply acked_mono].
Qed.

(** What a step of a proxy's shared part does to the client. *)
Lemma client_inv_pep sys p' dx st acc :
  client_inv sys -> pep_inv p' -> pep_next (cl_pep (cs_c sys)) p' ->
  (forall ch v, dx <> DxBlocked ch v) ->
  client_inv (mkClientSys (with_pep (cs_c sys) p') acc (cs_handlers sys) dx st
                (cs_read sys) (cs_chan_ids sys)).
Proof.
  intros [] Hp (Hev & Hcfg & _) Hdx. constructor; simpl; try done; try congruence.
  - intros E. destruct (ci_zero0 E) as [E1 E2]. split; [|done]. rewrite E1 in Hev.
    by apply Forall2_nil_inv_l in Hev.
  - apply Forall_lookup. intros i o' Ho'. destruct (Forall2_lookup_r _ _ _ _ _ Hev Ho') as (o & Ho & Hc & _).
    rewrite Hc. by apply (Forall_lookup_1 _ _ _ _ ci_obj0 Ho).
  - by rewrite <- (Forall2_length _ _ _ Hev).
Qed.

(** Reading a datagram only adds to the history. *)
Lemma client_inv_read sys d :
  client_inv sys ->
  client_inv (mkClientSys (cs_c sys) (cs_accepting sys) (cs_handlers sys) (cs_demux sys) (cs_stop sys)
                (cs_read sys ++ d) (cs_chan_ids sys)).
Proof.
  intros []. assert (cs_read sys `prefix_of` cs_read sys ++ d) as Hpre by (by apply prefix_app_r).
  constructor; simpl; try done.
  - intros ch id H1 H2. by eapply acked_mono, ci_chan0.
  - eapply Forall_impl; [exact ci_obj0|]. intros o [H1 H2]. split; [done|by eapply acked_mono].
  - eapply Forall_impl; [exact ci_handlers0|]. intros pc. by apply handler_ok_mono.
Qed.

Lemma on_pep_inv {A} (m : GoM Pep PepEff A) c a c' es :
  pep_safe m -> pep_inv (cl_pep c) -> on_pep m c = Some (a, c', es) ->
  exists p', c' = with_pep c p' /\ pep_inv p' /\ pep_next (cl_pep c) p'.
Proof.
  intros Hm Hp. unfold on_pep. destruct (m (cl_pep c)) as [[[a1 p1] es1]|] eqn:E; [|done].
  intros [= <- <- <-]. exists p1. split; [done|]. by eapply Hm.
Qed.

Lemma on_pep_result {A} (m : GoM Pep PepEff A) c a c' es :
  on_pep m c = Some (a, c', es) -> exists p', m (cl_pep c) = Some (a, p', es).
Proof.
  unfold on_pep. destruct (m (cl_pep c)) as [[[a1 p1] es1]|]; [|done]. intros [= <- <- <-]. eauto.
Qed.

(** Giving a handler its next program counter. *)
Lemma client_inv_handler sys i pc' :
  client_inv sys ->
  handler_ok (cs_read sys) (cs_chan_ids sys) (length (pep_objs (cl_pep (cs_c sys)))) pc' ->
  (cl_lastID (cs_c sys) = 0 -> unallocated pc') ->
  client_inv (mkClientSys (cs_c sys) (cs_accepting sys) (<[i := pc']> (cs_handlers sys)) (cs_demux sys)
                (cs_stop sys) (cs_read sys) (cs_chan_ids sys)).
Proof.
  intros [] Hpc Hz. constructor; simpl; try done.
  - intros E. destruct (ci_zero0 E). split; [done|]. apply Forall_insert; auto.
  - by apply Forall_insert.
Qed.

Lemma client_inv_delete sys id :
  client_inv sys ->
  client_inv (mkClientSys (with_pending (delete id (cl_pending (cs_c sys))) (cs_c sys)) (cs_accepting sys)
    (cs_handlers sys) (cs_demux sys) (cs_stop sys) (cs_read sys) (cs_chan_ids sys)).
Proof.
  intros []. constructor; simpl; try done. intros i ch [_ Hi]%lookup_delete_Some. by apply ci_pending0.
Qed.

(** Filling or emptying a channel that is not registered. *)
Lemma client_inv_chan sys ch v :
  client_inv sys -> (forall id, cl_pending (cs_c sys) !! id <> Some ch) ->
  (forall id, v = Some ConnOk -> cs_chan_ids sys !! ch = Some id -> acked (cs_read sys) id) ->
  client_inv (mkClientSys (with_chans (<[ch := v]> (cl_chans (cs_c sys))) (cs_c sys)) (cs_accepting sys)
    (cs_handlers sys) (cs_demux sys) (cs_stop sys) (cs_read sys) (cs_chan_ids sys)).
Proof.
  intros [] Hne Hv. constructor; simpl; try done.
  - by rewrite length_insert.
  - intros id ch' Hid. destruct (decide (ch' = ch)) as [->|]; [by destruct (Hne id)|].
    rewrite list_lookup_insert_ne by done. by apply ci_pending0.
  - intros ch' id [(-> & -> & _)|[_ H]]%list_lookup_insert_Some; [by apply Hv|by apply ci_chan0].
Qed.

(** A new channel for stream [id]. *)
Lemma client_inv_register sys i conn dst addr id :
  client_inv sys -> id_ok id -> cl_lastID (cs_c sys) <> 0 ->
  let ch := length (cl_chans (cs_c sys)) in
  client_inv (mkClientSys
    (with_pending (<[id := ch]> (cl_pending (cs_c sys))) (with_chans (cl_chans (cs_c sys) ++ [None]) (cs_c sys)))
    (cs_accepting sys) (<[i := HConnect conn dst addr id ch]> (cs_handlers sys)) (cs_demux sys)
    (cs_stop sys) (cs_read sys) (cs_chan_ids sys ++ [id])).
Proof.
  intros [] Hid Hz ch.
  assert (cs_chan_ids sys `prefix_of` cs_chan_ids sys ++ [id]) as Hpre by (by apply prefix_app_r).
  assert ((cs_chan_ids sys ++ [id]) !! ch = Some id) as Hch
    by (apply list_lookup_middle; unfold ch; by rewrite ci_len0).
  constructor; simpl; try done.
  - rewrite !length_app. simpl. lia.
  - intros id' ch' [[<- <-]|[_ H]]%lookup_insert_Some.
    + split; [by apply list_lookup_middle|done].
    + destruct (ci_pending0 _ _ H) as [H1 H2]. split; by apply lookup_app_l_Some.
  - intros ch' id' H1 H2. destruct (decide (ch' < ch)%nat) as [Hlt|Hge].
    + rewrite lookup_app_l in H1 by done. rewrite lookup_app_l in H2 by (unfold ch in *; lia).
      by eapply ci_chan0.
    + apply lookup_app_Some in H1 as [H1|[_ H1]]; [apply lookup_lt_Some in H1; unfold ch in *; lia|].
      apply list_lookup_singleton_Some in H1 as [_ H1]. done.
  - apply Forall_insert; [|done]. eapply Forall_impl; [exact ci_handlers0|].
    intros pc. by apply handler_ok_mono.
Qed.

(** The session of stream [id], created and registered after the handshake. *)
Lemma client_inv_open sys i now conn addr id :
  client_inv sys -> id_ok id -> acked (cs_read sys) id -> cl_lastID (cs_c sys) <> 0 ->
  let p := cl_pep (cs_c sys) in
  let ref := length (pep_objs p) in
  let p1 := with_objs p (pep_objs p ++ [fresh_obj now id conn addr p]) in
  client_inv (mkClientSys (with_pep (cs_c sys) (with_sessions p1 (<[id := ref]> (pep_sessions p))))
    (cs_accepting sys) (<[i := HRun ref]> (cs_handlers sys)) (cs_demux sys)
    (cs_stop sys) (cs_read sys) (cs_chan_ids sys)).
Proof.
  intros [] Hid Hack Hz p ref p1.
  assert (pep_inv (with_sessions p1 (<[id := ref]> (pep_sessions p1)))) as Hp.
  { eapply register_inv; [by apply fresh_obj_inv|by apply list_lookup_middle|apply fresh_obj_id]. }
  constructor; simpl; try done.
  - apply Forall_app. split; [done|]. constructor; [|done]. by rewrite fresh_obj_id.
  - rewrite length_app. simpl. apply Forall_insert; [|simpl; unfold ref; lia].
    eapply Forall_impl; [exact ci_handlers0|]. intros pc. apply handler_ok_mono; [done..|unfold p; lia].
Qed.

Lemma pep_inv_empty p : pep_inv p -> pep_objs p = [] -> pep_sessions p = ∅.
Proof.
  intros Hp E. apply map_eq. intros id. rewrite lookup_empty.
  destruct (pep_sessions p !! id) as [ref|] eqn:Eid; [|done].
  destruct (pi_tab p Hp _ _ Eid) as (o & Ho & _). by rewrite E in Ho.
Qed.

Lemma client_inv_alloc sys id :
  client_inv sys -> id_ok id ->
  client_inv (mkClientSys (with_lastID id (cs_c sys)) (cs_accepting sys) (cs_handlers sys) (cs_demux sys)
    (cs_stop sys) (cs_read sys) (cs_chan_ids sys)).
Proof. intros [] Hid. unfold id_ok in *. constructor; simpl; try done; lia. Qed.

Lemma client_inv_lastID sys i pc :
  client_inv sys -> cs_handlers sys !! i = Some pc -> ~ unallocated pc -> cl_lastID (cs_c sys) <> 0.
Proof.
  intros Hs Hi Hpc E. apply Hpc. by apply (Forall_lookup_1 _ _ _ _ (proj2 (ci_zero sys Hs E)) Hi).
Qed.

(** The state after handler [i] has taken a step. *)
Abbreviation handler_sys sys i c' pc pc' :=
  (mkClientSys c' (cs_accepting sys) (<[i := pc']> (cs_handlers sys)) (cs_demux sys)
     (cs_stop sys) (cs_read sys) (cs_chan_ids sys ++ chan_by_handler pc)).

Lemma handler_select_inv now sel sys i conn addr id ch buf tick deadline pc' c' es :
  client_inv sys -> cs_handlers sys !! i = Some (HWait conn addr id ch buf tick deadline) ->
  handler_select now sel conn addr id ch buf tick deadline (cs_c sys) = Some (pc', c', es) ->
  client_inv (handler_sys sys i c' HReturned pc').
Proof.
  intros Hs Hi. pose proof (Forall_lookup_1 _ _ _ _ (ci_handlers sys Hs) Hi) as Hok.
  pose proof (client_inv_lastID sys i _ Hs Hi ltac:(auto)) as Hz. simpl. rewrite app_nil_r.
  unfold handler_select. rewrite go_bind_get. destruct sel.
  - destruct (cl_chans (cs_c sys) !! ch) as [[reply|]|] eqn:Ech;
      [|by intros [= <- <- <-]; apply client_inv_handler..].
    rewrite go_bind_modify.
    assert (client_inv (mkClientSys (with_chans (<[ch := None]> (cl_chans (cs_c sys))) (cs_c sys))
      (cs_accepting sys) (cs_handlers sys) (cs_demux sys) (cs_stop sys) (cs_read sys) (cs_chan_ids sys))) as H1.
    { apply client_inv_chan; [done| |done]. intros id' Hid'.
      destruct (ci_pending sys Hs _ _ Hid'). congruence. }
    destruct reply; intros [= <- <- <-]; [|by apply (client_inv_handler _ i HReturned H1)].
    apply (client_inv_handler _ i _ H1); [|done]. destruct Hok as (Hid & Hch & _). split; [done|].
    by eapply (ci_chan sys Hs).
  - case_match; intros [= <- <- <-]; by apply client_inv_handler.
  - case_match; intros [= <- <- <-]; [|by apply client_inv_handler].
    by apply (client_inv_delete _ id (client_inv_handler sys i HReturned Hs I (fun _ => I))).
Qed.

Lemma handler_step_inv now orig resolve sel sys i pc pc' c' es :
  client_inv sys -> cs_handlers sys !! i = Some pc ->
  handler_step now orig resolve sel pc (cs_c sys) = Some (pc', c', es) ->
  client_inv (handler_sys sys i c' pc pc').
Proof.
  intros Hs Hi. pose proof (Forall_lookup_1 _ _ _ _ (ci_handlers sys Hs) Hi) as Hok.
  pose proof (client_inv_lastID sys i pc Hs Hi) as Hz.
  assert (client_inv (handler_sys sys i (cs_c sys) HReturned HReturned)) as Hret
    by (simpl; rewrite app_nil_r; by apply client_inv_handler).
  unfold handler_step. rewrite go_bind_get. destruct pc; simpl in Hok, Hz.
  - destruct orig as [dst|]; [|by intros [= <- <- <-]].
    destruct (Lookup _ _) as [pep|]; [|by intros [= <- <- <-]].
    destruct (resolve pep) as [addr|]; intros [= <- <- <-]; [|done]. simpl. rewrite app_nil_r.
    by apply client_inv_handler.
  - pose proof (getNextStreamID_eq (cs_c sys) (ci_last sys Hs)) as HG.
    unfold go_bind. rewrite HG; clear HG.
    2: { intros E. apply pep_inv_empty; [apply Hs|]. by apply (ci_zero sys Hs). }
    destruct (first_free _ _) as [id|] eqn:Ef; intros [= <- <- <-]; [|done].
    apply first_free_Some in Ef as [Hid _]. apply id_order_elem in Hid; [|pose proof (ci_last sys Hs); lia].
    simpl. rewrite app_nil_r.
    apply (client_inv_handler _ i (HRegister conn dst addr id) (client_inv_alloc sys id Hs Hid)); [done|].
    simpl. lia.
  - intros [= <- <- <-]. apply client_inv_register; auto.
  - destruct Hok as [Hid Hch]. simpl. rewrite app_nil_r.
    destruct (Marshal _) as [buf|] eqn:Em; intros [= <- <- <-].
    + apply client_inv_handler; [done| |intros E; exfalso; apply Hz; auto]. simpl. eauto.
    + by apply (client_inv_delete _ id (client_inv_handler sys i HReturned Hs I (fun _ => I))).
  - intros E. by eapply handler_select_inv in E.
  - destruct Hok as [Hid Hack]. intros [= <- <- <-]. simpl. rewrite app_nil_r.
    apply client_inv_open; auto.
  - destruct (on_pep (pep_Start ref) (cs_c sys)) as [[[[] c1] es1]|] eqn:E; unfold go_bind; rewrite E; [|done].
    intros [= <- <- <-]. apply on_pep_inv in E as (p' & -> & Hp & Hev); [|apply pep_Start_safe|apply Hs].
    pose proof (client_inv_pep sys p' (cs_demux sys) (cs_stop sys) (cs_accepting sys) Hs Hp Hev (ci_demux sys Hs)) as H1.
    simpl. rewrite app_nil_r. by apply (client_inv_handler _ i HReturned H1).
  - by intros [= <- <- <-].
Qed.

Abbreviation demux_sys sys c' d pc' :=
  (mkClientSys c' (cs_accepting sys) (cs_handlers sys) pc' (cs_stop sys) (cs_read sys ++ d) (cs_chan_ids sys)).

(** The answer to a CONNECT goes into an empty channel. *)
Lemma demux_reply_inv sys b pkt ch pc' c' es :
  client_inv sys -> Unmarshal (ReadFrom b) = Some (Ok pkt) ->
  cl_pending (cs_c sys) !! p_StreamID pkt = Some ch ->
  (do! delete_pending (p_StreamID pkt) in chan_send ch (reply_of pkt)) (cs_c sys) = Some (pc', c', es) ->
  client_inv (demux_sys sys c' [b] pc').
Proof.
  intros Hs Hu Hp. destruct (ci_pending sys Hs _ _ Hp) as [Hch Hid].
  unfold delete_pending. rewrite go_bind_modify. unfold chan_send. rewrite go_bind_get. simpl. rewrite Hch.
  intros [= <- <- <-].
  pose proof (client_inv_read _ [b] (client_inv_delete sys (p_StreamID pkt) Hs)) as H1.
  pose proof (client_inv_chan _ ch (Some (reply_of pkt)) H1) as H2. simpl in H2.
  destruct H2; [| |by constructor].
  - intros id [Hne Hid']%lookup_delete_Some. destruct (ci_pending sys Hs _ _ Hid') as [_ H3]. congruence.
  - intros id [= E] Hid'. exists b, pkt. split; [apply elem_of_app; right; apply list_elem_of_here|].
    split; [done|]. unfold reply_of in E. destruct (Z.eqb_spec (p_Type pkt) TypeConnAck); [|done].
    split; [done|congruence].
Qed.

Lemma demux_step_inv now inp sys pc' c' es :
  client_inv sys -> demux_step now inp (cs_demux sys) (cs_c sys) = Some (pc', c', es) ->
  client_inv (demux_sys sys c' (read_by_demux (cs_demux sys) inp) pc').
Proof.
  intros Hs. unfold demux_step. rewrite go_bind_get.
  assert (forall dx d, (forall ch v, dx <> DxBlocked ch v) -> client_inv (demux_sys sys (cs_c sys) d dx)) as Hstay.
  { intros dx d Hdx. pose proof (client_inv_read sys d Hs) as []. by constructor. }
  assert (forall A (m : GoM Pep PepEff A) a es dx d, pep_safe m -> (forall ch v, dx <> DxBlocked ch v) ->
    on_pep m (cs_c sys) = Some (a, c', es) -> client_inv (demux_sys sys c' d dx)) as Hpep.
  { intros A m a es0 dx d Hm Hdx E. apply on_pep_inv in E as (p' & -> & Hp & Hev); [|done|apply Hs].
    apply (client_inv_pep _ p' dx (cs_stop sys) (cs_accepting sys) (client_inv_read sys d Hs) Hp Hev Hdx). }
  destruct (cs_demux sys) as [| |ref n pkt|id|ch v|] eqn:Edx; simpl.
  - case_match; intros [= <- <- <-]; by apply Hstay.
  - destruct inp as [b|]; [|case_match; intros [= <- <- <-]; by apply Hstay].
    destruct (Unmarshal (ReadFrom b)) as [[pkt|]|] eqn:Eu; simpl; [|intros [= <- <- <-]; by apply Hstay|done].
    rewrite go_bind_ret. case_match.
    + destruct (cl_pending (cs_c sys) !! p_StreamID pkt) as [ch|] eqn:Ep.
      * intros E. by eapply demux_reply_inv.
      * intros [= <- <- <-]. by apply Hstay.
    + intros E. eapply Hpep; [apply lookup_session_safe| |exact E]. intros ch v.
      apply on_pep_result in E as [p1 E]. by eapply lookup_session_pc.
  - intros E. eapply Hpep; [apply dispatch_step_safe| |exact E]. intros ch v.
    apply on_pep_result in E as [p1 E]. by eapply dispatch_step_pc.
  - destruct (on_pep (unregister id) (cs_c sys)) as [[[[] c1] es1]|] eqn:E; unfold go_bind; rewrite E; [|done].
    intros [= <- <- <-]. eapply Hpep; [apply unregister_safe|done|exact E].
  - by destruct (ci_demux sys Hs ch v).
  - intros [= <- <- <-]. by apply Hstay.
Qed.

Lemma client_step_inv now act sys sys' es :
  client_inv sys -> client_step now act sys = Some (sys', es) -> client_inv sys'.
Proof.
  intros Hs. unfold client_step.
  assert (forall A (m : GoM Pep PepEff A) a c' es st, pep_safe m -> on_pep m (cs_c sys) = Some (a, c', es) ->
    client_inv (mkClientSys c' (cs_accepting sys) (cs_handlers sys) (cs_demux sys) st
      (cs_read sys) (cs_chan_ids sys))) as Hpep.
  { intros A m a c' es0 st Hm E. apply on_pep_inv in E as (p' & -> & Hp & Hev); [|done|apply Hs].
    by apply client_inv_pep, Hs. }
  destruct act as [res|i orig resolve sel|inp| | |r|ref act].
  - destruct (cs_accepting sys); [|by intros [= <- <-]].
    destruct res as [conn|]; intros [= <- <-]; simpl; rewrite ?app_nil_r; destruct Hs; constructor; simpl; try done.
    + intros E. destruct (ci_zero0 E). split; [done|]. apply Forall_app. split; [done|by repeat constructor].
    + apply Forall_app. split; [done|by repeat constructor].
  - destruct (cs_handlers sys !! i) as [pc|] eqn:Ei; [|by intros [= <- <-]].
    destruct (handler_step _ _ _ _ _ _) as [[[pc' c'] es']|] eqn:E; [|done]. intros [= <- <-].
    by eapply handler_step_inv.
  - destruct (demux_step _ _ _ _) as [[[pc' c'] es']|] eqn:E; [|done]. intros [= <- <-].
    by eapply demux_step_inv.
  - destruct (on_pep _ _) as [[[a c'] es']|] eqn:E; [|done]. intros [= <- <-].
    eapply Hpep; [apply cleanup_tick_safe|exact E].
  - unfold client_stop_step. destruct (on_pep _ _) as [[[a c'] es']|] eqn:E; [|done]. intros [= <- <-].
    eapply Hpep; [apply stop_step_safe|exact E].
  - intros [= <- <-]. destruct Hs. by constructor.
  - destruct (on_pep _ _) as [[[a c'] es']|] eqn:E; [|done]. intros [= <- <-].
    eapply Hpep; [apply session_act_safe|exact E].
Qed.

End Invariant.

Lemma client_init_inv listenAddr router mtu bandwidth k m idle :
  client_inv (mkPepConfig mtu bandwidth k m idle)
    (client_init (NewClientPEP listenAddr router mtu bandwidth k m idle)).
Proof. by constructor. Qed.

Lemma client_reach_inv cfg0 c0 sys :
  client_inv cfg0 (client_init c0) -> client_reach c0 sys -> client_inv cfg0 sys.
Proof. intros H0 H. induction H; [done|]. by eapply client_step_inv. Qed.

(** C13: The client's demultiplexer never blocks on a handshake channel, under any
    interleaving of handlers, demultiplexer, clean-up, sessions and shutdown: a
    registered channel is empty and no channel is registered twice, so the send
    under [muConnect] always finds room. *)
Theorem demux_never_blocks listenAddr router mtu bandwidth k m idle sys :
  client_reach (NewClientPEP listenAddr router mtu bandwidth k m idle) sys ->
  (forall ch v, cs_demux sys <> DxBlocked ch v) /\
  (forall id ch, cl_pending (cs_c sys) !! id = Some ch -> cl_chans (cs_c sys) !! ch = Some None) /\
  (forall id1 id2 ch, cl_pending (cs_c sys) !! id1 = Some ch -> cl_pending (cs_c sys) !! id2 = Some ch -> id1 = id2).
Proof.
  intros H. eapply client_reach_inv in H; [|apply client_init_inv]. split; [apply H|]. split.
  - intros id ch Hid. by apply (ci_pending _ _ H id).
  - intros id1 id2 ch H1 H2. apply (ci_pending _ _ H) in H1 as [_ H1], H2 as [_ H2]. congruence.
Qed.

(** C15: The session table of the client.  In every reachable state an entry for
    stream [id] is a session of that stream, with a number in 1..4095 and the
    parameters of the proxy, for which a CONN_ACK was read. *)
Theorem client_sessions_acked listenAddr router mtu bandwidth k m idle sys id ref :
  client_reach (NewClientPEP listenAddr router mtu bandwidth k m idle) sys ->
  pep_sessions (cl_pep (cs_c sys)) !! id = Some ref ->
  exists o, pep_objs (cl_pep (cs_c sys)) !! ref = Some o /\ c_StreamID (s_cfg (o_s o)) = id /\
    1 <= id <= 4095 /\ cfg_of_pep (cl_pep (cs_c sys)) (s_cfg (o_s o)) /\ acked (cs_read sys) id.
Proof.
  intros H Hid. eapply client_reach_inv in H; [|apply client_init_inv].
  destruct (pi_tab _ (ci_pep _ _ H) _ _ Hid) as (o & Ho & <-). exists o.
  destruct (Forall_lookup_1 _ _ _ _ (ci_obj _ _ H) Ho) as [H1 H2].
  pose proof (Forall_lookup_1 _ _ _ _ (pi_cfg _ (ci_pep _ _ H)) Ho).
  split_and!; try done; apply H1.
Qed.

(** ** Progress *)

Lemma getNextStreamID_total cfg0 sys :
  client_inv cfg0 sys -> exists r c', getNextStreamID (cs_c sys) = Some (r, c', []).
Proof.
  intros Hs. rewrite getNextStreamID_eq.
  - destruct (first_free _ _); eauto.
  - apply Hs.
  - intros E. apply pep_inv_empty; [apply Hs|]. by apply (ci_zero _ _ Hs).
Qed.

(** The steps of the accept loop, the handlers, the clean-up and the shutdown. *)
Definition control_act (act : ClientAct) : bool :=
  match act with CaDemux _ | CaSession _ _ => false | _ => true end.

Lemma on_pep_total {A} (m : GoM Pep PepEff A) c :
  (exists a p' es, m (cl_pep c) = Some (a, p', es)) -> exists a c' es, on_pep m c = Some (a, c', es).
Proof. intros (a & p' & es & E). unfold on_pep. rewrite E. simpl. eauto. Qed.

Lemma handler_step_total cfg0 now orig resolve sel sys i pc :
  client_inv cfg0 sys -> 0 <= pc_fecK cfg0 -> 0 <= pc_fecM cfg0 -> cs_handlers sys !! i = Some pc ->
  exists pc' c' es, handler_step now orig resolve sel pc (cs_c sys) = Some (pc', c', es).
Proof.
  intros Hs Hk Hm Hi. unfold handler_step. rewrite go_bind_get.
  pose proof (Forall_lookup_1 _ _ _ _ (ci_handlers _ _ Hs) Hi) as Hok. destruct pc; simpl in Hok.
  - repeat case_match; eexists _, _, _; reflexivity.
  - destruct (getNextStreamID_total _ _ Hs) as (r & c' & E). unfold go_bind. rewrite E.
    destruct r; eexists _, _, _; reflexivity.
  - eexists _, _, _. reflexivity.
  - case_match; eexists _, _, _; reflexivity.
  - unfold handler_select. rewrite go_bind_get. destruct sel; repeat case_match; eexists _, _, _; reflexivity.
  - eexists _, _, _. reflexivity.
  - destruct (on_pep_total (pep_Start ref) (cs_c sys)) as (a & c' & es & E).
    { apply pep_Start_total; [apply Hs|done|by rewrite (ci_cfg _ _ Hs)..]. }
    unfold go_bind. rewrite E. eexists _, _, _. reflexivity.
  - eexists _, _, _. reflexivity.
Qed.

(** C14: The client never hangs or panics in its control path.  In every reachable
    state, whatever the environment answers, a step of the accept loop, of any
    handler (stream allocation included), of the clean-up, of [Stop] or of
    [UpdateRouter] completes. *)
Theorem client_progress listenAddr router mtu bandwidth k m idle sys now act :
  client_reach (NewClientPEP listenAddr router mtu bandwidth k m idle) sys ->
  0 <= k -> 0 <= m -> control_act act = true ->
  exists sys' es, client_step now act sys = Some (sys', es).
Proof.
  intros H Hk Hm Hact. eapply client_reach_inv in H; [|apply client_init_inv]. unfold client_step.
  destruct act as [res|i orig resolve sel|inp| | |r|ref act]; try done.
  - destruct (cs_accepting sys); [|eauto]. destruct res; simpl; eauto.
  - destruct (cs_handlers sys !! i) as [pc|] eqn:Ei; [|eauto].
    destruct (handler_step_total _ now orig resolve sel sys i pc H Hk Hm Ei) as (pc' & c' & es & ->).
    simpl. eauto.
  - destruct (on_pep_total (cleanup_tick now) (cs_c sys)) as (a & c' & es & ->); [|simpl; eauto].
    destruct (cleanup_tick_total now (cl_pep (cs_c sys))) as (p' & es & ->); [apply H|eauto].
  - unfold client_stop_step.
    destruct (on_pep_total (stop_step [PCloseListener; PCloseUdp] (cs_stop sys)) (cs_c sys))
      as (a & c' & es & ->); [|simpl; eauto]. apply stop_step_total, H.
  - simpl. eauto.
Qed.

End Client.

(** ** Witnesses *)

Module ClientDemo.
#[local] Existing Instance XorCode.xor_rs.

Definition router : Router := mkRouter {["10.0.0.1:80" := "192.0.2.1:9000"]} [].
Definition c0 : ClientPEP := NewClientPEP ":10080" router 1200 128000 2 1 (300 * Second).

(** An intercepted connection, its handshake up to the CONN_ACK of the server, the
    session, and the start of a second handshake. *)
Definition acts : list (Z * ClientAct) :=
  let h i sel := CaHandler i (Ok "10.0.0.1:80") Ok sel in
  [(0, CaAccept (Ok (mkConn 0 None))); (1, h 0%nat SelChan); (2, h 0%nat SelChan); (3, h 0%nat SelChan);
   (4, h 0%nat SelChan); (5, CaDemux None); (400 * Millisecond, h 0%nat SelTick);
   (401 * Millisecond, CaDemux (Some [16; 1])); (402 * Millisecond, h 0%nat SelChan);
   (403 * Millisecond, h 0%nat SelChan); (404 * Millisecond, h 0%nat SelChan);
   (405 * Millisecond, CaAccept (Ok (mkConn 1 None))); (406 * Millisecond, h 1%nat SelChan);
   (407 * Millisecond, h 1%nat SelChan); (408 * Millisecond, h 1%nat SelChan)].

Fixpoint exec (acts : list (Z * ClientAct)) (sys : ClientSys) : option ClientSys :=
  match acts with
  | [] => Some sys
  | (now, act) :: acts => '(sys', _) ← client_step now act sys; exec acts sys'
  end.

Lemma exec_reach c acts sys sys' :
  client_reach c sys -> exec acts sys = Some sys' -> client_reach c sys'.
Proof.
  revert sys. induction acts as [|[now act] acts IH]; intros sys Hs; simpl; [by intros [= <-]|].
  destruct (client_step now act sys) as [[sys1 es]|] eqn:E; simpl; [|done].
  apply IH. by eapply client_reach_step.
Qed.

Definition final : ClientSys := default (client_init c0) (exec acts (client_init c0)).

Lemma final_reach : client_reach c0 final.
Proof. eapply (exec_reach c0 acts); [apply client_reach_init|]. vm_compute. reflexivity. Qed.

End ClientDemo.

#[local] Existing Instance XorCode.xor_rs.

Lemma getNextStreamID_spec_witness :
  exists id, getNextStreamID ClientDemo.c0 = Some (Ok id, with_lastID id ClientDemo.c0, []) /\ 1 <= id <= 4095.
Proof.
  assert (first_free (pep_sessions (cl_pep ClientDemo.c0)) (id_order (cl_lastID ClientDemo.c0)) = Some 1) as E
    by (vm_compute; reflexivity).
  pose proof (getNextStreamID_spec ClientDemo.c0 ltac:(vm_compute; split; discriminate) ltac:(reflexivity)) as H.
  rewrite E in H. destruct H as (H1 & H2 & _). exists 1. split; [exact H1|exact H2].
Defined.

Lemma alloc_cycles_witness :
  exists ids c', alloc_many 3 (with_lastID 4095 ClientDemo.c0) = Some (map Ok ids, c', []) /\ length ids = 3%nat.
Proof.
  destruct (alloc_cycles 3 (with_lastID 4095 ClientDemo.c0)) as (ids & c' & H1 & H2 & _).
  - simpl. lia.
  - vm_compute. discriminate.
  - exists ids, c'. split; [exact H1|exact H2].
Defined.

Lemma demux_never_blocks_witness :
  cl_pending (cs_c ClientDemo.final) !! 2 = Some 1%nat /\ cl_chans (cs_c ClientDemo.final) !! 1%nat = Some None.
Proof.
  assert (cl_pending (cs_c ClientDemo.final) !! 2 = Some 1%nat) as E by (vm_compute; reflexivity).
  split; [exact E|]. exact (proj1 (proj2 (demux_never_blocks _ _ _ _ _ _ _ _ ClientDemo.final_reach)) 2 1%nat E).
Defined.

Lemma client_sessions_acked_witness :
  acked (cs_read ClientDemo.final) 1.
Proof.
  destruct (client_sessions_acked _ _ _ _ _ _ _ ClientDemo.final 1 0%nat ClientDemo.final_reach)
    as (o & _ & _ & _ & _ & H); [vm_compute; reflexivity|exact H].
Defined.

Lemma client_progress_witness :
  exists sys' es, client_step 0 CaStop ClientDemo.final = Some (sys', es).
Proof.
  apply (client_progress _ _ _ _ _ _ _ ClientDemo.final 0 CaStop ClientDemo.final_reach); [lia|lia|reflexivity].
Defined.
