(* ===== verification/Server.v ===== *)
(** * The server proxy (src/proxy/server.go)

    The demultiplexer of [ServerPEP], the goroutine [handleConnect] that dials the
    target of a CONNECT, error replies, clean-up and shutdown.  [server_step]
    interleaves any number of [handleConnect] goroutines with the rest. *)
From stdpp Require Import base gmap strings list pretty.
From S2P Require Import Prelude Protocol Fec Shaper Duration Session SessionRecv SendSpec RecvSpec E2E Frame Frames Pep PepFrames.
Local Open Scope string_scope.
Local Open Scope list_scope.
Local Open Scope Z_scope.
Local Open Scope go_scope.

Section Server.
Context {RS : ReedSolomon}.
Abbreviation PepM := (GoM Pep PepEff).

Definition NewServerPEP (mtu bandwidth k m idleTimeout : Z) : Pep :=
  new_pep (mkPepConfig mtu bandwidth k m idleTimeout) true.

(** [WriteToUDP] of a marshalled packet; nothing is sent if marshalling fails. *)
Definition send_packet (p : Packet) (addr : string) : PepM unit :=
  match Marshal p with
  | Ok buf => go_emit (PUdp buf addr)
  | Err _ => go_ret tt
  end.

Definition ack_packet (id : Z) : Packet := base_packet TypeConnAck id.
Definition err_packet (id : Z) (msg : string) : Packet :=
  mkPacket TypeConnErr id msg 0 0 0 false None 0.

Definition sendError (streamID : Z) (msg : string) (clientAddr : string) : PepM unit :=
  send_packet (err_packet streamID msg) clientAddr.

(** ** CONNECT *)

(** Where [handleConnect] is: resolving, dialling, about to acknowledge, about to
    create and register the session, about to start it, returned. *)
Inductive ConnectPC :=
| CnResolve (p : Packet) (clientAddr : string)
| CnDial (p : Packet) (clientAddr tcpAddr : string)
| CnAck (p : Packet) (clientAddr : string) (conn : Conn)
| CnOpen (p : Packet) (clientAddr : string) (conn : Conn)
| CnStart (ref : nat)
| CnReturned.

(** [if old, ok := s.sessions[p.StreamID]; ok { old.Close() }] *)
Definition close_old (id : Z) : PepM unit :=
  let! p := go_get in
  match pep_sessions p !! id with
  | Some old => call old Close
  | None => go_ret tt
  end.

(** One step of [handleConnect]; [resolve] is [net.ResolveTCPAddr], [dial] what
    [net.DialTCP] returns. *)
Definition connect_step (now : Z) (resolve : string -> result string) (dial : result Conn)
    (pc : ConnectPC) : PepM ConnectPC :=
  match pc with
  | CnResolve p clientAddr =>
      match resolve (p_Addr p) with
      | Err e => do! sendError (p_StreamID p) e clientAddr in go_ret CnReturned
      | Ok tcpAddr => go_ret (CnDial p clientAddr tcpAddr)
      end
  | CnDial p clientAddr tcpAddr =>
      match dial with
      | Err e => do! sendError (p_StreamID p) e clientAddr in go_ret CnReturned
      | Ok conn => go_ret (CnAck p clientAddr conn)
      end
  | CnAck p clientAddr conn =>
      do! send_packet (ack_packet (p_StreamID p)) clientAddr in
      go_ret (CnOpen p clientAddr conn)
  | CnOpen p clientAddr conn =>
      let! ref := pep_NewSession now (p_StreamID p) conn clientAddr in
      do! close_old (p_StreamID p) in
      do! register (p_StreamID p) ref in
      go_ret (CnStart ref)
  | CnStart ref => do! pep_Start ref in go_ret CnReturned
  | CnReturned => go_ret CnReturned
  end.

(** ** The demultiplexer *)

(** One step of [udpDemuxLoop]: where it goes on and the goroutine it starts.
    [inp] is what [ReadFromUDP] returns, [None] for an error. *)
Definition server_demux_step (now : Z) (inp : option (bytes * string)) (pc : DemuxPC)
    : PepM (DemuxPC * list ConnectPC) :=
  let! p := go_get in
  match pc with
  | DxTop => if pep_done p then go_ret (DxReturned, []) else go_ret (DxRead, [])
  | DxRead =>
      match inp with
      | None => if pep_stopped p then go_ret (DxReturned, []) else go_ret (DxTop, [])
      | Some (datagram, rAddr) =>
          let buf := ReadFrom datagram in
          let! r := go_opt (Unmarshal buf) in
          match r with
          | Err _ => go_ret (DxTop, [])
          | Ok pkt =>
              match pep_sessions p !! p_StreamID pkt with
              | None =>
                  if p_Type pkt =? TypeConnect then go_ret (DxTop, [CnResolve pkt rAddr])
                  else go_ret (DxTop, [])
              | Some ref =>
                  if p_Type pkt =? TypeConnect then
                    do! send_packet (ack_packet (p_StreamID pkt)) rAddr in go_ret (DxTop, [])
                  else go_ret (DxDispatch ref (len buf) pkt, [])
              end
          end
      end
  | DxDispatch ref n pkt => let! pc := dispatch_step now ref n pkt in go_ret (pc, [])
  | DxDelete id => do! unregister id in go_ret (DxTop, [])
  | DxBlocked _ _ | DxReturned => go_ret (DxReturned, [])
  end.

Definition server_cleanup_tick (now : Z) : PepM unit := cleanup_tick now.

Definition server_stop_step (pc : StopPC) : PepM StopPC := stop_step [PCloseUdp] pc.

(** ** The goroutines together *)

Record ServerSys := mkServerSys {
  ss_p : Pep;
  ss_handlers : list ConnectPC;
  ss_demux : DemuxPC;
  ss_stop : StopPC;
  ss_read : list (bytes * string);      (** history: the datagrams read *)
  ss_dialled : list (Z * string);       (** history: streams and targets dialled with success *)
}.

Inductive ServerAct :=
| SaConnect (i : nat) (resolve : string -> result string) (dial : result Conn)
| SaDemux (inp : option (bytes * string))
| SaCleanup
| SaStop
| SaSession (ref : nat) (act : Act).

Definition server_read (pc : DemuxPC) (inp : option (bytes * string)) : list (bytes * string) :=
  match pc, inp with DxRead, Some d => [d] | _, _ => [] end.

Definition dialled_by (pc : ConnectPC) (dial : result Conn) : list (Z * string) :=
  match pc, dial with CnDial p _ _, Ok _ => [(p_StreamID p, p_Addr p)] | _, _ => [] end.

(** One step of the proxy; [None] when it panics. *)
Definition server_step (now : Z) (act : ServerAct) (sys : ServerSys) : option (ServerSys * list PepEff) :=
  let p := ss_p sys in
  match act with
  | SaConnect i resolve dial =>
      match ss_handlers sys !! i with
      | None => Some (sys, [])
      | Some pc =>
          '(pc', p', es) ← connect_step now resolve dial pc p;
          Some (mkServerSys p' (<[i := pc']> (ss_handlers sys)) (ss_demux sys) (ss_stop sys)
                  (ss_read sys) (ss_dialled sys ++ dialled_by pc dial), es)
      end
  | SaDemux inp =>
      '(r, p', es) ← server_demux_step now inp (ss_demux sys) p;
      Some (mkServerSys p' (ss_handlers sys ++ r.2) r.1 (ss_stop sys)
              (ss_read sys ++ server_read (ss_demux sys) inp) (ss_dialled sys), es)
  | SaCleanup =>
      '(_, p', es) ← server_cleanup_tick now p;
      Some (mkServerSys p' (ss_handlers sys) (ss_demux sys) (ss_stop sys) (ss_read sys) (ss_dialled sys), es)
  | SaStop =>
      '(pc', p', es) ← server_stop_step (ss_stop sys) p;
      Some (mkServerSys p' (ss_handlers sys) (ss_demux sys) pc' (ss_read sys) (ss_dialled sys), es)
  | SaSession ref sact =>
      '(_, p', es) ← session_act now ref sact p;
      Some (mkServerSys p' (ss_handlers sys) (ss_demux sys) (ss_stop sys) (ss_read sys) (ss_dialled sys), es)
  end.

Definition server_init (p : Pep) : ServerSys := mkServerSys p [] DxTop StTop [] [].

(** [Start]: the socket on [listenAddr], then the goroutines. *)
Definition Start (ResolveUDPAddr : string -> result string) (ListenUDP : string -> result unit)
    (listenAddr : string) (p : Pep) : result ServerSys :=
  match ResolveUDPAddr listenAddr with
  | Err e => Err e
  | Ok uAddr => match ListenUDP uAddr with Err e => Err e | Ok _ => Ok (server_init p) end
  end.

(** What [ReadFromUDP] returns is bytes. *)
Definition server_act_ok (act : ServerAct) : Prop :=
  match act with SaDemux (Some (d, _)) => bytes_ok d | _ => True end.

Inductive server_reach (p0 : Pep) : ServerSys -> Prop :=
| server_reach_init : server_reach p0 (server_init p0)
| server_reach_step now act sys sys' es :
    server_reach p0 sys -> server_act_ok act ->
    server_step now act sys = Some (sys', es) -> server_reach p0 sys'.

(** ** Invariant *)

(** A CONNECT for stream [id] and destination [target] was read. *)
Definition requested (reads : list (bytes * string)) (id : Z) (target : string) : Prop :=
  exists d addr p, (d, addr) ∈ reads /\ Unmarshal (ReadFrom d) = Some (Ok p) /\
    p_Type p = TypeConnect /\ p_StreamID p = id /\ p_Addr p = target.

Definition connect_ok (reads : list (bytes * string)) (dialled : list (Z * string)) (objs : nat)
    (pc : ConnectPC) : Prop :=
  match pc with
  | CnResolve p _ | CnDial p _ _ =>
      0 <= p_StreamID p <= 4095 /\ requested reads (p_StreamID p) (p_Addr p)
  | CnAck p _ _ | CnOpen p _ _ => 0 <= p_StreamID p <= 4095 /\ (p_StreamID p, p_Addr p) ∈ dialled
  | CnStart ref => (ref < objs)%nat
  | CnReturned => True
  end.

Definition obj_dialled (dialled : list (Z * string)) (o : Obj) : Prop :=
  let id := c_StreamID (s_cfg (o_s o)) in
  0 <= id <= 4095 /\ exists target, (id, target) ∈ dialled.

Record server_inv (sys : ServerSys) : Prop := {
  vi_pep : pep_inv (ss_p sys);
  vi_dialled : Forall (fun e => requested (ss_read sys) e.1 e.2) (ss_dialled sys);
  vi_obj : Forall (obj_dialled (ss_dialled sys)) (pep_objs (ss_p sys));
  vi_handlers : Forall (connect_ok (ss_read sys) (ss_dialled sys) (length (pep_objs (ss_p sys))))
    (ss_handlers sys);
}.

Lemma requested_mono reads reads' id target :
  reads `prefix_of` reads' -> requested reads id target -> requested reads' id target.
Proof.
  intros [k ->] (d & a & p & Hd & H). exists d, a, p. split; [|done]. apply elem_of_app. by left.
Qed.

Lemma elem_prefix {A} (l l' : list A) x : l `prefix_of` l' -> x ∈ l -> x ∈ l'.
Proof. intros [k ->] H. apply elem_of_app. by left. Qed.

Lemma connect_ok_mono reads reads' dl dl' n n' pc :
  reads `prefix_of` reads' -> dl `prefix_of` dl' -> (n <= n')%nat ->
  connect_ok reads dl n pc -> connect_ok reads' dl' n' pc.
Proof.
  intros Hr Hd Hn. destruct pc; simpl; try done; try lia; intros [H1 H2]; (split; [done|]);
    eauto using requested_mono, elem_prefix.
Qed.

Lemma obj_dialled_mono dl dl' o : dl `prefix_of` dl' -> obj_dialled dl o -> obj_dialled dl' o.
Proof. intros Hd [H1 [t Ht]]. split; [done|]. exists t. by eapply elem_prefix. Qed.

(** The histories only grow. *)
Lemma server_inv_mono sys rd dl st dx :
  server_inv sys -> Forall (fun e => requested (ss_read sys ++ rd) e.1 e.2) dl ->
  server_inv (mkServerSys (ss_p sys) (ss_handlers sys) dx st (ss_read sys ++ rd) (ss_dialled sys ++ dl)).
Proof.
  intros [] Hdl. assert (ss_read sys `prefix_of` ss_read sys ++ rd) as Hr by (by apply prefix_app_r).
  assert (ss_dialled sys `prefix_of` ss_dialled sys ++ dl) as Hd by (by apply prefix_app_r).
  constructor; simpl; try done.
  - apply Forall_app. split; [|done]. eapply Forall_impl; [done|]. intros e. by apply requested_mono.
  - eapply Forall_impl; [done|]. intros o. by apply obj_dialled_mono.
  - eapply Forall_impl; [done|]. intros pc. by apply connect_ok_mono.
Qed.

(** A step of the shared part. *)
Lemma server_inv_pep sys p' dx st :
  server_inv sys -> pep_inv p' -> pep_next (ss_p sys) p' ->
  server_inv (mkServerSys p' (ss_handlers sys) dx st (ss_read sys) (ss_dialled sys)).
Proof.
  intros [] Hp (Hev & _ & _). constructor; simpl; try done.
  - apply Forall_lookup. intros i o' Ho'. destruct (Forall2_lookup_r _ _ _ _ _ Hev Ho') as (o & Ho & Hc & _).
    unfold obj_dialled. rewrite Hc. by apply (Forall_lookup_1 _ _ _ _ vi_obj0 Ho).
  - by rewrite <- (Forall2_length _ _ _ Hev).
Qed.

Lemma server_inv_handler sys i pc :
  server_inv sys -> connect_ok (ss_read sys) (ss_dialled sys) (length (pep_objs (ss_p sys))) pc ->
  server_inv (mkServerSys (ss_p sys) (<[i := pc]> (ss_handlers sys)) (ss_demux sys) (ss_stop sys)
    (ss_read sys) (ss_dialled sys)).
Proof. intros [] Hpc. constructor; simpl; try done. by apply Forall_insert. Qed.

Lemma send_packet_eq p addr s :
  exists es, send_packet p addr s = Some (tt, s, es) /\
    es = match Marshal p with Ok buf => [PUdp buf addr] | Err _ => [] end.
Proof. unfold send_packet. destruct (Marshal p); eexists; done. Qed.

Lemma close_old_safe id : pep_safe (close_old id).
Proof.
  apply pep_safe_bind; [apply pep_safe_get|]. intros p. case_match; [|apply pep_safe_ret].
  apply pep_safe_call. eauto with keeps.
Qed.

(** The session a successful CONNECT installs. *)
Lemma server_open_inv sys i now p addr conn pc' p' es :
  server_inv sys -> 0 <= p_StreamID p <= 4095 -> (p_StreamID p, p_Addr p) ∈ ss_dialled sys ->
  connect_step now (fun _ => Err "") (Err "") (CnOpen p addr conn) (ss_p sys) = Some (pc', p', es) ->
  server_inv (mkServerSys p' (<[i := pc']> (ss_handlers sys)) (ss_demux sys) (ss_stop sys)
    (ss_read sys) (ss_dialled sys)).
Proof.
  intros Hs Hid Hdl. set (o := fresh_obj now (p_StreamID p) conn addr (ss_p sys)).
  set (p1 := with_objs (ss_p sys) (pep_objs (ss_p sys) ++ [o])).
  assert (server_inv (mkServerSys p1 (ss_handlers sys) (ss_demux sys) (ss_stop sys) (ss_read sys) (ss_dialled sys))) as H1.
  { destruct Hs. constructor; simpl; try done.
    - by apply fresh_obj_inv.
    - apply Forall_app. split; [done|]. constructor; [|done]. unfold obj_dialled, o. rewrite fresh_obj_id. eauto.
    - eapply Forall_impl; [done|]. intros pc. apply connect_ok_mono; [done..|]. rewrite length_app. lia. }
  simpl. unfold go_bind at 1. rewrite pep_NewSession_eq. fold o p1. unfold go_bind.
  destruct (close_old (p_StreamID p) p1) as [[[[] p2] es2]|] eqn:E; [|done]. intros [= <- <- <-].
  destruct (close_old_safe _ _ _ _ _ (vi_pep _ H1) E) as [Hp2 Hn2].
  pose proof (server_inv_pep _ p2 (ss_demux sys) (ss_stop sys) H1 Hp2 Hn2) as H2.
  set (ref := length (pep_objs (ss_p sys))) in *. simpl in H2.
  destruct Hn2 as (Hev & _ & _).
  destruct (Forall2_lookup_l _ _ _ ref o Hev) as (o' & Ho' & Hcfg & _); [by apply list_lookup_middle|].
  apply (server_inv_handler (mkServerSys (with_sessions p2 (<[p_StreamID p := ref]> (pep_sessions p2)))
    (ss_handlers sys) _ _ _ _)).
  - destruct H2. constructor; simpl in *; try done. eapply register_inv; [done..|].
    rewrite Hcfg. apply fresh_obj_id.
  - simpl. by eapply lookup_lt_Some.
Qed.

Lemma connect_step_inv now resolve dial sys i pc pc' p' es :
  server_inv sys -> ss_handlers sys !! i = Some pc ->
  connect_step now resolve dial pc (ss_p sys) = Some (pc', p', es) ->
  server_inv (mkServerSys p' (<[i := pc']> (ss_handlers sys)) (ss_demux sys) (ss_stop sys)
    (ss_read sys) (ss_dialled sys ++ dialled_by pc dial)).
Proof.
  intros Hs Hi. pose proof (Forall_lookup_1 _ _ _ _ (vi_handlers sys Hs) Hi) as Hok.
  destruct pc as [p a|p a t|p a c|p a c|ref|]; simpl in Hok |- *; rewrite ?app_nil_r.
  - destruct (resolve _) as [t|e]; [intros [= <- <- <-]; by apply server_inv_handler|].
    unfold sendError, go_bind. destruct (send_packet_eq (err_packet (p_StreamID p) e) a (ss_p sys)) as (es0 & -> & _).
    intros [= <- <- <-]. by apply server_inv_handler.
  - destruct dial as [c|e]; simpl.
    + intros [= <- <- <-]. destruct Hok as [Hid Hreq].
      assert (server_inv (mkServerSys (ss_p sys) (ss_handlers sys) (ss_demux sys) (ss_stop sys) (ss_read sys)
        (ss_dialled sys ++ [(p_StreamID p, p_Addr p)]))) as H1.
      { pose proof (server_inv_mono sys [] [(p_StreamID p, p_Addr p)] (ss_stop sys) (ss_demux sys) Hs) as H1.
        rewrite app_nil_r in H1. apply H1. by repeat constructor. }
      apply (server_inv_handler _ i (CnAck p a c) H1). simpl. split; [done|].
      apply elem_of_app. right. apply list_elem_of_here.
    + rewrite app_nil_r. unfold sendError, go_bind.
      destruct (send_packet_eq (err_packet (p_StreamID p) e) a (ss_p sys)) as (es0 & -> & _).
      intros [= <- <- <-]. by apply server_inv_handler.
  - unfold go_bind. destruct (send_packet_eq (ack_packet (p_StreamID p)) a (ss_p sys)) as (es0 & -> & _).
    intros [= <- <- <-]. by apply server_inv_handler.
  - destruct Hok as [Hid Hdl]. intros E. by eapply server_open_inv.
  - unfold go_bind. destruct (pep_Start ref (ss_p sys)) as [[[[] p1] es1]|] eqn:E; [|done].
    intros [= <- <- <-]. destruct (pep_Start_safe _ _ _ _ _ (vi_pep _ Hs) E) as [Hp Hn].
    apply (server_inv_handler _ i CnReturned (server_inv_pep sys p1 (ss_demux sys) (ss_stop sys) Hs Hp Hn) I).
  - intros [= <- <- <-]. by apply server_inv_handler.
Qed.

Lemma server_demux_inv now inp sys r p' es :
  server_inv sys -> server_act_ok (SaDemux inp) ->
  server_demux_step now inp (ss_demux sys) (ss_p sys) = Some (r, p', es) ->
  server_inv (mkServerSys p' (ss_handlers sys ++ r.2) r.1 (ss_stop sys)
    (ss_read sys ++ server_read (ss_demux sys) inp) (ss_dialled sys)).
Proof.
  intros Hs Hin. unfold server_demux_step. rewrite go_bind_get.
  assert (forall dx rd, server_inv (mkServerSys (ss_p sys) (ss_handlers sys ++ []) dx (ss_stop sys)
    (ss_read sys ++ rd) (ss_dialled sys))) as Hstay.
  { intros dx rd. pose proof (server_inv_mono sys rd [] (ss_stop sys) dx Hs) as H. rewrite !app_nil_r in *. by apply H. }
  destruct (ss_demux sys) as [| |ref n pkt|id|ch v|] eqn:Edx; simpl.
  - case_match; intros [= <- <- <-]; apply Hstay.
  - destruct inp as [[b a]|]; [|case_match; intros [= <- <- <-]; apply Hstay].
    destruct (Unmarshal (ReadFrom b)) as [[pkt|]|] eqn:Eu; simpl; [|intros [= <- <- <-]; apply Hstay|done].
    rewrite go_bind_ret. destruct (pep_sessions (ss_p sys) !! p_StreamID pkt) as [ref|].
    + destruct (p_Type pkt =? TypeConnect); [|intros [= <- <- <-]; apply Hstay].
      unfold go_bind. destruct (send_packet_eq (ack_packet (p_StreamID pkt)) a (ss_p sys)) as (es0 & -> & _).
      intros [= <- <- <-]. apply Hstay.
    + destruct (Z.eqb_spec (p_Type pkt) TypeConnect) as [Et|]; intros [= <- <- <-]; [|apply Hstay].
      pose proof (Hstay DxTop [(b, a)]) as H. rewrite app_nil_r in H. destruct H. constructor; simpl; try done.
      apply Forall_app. split; [done|]. constructor; [|done]. simpl. split; [by eapply Unmarshal_stream|].
      exists b, a, pkt. split_and!; try done. apply elem_of_app. right. apply list_elem_of_here.
  - unfold go_bind. destruct (dispatch_step _ _ _ _ _) as [[[pc p1] es1]|] eqn:E; [|done].
    intros [= <- <- <-]. destruct (dispatch_step_safe _ _ _ _ _ _ _ _ (vi_pep _ Hs) E) as [Hp Hn].
    rewrite !app_nil_r. by apply server_inv_pep.
  - intros [= <- <- <-]. rewrite !app_nil_r.
    apply server_inv_pep; [done|apply unregister_inv, Hs|done].
  - intros [= <- <- <-]. apply Hstay.
  - intros [= <- <- <-]. apply Hstay.
Qed.

Lemma server_step_inv now act sys sys' es :
  server_inv sys -> server_act_ok act -> server_step now act sys = Some (sys', es) -> server_inv sys'.
Proof.
  intros Hs Hact. unfold server_step.
  assert (forall A (m : PepM A) a p' es st, pep_safe m -> m (ss_p sys) = Some (a, p', es) ->
    server_inv (mkServerSys p' (ss_handlers sys) (ss_demux sys) st (ss_read sys) (ss_dialled sys))) as Hpep.
  { intros A m a p' es0 st Hm E. destruct (Hm _ _ _ _ (vi_pep _ Hs) E). by apply server_inv_pep. }
  destruct act as [i resolve dial|inp| | |ref act].
  - destruct (ss_handlers sys !! i) as [pc|] eqn:Ei; [|by intros [= <- <-]].
    destruct (connect_step _ _ _ _ _) as [[[pc' p'] es']|] eqn:E; [|done]. intros [= <- <-].
    by eapply connect_step_inv.
  - destruct (server_demux_step _ _ _ _) as [[[r p'] es']|] eqn:E; [|done]. intros [= <- <-].
    by eapply server_demux_inv.
  - unfold server_cleanup_tick. destruct (cleanup_tick _ _) as [[[a p'] es']|] eqn:E; [|done]. intros [= <- <-].
    eapply Hpep; [apply cleanup_tick_safe|exact E].
  - unfold server_stop_step. destruct (stop_step _ _ _) as [[[a p'] es']|] eqn:E; [|done]. intros [= <- <-].
    eapply Hpep; [apply stop_step_safe|exact E].
  - destruct (session_act _ _ _ _) as [[[a p'] es']|] eqn:E; [|done]. intros [= <- <-].
    eapply Hpep; [apply session_act_safe|exact E].
Qed.

Lemma server_init_inv mtu bandwidth k m idle :
  server_inv (server_init (NewServerPEP mtu bandwidth k m idle)).
Proof. by constructor. Qed.

Lemma server_reach_inv p0 sys : server_inv (server_init p0) -> server_reach p0 sys -> server_inv sys.
Proof. intros H0 H. induction H; [done|]. by eapply server_step_inv. Qed.

(** ** Theorems *)

(** C16: The session table of the server.  In every reachable state an entry for
    stream [id] is a session of that stream, for which the server has dialled with
    success a target that a CONNECT of stream [id] it has read asked for. *)
Theorem server_sessions_dialled mtu bandwidth k m idle sys id ref :
  server_reach (NewServerPEP mtu bandwidth k m idle) sys ->
  pep_sessions (ss_p sys) !! id = Some ref ->
  exists o target, pep_objs (ss_p sys) !! ref = Some o /\ c_StreamID (s_cfg (o_s o)) = id /\
    0 <= id <= 4095 /\ (id, target) ∈ ss_dialled sys /\ requested (ss_read sys) id target.
Proof.
  intros H Hid. apply server_reach_inv in H; [|apply server_init_inv].
  destruct (pi_tab _ (vi_pep _ H) _ _ Hid) as (o & Ho & <-).
  destruct (Forall_lookup_1 _ _ _ _ (vi_obj _ H) Ho) as [Hr [target Ht]].
  exists o, target. split; [done|]. split; [done|]. split; [done|]. split; [done|].
  apply list_elem_of_lookup in Ht as [i Hi].
  apply (Forall_lookup_1 _ _ _ _ (vi_dialled _ H) Hi).
Qed.

(** [handleConnect] when nothing interferes: it returns within five steps. *)
Fixpoint connect_run (fuel : nat) (now : Z) (resolve : string -> result string) (dial : result Conn)
    (pc : ConnectPC) : PepM ConnectPC :=
  match fuel with
  | O => go_ret pc
  | S fuel => let! pc := connect_step now resolve dial pc in connect_run fuel now resolve dial pc
  end.

Definition handleConnect (now : Z) (resolve : string -> result string) (dial : result Conn)
    (p : Packet) (clientAddr : string) : PepM ConnectPC :=
  connect_run 5 now resolve dial (CnResolve p clientAddr).

(** What the client gets for a failed connection: CONN_ERR with the message, or
    nothing if it is too long for the frame. *)
Definition error_reply (id : Z) (msg : string) (addr : string) : list PepEff :=
  match Marshal (err_packet id msg) with Ok buf => [PUdp buf addr] | Err _ => [] end.

Lemma error_reply_spec id msg addr : 0 <= id <= 4095 ->
  if len (bytes_of_string msg) <=? 255
  then exists buf, error_reply id msg addr = [PUdp buf addr] /\
         Unmarshal (ReadFrom buf) = Some (Ok (err_packet id msg))
  else error_reply id msg addr = [].
Proof.
  intros Hid. unfold error_reply.
  assert (Packet_wf (err_packet id msg)) as Hwf
    by (repeat split; simpl; unfold TypeConnErr; try lia; by constructor).
  pose proof (Marshal_ok_iff _ Hwf) as Hm. unfold marshalable in Hm. simpl in Hm.
  rewrite (proj2 (Z.leb_le id 4095)) in Hm by lia. simpl in Hm.
  destruct (Marshal (err_packet id msg)) as [buf|e] eqn:E; simpl in Hm; rewrite <- Hm; [|done].
  exists buf. split; [done|]. symmetry in Hm. apply Z.leb_le in Hm.
  rewrite (Marshal_received _ _ Hwf E); [done|].
  rewrite (Marshal_len _ _ E). unfold frame_size. simpl. lia.
Qed.

Lemma connect_run_returned fuel now resolve dial st :
  connect_run fuel now resolve dial CnReturned st = Some (CnReturned, st, []).
Proof. induction fuel as [|fuel IH]; [done|]. simpl. unfold go_bind. simpl. by rewrite IH. Qed.

Lemma send_error_eq id e addr st :
  (do! sendError id e addr in go_ret CnReturned) st = Some (CnReturned, st, error_reply id e addr).
Proof.
  unfold sendError, send_packet, error_reply, go_bind. by destruct (Marshal _).
Qed.

(** C18: A CONNECT whose target cannot be resolved or dialled leaves the proxy
    unchanged and is answered by exactly one CONN_ERR with the error message, which
    the client decodes as such, unless the message has more than 255 bytes: then
    nothing is sent. *)
Theorem handleConnect_error now resolve dial p clientAddr st e :
  0 <= p_StreamID p <= 4095 ->
  (resolve (p_Addr p) = Err e \/ (exists tcp, resolve (p_Addr p) = Ok tcp) /\ dial = Err e) ->
  exists es, handleConnect now resolve dial p clientAddr st = Some (CnReturned, st, es) /\
    if len (bytes_of_string e) <=? 255
    then exists buf, es = [PUdp buf clientAddr] /\
           Unmarshal (ReadFrom buf) = Some (Ok (err_packet (p_StreamID p) e))
    else es = [].
Proof.
  intros Hid He. exists (error_reply (p_StreamID p) e clientAddr).
  split; [|by apply error_reply_spec].
  destruct He as [E|[[tcp E] ->]].
  - rewrite <- (app_nil_r (error_reply _ _ _)). eapply go_bind_eq; [|apply (connect_run_returned 4)].
    simpl. rewrite E. apply send_error_eq.
  - change (error_reply (p_StreamID p) e clientAddr) with ([] ++ error_reply (p_StreamID p) e clientAddr).
    eapply go_bind_eq; [simpl; by rewrite E|].
    rewrite <- (app_nil_r (error_reply _ _ _)). eapply go_bind_eq; [|apply (connect_run_returned 3)].
    apply send_error_eq.
Qed.

Lemma ack_frame id : 0 <= id <= 4095 ->
  exists buf, Marshal (ack_packet id) = Ok buf /\ Unmarshal (ReadFrom buf) = Some (Ok (ack_packet id)).
Proof.
  intros Hid. assert (Packet_wf (ack_packet id)) as Hwf
    by (repeat split; simpl; unfold TypeConnAck; try lia; by constructor).
  pose proof (Marshal_ok_iff _ Hwf) as Hm. unfold marshalable in Hm. simpl in Hm.
  rewrite (proj2 (Z.leb_le id 4095)) in Hm by lia. simpl in Hm.
  destruct (Marshal (ack_packet id)) as [buf|e] eqn:E; [|done]. exists buf. split; [done|].
  rewrite (Marshal_received _ _ Hwf E); [done|]. by rewrite (Marshal_len _ _ E).
Qed.

Lemma close_old_spec id p :
  pep_inv p -> exists p' es, close_old id p = Some (tt, p', es) /\ pep_sessions p' = pep_sessions p /\
    pep_inv p' /\ pep_next p p' /\
    match pep_sessions p !! id with
    | None => p' = p
    | Some old => exists o, pep_objs p !! old = Some o /\ pep_objs p' = <[old := close_obj o]> (pep_objs p)
    end.
Proof.
  intros Hp. unfold close_old. rewrite go_bind_get.
  destruct (pep_sessions p !! id) as [old|] eqn:E; [|by exists p, []].
  destruct (pi_tab p Hp _ _ E) as (o & Ho & _). destruct (call_Close p old o Ho) as (es & Ec & _).
  eexists _, es. split; [exact Ec|]. split; [done|].
  assert (keeps Close) as Hk by eauto with keeps.
  destruct (pep_safe_call old Close Hk _ _ _ _ Hp Ec) as [H1 H2]. split; [done|]. split; [done|].
  by exists o.
Qed.

(** The critical section that replaces the session of a stream. *)
Lemma connect_open_spec now resolve dial p addr conn st :
  pep_inv st -> let id := p_StreamID p in let n := length (pep_objs st) in
  let o := fresh_obj now id conn addr st in
  exists st' es, connect_step now resolve dial (CnOpen p addr conn) st = Some (CnStart n, st', es) /\
    pep_inv st' /\ pep_cfg st' = pep_cfg st /\ pep_sessions st' = <[id := n]> (pep_sessions st) /\
    pep_objs st' !! n = Some o /\ Forall (fun e => exists r x, e = PSess r x) es /\
    (forall ref x, pep_objs st !! ref = Some x ->
       exists x', pep_objs st' !! ref = Some x' /\
         if bool_decide (pep_sessions st !! id = Some ref) then is_closed x' else x' = x).
Proof.
  intros Hst id n o. set (p1 := with_objs st (pep_objs st ++ [o])).
  assert (pep_inv p1) as Hp1 by (by apply fresh_obj_inv).
  assert (pep_objs p1 !! n = Some o) as Hn by (by apply list_lookup_middle).
  assert (forall ref x, pep_objs st !! ref = Some x -> pep_objs p1 !! ref = Some x /\ ref <> n) as Hold.
  { intros ref x Hx. split; [by apply lookup_app_l_Some|]. apply lookup_lt_Some in Hx. unfold n. lia. }
  simpl. unfold go_bind at 1. rewrite pep_NewSession_eq. fold id o p1 n. unfold close_old.
  unfold go_bind at 1. rewrite go_bind_get.
  change (pep_sessions p1) with (pep_sessions st).
  destruct (pep_sessions st !! id) as [old|] eqn:Eold.
  - destruct (pi_tab st Hst _ _ Eold) as (x & Hx & _). destruct (Hold _ _ Hx) as [Hx1 Hne].
    destruct (call_Close p1 old x Hx1) as (es & Ec & _). rewrite Ec.
    assert (keeps Close) as Hk by eauto with keeps.
    destruct (pep_safe_call old Close Hk _ _ _ _ Hp1 Ec) as [Hp2 _].
    apply call_spec in Ec as (x0 & s' & es0 & _ & _ & _ & _ & ->); [|done].
    assert (pep_objs (with_objs p1 (<[old := close_obj x]> (pep_objs p1))) !! n = Some o) as Hn2
      by (simpl; by rewrite list_lookup_insert_ne).
    eexists _, _. split; [reflexivity|]. split_and!; try done.
    + eapply register_inv; [exact Hp2|exact Hn2|apply fresh_obj_id].
    + rewrite app_nil_r. apply Forall_fmap, Forall_true. eauto.
    + intros ref y Hy. destruct (Hold _ _ Hy) as [Hy1 _]. simpl.
      destruct (decide (ref = old)) as [->|Hro].
      * exists (close_obj x). rewrite bool_decide_eq_true_2 by done.
        split; [|apply close_obj_closed]. apply list_lookup_insert_eq. by eapply lookup_lt_Some.
      * exists y. rewrite list_lookup_insert_ne by done. rewrite bool_decide_eq_false_2 by congruence. done.
  - eexists _, _. split; [reflexivity|]. split_and!; try done.
    + eapply register_inv; [exact Hp1|exact Hn|apply fresh_obj_id].
    + intros ref y Hy. exists y. rewrite bool_decide_eq_false_2 by done. by destruct (Hold _ _ Hy).
Qed.

(** C17: A CONNECT whose target can be dialled: [handleConnect] returns after it has
    sent exactly one CONN_ACK, first of all, to the address the CONNECT came from;
    the table then maps the stream to a new, started session towards that address,
    a session the stream had before is closed, and all other sessions are as they
    were. *)
Theorem handleConnect_ok now resolve conn p clientAddr st tcp :
  pep_inv st -> pep_done st = false -> 0 <= pc_fecK (pep_cfg st) -> 0 <= pc_fecM (pep_cfg st) ->
  0 <= p_StreamID p <= 4095 -> resolve (p_Addr p) = Ok tcp ->
  exists st' es buf o, handleConnect now resolve (Ok conn) p clientAddr st = Some (CnReturned, st', PUdp buf clientAddr :: es) /\
    Unmarshal (ReadFrom buf) = Some (Ok (ack_packet (p_StreamID p))) /\
    Forall (fun e => exists r x, e = PSess r x) es /\
    pep_sessions st' = <[p_StreamID p := length (pep_objs st)]> (pep_sessions st) /\
    pep_objs st' !! length (pep_objs st) = Some o /\ o_started o = true /\ s_done (o_s o) = false /\
    c_StreamID (s_cfg (o_s o)) = p_StreamID p /\ c_PEPAddr (s_cfg (o_s o)) = clientAddr /\
    (forall ref x, pep_objs st !! ref = Some x ->
       exists x', pep_objs st' !! ref = Some x' /\
         if bool_decide (pep_sessions st !! p_StreamID p = Some ref) then is_closed x' else x' = x).
Proof.
  intros Hst Hdone Hk Hm Hid Hres.
  destruct (ack_frame (p_StreamID p) Hid) as (buf & Eb & Hbuf).
  destruct (connect_open_spec now resolve (Ok conn) p clientAddr conn st Hst)
    as (st1 & es1 & E1 & Hinv1 & Hcfg1 & Hs1 & Hn1 & Hes1 & Hothers).
  set (n := length (pep_objs st)) in *. set (o := fresh_obj _ _ _ _ _) in *.
  destruct (pep_Start_eq st1 n o Hinv1 Hn1) as (o' & es2 & E2 & Hst' & Hc' & Hd'); [by rewrite Hcfg1..|].
  exists (with_objs st1 (<[n := o']> (pep_objs st1))), (es1 ++ map (PSess n) es2), buf, o'. split_and!; try done.
  - change (PUdp buf clientAddr :: es1 ++ map (PSess n) es2)
      with ([] ++ [] ++ [PUdp buf clientAddr] ++ es1 ++ map (PSess n) es2).
    do 2 (eapply go_bind_eq; [simpl; rewrite ?Hres; reflexivity|]).
    eapply go_bind_eq; [simpl; unfold send_packet; rewrite Eb; reflexivity|].
    eapply go_bind_eq; [exact E1|].
    simpl. unfold go_bind. rewrite E2. simpl. by rewrite ?app_nil_r.
  - apply Forall_app. split; [done|]. apply Forall_fmap, Forall_true. eauto.
  - simpl. apply list_lookup_insert_eq. by eapply lookup_lt_Some.
  - rewrite Hd'. unfold o, fresh_obj. simpl. by rewrite Hdone.
  - rewrite Hc'. apply fresh_obj_id.
  - rewrite Hc'. unfold o, fresh_obj. simpl. by rewrite Hdone.
  - intros ref x Hx. destruct (Hothers ref x Hx) as (x' & Hx' & H). exists x'. split; [|done].
    simpl. rewrite list_lookup_insert_ne; [done|]. apply lookup_lt_Some in Hx. unfold n. lia.
Qed.

(** C19: A retransmitted CONNECT.  When the stream of a CONNECT is in the table, the
    server answers with one CONN_ACK to the sender, starts no connection and leaves
    every session as it is, whatever address the CONNECT names or comes from. *)
Theorem connect_idempotent now datagram rAddr pkt ref p :
  bytes_ok datagram -> Unmarshal (ReadFrom datagram) = Some (Ok pkt) ->
  p_Type pkt = TypeConnect -> pep_sessions p !! p_StreamID pkt = Some ref ->
  exists buf, server_demux_step now (Some (datagram, rAddr)) DxRead p =
      Some ((DxTop, []), p, [PUdp buf rAddr]) /\
    Unmarshal (ReadFrom buf) = Some (Ok (ack_packet (p_StreamID pkt))).
Proof.
  intros Hb Hu Ht Hs. destruct (ack_frame (p_StreamID pkt)) as (buf & Eb & Hbuf); [by eapply Unmarshal_stream|].
  exists buf. split; [|done]. unfold server_demux_step. rewrite go_bind_get, Hu. simpl. rewrite go_bind_ret, Hs.
  rewrite Ht. simpl. unfold send_packet. by rewrite Eb.
Qed.

End Server.

(** ** Witnesses *)

Module ServerDemo.
#[local] Existing Instance XorCode.xor_rs.

Definition p0 : Pep := NewServerPEP 1200 128000 2 1 (300 * Second).
Definition pkt : Packet := mkPacket TypeConnect 7 "h:80" 0 0 0 false None 0.
Definition frame : bytes := [0; 7; 4; 104; 58; 56; 48].

(** A CONNECT is read and served. *)
Definition acts : list (Z * ServerAct) :=
  let h := SaConnect 0 Ok (Ok (mkConn 0 (Some "h:80"))) in
  [(0, SaDemux None); (1, SaDemux (Some (frame, "client:1"))); (2, h); (3, h); (4, h); (5, h); (6, h)].

Fixpoint exec (acts : list (Z * ServerAct)) (sys : ServerSys) : option ServerSys :=
  match acts with
  | [] => Some sys
  | (now, act) :: acts => '(sys', _) ← server_step now act sys; exec acts sys'
  end.

Lemma exec_server_reach p acts sys sys' :
  server_reach p sys -> Forall (fun e => server_act_ok e.2) acts ->
  exec acts sys = Some sys' -> server_reach p sys'.
Proof.
  revert sys. induction acts as [|[now act] acts IH]; intros sys Hs Hok; simpl; [by intros [= <-]|].
  apply Forall_cons in Hok as [Ha Hok].
  destruct (server_step now act sys) as [[sys1 es]|] eqn:E; simpl; [|done].
  apply IH; [|done]. by eapply server_reach_step.
Qed.

Definition final : ServerSys := default (server_init p0) (exec acts (server_init p0)).

Lemma server_final_reach : server_reach p0 final.
Proof.
  eapply (exec_server_reach p0 acts); [apply server_reach_init| |vm_compute; reflexivity].
  repeat constructor; simpl; unfold is_u8; lia.
Qed.

End ServerDemo.

#[local] Existing Instance XorCode.xor_rs.

Lemma server_sessions_dialled_witness :
  exists target, (7, target) ∈ ss_dialled ServerDemo.final /\ requested (ss_read ServerDemo.final) 7 target.
Proof.
  destruct (server_sessions_dialled _ _ _ _ _ ServerDemo.final 7 0%nat ServerDemo.server_final_reach)
    as (o & target & _ & _ & _ & H1 & H2); [vm_compute; reflexivity|].
  exists target. split; [exact H1|exact H2].
Defined.

Lemma handleConnect_error_witness :
  exists buf, handleConnect 0 Ok (Err "refused") ServerDemo.pkt "client:1" ServerDemo.p0 =
    Some (CnReturned, ServerDemo.p0, [PUdp buf "client:1"]).
Proof.
  destruct (handleConnect_error 0 Ok (Err "refused") ServerDemo.pkt "client:1" ServerDemo.p0 "refused")
    as (es & H & Hr).
  - simpl. lia.
  - right. split; [exists "h:80"; reflexivity|reflexivity].
  - change (len (bytes_of_string "refused") <=? 255) with true in Hr. destruct Hr as (buf & -> & _). exists buf. exact H.
Defined.

Lemma handleConnect_ok_witness :
  exists st' es buf, handleConnect 0 Ok (Ok (mkConn 0 None)) ServerDemo.pkt "client:1" ServerDemo.p0 =
    Some (CnReturned, st', PUdp buf "client:1" :: es) /\ pep_sessions st' = {[7 := 0%nat]}.
Proof.
  destruct (handleConnect_ok 0 Ok (mkConn 0 None) ServerDemo.pkt "client:1" ServerDemo.p0 "h:80")
    as (st' & es & buf & o & H & _ & _ & Hs & _).
  - apply new_pep_inv.
  - reflexivity.
  - simpl. lia.
  - simpl. lia.
  - simpl. lia.
  - reflexivity.
  - exists st', es, buf. split; [exact H|exact Hs].
Defined.

Lemma connect_idempotent_witness :
  exists buf, server_demux_step 0 (Some (ServerDemo.frame, "other:2")) DxRead (ss_p ServerDemo.final) =
    Some ((DxTop, []), ss_p ServerDemo.final, [PUdp buf "other:2"]).
Proof.
  destruct (connect_idempotent 0 ServerDemo.frame "other:2" ServerDemo.pkt 0 (ss_p ServerDemo.final))
    as (buf & H & _).
  - repeat constructor; unfold is_u8; lia.
  - vm_compute. reflexivity.
  - reflexivity.
  - vm_compute. reflexivity.
  - exists buf. exact H.
Defined.
