(* ===== verification/Handshake.v ===== *)
(** * The handshake, end to end

    A client proxy and a server proxy over a network that may lose, duplicate,
    delay and reorder datagrams.  The abstract specification [hs_spec] knows three
    sets: the destinations requested for a stream, the targets dialled, the streams
    established at the client.  Every step of the two proxies is a step of the
    specification or invisible to it; a client therefore never holds a session for
    which the server has not connected to a destination it asked for. *)
From stdpp Require Import base gmap strings list pretty relations.
From S2P Require Import Prelude Protocol Fec Shaper Duration Session SessionRecv SendSpec RecvSpec E2E Frame Frames Pep PepFrames NetAddr Router Client Server.
Local Open Scope string_scope.
Local Open Scope list_scope.
Local Open Scope Z_scope.
Local Open Scope go_scope.

Section Handshake.
Context {RS : ReedSolomon}.

(** ** The system *)

Record HSys := mkHSys {
  hs_cl : ClientSys;
  hs_sv : ServerSys;
  hs_cs : list bytes;                   (** every datagram the client side has sent *)
  hs_sc : list bytes;
  hs_reqs : list (Z * string);          (** history: streams and destinations requested *)
}.

Definition pep_udp (es : list PepEff) : list bytes :=
  omap (fun e => match e with PUdp b _ => Some b | PSess _ (EUdp b) => Some b | _ => None end) es.

(** The request a client step makes. *)
Definition reqs_of_pc (pc : HandlerPC) : list (Z * string) :=
  match pc with HConnect _ dst _ id _ => [(id, dst)] | _ => [] end.
Definition reqs_by (act : ClientAct) (cl : ClientSys) : list (Z * string) :=
  match act with
  | CaHandler i _ _ _ => match cs_handlers cl !! i with Some pc => reqs_of_pc pc | None => [] end
  | _ => []
  end.

(** The network delivers only what was sent. *)
Definition client_net_ok (sc : list bytes) (act : ClientAct) : Prop :=
  match act with CaDemux (Some b) => b ∈ sc | _ => True end.
Definition server_net_ok (cs : list bytes) (act : ServerAct) : Prop :=
  match act with SaDemux (Some (b, _)) => b ∈ cs /\ bytes_ok b | _ => True end.

Inductive hs_step : HSys -> HSys -> Prop :=
| hs_client now act cl sv cs sc reqs cl' es :
    client_net_ok sc act -> client_step now act cl = Some (cl', es) ->
    hs_step (mkHSys cl sv cs sc reqs) (mkHSys cl' sv (cs ++ pep_udp es) sc (reqs ++ reqs_by act cl))
| hs_server now act cl sv cs sc reqs sv' es :
    server_net_ok cs act -> server_step now act sv = Some (sv', es) ->
    hs_step (mkHSys cl sv cs sc reqs) (mkHSys cl sv' cs (sc ++ pep_udp es) reqs).

Definition hs_init (c0 : ClientPEP) (p0 : Pep) : HSys :=
  mkHSys (client_init c0) (server_init p0) [] [] [].

(** ** What is on the wire *)

Definition connect_frame (reqs : list (Z * string)) (b : bytes) : Prop :=
  exists id dst, (id, dst) ∈ reqs /\ id_ok id /\ Marshal (connect_packet id dst) = Ok b.
Definition reply_frame (dialled : list (Z * string)) (b : bytes) : Prop :=
  (exists id target, (id, target) ∈ dialled /\ 0 <= id <= 4095 /\ Marshal (ack_packet id) = Ok b) \/
  (exists id msg, 0 <= id <= 4095 /\ Marshal (err_packet id msg) = Ok b).

Definition client_effect_ok (reqs : list (Z * string)) (e : PepEff) : Prop :=
  match e with PUdp b _ => connect_frame reqs b | _ => pep_effect_ok e end.
Definition server_effect_ok (dialled : list (Z * string)) (e : PepEff) : Prop :=
  match e with PUdp b _ => reply_frame dialled b | _ => pep_effect_ok e end.

(** A handler that waits resends a CONNECT that is on record. *)
Definition wait_ok (reqs : list (Z * string)) (pc : HandlerPC) : Prop :=
  match pc with
  | HWait _ _ id _ buf _ _ => exists dst, (id, dst) ∈ reqs /\ Marshal (connect_packet id dst) = Ok buf
  | _ => True
  end.

Lemma connect_frame_mono reqs reqs' b : reqs `prefix_of` reqs' -> connect_frame reqs b -> connect_frame reqs' b.
Proof. intros Hp (id & dst & H & H'). exists id, dst. split; [by eapply elem_prefix|done]. Qed.

Lemma reply_frame_mono dl dl' b : dl `prefix_of` dl' -> reply_frame dl b -> reply_frame dl' b.
Proof.
  intros Hp [(id & t & H & H')|H]; [left|by right]. exists id, t. split; [by eapply elem_prefix|done].
Qed.

Lemma wait_ok_mono reqs reqs' pc : reqs `prefix_of` reqs' -> wait_ok reqs pc -> wait_ok reqs' pc.
Proof.
  intros Hp. destruct pc; try done. intros (dst & H & H'). exists dst. split; [by eapply elem_prefix|done].
Qed.

Lemma pep_effect_client reqs es : Forall pep_effect_ok es -> Forall (client_effect_ok reqs) es.
Proof. intros H. eapply Forall_impl; [exact H|]. by intros []. Qed.

Lemma pep_effect_server dl es : Forall pep_effect_ok es -> Forall (server_effect_ok dl) es.
Proof. intros H. eapply Forall_impl; [exact H|]. by intros []. Qed.

Lemma client_udp_ok reqs es :
  Forall (client_effect_ok reqs) es -> Forall (fun b => session_frame b \/ connect_frame reqs b) (pep_udp es).
Proof.
  intros H. apply Forall_forall. intros b (e & He & Eb)%list_elem_of_omap.
  apply (proj1 (Forall_forall _ _) H) in He. destruct e as [| | | |r []]; simplify_eq/=; auto.
Qed.

Lemma server_udp_ok dl es :
  Forall (server_effect_ok dl) es -> Forall (fun b => session_frame b \/ reply_frame dl b) (pep_udp es).
Proof.
  intros H. apply Forall_forall. intros b (e & He & Eb)%list_elem_of_omap.
  apply (proj1 (Forall_forall _ _) H) in He. destruct e as [| | | |r []]; simplify_eq/=; auto.
Qed.

(** ** Decoding the frames *)

Lemma session_frame_type b p :
  session_frame b -> Unmarshal (ReadFrom b) = Some (Ok p) -> 3 <= p_Type p <= 7.
Proof.
  intros (t & Ht & Hr) Hu%Unmarshal_type. rewrite frame_type_ReadFrom in Hu. congruence.
Qed.

Lemma conn_frame_small p b : p_Type p = TypeConnect \/ p_Type p = TypeConnErr \/ p_Type p = TypeConnAck ->
  Marshal p = Ok b -> len b <= 2048.
Proof.
  intros Ht E. rewrite (Marshal_len _ _ E). unfold frame_size.
  unfold Marshal in E. destruct (p_StreamID p >? 4095); [done|].
  destruct Ht as [Ht|[Ht|Ht]]; rewrite Ht in *; simpl in *; try lia;
    destruct (len (bytes_of_string (p_Addr p)) >? 255) eqn:El; try done; go_bool; lia.
Qed.

Lemma connect_frame_decodes reqs b p :
  connect_frame reqs b -> Unmarshal (ReadFrom b) = Some (Ok p) -> (p_StreamID p, p_Addr p) ∈ reqs.
Proof.
  intros (id & dst & Hin & Hid & E) Hu. unfold id_ok in Hid.
  rewrite (Marshal_received (connect_packet id dst) b) in Hu.
  - simplify_eq. done.
  - repeat split; simpl; unfold TypeConnect; try lia. by constructor.
  - done.
  - eapply conn_frame_small; [|exact E]. by left.
Qed.

Lemma reply_frame_decodes dl b p :
  reply_frame dl b -> Unmarshal (ReadFrom b) = Some (Ok p) -> p_Type p = TypeConnAck ->
  exists target, (p_StreamID p, target) ∈ dl.
Proof.
  intros [(id & target & Hin & Hid & E)|(id & msg & Hid & E)] Hu Ht.
  - rewrite (Marshal_received (ack_packet id) b) in Hu.
    + simplify_eq. by exists target.
    + repeat split; simpl; unfold TypeConnAck; try lia. by constructor.
    + done.
    + eapply conn_frame_small; [|exact E]. right. by right.
  - rewrite (Marshal_received (err_packet id msg) b) in Hu.
    + simplify_eq.
    + repeat split; simpl; unfold TypeConnErr; try lia. by constructor.
    + done.
    + eapply conn_frame_small; [|exact E]. right. by left.
Qed.

(** ** Steps of the client *)

(** The streams of the session objects a proxy has made. *)
Definition obj_ids (p : Pep) : list Z := map (fun o => c_StreamID (s_cfg (o_s o))) (pep_objs p).

Lemma obj_ids_next p p' : pep_next p p' -> obj_ids p' = obj_ids p.
Proof.
  intros (H & _ & _). unfold obj_ids. induction H as [|o o' l l' [Hc _] _ IH]; [done|].
  simpl. by rewrite Hc, IH.
Qed.

(** What a step of the client does that the handshake can see. *)
Record client_post (reqs : list (Z * string)) (sys sys' : ClientSys) (es : list PepEff) : Prop := {
  cp_tidy : store_tidy (cl_pep (cs_c sys'));
  cp_effects : Forall (client_effect_ok reqs) es;
  cp_wait : Forall (wait_ok reqs) (cs_handlers sys');
  cp_ids : obj_ids (cl_pep (cs_c sys')) = obj_ids (cl_pep (cs_c sys)) \/
    exists id, obj_ids (cl_pep (cs_c sys')) = obj_ids (cl_pep (cs_c sys)) ++ [id] /\ acked (cs_read sys) id;
}.

Lemma on_pep_frames {A} (m : GoM Pep PepEff A) c a c' es :
  pep_tidies m -> pep_safe m -> store_tidy (cl_pep c) -> pep_inv (cl_pep c) ->
  on_pep m c = Some (a, c', es) ->
  store_tidy (cl_pep c') /\ Forall pep_effect_ok es /\ obj_ids (cl_pep c') = obj_ids (cl_pep c).
Proof.
  intros Ht Hs Htidy Hinv. unfold on_pep. destruct (m (cl_pep c)) as [[[a1 p1] es1]|] eqn:E; [|done].
  intros [= <- <- <-]. simpl. destruct (Ht _ _ _ _ Htidy E) as [H1 H2].
  destruct (Hs _ _ _ _ Hinv E) as [_ H3]. split_and!; try done. by apply obj_ids_next.
Qed.

(** The pieces of [client_post] for one handler. *)
Definition handler_post (reqs : list (Z * string)) (reads : list bytes) (c c' : ClientPEP)
    (pc' : HandlerPC) (es : list PepEff) : Prop :=
  store_tidy (cl_pep c') /\ Forall (client_effect_ok reqs) es /\ wait_ok reqs pc' /\
  (obj_ids (cl_pep c') = obj_ids (cl_pep c) \/
   exists id, obj_ids (cl_pep c') = obj_ids (cl_pep c) ++ [id] /\ acked reads id).

(** A step that neither touches the sessions nor sends anything. *)
Lemma handler_post_quiet reqs reads c c' pc' es :
  store_tidy (cl_pep c) -> cl_pep c' = cl_pep c -> wait_ok reqs pc' ->
  Forall (fun e => exists conn, e = PConnClose conn) es -> handler_post reqs reads c c' pc' es.
Proof.
  intros Ht Ec Hw Hes. rewrite <- Ec in Ht. split_and!; try done.
  - eapply Forall_impl; [exact Hes|]. by intros e [conn ->].
  - left. by rewrite Ec.
Qed.

Lemma give_up_post reqs reads conn c c0 pc' c' es :
  store_tidy (cl_pep c) -> cl_pep c0 = cl_pep c -> give_up_conn conn c0 = Some (pc', c', es) ->
  handler_post reqs reads c c' pc' es.
Proof.
  intros Ht Ec [= <- <- <-]. apply handler_post_quiet; try done. constructor; eauto.
Qed.

Lemma getNextStreamID_pep c r c' es : getNextStreamID c = Some (r, c', es) -> cl_pep c' = cl_pep c /\ es = [].
Proof.
  unfold getNextStreamID. rewrite go_bind_get. destruct (next_id_loop _ _ _ _) as [x|]; simpl; [|done].
  by intros [= <- <- <-].
Qed.

Lemma handler_select_post reqs reads now sel conn addr id ch buf tick deadline c pc' c' es :
  store_tidy (cl_pep c) -> id_ok id ->
  wait_ok reqs (HWait conn addr id ch buf tick deadline) ->
  handler_select now sel conn addr id ch buf tick deadline c = Some (pc', c', es) ->
  handler_post reqs reads c c' pc' es.
Proof.
  intros Ht Hid Hw. unfold handler_select. rewrite go_bind_get. destruct sel.
  - destruct (cl_chans c !! ch) as [[[|msg]|]|]; rewrite ?go_bind_modify; try (by intros [= <- <- <-]; apply handler_post_quiet).
    intros E. by eapply give_up_post; [done| |exact E].
  - case_match; [|by intros [= <- <- <-]; apply handler_post_quiet].
    intros [= <- <- <-]. destruct Hw as (dst & Hin & Em). split_and!; try done; [| |by left].
    + constructor; [|done]. simpl. by exists id, dst.
    + simpl. by exists dst.
  - case_match; intros [= <- <- <-]; apply handler_post_quiet; try done. constructor; eauto.
Qed.

Lemma handler_step_post cfg0 reqs now orig resolve sel sys i pc pc' c' es :
  client_inv cfg0 sys -> store_tidy (cl_pep (cs_c sys)) ->
  cs_handlers sys !! i = Some pc -> wait_ok reqs pc ->
  handler_step now orig resolve sel pc (cs_c sys) = Some (pc', c', es) ->
  handler_post (reqs ++ reqs_of_pc pc) (cs_read sys) (cs_c sys) c' pc' es.
Proof.
  intros Hs Ht Hi Hw. pose proof (Forall_lookup_1 _ _ _ _ (ci_handlers _ _ Hs) Hi) as Hok.
  unfold handler_step. rewrite go_bind_get. destruct pc; simpl in Hok |- *; rewrite ?app_nil_r.
  - repeat case_match; intros E; try (by eapply give_up_post; [done| |exact E]).
    injection E as <- <- <-. by apply handler_post_quiet.
  - unfold go_bind. destruct (getNextStreamID (cs_c sys)) as [[[r c1] es1]|] eqn:E1; [|done].
    apply getNextStreamID_pep in E1 as [Ec ->]. destruct r.
    + intros [= <- <- <-]. by apply handler_post_quiet.
    + intros E. destruct (give_up_conn conn c1) as [[[pc1 c2] es2]|] eqn:E2; [|done].
      injection E as <- <- <-. by eapply give_up_post; [done| |exact E2].
  - intros [= <- <- <-]. by apply handler_post_quiet.
  - destruct Hok as [Hid Hch]. destruct (Marshal (connect_packet id dst)) as [buf|] eqn:Em.
    + intros [= <- <- <-]. assert ((id, dst) ∈ reqs ++ [(id, dst)]) as Hin
        by (apply elem_of_app; right; apply list_elem_of_here).
      split_and!; try done; [| |by left].
      * constructor; [|done]. simpl. by exists id, dst.
      * simpl. by exists dst.
    + intros [= <- <- <-]. apply handler_post_quiet; try done. constructor; eauto.
  - destruct Hok as (Hid & _). intros E. by eapply handler_select_post.
  - destruct Hok as [Hid Hack]. intros [= <- <- <-]. unfold id_ok in Hid. split_and!; try done.
    + simpl. apply Forall_app. split; [done|]. constructor; [|done]. apply (fresh_obj_tidy now id conn addr (cl_pep (cs_c sys))). lia.
    + right. exists id. split; [|done]. unfold obj_ids. simpl. rewrite map_app. simpl. f_equal.
      f_equal. apply (fresh_obj_id now id conn addr (cl_pep (cs_c sys))).
  - unfold go_bind. destruct (on_pep (pep_Start ref) (cs_c sys)) as [[[[] c1] es1]|] eqn:E; [|done].
    intros [= <- <- <-]. apply on_pep_frames in E as (H1 & H2 & H3);
      [|apply pep_Start_tidies|apply pep_Start_safe|done|apply Hs].
    split_and!; try done; [|by left]. apply Forall_app. split; [by apply pep_effect_client|done].
  - intros [= <- <- <-]. by apply handler_post_quiet.
Qed.

Lemma client_step_post cfg0 reqs now act sys sys' es :
  client_inv cfg0 sys -> store_tidy (cl_pep (cs_c sys)) -> Forall (wait_ok reqs) (cs_handlers sys) ->
  client_step now act sys = Some (sys', es) -> client_post (reqs ++ reqs_by act sys) sys sys' es.
Proof.
  intros Hs Ht Hw. unfold client_step.
  assert (forall A (m : GoM Pep PepEff A) a c' es acc dx st rd, pep_tidies m -> pep_safe m ->
    on_pep m (cs_c sys) = Some (a, c', es) ->
    client_post reqs sys (mkClientSys c' acc (cs_handlers sys) dx st rd (cs_chan_ids sys)) es) as Hpep.
  { intros A m a c' es0 acc dx st rd Hm1 Hm2 E.
    apply on_pep_frames in E as (H1 & H2 & H3); [|done|done|done|apply Hs].
    constructor; simpl; try done; [by apply pep_effect_client|by left]. }
  assert (forall c' acc dx st rd, cl_pep c' = cl_pep (cs_c sys) ->
    client_post reqs sys (mkClientSys c' acc (cs_handlers sys) dx st rd (cs_chan_ids sys)) []) as Hquiet.
  { intros c' acc dx st rd Ec. constructor; simpl; rewrite ?Ec; try done. by left. }
  destruct act as [res|i orig resolve sel|inp| | |r|ref act]; cbn [reqs_by]; rewrite ?app_nil_r.
  - destruct (cs_accepting sys).
    + destruct res as [conn|]; intros [= <- <-]; simpl; [|rewrite app_nil_r; by apply Hquiet].
      constructor; simpl; try done; [|by left]. apply Forall_app. split; [done|by repeat constructor].
    + intros [= <- <-]. constructor; try done. by left.
  - destruct (cs_handlers sys !! i) as [pc|] eqn:Ei; [|intros [= <- <-]; rewrite app_nil_r; constructor; try done; by left].
    destruct (handler_step _ _ _ _ _ _) as [[[pc' c'] es']|] eqn:E; [|done]. intros [= <- <-].
    eapply handler_step_post in E as (H1 & H2 & H3 & H4); [|done..|by apply (Forall_lookup_1 _ _ _ _ Hw Ei)].
    constructor; simpl; try done. apply Forall_insert; [|done].
    eapply Forall_impl; [exact Hw|]. intros p. apply wait_ok_mono. by apply prefix_app_r.
  - unfold demux_step. rewrite go_bind_get. destruct (cs_demux sys) as [| |ref n pkt|id|ch v|] eqn:Edx; simpl.
    + case_match; intros [= <- <-]; by apply Hquiet.
    + destruct inp as [b|]; [|case_match; intros [= <- <-]; by apply Hquiet].
      destruct (Unmarshal (ReadFrom b)) as [[pkt|]|] eqn:Eu; simpl; [|intros [= <- <-]; by apply Hquiet|done].
      rewrite go_bind_ret. case_match.
      * destruct (cl_pending (cs_c sys) !! p_StreamID pkt) as [ch|] eqn:Ep; [|intros [= <- <-]; by apply Hquiet].
        unfold delete_pending. rewrite go_bind_modify. unfold chan_send. rewrite go_bind_get. simpl.
        destruct (cl_chans (cs_c sys) !! ch) as [[|]|]; intros [= <- <-]; by apply Hquiet.
      * destruct (on_pep _ _) as [[[a c'] es']|] eqn:E; [|done]. intros [= <- <-].
        eapply Hpep; [apply lookup_session_tidies|apply lookup_session_safe|exact E].
    + destruct (on_pep _ _) as [[[a c'] es']|] eqn:E; [|done]. intros [= <- <-].
      eapply Hpep; [apply dispatch_step_tidies|apply dispatch_step_safe|exact E].
    + intros [= <- <-].
      eapply (Hpep _ (unregister id)); [apply unregister_tidies|apply unregister_safe|reflexivity].
    + by destruct (ci_demux _ _ Hs ch v).
    + intros [= <- <-]. by apply Hquiet.
  - destruct (on_pep _ _) as [[[a c'] es']|] eqn:E; [|done]. intros [= <- <-].
    eapply Hpep; [apply cleanup_tick_tidies|apply cleanup_tick_safe|exact E].
  - unfold client_stop_step. destruct (on_pep _ _) as [[[a c'] es']|] eqn:E; [|done]. intros [= <- <-].
    eapply Hpep; [|apply stop_step_safe|exact E]. apply stop_step_tidies. by repeat constructor.
  - intros [= <- <-]. by apply Hquiet.
  - destruct (on_pep _ _) as [[[a c'] es']|] eqn:E; [|done]. intros [= <- <-].
    eapply Hpep; [apply session_act_tidies|apply session_act_safe|exact E].
Qed.

Lemma client_reads now act sys sys' es sc :
  client_step now act sys = Some (sys', es) -> client_net_ok sc act ->
  Forall (fun b => b ∈ sc) (cs_read sys) -> Forall (fun b => b ∈ sc) (cs_read sys').
Proof.
  unfold client_step. intros E Hact Hr.
  destruct act as [res|i orig resolve sel|inp| | |r|ref act]; repeat (case_match; simplify_eq/=; try done);
    repeat match goal with
    | H : mbind _ ?o = Some _ |- _ => destruct o as [[[??]?]|]; simplify_eq/=; try done
    end.
  apply Forall_app. split; [done|]. unfold read_by_demux. repeat case_match; by repeat constructor.
Qed.

(** ** Steps of the server *)

Record server_post (sys sys' : ServerSys) (es : list PepEff) : Prop := {
  sp_tidy : store_tidy (ss_p sys');
  sp_effects : Forall (server_effect_ok (ss_dialled sys')) es;
  sp_dialled : ss_dialled sys' = ss_dialled sys \/
    exists id target, ss_dialled sys' = ss_dialled sys ++ [(id, target)] /\
      requested (ss_read sys) id target;
}.

Lemma send_reply_ok dl p addr st :
  (forall b, Marshal p = Ok b -> reply_frame dl b) ->
  exists es, send_packet p addr st = Some (tt, st, es) /\ Forall (server_effect_ok dl) es.
Proof.
  intros H. destruct (send_packet_eq p addr st) as (es & E & ->). eexists. split; [exact E|].
  destruct (Marshal p); [|done]. constructor; [|done]. by apply H.
Qed.

Lemma ack_reply_ok dl id target : (id, target) ∈ dl -> 0 <= id <= 4095 ->
  forall b, Marshal (ack_packet id) = Ok b -> reply_frame dl b.
Proof. intros Hin Hid b E. left. eauto. Qed.

Lemma err_reply_ok dl id msg : 0 <= id <= 4095 ->
  forall b, Marshal (err_packet id msg) = Ok b -> reply_frame dl b.
Proof. intros Hid b E. right. eauto. Qed.

Lemma close_old_tidies id : pep_tidies (close_old id).
Proof.
  unfold close_old. apply pep_tidies_bind; [apply pep_tidies_get|]. intros p. case_match.
  - apply Close_pep_tidies.
  - apply pep_tidies_ret.
Qed.

Lemma connect_open_tidies now resolve dial p addr conn :
  0 <= p_StreamID p -> pep_tidies (connect_step now resolve dial (CnOpen p addr conn)).
Proof.
  intros Hid. simpl. apply pep_tidies_bind; [by apply pep_NewSession_tidies|]. intros ref.
  apply pep_tidies_bind; [apply close_old_tidies|]. intros _.
  apply pep_tidies_bind; [apply register_tidies|]. intros _. apply pep_tidies_ret.
Qed.

Lemma connect_step_post now resolve dial sys i pc pc' p' es :
  server_inv sys -> store_tidy (ss_p sys) -> ss_handlers sys !! i = Some pc ->
  connect_step now resolve dial pc (ss_p sys) = Some (pc', p', es) ->
  server_post sys (mkServerSys p' (<[i := pc']> (ss_handlers sys)) (ss_demux sys) (ss_stop sys)
    (ss_read sys) (ss_dialled sys ++ dialled_by pc dial)) es.
Proof.
  intros Hs Ht Hi. pose proof (Forall_lookup_1 _ _ _ _ (vi_handlers sys Hs) Hi) as Hok.
  assert (forall A (k : A) q a st, (forall b, Marshal q = Ok b -> reply_frame (ss_dialled sys) b) ->
    exists es, (do! send_packet q a in go_ret k) st = Some (k, st, es) /\ Forall (server_effect_ok (ss_dialled sys)) es) as Hsend.
  { intros A k q a st Hq. destruct (send_reply_ok _ q a st Hq) as (es0 & E & Hes). eexists.
    split; [unfold go_bind; rewrite E; reflexivity|]. by rewrite app_nil_r. }
  destruct pc as [p a|p a t|p a c|p a c|ref|]; cbn [connect_ok dialled_by] in Hok |- *; rewrite ?app_nil_r.
  - simpl. destruct (resolve (p_Addr p)) as [t|e].
    + intros [= <- <- <-]. by constructor; [..|left].
    + destruct (Hsend _ CnReturned (err_packet (p_StreamID p) e) a (ss_p sys)) as (es0 & E & Hes);
        [apply err_reply_ok, Hok|]. unfold sendError. rewrite E. intros [= <- <- <-]. by constructor; [..|left].
  - simpl. destruct dial as [c|e]; rewrite ?app_nil_r.
    + intros [= <- <- <-]. constructor; simpl; try done. right. eexists _, _. split; [done|apply Hok].
    + destruct (Hsend _ CnReturned (err_packet (p_StreamID p) e) a (ss_p sys)) as (es0 & E & Hes);
        [apply err_reply_ok, Hok|]. unfold sendError. rewrite E. intros [= <- <- <-]. by constructor; [..|left].
  - simpl. destruct Hok as [Hid Hdl].
    destruct (Hsend _ (CnOpen p a c) (ack_packet (p_StreamID p)) a (ss_p sys)) as (es0 & E & Hes);
      [by eapply ack_reply_ok|]. rewrite E. intros [= <- <- <-]. by constructor; [..|left].
  - intros E. apply connect_open_tidies in E as [H1 H2]; [|lia|done].
    constructor; simpl; try done; [by apply pep_effect_server|by left].
  - simpl. unfold go_bind. destruct (pep_Start ref (ss_p sys)) as [[[[] p1] es1]|] eqn:E; [|done].
    intros [= <- <- <-]. destruct (pep_Start_tidies _ _ _ _ _ Ht E) as [H1 H2]. rewrite app_nil_r.
    constructor; simpl; try done; [by apply pep_effect_server|by left].
  - intros [= <- <- <-]. by constructor; [..|left].
Qed.

Lemma server_demux_post now inp sys r p' es :
  server_inv sys -> store_tidy (ss_p sys) -> server_act_ok (SaDemux inp) ->
  server_demux_step now inp (ss_demux sys) (ss_p sys) = Some (r, p', es) ->
  store_tidy p' /\ Forall (server_effect_ok (ss_dialled sys)) es.
Proof.
  intros Hs Ht Hin. unfold server_demux_step. rewrite go_bind_get.
  destruct (ss_demux sys) as [| |ref n pkt|id|ch v|]; try (by intros [= <- <- <-]).
  - case_match; by intros [= <- <- <-].
  - destruct inp as [[b a]|]; [|case_match; by intros [= <- <- <-]].
    destruct (Unmarshal (ReadFrom b)) as [[pkt|]|] eqn:Eu; simpl; [|by intros [= <- <- <-]|done].
    rewrite go_bind_ret. destruct (pep_sessions (ss_p sys) !! p_StreamID pkt) as [ref|] eqn:Er;
      (case_match; [|by intros [= <- <- <-]]); [|by intros [= <- <- <-]].
    destruct (pi_tab _ (vi_pep _ Hs) _ _ Er) as (o & Ho & Hid).
    destruct (Forall_lookup_1 _ _ _ _ (vi_obj _ Hs) Ho) as [Hr [target Htg]]. rewrite Hid in *.
    destruct (send_reply_ok (ss_dialled sys) (ack_packet (p_StreamID pkt)) a (ss_p sys)) as (es0 & E & Hes);
      [by eapply ack_reply_ok|]. unfold go_bind. rewrite E. intros [= <- <- <-]. by rewrite app_nil_r.
  - unfold go_bind. destruct (dispatch_step _ _ _ _ _) as [[[pc p1] es1]|] eqn:E; [|done].
    intros [= <- <- <-]. destruct (dispatch_step_tidies _ _ _ _ _ _ _ _ Ht E) as [H1 H2].
    rewrite app_nil_r. split; [done|by apply pep_effect_server].
Qed.

Lemma server_step_post now act sys sys' es :
  server_inv sys -> store_tidy (ss_p sys) -> server_act_ok act ->
  server_step now act sys = Some (sys', es) -> server_post sys sys' es.
Proof.
  intros Hs Ht Hact. unfold server_step.
  assert (forall A (m : GoM Pep PepEff A) a p' es st, pep_tidies m -> m (ss_p sys) = Some (a, p', es) ->
    server_post sys (mkServerSys p' (ss_handlers sys) (ss_demux sys) st (ss_read sys) (ss_dialled sys)) es) as Hpep.
  { intros A m a p' es0 st Hm E. destruct (Hm _ _ _ _ Ht E) as [H1 H2].
    constructor; simpl; try done; [by apply pep_effect_server|by left]. }
  destruct act as [i resolve dial|inp| | |ref act].
  - destruct (ss_handlers sys !! i) as [pc|] eqn:Ei; [|intros [= <- <-]; by constructor; [..|left]].
    destruct (connect_step _ _ _ _ _) as [[[pc' p'] es']|] eqn:E; [|done]. intros [= <- <-].
    by eapply connect_step_post.
  - destruct (server_demux_step _ _ _ _) as [[[r p'] es']|] eqn:E; [|done]. intros [= <- <-].
    destruct (server_demux_post _ _ _ _ _ _ Hs Ht Hact E). by constructor; [..|left].
  - unfold server_cleanup_tick. destruct (cleanup_tick _ _) as [[[a p'] es']|] eqn:E; [|done]. intros [= <- <-].
    eapply Hpep; [apply cleanup_tick_tidies|exact E].
  - unfold server_stop_step. destruct (stop_step _ _ _) as [[[a p'] es']|] eqn:E; [|done]. intros [= <- <-].
    eapply Hpep; [|exact E]. apply stop_step_tidies. by repeat constructor.
  - destruct (session_act _ _ _ _) as [[[a p'] es']|] eqn:E; [|done]. intros [= <- <-].
    eapply Hpep; [apply session_act_tidies|exact E].
Qed.

Lemma server_reads now act sys sys' es cs :
  server_step now act sys = Some (sys', es) -> server_net_ok cs act ->
  Forall (fun d => d.1 ∈ cs) (ss_read sys) -> Forall (fun d => d.1 ∈ cs) (ss_read sys').
Proof.
  unfold server_step. intros E Hact Hr.
  destruct act as [i resolve dial|inp| | |ref act]; repeat (case_match; simplify_eq/=; try done);
    repeat match goal with
    | H : mbind _ ?o = Some _ |- _ => destruct o as [[[??]?]|]; simplify_eq/=; try done
    end.
  apply Forall_app. split; [done|]. unfold server_read. repeat case_match; try done.
  constructor; [|done]. subst. simpl in *. by destruct p as [d a], Hact.
Qed.

(** ** Invariant of the system *)

Record hs_inv (cfg0 : PepConfig) (h : HSys) : Prop := {
  hi_cl : client_inv cfg0 (hs_cl h);
  hi_sv : server_inv (hs_sv h);
  hi_cl_tidy : store_tidy (cl_pep (cs_c (hs_cl h)));
  hi_sv_tidy : store_tidy (ss_p (hs_sv h));
  hi_wait : Forall (wait_ok (hs_reqs h)) (cs_handlers (hs_cl h));
  hi_cs : Forall (fun b => session_frame b \/ connect_frame (hs_reqs h) b) (hs_cs h);
  hi_sc : Forall (fun b => session_frame b \/ reply_frame (ss_dialled (hs_sv h)) b) (hs_sc h);
  hi_cl_read : Forall (fun b => b ∈ hs_sc h) (cs_read (hs_cl h));
  hi_sv_read : Forall (fun d => d.1 ∈ hs_cs h) (ss_read (hs_sv h));
}.

Lemma hs_step_inv cfg0 h h' : hs_inv cfg0 h -> hs_step h h' -> hs_inv cfg0 h'.
Proof.
  intros [] Hstep. destruct Hstep as [now act cl sv cs sc reqs cl' es Hnet E|now act cl sv cs sc reqs sv' es Hnet E];
    simpl in *.
  - destruct (client_step_post cfg0 reqs now act cl cl' es) as [H1 H2 H3 _]; try done.
    assert (reqs `prefix_of` reqs ++ reqs_by act cl) as Hpre by (by apply prefix_app_r).
    constructor; simpl; try done.
    + by eapply client_step_inv.
    + apply Forall_app. split; [|by apply client_udp_ok]. eapply Forall_impl; [exact hi_cs0|].
      intros b [Hb|Hb]; [by left|right; by eapply connect_frame_mono].
    + by eapply client_reads.
    + eapply Forall_impl; [exact hi_sv_read0|]. intros d Hd. apply elem_of_app. by left.
  - assert (server_act_ok act) as Hact by (destruct act as [|[[]|]| | |]; simpl in *; tauto).
    destruct (server_step_post now act sv sv' es) as [H1 H2 H3]; try done.
    assert (ss_dialled sv `prefix_of` ss_dialled sv') as Hpre.
    { destruct H3 as [->|(id & t & -> & _)]; [done|by apply prefix_app_r]. }
    constructor; simpl; try done.
    + by eapply server_step_inv.
    + apply Forall_app. split; [|by apply server_udp_ok]. eapply Forall_impl; [exact hi_sc0|].
      intros b [Hb|Hb]; [by left|right; by eapply reply_frame_mono].
    + eapply Forall_impl; [exact hi_cl_read0|]. intros b Hb. apply elem_of_app. by left.
    + by eapply server_reads.
Qed.

Lemma hs_init_inv addr router mtu bw k m idle mtu' bw' k' m' idle' :
  hs_inv (mkPepConfig mtu bw k m idle)
    (hs_init (NewClientPEP addr router mtu bw k m idle) (NewServerPEP mtu' bw' k' m' idle')).
Proof.
  by repeat constructor.
Qed.

Lemma hs_reach_inv cfg0 h h' : hs_inv cfg0 h -> rtc hs_step h h' -> hs_inv cfg0 h'.
Proof. intros H0 H. induction H; [done|]. eauto using hs_step_inv. Qed.

(** An acknowledged stream was dialled, for a destination that was requested. *)
Lemma acked_dialled cfg0 h id :
  hs_inv cfg0 h -> acked (cs_read (hs_cl h)) id -> exists target, (id, target) ∈ ss_dialled (hs_sv h).
Proof.
  intros [] (d & p & Hd & Hu & Ht & <-).
  apply (proj1 (Forall_forall _ _) hi_cl_read0) in Hd.
  destruct (proj1 (Forall_forall _ _) hi_sc0 _ Hd) as [Hs|Hr].
  - pose proof (session_frame_type _ _ Hs Hu). rewrite Ht in *. unfold TypeConnAck in *. lia.
  - by eapply reply_frame_decodes.
Qed.

Lemma requested_reqs cfg0 h id target :
  hs_inv cfg0 h -> requested (ss_read (hs_sv h)) id target -> (id, target) ∈ hs_reqs h.
Proof.
  intros [] (d & a & p & Hd & Hu & Ht & <- & <-).
  apply (proj1 (Forall_forall _ _) hi_sv_read0) in Hd. simpl in Hd.
  destruct (proj1 (Forall_forall _ _) hi_cs0 _ Hd) as [Hs|Hr].
  - pose proof (session_frame_type _ _ Hs Hu). rewrite Ht in *. unfold TypeConnect in *. lia.
  - by eapply connect_frame_decodes.
Qed.

Lemma dialled_reqs cfg0 h id target :
  hs_inv cfg0 h -> (id, target) ∈ ss_dialled (hs_sv h) -> (id, target) ∈ hs_reqs h.
Proof.
  intros Hh Hd. eapply requested_reqs; [done|].
  apply (proj1 (Forall_forall _ _) (vi_dialled _ (hi_sv _ _ Hh)) _ Hd).
Qed.

(** ** Specification *)

(** What the handshake promises, without packets, timers, channels or tables. *)
Record HsSpec := mkSpec {
  sp_req : list (Z * string);           (** destinations requested for a stream *)
  sp_dial : list (Z * string);          (** targets the server is connected to *)
  sp_est : list Z;                      (** streams established at the client *)
}.

(** A target is dialled only on request, and a stream established only after that. *)
Inductive spec_step : HsSpec -> HsSpec -> Prop :=
| spec_request req dial est id dst :
    spec_step (mkSpec req dial est) (mkSpec (req ++ [(id, dst)]) dial est)
| spec_dial req dial est id dst :
    (id, dst) ∈ req -> spec_step (mkSpec req dial est) (mkSpec req (dial ++ [(id, dst)]) est)
| spec_establish req dial est id target :
    (id, target) ∈ dial -> spec_step (mkSpec req dial est) (mkSpec req dial (est ++ [id])).

(** A step of the specification, or none. *)
Definition spec_stutter (x y : HsSpec) : Prop := y = x \/ spec_step x y.

Definition abs (h : HSys) : HsSpec :=
  mkSpec (hs_reqs h) (ss_dialled (hs_sv h)) (obj_ids (cl_pep (cs_c (hs_cl h)))).

Lemma client_step_abs cfg0 now act cl sv cs sc reqs cl' es :
  hs_inv cfg0 (mkHSys cl sv cs sc reqs) -> client_step now act cl = Some (cl', es) ->
  spec_stutter (abs (mkHSys cl sv cs sc reqs)) (abs (mkHSys cl' sv (cs ++ pep_udp es) sc (reqs ++ reqs_by act cl))).
Proof.
  intros Hh E. pose proof Hh as [].
  destruct (client_step_post cfg0 reqs now act cl cl' es) as [_ _ _ Hids]; try done. unfold abs. simpl in *.
  assert (reqs_by act cl = [] \/ exists id dst, reqs_by act cl = [(id, dst)]) as [Er|(id & dst & Er)].
  { unfold reqs_by, reqs_of_pc. repeat case_match; eauto. }
  - rewrite Er, app_nil_r. destruct Hids as [->|(id & -> & Hack)]; [by left|]. right.
    destruct (acked_dialled _ _ id Hh Hack) as [target Ht]. by eapply spec_establish.
  - assert (obj_ids (cl_pep (cs_c cl')) = obj_ids (cl_pep (cs_c cl))) as ->; [|rewrite Er; right; apply spec_request].
    clear Hids. unfold reqs_by, reqs_of_pc in Er. unfold client_step in E.
    destruct act as [|i orig resolve sel| | | | |]; try done.
    destruct (cs_handlers cl !! i) as [pc|]; [|done]. destruct pc; try done.
    unfold handler_step in E. rewrite go_bind_get in E.
    destruct (Marshal _); simpl in E; by simplify_eq.
Qed.

(** C12: Refinement of the handshake.  Every step of the two proxies and the network,
    from any reachable state, is a step of the specification or leaves its state
    unchanged. *)
Theorem handshake_refines addr router mtu bw k m idle mtu' bw' k' m' idle' h h' :
  rtc hs_step (hs_init (NewClientPEP addr router mtu bw k m idle) (NewServerPEP mtu' bw' k' m' idle')) h ->
  hs_step h h' -> spec_stutter (abs h) (abs h').
Proof.
  intros Hr Hstep. eapply hs_reach_inv in Hr; [|apply hs_init_inv].
  destruct Hstep as [now act cl sv cs sc reqs cl' es Hnet E|now act cl sv cs sc reqs sv' es Hnet E].
  - by eapply client_step_abs.
  - assert (server_act_ok act) as Hact by (destruct act as [|[[]|]| | |]; simpl in *; tauto).
    pose proof Hr as []. destruct (server_step_post now act sv sv' es) as [_ _ Hd]; try done.
    unfold abs. simpl in *. destruct Hd as [->|(id & t & -> & Hreq)]; [by left|].
    right. apply spec_dial. by eapply (requested_reqs _ _ id t Hr).
Qed.

(** C11: Soundness of the handshake.  Whatever the network does, a stream in the
    client's table has been connected by the server to a destination that the
    client requested under that stream number; if the number was used for one
    destination only, it is that one. *)
Theorem handshake_sound addr router mtu bw k m idle mtu' bw' k' m' idle' h id ref :
  rtc hs_step (hs_init (NewClientPEP addr router mtu bw k m idle) (NewServerPEP mtu' bw' k' m' idle')) h ->
  pep_sessions (cl_pep (cs_c (hs_cl h))) !! id = Some ref ->
  exists target, (id, target) ∈ ss_dialled (hs_sv h) /\ (id, target) ∈ hs_reqs h /\
    forall dst, (id, dst) ∈ hs_reqs h -> (forall d d', (id, d) ∈ hs_reqs h -> (id, d') ∈ hs_reqs h -> d = d') ->
      (id, dst) ∈ ss_dialled (hs_sv h).
Proof.
  intros Hr Hid. eapply hs_reach_inv in Hr; [|apply hs_init_inv].
  destruct (pi_tab _ (ci_pep _ _ (hi_cl _ _ Hr)) _ _ Hid) as (o & Ho & <-).
  destruct (Forall_lookup_1 _ _ _ _ (ci_obj _ _ (hi_cl _ _ Hr)) Ho) as [_ Hack].
  destruct (acked_dialled _ _ _ Hr Hack) as [target Ht].
  pose proof (dialled_reqs _ _ _ _ Hr Ht) as Hreq. exists target. split_and!; try done.
  intros dst Hdst Huniq. by rewrite (Huniq dst target Hdst Hreq).
Qed.

End Handshake.

(** ** Witnesses *)

Module HandshakeDemo.
#[local] Existing Instance XorCode.xor_rs.

Definition router : Router := mkRouter {["h:80" := "pep:9000"]} [].
Definition h0 : HSys :=
  hs_init (NewClientPEP ":10080" router 1200 128000 2 1 (300 * Second)) (NewServerPEP 1200 128000 2 1 (300 * Second)).

(** A step of either side; a datagram is named by its position on the wire. *)
Inductive Move :=
| MClient (act : ClientAct)
| MServer (act : ServerAct)
| MToServer (n : nat)
| MToClient (n : nat).

Definition move (now : Z) (mv : Move) (h : HSys) : option HSys :=
  let client act :=
    '(cl', es) ← client_step now act (hs_cl h);
    Some (mkHSys cl' (hs_sv h) (hs_cs h ++ pep_udp es) (hs_sc h) (hs_reqs h ++ reqs_by act (hs_cl h))) in
  let server act :=
    '(sv', es) ← server_step now act (hs_sv h);
    Some (mkHSys (hs_cl h) sv' (hs_cs h) (hs_sc h ++ pep_udp es) (hs_reqs h)) in
  match mv with
  | MClient (CaDemux (Some _)) | MServer (SaDemux (Some _)) => None
  | MClient act => client act
  | MServer act => server act
  | MToServer n =>
      b ← hs_cs h !! n;
      if bool_decide (bytes_ok b) then server (SaDemux (Some (b, "client:1"))) else None
  | MToClient n => b ← hs_sc h !! n; client (CaDemux (Some b))
  end.

Lemma move_step now mv h h' : move now mv h = Some h' -> hs_step h h'.
Proof.
  destruct h as [cl sv cs sc reqs]. unfold move. cbn [hs_cl hs_sv hs_cs hs_sc hs_reqs].
  assert (forall act, client_net_ok sc act ->
    ('(cl', es) ← client_step now act cl;
     Some (mkHSys cl' sv (cs ++ pep_udp es) sc (reqs ++ reqs_by act cl))) = Some h' ->
    hs_step (mkHSys cl sv cs sc reqs) h') as Hc.
  { intros act Hn. destruct (client_step now act cl) as [[cl' es]|] eqn:E; [|done]. intros [= <-].
    by eapply hs_client. }
  assert (forall act, server_net_ok cs act ->
    ('(sv', es) ← server_step now act sv; Some (mkHSys cl sv' cs (sc ++ pep_udp es) reqs)) = Some h' ->
    hs_step (mkHSys cl sv cs sc reqs) h') as Hs.
  { intros act Hn. destruct (server_step now act sv) as [[sv' es]|] eqn:E; [|done]. intros [= <-].
    by eapply hs_server. }
  destruct mv as [act|act|n|n].
  - destruct act as [|i orig resolve sel|[b|]| | | |]; try done; intros E; by apply Hc in E.
  - destruct act as [i resolve dial|[d|]| | |]; try done; intros E; by apply Hs in E.
  - destruct (cs !! n) as [b|] eqn:En; [|done]. cbn [mbind option_bind]. case_bool_decide; [|done].
    apply (Hs (SaDemux (Some (b, "client:1")))). split; [by eapply list_elem_of_lookup_2|done].
  - destruct (sc !! n) as [b|] eqn:En; [|done]. cbn [mbind option_bind]. apply (Hc (CaDemux (Some b))).
    simpl. by eapply list_elem_of_lookup_2.
Qed.

Fixpoint moves (l : list (Z * Move)) (h : HSys) : option HSys :=
  match l with
  | [] => Some h
  | (now, mv) :: l => h' ← move now mv h; moves l h'
  end.

Lemma moves_reach l h h' : moves l h = Some h' -> rtc hs_step h h'.
Proof.
  revert h. induction l as [|[now mv] l IH]; intros h; simpl; [by intros [= <-]|].
  destruct (move now mv h) as [h1|] eqn:E; simpl; [|done]. intros H.
  eapply rtc_l; [by eapply move_step|by apply IH].
Qed.

(** A connection to "h:80": the first CONNECT is lost, the second one is served,
    the CONN_ACK arrives and the session is opened. *)
Definition schedule : list (Z * Move) :=
  let h sel := MClient (CaHandler 0 (Ok "h:80") Ok sel) in
  let s := MServer (SaConnect 0 Ok (Ok (mkConn 0 (Some "h:80")))) in
  [(0, MClient (CaAccept (Ok (mkConn 0 None)))); (1, h SelChan); (2, h SelChan); (3, h SelChan); (4, h SelChan);
   (400 * Millisecond, h SelTick); (401 * Millisecond, MServer (SaDemux None));
   (402 * Millisecond, MToServer 1); (403 * Millisecond, s); (404 * Millisecond, s); (405 * Millisecond, s);
   (406 * Millisecond, s); (407 * Millisecond, s); (408 * Millisecond, MClient (CaDemux None));
   (409 * Millisecond, MToClient 0); (410 * Millisecond, h SelChan); (411 * Millisecond, h SelChan)].

Definition final : HSys := default h0 (moves schedule h0).

Lemma hs_final_reach : rtc hs_step h0 final.
Proof. apply (moves_reach schedule). vm_compute. reflexivity. Qed.

End HandshakeDemo.

#[local] Existing Instance XorCode.xor_rs.

Lemma handshake_sound_witness :
  exists target, (1, target) ∈ ss_dialled (hs_sv HandshakeDemo.final) /\ (1, target) ∈ hs_reqs HandshakeDemo.final.
Proof.
  destruct (handshake_sound _ _ _ _ _ _ _ _ _ _ _ _ HandshakeDemo.final 1 0%nat HandshakeDemo.hs_final_reach)
    as (target & H1 & H2 & _); [vm_compute; reflexivity|].
  exists target. split; [exact H1|exact H2].
Defined.

Lemma handshake_refines_witness :
  exists h', spec_stutter (abs HandshakeDemo.final) (abs h').
Proof.
  destruct (HandshakeDemo.move 0 (HandshakeDemo.MClient CaStop) HandshakeDemo.final) as [h'|] eqn:E;
    [|vm_compute in E; discriminate].
  exists h'. eapply (handshake_refines _ _ _ _ _ _ _ _ _ _ _ _ HandshakeDemo.final h' HandshakeDemo.hs_final_reach).
  exact (HandshakeDemo.move_step _ _ _ _ E).
Defined.
