(* ===== verification/Monitor.v ===== *)
(** * Monitoring: src/proxy/redis_server.go, src/proxy/http_server.go and
    [GetMonitorStats] of src/proxy/session.go

    The snapshot of a session, the commands of the Redis server and the request
    handler of the HTTP server.  What the handlers write on the connection is a list
    of effects; the libraries that frame them (redcon, net/http, encoding/json) are
    not modelled.  The servers see the proxies only through [PEPInstance].

    The theorems: every command gets exactly one well-formed reply; KEYS lists the
    keys that the meaning of the pattern asks for; the reply of HGETALL for a listed
    key is read back to the snapshot of that session; the HTTP server and the Redis
    server show the same statistics. *)
From stdpp Require Import base gmap list strings pretty.
From Stdlib Require Import Ascii.
From S2P Require Import Prelude Fec Duration Session Pep Client Server NetAddr Text Glob Clock.
Local Open Scope string_scope.
Local Open Scope list_scope.
Local Open Scope Z_scope.

(** ** The snapshot of a session *)

Record SessionStats := mkStatsOf {
  StreamID : Z;
  Mode : bytes;
  TargetAddr : bytes;
  CurM : Z;
  FEC_K : Z;
  FEC_M : Z;
  TxBytes : Z;
  RxBytes : Z;
  TxPackets : Z;
  RxPackets : Z;
  Losses : Z;
  TxRetransmissions : Z;
  ConsecutiveOk : Z;
  LastActive : bytes;
}.

#[global] Instance SessionStats_eq_dec : EqDecision SessionStats.
Proof. solve_decision. Defined.

Abbreviation str := bytes_of_string.

(** What a handler does to its Redis connection. *)
Inductive RedisEff :=
| WriteError (msg : bytes)
| WriteString (s : bytes)
| WriteArray (n : Z)
| WriteBulkString (s : bytes)
| CloseConn.

#[global] Instance RedisEff_eq_dec : EqDecision RedisEff.
Proof. solve_decision. Defined.

(** What the HTTP handler answers: [http.Error], or status 200, content type
    application/json and the encoded map. *)
Inductive HttpResponse :=
| HttpError (msg : string) (code : Z)
| HttpJSON (allStats : gmap Z SessionStats).

(** What [Stop] of a server does. *)
Inductive ServerEff := CloseServer | CloseListener.

Definition active_key : bytes := Eval vm_compute in str "tcp-pep:active_streams".
Definition session_prefix : bytes := Eval vm_compute in str "tcp-pep:session:".

(** [fmt.Sprintf("tcp-pep:session:%d", id)] *)
Definition session_key (id : Z) : bytes := session_prefix ++ dec id.

(** [conn.WriteArray(len(l))] and the loop over [l]. *)
Definition write_list (l : list bytes) : list RedisEff := WriteArray (len l) :: map WriteBulkString l.

(** The pairs HGETALL writes. *)
Definition stats_pairs (st : SessionStats) : list (bytes * bytes) :=
  [ (str "stream_id", Itoa (StreamID st));
    (str "mode", Mode st);
    (str "target_addr", TargetAddr st);
    (str "cur_m", Itoa (CurM st));
    (str "fec_k", Itoa (FEC_K st));
    (str "fec_m", Itoa (FEC_M st));
    (str "tx_bytes", Itoa (TxBytes st));
    (str "rx_bytes", Itoa (RxBytes st));
    (str "tx_packets", Itoa (TxPackets st));
    (str "rx_packets", Itoa (RxPackets st));
    (str "losses", Itoa (Losses st));
    (str "tx_retransmissions", Itoa (TxRetransmissions st));
    (str "consecutive_ok", Itoa (ConsecutiveOk st));
    (str "last_active", LastActive st) ].

(** [conn.WriteArray(28)] and the calls after it. *)
Definition write_stats (st : SessionStats) : list RedisEff :=
  WriteArray 28 :: flat_map (fun '(k, v) => [WriteBulkString k; WriteBulkString v]) (stats_pairs st).

(** [switch strings.ToLower(string(cmd.Args[0]))] *)
Definition is_command (arg : bytes) (name : string) : bool :=
  bool_decide (ToLower_ascii arg = Some (str name)).

Section Monitor.
Context {RS : ReedSolomon}.

(** A value of the interface type [PEPInstance]. *)
Record AnyPEP := mkAny { any_T : Type; any_class : PEPInstance any_T; any_val : any_T }.
Definition sessions_of (p : AnyPEP) : gmap Z Session := @GetSessions RS (any_T p) (any_class p) (any_val p).

Record RedisServer := mkRedis {
  rs_addr : string;
  rs_server : bool;                     (** whether the pointer is non-nil *)
  rs_peps : list AnyPEP;
  rs_ln : bool;                         (** whether the listener is non-nil *)
}.

Record HTTPServer := mkHTTP {
  hs_addr : string;
  hs_peps : list AnyPEP;
  hs_certFile : string;
  hs_keyFile : string;
  hs_server : bool;
  hs_ln : bool;
}.

(** [zone t] is the offset of the local time zone at the Unix second [t]; [range i m]
    is the order in which the [range] statement over the map of the [i]-th proxy
    visits it, which the language leaves open. *)
Context (zone : Z -> Z) (range : nat -> gmap Z Session -> list (Z * Session)).

Definition GetMonitorStats (s : Session) : SessionStats :=
  let cfg := s_cfg s in
  let sec := GetLastActive s / 1000000000 in
  {| StreamID := c_StreamID cfg;
     Mode := if c_IsServer cfg then str "server" else str "client";
     TargetAddr := match c_RemoteAddr cfg with Some a => str a | None => [] end;
     CurM := curM (s_tx s);
     FEC_K := c_FEC_K cfg;
     FEC_M := c_FEC_M cfg;
     TxBytes := txBytes (s_st s);
     RxBytes := rxBytes (s_st s);
     TxPackets := txPackets (s_st s);
     RxPackets := rxPackets (s_st s);
     Losses := losses (s_st s);
     TxRetransmissions := txRetransmissions (s_st s);
     ConsecutiveOk := consecutiveOk (s_tx s);
     LastActive := FormatRFC3339 (zone sec) sec |}.

(** ** The Redis server *)

Definition NewRedisServer (addr : string) (peps : list AnyPEP) : RedisServer := mkRedis addr false peps false.

(** [listen] is what [net.Listen] returns: the resolved address of the listener. *)
Definition RedisServer_Start (listen : string -> result string) (s : RedisServer) : result RedisServer :=
  match listen (rs_addr s) with
  | Err e => Err e
  | Ok addr => Ok (mkRedis addr true (rs_peps s) true)
  end.

Definition RedisServer_Stop (s : RedisServer) : list ServerEff :=
  (if rs_server s then [CloseServer] else []) ++ (if rs_ln s then [CloseListener] else []).

(** The nested loops [for _, pep := range s.peps { for id := range pep.GetSessions() }]. *)
Definition ranged (peps : list AnyPEP) : list (Z * Session) :=
  concat (imap (fun i p => range i (sessions_of p)) peps).

(** The search of HGETALL: the first proxy that knows the stream. *)
Fixpoint find_session (peps : list AnyPEP) (id : Z) : option Session :=
  match peps with
  | [] => None
  | p :: peps' =>
      match sessions_of p !! id with Some sess => Some sess | None => find_session peps' id end
  end.

Definition cmd_keys (s : RedisServer) (args : list bytes) : list RedisEff :=
  match args with
  | _ :: pattern :: _ =>
      let keys := if matchPattern pattern active_key then [active_key] else [] in
      let keys := foldl (fun keys '(id, _) =>
        let sessKey := session_key id in
        if matchPattern pattern sessKey then keys ++ [sessKey] else keys) keys (ranged (rs_peps s)) in
      write_list keys
  | _ => [WriteError (str "ERR wrong number of arguments for 'keys' command")]
  end.

Definition cmd_smembers (s : RedisServer) (args : list bytes) : list RedisEff :=
  match args with
  | _ :: key :: _ =>
      if negb (bool_decide (key = active_key)) then [WriteArray 0]
      else write_list (foldl (fun streams '(id, _) => streams ++ [Itoa id]) [] (ranged (rs_peps s)))
  | _ => [WriteError (str "ERR wrong number of arguments for 'smembers' command")]
  end.

Definition cmd_hgetall (s : RedisServer) (args : list bytes) : list RedisEff :=
  match args with
  | _ :: key :: _ =>
      if negb (HasPrefix key session_prefix) then [WriteArray 0]
      else
        match Atoi (TrimPrefix key session_prefix) with
        | None => [WriteError (str "ERR invalid stream ID in key")]
        | Some streamIDVal =>
            if (streamIDVal <? 0) || (streamIDVal >? 65535)
            then [WriteError (str "ERR invalid stream ID range")]
            else
              match find_session (rs_peps s) (u16 streamIDVal) with
              | None => [WriteArray 0]
              | Some foundSess => write_stats (GetMonitorStats foundSess)
              end
        end
  | _ => [WriteError (str "ERR wrong number of arguments for 'hgetall' command")]
  end.

Definition handleCommand (s : RedisServer) (args : list bytes) : list RedisEff :=
  match args with
  | [] => []
  | cmd :: _ =>
      if is_command cmd "ping" then [WriteString (str "PONG")]
      else if is_command cmd "quit" then [WriteString (str "OK"); CloseConn]
      else if is_command cmd "keys" then cmd_keys s args
      else if is_command cmd "smembers" then cmd_smembers s args
      else if is_command cmd "hgetall" then cmd_hgetall s args
      else [WriteError (str "ERR unknown command '" ++ cmd ++ str "'")]
  end.

(** ** The HTTP server *)

Definition NewHTTPServer (addr certFile keyFile : string) (peps : list AnyPEP) : HTTPServer :=
  mkHTTP addr peps certFile keyFile false false.

Definition HTTPServer_Start (listen : string -> result string) (s : HTTPServer) : result HTTPServer :=
  match listen (hs_addr s) with
  | Err e => Err e
  | Ok addr => Ok (mkHTTP addr (hs_peps s) (hs_certFile s) (hs_keyFile s) true true)
  end.

(** Whether the goroutine of [Start] serves TLS. *)
Definition serves_tls (s : HTTPServer) : bool :=
  negb (bool_decide (hs_certFile s = "")) && negb (bool_decide (hs_keyFile s = "")).

Definition HTTPServer_Stop (s : HTTPServer) : list ServerEff :=
  (if hs_server s then [CloseServer] else []) ++ (if hs_ln s then [CloseListener] else []).

Definition handleStats (s : HTTPServer) (method : string) : HttpResponse :=
  if negb (bool_decide (method = "GET")) then HttpError "Method not allowed" 405
  else HttpJSON (foldl (fun allStats '(id, sess) => <[id := GetMonitorStats sess]> allStats) ∅
                   (ranged (hs_peps s))).

(** ** Reading replies

    A client of the server reads an error, a simple string, or an array of the
    announced number of bulk strings. *)
Inductive Reply := RError (msg : bytes) | RSimple (s : bytes) | RArray (l : list bytes).

Fixpoint read_bulks (n : nat) (es : list RedisEff) : option (list bytes * list RedisEff) :=
  match n, es with
  | O, _ => Some ([], es)
  | S n, WriteBulkString b :: es' => '(l, rest) ← read_bulks n es'; Some (b :: l, rest)
  | _, _ => None
  end.

Definition read_reply (es : list RedisEff) : option (Reply * list RedisEff) :=
  match es with
  | WriteError m :: es' => Some (RError m, es')
  | WriteString m :: es' => Some (RSimple m, es')
  | WriteArray n :: es' => '(l, rest) ← read_bulks (Z.to_nat n) es'; Some (RArray l, rest)
  | _ => None
  end.

(** The array as name-value pairs. *)
Fixpoint pairs (l : list bytes) : list (bytes * bytes) :=
  match l with k :: v :: l' => (k, v) :: pairs l' | _ => [] end.

Fixpoint field (name : bytes) (l : list (bytes * bytes)) : option bytes :=
  match l with
  | [] => None
  | (k, v) :: l' => if bool_decide (k = name) then Some v else field name l'
  end.

(** A decimal numeral with an optional minus sign. *)
Definition read_int (s : bytes) : option Z :=
  match s with
  | c :: s' => if c =? minus then Z.opp <$> parse_digits s' 0 else parse_digits s 0
  | [] => None
  end.

Definition int_field (name : string) (l : list (bytes * bytes)) : option Z := field (str name) l ≫= read_int.

Definition read_stats (l : list bytes) : option SessionStats :=
  let l := pairs l in
  id ← int_field "stream_id" l; mode ← field (str "mode") l; target ← field (str "target_addr") l;
  cur ← int_field "cur_m" l; k ← int_field "fec_k" l; m ← int_field "fec_m" l;
  tb ← int_field "tx_bytes" l; rb ← int_field "rx_bytes" l;
  tp ← int_field "tx_packets" l; rp ← int_field "rx_packets" l;
  ls ← int_field "losses" l; rt ← int_field "tx_retransmissions" l;
  ok ← int_field "consecutive_ok" l; la ← field (str "last_active") l;
  Some (mkStatsOf id mode target cur k m tb rb tp rp ls rt ok la).

Lemma read_bulks_map l rest : read_bulks (length l) (map WriteBulkString l ++ rest) = Some (l, rest).
Proof. induction l as [|b l IH]; [done|]. simpl. by rewrite IH. Qed.

Lemma read_write_list l : read_reply (write_list l) = Some (RArray l, []).
Proof.
  unfold write_list, read_reply, len. rewrite Nat2Z.id.
  rewrite <- (app_nil_r (map WriteBulkString l)), read_bulks_map. done.
Qed.

Lemma read_write_stats st :
  read_reply (write_stats st) = Some (RArray (flat_map (fun '(k, v) => [k; v]) (stats_pairs st)), []).
Proof. done. Qed.

Lemma read_int_dec n : read_int (dec n) = Some n.
Proof.
  destruct (Z.le_gt_cases 0 n) as [Hn|Hn].
  - destruct (dec_nonempty n Hn) as (c & s & E & Hc). pose proof (parse_digits_dec n Hn) as Hp.
    rewrite E in *. unfold read_int. unfold is_digit in Hc. unfold minus. go_bool. by go_tests.
  - destruct n as [|p|p]; [lia|lia|].
    transitivity (Z.opp <$> parse_digits (dec (Z.pos p)) 0); [done|]. by rewrite parse_digits_dec.
Qed.

(** The snapshot is read back from the reply. *)
Lemma read_stats_pairs st : read_stats (flat_map (fun '(k, v) => [k; v]) (stats_pairs st)) = Some st.
Proof.
  unfold read_stats, int_field. change (pairs _) with (stats_pairs st). destruct st.
  repeat match goal with |- context [field ?n ?l] =>
    let v := eval lazy -[Itoa] in (field n l) in change (field n l) with v end.
  cbn [mbind option_bind]. unfold Itoa. by rewrite !read_int_dec.
Qed.

(** ** The loops *)

Lemma keys_loop pattern (l : list (Z * Session)) acc :
  foldl (fun keys '(id, _) =>
    let sessKey := session_key id in
    if matchPattern pattern sessKey then keys ++ [sessKey] else keys) acc l =
  acc ++ filter (fun k => matchPattern pattern k = true) (session_key <$> l.*1).
Proof.
  revert acc. induction l as [|[id sess] l IH]; intros acc; cbn [foldl]; [by rewrite app_nil_r|].
  rewrite IH. cbv zeta. cbn [fmap list_fmap fst]. rewrite filter_cons.
  destruct (matchPattern pattern (session_key id)) eqn:E; [rewrite decide_True by done; by rewrite <- app_assoc|].
  by rewrite decide_False by done.
Qed.

Lemma streams_loop (l : list (Z * Session)) acc :
  foldl (fun streams '(id, _) => streams ++ [Itoa id]) acc l = acc ++ (Itoa <$> l.*1).
Proof.
  revert acc. induction l as [|[id sess] l IH]; intros acc; cbn [foldl]; [by rewrite app_nil_r|].
  rewrite IH, <- app_assoc. done.
Qed.

(** ** Keys *)

(** The meaning of a pattern. *)
Definition wanted (pattern key : bytes) : bool :=
  match parse pattern with Some ts => glob ts key | None => false end.

Lemma dec_chars n : Forall (fun c => c = minus \/ is_digit c = true) (dec n).
Proof.
  destruct (Z.le_gt_cases 0 n) as [Hn|Hn].
  - eapply Forall_impl; [by apply dec_digits|]. auto.
  - destruct n as [|p|p]; [lia|lia|]. change (dec (Z.neg p)) with (minus :: dec (Z.pos p)).
    constructor; [by left|]. eapply Forall_impl; [by apply dec_digits|]. auto.
Qed.

Lemma key_plain k : k = active_key \/ (exists id, k = session_key id) -> ascii_name k /\ no_slash k.
Proof.
  assert (forall c, c = minus \/ is_digit c = true -> c < 128 /\ c <> slash) as Hc.
  { intros c [->|H]; [done|]. unfold is_digit in H. unfold slash. go_bool. lia. }
  intros [->|[id ->]]; [split; go_decide|]. unfold session_key.
  split; (apply Forall_app; split; [go_decide|]); (eapply Forall_impl; [apply dec_chars|]);
    intros c H; by apply Hc in H as [??].
Qed.

Lemma matchPattern_wanted pattern k : k = active_key \/ (exists id, k = session_key id) ->
  matchPattern pattern k = wanted pattern k.
Proof. intros H. apply key_plain in H as [??]. by apply matchPattern_glob. Qed.

(** Every key there is, proxy by proxy. *)
Definition all_keys (peps : list AnyPEP) : list bytes :=
  active_key :: (session_key <$> concat (map (fun p => (map_to_list (sessions_of p)).*1) peps)).

Lemma cmd_keys_eq s cmd pattern rest :
  cmd_keys s (cmd :: pattern :: rest) =
  write_list (filter (fun k => matchPattern pattern k = true) (active_key :: (session_key <$> (ranged (rs_peps s)).*1))).
Proof.
  unfold cmd_keys. rewrite keys_loop, filter_cons. destruct (matchPattern pattern active_key) eqn:E; [by rewrite decide_True|].
  by rewrite decide_False by done.
Qed.

Lemma filter_ext_in (f g : bytes -> bool) (l : list bytes) : (forall x, x ∈ l -> f x = g x) ->
  filter (fun x => f x = true) l = filter (fun x => g x = true) l.
Proof.
  induction l as [|x l IH]; intros H; [done|]. rewrite !filter_cons, IH by (intros; apply H; by right).
  by rewrite (H x) by by left.
Qed.

Section Range.
Context (range_perm : forall i m, range i m ≡ₚ map_to_list m).

Lemma imap_perm peps : forall f, (forall i m, f i m ≡ₚ map_to_list m) ->
  concat (imap (fun i p => f i (sessions_of p)) peps) ≡ₚ concat (map (fun p => map_to_list (sessions_of p)) peps).
Proof.
  induction peps as [|p peps IH]; intros f Hf; [done|]. simpl.
  rewrite (Hf 0%nat). f_equiv. apply (IH (fun i => f (S i))). intros. apply Hf.
Qed.

Lemma ranged_perm peps : ranged peps ≡ₚ concat (map (fun p => map_to_list (sessions_of p)) peps).
Proof. by apply imap_perm. Qed.

Lemma ranged_keys peps :
  session_key <$> (ranged peps).*1 ≡ₚ session_key <$> concat (map (fun p => (map_to_list (sessions_of p)).*1) peps).
Proof.
  rewrite ranged_perm. f_equiv. induction peps as [|p peps IH]; [done|]. simpl.
  rewrite fmap_app. by rewrite IH.
Qed.

(** ** The statistics of the HTTP server *)

(** The session the map shows for a stream: the last proxy that knows it. *)
Fixpoint last_session (peps : list AnyPEP) (id : Z) : option Session :=
  match peps with
  | [] => None
  | p :: peps' =>
      match last_session peps' id with Some sess => Some sess | None => sessions_of p !! id end
  end.

Definition put_stats (allStats : gmap Z SessionStats) (e : Z * Session) : gmap Z SessionStats :=
  let '(id, sess) := e in <[id := GetMonitorStats sess]> allStats.

Lemma put_stats_notin l acc id : id ∉ l.*1 -> foldl put_stats acc l !! id = acc !! id.
Proof.
  revert acc. induction l as [|[k sess] l IH]; intros acc Hn; [done|]. simpl in *.
  apply not_elem_of_cons in Hn as [H1 H2]. rewrite IH by done. by rewrite lookup_insert_ne.
Qed.

Lemma put_stats_in l acc id sess : NoDup l.*1 -> (id, sess) ∈ l ->
  foldl put_stats acc l !! id = Some (GetMonitorStats sess).
Proof.
  revert acc. induction l as [|[k sess'] l IH]; intros acc Hd Hin; [by apply not_elem_of_nil in Hin|].
  apply NoDup_cons in Hd as [Hk Hd]. apply elem_of_cons in Hin as [[= -> ->]|Hin]; [|by apply IH].
  simpl. rewrite put_stats_notin by done. by rewrite lookup_insert_eq.
Qed.

Lemma put_stats_map (l : list (Z * Session)) (m : gmap Z Session) acc id : l ≡ₚ map_to_list m ->
  foldl put_stats acc l !! id = match m !! id with Some sess => Some (GetMonitorStats sess) | None => acc !! id end.
Proof.
  intros Hp. assert (NoDup l.*1) as Hd by (rewrite Hp; apply NoDup_fst_map_to_list).
  destruct (m !! id) as [sess|] eqn:E.
  - apply put_stats_in; [done|]. rewrite Hp. by apply elem_of_map_to_list.
  - apply put_stats_notin. rewrite Hp. intros (e & -> & He)%list_elem_of_fmap. destruct e as [k v].
    apply elem_of_map_to_list in He. simpl in E. congruence.
Qed.

Lemma put_stats_peps peps id : forall f acc, (forall i m, f i m ≡ₚ map_to_list m) ->
  foldl put_stats acc (concat (imap (fun i p => f i (sessions_of p)) peps)) !! id =
  match last_session peps id with Some sess => Some (GetMonitorStats sess) | None => acc !! id end.
Proof.
  induction peps as [|p peps IH]; intros f acc Hf; [done|]. simpl. rewrite foldl_app.
  rewrite (IH (fun i => f (S i))) by (intros; apply Hf).
  destruct (last_session peps id); [done|]. by apply put_stats_map.
Qed.

Lemma handleStats_GET hs : exists allStats, handleStats hs "GET" = HttpJSON allStats /\
  forall id, allStats !! id = GetMonitorStats <$> last_session (hs_peps hs) id.
Proof.
  eexists. split; [reflexivity|]. intros id.
  transitivity (foldl put_stats ∅ (ranged (hs_peps hs)) !! id); [done|].
  unfold ranged. rewrite put_stats_peps by done. by destruct (last_session (hs_peps hs) id).
Qed.
End Range.

(** ** Commands *)

Lemma is_command_inj cmd n1 n2 : is_command cmd n1 = true -> bool_decide (n1 = n2) = false -> is_command cmd n2 = false.
Proof.
  unfold is_command. intros H Hne. apply bool_decide_eq_true in H. apply bool_decide_eq_false in Hne.
  apply bool_decide_eq_false. rewrite H. intros [= E]. apply Hne.
  rewrite <- (string_of_bytes_of_string n1), <- (string_of_bytes_of_string n2). by f_equal.
Qed.

Lemma handle_keys s cmd args : is_command cmd "keys" = true -> handleCommand s (cmd :: args) = cmd_keys s (cmd :: args).
Proof.
  intros H. unfold handleCommand. rewrite (is_command_inj _ _ "ping" H), (is_command_inj _ _ "quit" H) by done. by rewrite H.
Qed.

Lemma handle_hgetall s cmd args :
  is_command cmd "hgetall" = true -> handleCommand s (cmd :: args) = cmd_hgetall s (cmd :: args).
Proof.
  intros H. unfold handleCommand. rewrite (is_command_inj _ _ "ping" H), (is_command_inj _ _ "quit" H),
    (is_command_inj _ _ "keys" H), (is_command_inj _ _ "smembers" H) by done. by rewrite H.
Qed.

(** HGETALL of a session key. *)
Lemma hgetall_key s cmd id args : is_command cmd "hgetall" = true -> is_u16 id ->
  handleCommand s (cmd :: session_key id :: args) =
  match find_session (rs_peps s) id with
  | None => [WriteArray 0]
  | Some sess => write_stats (GetMonitorStats sess)
  end.
Proof.
  intros Hc Hid. rewrite handle_hgetall by done. unfold cmd_hgetall, session_key.
  rewrite HasPrefix_app, TrimPrefix_app. cbn [negb]. unfold is_u16 in Hid.
  fold (Itoa id). rewrite Atoi_Itoa by lia. go_tests. cbn [orb]. by rewrite u16_small.
Qed.

(** ** What the proxies promise *)

(** A table is keyed by the twelve-bit numbers of its sessions. *)
Definition any_ok (p : AnyPEP) : Prop := forall id sess,
  sessions_of p !! id = Some sess -> 0 <= id <= 4095 /\ c_StreamID (s_cfg sess) = id.

Lemma snapshot_ok p : pep_inv p -> Forall (fun o => 0 <= c_StreamID (s_cfg (o_s o)) <= 4095) (pep_objs p) ->
  any_ok (mkAny Pep Pep_instance p).
Proof.
  intros Hinv Hobj id sess H. unfold sessions_of, GetSessions in H. simpl in H. unfold snapshot in H.
  rewrite lookup_omap in H. destruct (pep_sessions p !! id) as [ref|] eqn:E; [|done]. simpl in H.
  destruct (pi_tab _ Hinv _ _ E) as (o & Ho & <-). rewrite Ho in H. injection H as <-.
  by pose proof (Forall_lookup_1 _ _ _ _ Hobj Ho).
Qed.

(** Both proxies keep it in every reachable state. *)
Lemma client_any_ok listenAddr router mtu bandwidth k m idle sys :
  client_reach (NewClientPEP listenAddr router mtu bandwidth k m idle) sys ->
  any_ok (mkAny ClientPEP ClientPEP_instance (cs_c sys)).
Proof.
  intros H. eapply client_reach_inv in H; [|apply client_init_inv].
  intros id sess Hs. apply (snapshot_ok (cl_pep (cs_c sys))); [apply H| |done].
  eapply Forall_impl; [apply (ci_obj _ _ H)|]. unfold id_ok. simpl. lia.
Qed.

Lemma server_any_ok mtu bandwidth k m idle sys :
  server_reach (NewServerPEP mtu bandwidth k m idle) sys -> any_ok (mkAny Pep Pep_instance (ss_p sys)).
Proof.
  intros H. apply server_reach_inv in H; [|apply server_init_inv].
  apply snapshot_ok; [apply H|]. eapply Forall_impl; [apply (vi_obj _ H)|]. unfold obj_dialled. simpl. tauto.
Qed.

Lemma find_session_ok peps id sess : Forall any_ok peps -> find_session peps id = Some sess ->
  0 <= id <= 4095 /\ c_StreamID (s_cfg sess) = id.
Proof.
  induction 1 as [|p peps Hp _ IH]; [done|]. simpl. destruct (sessions_of p !! id) eqn:E; [|done].
  intros [= ->]. by apply Hp.
Qed.

Lemma find_session_is_Some peps id p : In p peps -> is_Some (sessions_of p !! id) -> is_Some (find_session peps id).
Proof.
  intros Hin Hs. induction peps as [|q peps IH]; [done|]. simpl.
  destruct (sessions_of q !! id) eqn:E; [done|]. destruct Hin as [->|Hin]; [|by apply IH].
  rewrite E in Hs. by destruct Hs.
Qed.

(** A listed key other than the first is the key of a session. *)
Lemma all_keys_session peps key : key ∈ all_keys peps -> key <> active_key ->
  exists id sess, key = session_key id /\ find_session peps id = Some sess.
Proof.
  intros [->|Hk]%elem_of_cons Hne; [done|].
  apply list_elem_of_fmap in Hk as (id & -> & Hid). apply list_elem_of_In, in_concat in Hid as (l & Hl & Hid).
  apply in_map_iff in Hl as (p & <- & Hp). apply list_elem_of_In, list_elem_of_fmap in Hid as ([k sess] & -> & Hks).
  apply elem_of_map_to_list in Hks. destruct (find_session_is_Some peps k p Hp) as [sess' Hs]; [by eexists|]. eauto.
Qed.

(** The last activity of a session as its snapshot shows it. *)
Lemma last_active_read sess :
  - 2 ^ 63 <= GetLastActive sess < 2 ^ 63 -> (forall t, zone_ok (zone t)) ->
  ReadRFC3339 (LastActive (GetMonitorStats sess)) = Some (GetLastActive sess / 1000000000).
Proof.
  intros Hl Hz. apply Read_Format; [apply Hz|].
  change (2 ^ 63) with 9223372036854775808 in Hl. Z.to_euclidean_division_equations; lia.
Qed.

(** ** Theorems *)

(** C29: Every command is answered by exactly one well-formed reply: an error, a
    simple string or an array followed by as many bulk strings as it announces; the
    connection is closed after the reply to QUIT and after no other. *)
Theorem redis_one_reply s cmd args :
  exists r, read_reply (handleCommand s (cmd :: args)) =
    Some (r, if is_command cmd "quit" then [CloseConn] else []).
Proof.
  destruct (is_command cmd "ping") eqn:Hping.
  { unfold handleCommand. rewrite Hping, (is_command_inj _ _ "quit" Hping) by done. by eexists. }
  destruct (is_command cmd "quit") eqn:Hquit.
  { unfold handleCommand. rewrite Hping, Hquit. by eexists. }
  unfold handleCommand. rewrite Hping, Hquit.
  destruct (is_command cmd "keys").
  { unfold cmd_keys. destruct args; [by eexists|]. eexists. apply read_write_list. }
  destruct (is_command cmd "smembers").
  { unfold cmd_smembers. destruct args; [by eexists|]. case_match; [by eexists|].
    eexists. apply read_write_list. }
  destruct (is_command cmd "hgetall"); [|by eexists].
  unfold cmd_hgetall. destruct args; [by eexists|].
  repeat (case_match; try by eexists).
Qed.

(** C26: KEYS.  Whatever order Go visits the maps in, the reply lists, each as often
    as there are proxies with such a stream, exactly the keys that match the pattern
    under its meaning [glob]: a star is any sequence of characters but slashes, a
    question mark any such character, a class its ranges; a malformed pattern
    matches nothing.  So the chunk-wise matching of [path.Match] is complete on these
    keys. *)
Theorem keys_spec s cmd pattern args :
  (forall i m, range i m ≡ₚ map_to_list m) ->
  is_command cmd "keys" = true ->
  exists ks, read_reply (handleCommand s (cmd :: pattern :: args)) = Some (RArray ks, []) /\
    ks ≡ₚ filter (fun k => wanted pattern k = true) (all_keys (rs_peps s)).
Proof.
  intros Hr Hc. rewrite handle_keys, cmd_keys_eq by done. eexists. split; [apply read_write_list|].
  transitivity (filter (fun k => matchPattern pattern k = true) (all_keys (rs_peps s))).
  - unfold all_keys. f_equiv. f_equiv. by apply ranged_keys.
  - apply reflexive_eq, filter_ext_in. intros k Hk. apply matchPattern_wanted.
    apply elem_of_cons in Hk as [->|Hk]; [by left|]. right. apply list_elem_of_fmap in Hk as (id & -> & _). by eexists.
Qed.

(** C27: The round trip through the monitoring server.  Every key KEYS lists, other
    than the one of the active streams, is the key of a stream that a proxy knows;
    HGETALL of it answers with an array that is read back, field by field, to the
    snapshot of the session of the first proxy that knows it, under its own stream
    number, and the time in it is the second of the last activity. *)
Theorem keys_hgetall s cmd1 cmd2 pattern ks key :
  (forall i m, range i m ≡ₚ map_to_list m) -> (forall t, zone_ok (zone t)) ->
  Forall any_ok (rs_peps s) ->
  is_command cmd1 "keys" = true -> is_command cmd2 "hgetall" = true ->
  read_reply (handleCommand s [cmd1; pattern]) = Some (RArray ks, []) ->
  key ∈ ks -> key <> active_key ->
  exists id sess l, key = session_key id /\ find_session (rs_peps s) id = Some sess /\
    read_reply (handleCommand s [cmd2; key]) = Some (RArray l, []) /\
    read_stats l = Some (GetMonitorStats sess) /\
    StreamID (GetMonitorStats sess) = id /\
    (- 2 ^ 63 <= GetLastActive sess < 2 ^ 63 ->
       ReadRFC3339 (LastActive (GetMonitorStats sess)) = Some (GetLastActive sess / 1000000000)).
Proof.
  intros Hr Hz Hok H1 H2 Hks Hkey Hne. rewrite handle_keys, cmd_keys_eq, read_write_list in Hks by done.
  injection Hks as <-. apply list_elem_of_filter in Hkey as [_ Hkey].
  assert (key ∈ all_keys (rs_peps s)) as Hall.
  { apply elem_of_cons in Hkey as [->|Hkey]; [by left|]. right. by rewrite <- ranged_keys. }
  destruct (all_keys_session _ _ Hall Hne) as (id & sess & -> & Hs).
  destruct (find_session_ok _ _ _ Hok Hs) as [Hid Hsid]. exists id, sess. eexists.
  split; [done|]. split; [done|]. rewrite hgetall_key by (done || unfold is_u16; lia). rewrite Hs.
  split; [apply read_write_stats|]. split; [apply read_stats_pairs|]. split; [done|].
  intros Hl. by apply last_active_read.
Qed.

(** C28: The two monitoring servers agree.  Over one proxy, which is what the program
    passes to both, a GET of the HTTP server shows for each stream exactly the
    statistics that HGETALL of its key answers with; any other method is refused
    with status 405. *)
Theorem http_redis_agree hs rs p cmd :
  (forall i m, range i m ≡ₚ map_to_list m) ->
  hs_peps hs = [p] -> rs_peps rs = [p] -> is_command cmd "hgetall" = true ->
  (exists allStats, handleStats hs "GET" = HttpJSON allStats /\
    forall id st, is_u16 id -> allStats !! id = Some st <->
      exists l, read_reply (handleCommand rs [cmd; session_key id]) = Some (RArray l, []) /\ read_stats l = Some st) /\
  (forall method, method <> "GET" -> handleStats hs method = HttpError "Method not allowed" 405).
Proof.
  intros Hr Hh Hrs Hc. split.
  - destruct (handleStats_GET Hr hs) as (allStats & E & Hall). exists allStats. split; [done|].
    intros id st Hid. rewrite Hall, Hh, hgetall_key, Hrs by done. cbn [last_session find_session].
    destruct (sessions_of p !! id) as [sess|]; cbn [fmap option_fmap option_map].
    + split.
      * intros [= <-]. eexists. split; [apply read_write_stats|apply read_stats_pairs].
      * intros (l & El & Hl). rewrite read_write_stats in El.
        assert (l = flat_map (fun '(k, v) => [k; v]) (stats_pairs (GetMonitorStats sess))) as -> by congruence.
        rewrite read_stats_pairs in Hl. congruence.
    + split; [done|]. intros (l & [= <-] & Hl). discriminate Hl.
  - intros method Hm. unfold handleStats. by rewrite bool_decide_eq_false_2.
Qed.
End Monitor.

(** ** Witnesses *)

#[local] Existing Instance XorCode.xor_rs.

Module MonitorDemo.
Definition pep : AnyPEP := mkAny ClientPEP ClientPEP_instance (cs_c ClientDemo.final).
Definition redis : RedisServer := NewRedisServer ":6379" [pep].
Definition http : HTTPServer := NewHTTPServer ":8080" "" "" [pep].
Definition zone (t : Z) : Z := 3600.
Definition range (i : nat) (m : gmap Z Session) : list (Z * Session) := reverse (map_to_list m).

Lemma range_ok i m : range i m ≡ₚ map_to_list m.
Proof. apply reverse_Permutation. Qed.

Lemma zone_demo t : zone_ok (zone t).
Proof. by split. Qed.

Lemma pep_ok : any_ok pep.
Proof. apply (client_any_ok ":10080" ClientDemo.router 1200 128000 2 1 (300 * Second)), ClientDemo.final_reach. Qed.
End MonitorDemo.

Lemma keys_spec_witness :
  exists ks, read_reply (handleCommand MonitorDemo.zone MonitorDemo.range MonitorDemo.redis
      [str "KEYS"; str "tcp-pep:s*:?"]) = Some (RArray ks, []) /\
    ks ≡ₚ filter (fun k => wanted (str "tcp-pep:s*:?") k = true) (all_keys [MonitorDemo.pep]) /\
    ks = [str "tcp-pep:session:1"].
Proof.
  destruct (keys_spec MonitorDemo.zone MonitorDemo.range MonitorDemo.redis (str "KEYS") (str "tcp-pep:s*:?") [])
    as (ks & H1 & H2); [apply MonitorDemo.range_ok|by vm_compute|].
  exists ks. split; [done|]. split; [done|].
  assert (Some (RArray ks, []) = Some (RArray [str "tcp-pep:session:1"], [])) as E
    by (rewrite <- H1; vm_compute; reflexivity).
  congruence.
Defined.

Lemma keys_hgetall_witness :
  exists id sess l, str "tcp-pep:session:1" = session_key id /\
    find_session [MonitorDemo.pep] id = Some sess /\
    read_reply (handleCommand MonitorDemo.zone MonitorDemo.range MonitorDemo.redis
      [str "HGetAll"; str "tcp-pep:session:1"]) = Some (RArray l, []) /\
    read_stats l = Some (GetMonitorStats MonitorDemo.zone sess).
Proof.
  destruct (keys_hgetall MonitorDemo.zone MonitorDemo.range MonitorDemo.redis (str "KEYS") (str "HGetAll")
    (str "*") [active_key; str "tcp-pep:session:1"] (str "tcp-pep:session:1"))
    as (id & sess & l & H1 & H2 & H3 & H4 & _).
  - apply MonitorDemo.range_ok.
  - apply MonitorDemo.zone_demo.
  - constructor; [apply MonitorDemo.pep_ok|constructor].
  - by vm_compute.
  - by vm_compute.
  - vm_compute. reflexivity.
  - right. by left.
  - by vm_compute.
  - exists id, sess, l. exact (conj H1 (conj H2 (conj H3 H4))).
Defined.

Lemma http_redis_agree_witness :
  (exists allStats, handleStats MonitorDemo.zone MonitorDemo.range MonitorDemo.http "GET" = HttpJSON allStats /\
    forall id st, is_u16 id -> allStats !! id = Some st <->
      exists l, read_reply (handleCommand MonitorDemo.zone MonitorDemo.range MonitorDemo.redis
        [str "hgetall"; session_key id]) = Some (RArray l, []) /\ read_stats l = Some st) /\
  handleStats MonitorDemo.zone MonitorDemo.range MonitorDemo.http "POST" = HttpError "Method not allowed" 405.
Proof.
  destruct (http_redis_agree MonitorDemo.zone MonitorDemo.range MonitorDemo.http MonitorDemo.redis
    MonitorDemo.pep (str "hgetall")) as [H1 H2]; [apply MonitorDemo.range_ok|done|done|by vm_compute|].
  split; [exact H1|]. by apply H2.
Defined.
