(* ===== verification/Main.v ===== *)
(** * The program: src/cmd/main.go

    [run] in three parts: the start of the components ([run_start]), the loop over the
    signals, and the deferred calls in reverse order.  From the start on, main is one
    more goroutine: [main_step] interleaves it with the steps of the proxy it has
    started.  What the system calls and the signal handler deliver are inputs; the
    parsed flags are a record.

    The theorem is about shutdown: after a termination signal main returns after a
    bounded number of its own steps, whatever the proxy does in between; by then the
    servers it has started were stopped in reverse order, and the context of every
    session is cancelled. *)
From stdpp Require Import base gmap list strings pretty.
From S2P Require Import Prelude Fec Duration Session SendSpec RecvSpec E2E Frame Pep NetAddr Router Client Server Monitor.
Local Open Scope string_scope.
Local Open Scope list_scope.
Local Open Scope Z_scope.

(** ** Flags *)

Record Flags := mkFlags {
  f_mode : string;
  f_listen : string;
  f_routes : string;
  f_mtu : Z;
  f_bandwidth : Z;
  f_fecK : Z;
  f_fecM : Z;
  f_idleTimeoutSec : Z;
  f_redisAddr : string;
  f_httpAddr : string;
  f_httpCert : string;
  f_httpKey : string;
}.

Definition default_flags : Flags :=
  mkFlags "client" ":10080" "routes.yaml" 1200 128000 10 3 300 ":6379" ":8080" "" "".

Definition idleTimeout (f : Flags) : Z := i64 (f_idleTimeoutSec f * Second).

(** ** Signals, deferred calls *)

Inductive Signal := SIGINT | SIGTERM | SIGHUP.
Inductive Deferred := DCancel | DPepStop | DRedisStop | DHttpStop.

Inductive MainPC :=
| MSignals (defers : list Deferred)     (** in the loop over [sigChan] *)
| MDefers (defers : list Deferred)      (** returning: the calls that are left *)
| MReturned.

Inductive MainEff :=
| MPep (e : PepEff)
| MRedis (e : ServerEff)
| MHttp (e : ServerEff)
| MCancel.

Section Main.
Context {RS : ReedSolomon}.

(** [clientPEP] or [serverPEP], with its goroutines. *)
Inductive Proxy := PClient (sys : ClientSys) | PServer (sys : ServerSys).

Definition proxy_pep (x : Proxy) : Pep :=
  match x with PClient sys => cl_pep (cs_c sys) | PServer sys => ss_p sys end.

(** [pepInst]: the interface value the monitoring servers are given. *)
Definition pep_inst (x : Proxy) : AnyPEP :=
  match x with
  | PClient sys => mkAny ClientPEP ClientPEP_instance (cs_c sys)
  | PServer sys => mkAny Pep Pep_instance (ss_p sys)
  end.

Record MainSys := mkMain {
  m_proxy : Proxy;
  m_redis : option RedisServer;         (** the servers whose [Start] succeeded *)
  m_http : option HTTPServer;
  m_pc : MainPC;
  m_done : list Deferred;               (** history: the deferred calls that have returned *)
}.

(** What the environment answers during the start. *)
Record Env := mkEnv {
  e_load : result Router;               (** [config.LoadConfig] of the routes file *)
  e_ResolveTCPAddr : string -> result string;
  e_ResolveUDPAddr : string -> result string;
  e_ListenTCP : string -> result unit;
  e_ListenUDP : string -> result unit;
  e_Listen : string -> result string;   (** [net.Listen] of the monitoring servers *)
}.

(** The switch over the mode. *)
Definition start_proxy (f : Flags) (e : Env) : result Proxy * list PepEff :=
  if bool_decide (f_mode f = "client") then
    match e_load e with
    | Err err => (Err ("failed to load routes from " +:+ f_routes f +:+ ": " +:+ err), [])
    | Ok router =>
        match Client.Start (e_ResolveTCPAddr e) (e_ResolveUDPAddr e) (e_ListenTCP e) (e_ListenUDP e)
                (NewClientPEP (f_listen f) router (f_mtu f) (f_bandwidth f) (f_fecK f) (f_fecM f) (idleTimeout f)) with
        | (Err err, es) => (Err ("client-PEP start failed: " +:+ err), es)
        | (Ok sys, es) => (Ok (PClient sys), es)
        end
    end
  else if bool_decide (f_mode f = "server") then
    match Server.Start (e_ResolveUDPAddr e) (e_ListenUDP e) (f_listen f)
            (NewServerPEP (f_mtu f) (f_bandwidth f) (f_fecK f) (f_fecM f) (idleTimeout f)) with
    | Err err => (Err ("server-PEP start failed: " +:+ err), [])
    | Ok sys => (Ok (PServer sys), [])
    end
  else (Err ("invalid mode: " +:+ f_mode f +:+ ". Must be 'client' or 'server'"), []).

(** The monitoring servers: [None] when disabled or when [Start] failed. *)
Definition start_redis (f : Flags) (e : Env) (x : Proxy) : option RedisServer :=
  if bool_decide (f_redisAddr f = "") then None
  else
    match RedisServer_Start (e_Listen e) (NewRedisServer (f_redisAddr f) [pep_inst x]) with
    | Ok s => Some s
    | Err _ => None
    end.

Definition start_http (f : Flags) (e : Env) (x : Proxy) : option HTTPServer :=
  if bool_decide (f_httpAddr f = "") then None
  else
    match HTTPServer_Start (e_Listen e) (NewHTTPServer (f_httpAddr f) (f_httpCert f) (f_httpKey f) [pep_inst x]) with
    | Ok s => Some s
    | Err _ => None
    end.

(** The deferred calls, the last one first. *)
Definition defers_of (redis : option RedisServer) (http : option HTTPServer) : list Deferred :=
  match http with Some _ => [DHttpStop] | None => [] end ++
  match redis with Some _ => [DRedisStop] | None => [] end ++ [DPepStop; DCancel].

(** Everything up to the loop; an error is returned after the deferred [cancel]. *)
Definition run_start (f : Flags) (e : Env) : result MainSys * list MainEff :=
  match start_proxy f e with
  | (Err err, es) => (Err err, map MPep es ++ [MCancel])
  | (Ok x, es) =>
      let redis := start_redis f e x in
      let http := start_http f e x in
      (Ok (mkMain x redis http (MSignals (defers_of redis http)) []), map MPep es)
  end.

(** The servers hold a pointer to the proxy: they see its current state. *)
Definition redis_view (m : MainSys) : option RedisServer :=
  (fun s => mkRedis (rs_addr s) (rs_server s) [pep_inst (m_proxy m)] (rs_ln s)) <$> m_redis m.

(** ** Steps *)

(** A step of a goroutine of the proxy. *)
Inductive ProxyAct := PaClient (act : ClientAct) | PaServer (act : ServerAct).

Inductive MainAct :=
| MaProxy (now : Z) (act : ProxyAct)
| MaSignal (sig : Signal) (load : result Router)
| MaDefer (now : Z).

Definition with_proxy (m : MainSys) (x : Proxy) : MainSys :=
  mkMain x (m_redis m) (m_http m) (m_pc m) (m_done m).
Definition with_pc (m : MainSys) (pc : MainPC) : MainSys :=
  mkMain (m_proxy m) (m_redis m) (m_http m) pc (m_done m).

(** [Stop] and [UpdateRouter] are called by main only. *)
Definition client_own (act : ClientAct) : bool :=
  match act with CaStop | CaUpdateRouter _ => false | _ => true end.
Definition server_own (act : ServerAct) : bool :=
  match act with SaStop => false | _ => true end.

(** One step of the proxy's [Stop]; whether it has returned. *)
Definition stop_proxy (now : Z) (x : Proxy) : option (Proxy * bool * list PepEff) :=
  match x with
  | PClient sys =>
      '(sys', es) ← client_step now CaStop sys;
      Some (PClient sys', match cs_stop sys' with StReturned => true | _ => false end, es)
  | PServer sys =>
      '(sys', es) ← server_step now SaStop sys;
      Some (PServer sys', match ss_stop sys' with StReturned => true | _ => false end, es)
  end.

(** The deferred [cancel()]: the proxy's context is a child of main's. *)
Definition cancel_proxy (x : Proxy) : Proxy :=
  match x with
  | PClient sys =>
      PClient (mkClientSys (with_pep (cs_c sys) (cancel_pep (cl_pep (cs_c sys)))) (cs_accepting sys)
                 (cs_handlers sys) (cs_demux sys) (cs_stop sys) (cs_read sys) (cs_chan_ids sys))
  | PServer sys =>
      PServer (mkServerSys (cancel_pep (ss_p sys)) (ss_handlers sys) (ss_demux sys) (ss_stop sys)
                 (ss_read sys) (ss_dialled sys))
  end.

(** A signal in the loop; [load] is what [LoadConfig] returns on a reload. *)
Definition signal_step (sig : Signal) (load : result Router) (defers : list Deferred) (m : MainSys)
    : option (MainSys * list MainEff) :=
  match sig with
  | SIGHUP =>
      match m_proxy m, load with
      | PClient sys, Ok newRouter =>
          '(sys', es) ← client_step 0 (CaUpdateRouter newRouter) sys;
          Some (with_proxy m (PClient sys'), map MPep es)
      | _, _ => Some (m, [])
      end
  | _ => Some (with_pc m (MDefers defers), [])
  end.

(** After the last deferred call the function returns. *)
Definition next_pc (ds : list Deferred) : MainPC := match ds with [] => MReturned | _ => MDefers ds end.

(** The next deferred call. *)
Definition defer_step (now : Z) (defers : list Deferred) (m : MainSys) : option (MainSys * list MainEff) :=
  match defers with
  | [] => Some (with_pc m MReturned, [])
  | d :: ds =>
      let finish x := mkMain x (m_redis m) (m_http m) (next_pc ds) (m_done m ++ [d]) in
      match d with
      | DHttpStop => Some (finish (m_proxy m), map MHttp (default [] (HTTPServer_Stop <$> m_http m)))
      | DRedisStop => Some (finish (m_proxy m), map MRedis (default [] (RedisServer_Stop <$> m_redis m)))
      | DPepStop =>
          '(x, returned, es) ← stop_proxy now (m_proxy m);
          Some (if returned : bool then finish x else with_proxy m x, map MPep es)
      | DCancel => Some (finish (cancel_proxy (m_proxy m)), [MCancel])
      end
  end.

(** A step of the proxy on its own. *)
Definition proxy_step (now : Z) (act : ProxyAct) (x : Proxy) : option (Proxy * list PepEff) :=
  match act, x with
  | PaClient act, PClient sys =>
      if client_own act then '(sys', es) ← client_step now act sys; Some (PClient sys', es) else Some (x, [])
  | PaServer act, PServer sys =>
      if server_own act then '(sys', es) ← server_step now act sys; Some (PServer sys', es) else Some (x, [])
  | _, _ => Some (x, [])
  end.

(** When main has returned the process is gone. *)
Definition main_step (act : MainAct) (m : MainSys) : option (MainSys * list MainEff) :=
  match m_pc m, act with
  | MReturned, _ => Some (m, [])
  | _, MaProxy now act => '(x, es) ← proxy_step now act (m_proxy m); Some (with_proxy m x, map MPep es)
  | MSignals defers, MaSignal sig load => signal_step sig load defers m
  | MDefers defers, MaDefer now => defer_step now defers m
  | _, _ => Some (m, [])
  end.

(** What [ReadFromUDP] returns is bytes. *)
Definition main_act_ok (act : MainAct) : Prop :=
  match act with MaProxy _ (PaServer act) => server_act_ok act | _ => True end.

(** [main_reach m0 tr m]: from [m0] the program can get to [m]; [tr] are the effects on
    the way. *)
Inductive main_reach (m0 : MainSys) : list MainEff -> MainSys -> Prop :=
| main_reach_init : main_reach m0 [] m0
| main_reach_step act tr m m' es :
    main_reach m0 tr m -> main_act_ok act -> main_step act m = Some (m', es) -> main_reach m0 (tr ++ es) m'.

(** ** Invariant *)

Section Invariant.
Context (cfg0 : PepConfig).

Definition proxy_inv (x : Proxy) : Prop :=
  match x with PClient sys => client_inv cfg0 sys | PServer sys => server_inv sys end.

Definition stop_pc (x : Proxy) : StopPC :=
  match x with PClient sys => cs_stop sys | PServer sys => ss_stop sys end.

(** The deferred calls are those of the servers that were started: done, then left. *)
Definition defers_inv (m : MainSys) : Prop :=
  let all := defers_of (m_redis m) (m_http m) in
  match m_pc m with
  | MSignals ds => ds = all /\ m_done m = []
  | MDefers ds => m_done m ++ ds = all /\ ds <> []
  | MReturned => m_done m = all /\ pep_done (proxy_pep (m_proxy m)) = true
  end.

Definition main_inv (m : MainSys) : Prop := proxy_inv (m_proxy m) /\ defers_inv m.

Lemma proxy_inv_pep x : proxy_inv x -> pep_inv (proxy_pep x).
Proof. destruct x; simpl; intros H; apply H. Qed.

Lemma cancel_proxy_inv x : proxy_inv x ->
  proxy_inv (cancel_proxy x) /\ pep_done (proxy_pep (cancel_proxy x)) = true.
Proof.
  destruct x as [sys|sys]; simpl; intros H; (split; [|done]).
  - destruct (cancel_inv _ (ci_pep _ _ H)) as [H1 H2].
    by apply (client_inv_pep cfg0 sys _ _ _ _ H H1 H2), H.
  - destruct (cancel_inv _ (vi_pep _ H)) as [H1 H2].
    exact (server_inv_pep sys _ (ss_demux sys) (ss_stop sys) H H1 H2).
Qed.

Lemma stop_proxy_inv now x x' b es : proxy_inv x -> stop_proxy now x = Some (x', b, es) -> proxy_inv x'.
Proof.
  destruct x as [sys|sys]; cbn [stop_proxy]; intros H.
  - destruct (client_step now CaStop sys) as [[sys' es']|] eqn:E; [|done]. intros [= <- <- <-].
    eapply client_step_inv; [exact H|exact E].
  - destruct (server_step now SaStop sys) as [[sys' es']|] eqn:E; [|done]. intros [= <- <- <-].
    apply (server_step_inv now SaStop sys sys' es' H I E).
Qed.

Lemma defer_step_inv now ds m m' es : main_inv m -> m_pc m = MDefers ds ->
  defer_step now ds m = Some (m', es) -> main_inv m'.
Proof.
  intros [Hx Hd] Hpc. unfold defers_inv in Hd. rewrite Hpc in Hd. destruct Hd as [Hall Hne].
  destruct ds as [|d ds]; [done|]. cbn [defer_step].
  assert (forall x, proxy_inv x -> (ds = [] -> pep_done (proxy_pep x) = true) ->
    main_inv (mkMain x (m_redis m) (m_http m) (next_pc ds) (m_done m ++ [d]))) as Hfin.
  { intros x H1 H2. split; [done|]. unfold defers_inv. simpl. rewrite <- Hall.
    destruct ds; simpl; [by auto|]. rewrite <- app_assoc. done. }
  assert (ds = [] -> d = DCancel) as Hlast.
  { intros ->. apply (f_equal last) in Hall. rewrite last_snoc in Hall.
    destruct (m_http m), (m_redis m); by injection Hall. }
  destruct d.
  - intros [= <- <-]. destruct (cancel_proxy_inv _ Hx). by apply Hfin.
  - destruct (stop_proxy now (m_proxy m)) as [[[x b] es']|] eqn:E; [|done]. intros [= <- <-].
    apply stop_proxy_inv in E; [|done]. destruct b; [by apply Hfin; [|intros E'; discriminate (Hlast E')]|].
    split; [done|]. unfold defers_inv. simpl. by rewrite Hpc.
  - intros [= <- <-]. apply Hfin; [done|]. intros E. discriminate (Hlast E).
  - intros [= <- <-]. apply Hfin; [done|]. intros E. discriminate (Hlast E).
Qed.

(** Case analysis on what a step function looks at first. *)
Local Ltac head_case := lazymatch goal with
  | |- (if ?b then _ else _) = _ -> _ => destruct b
  | |- match ?o with Some _ => _ | None => _ end = _ -> _ => destruct o
  | |- (?m ≫= _) = _ -> _ => destruct m as [[[??]?]|]; [cbn [mbind option_bind]|discriminate]
  end.

Lemma proxy_step_inv now act x x' es : proxy_inv x -> main_act_ok (MaProxy now act) ->
  proxy_step now act x = Some (x', es) -> proxy_inv x' /\ stop_pc x' = stop_pc x.
Proof.
  intros Hx Hok. destruct act as [act|act], x as [sys|sys]; cbn [proxy_step]; try (by intros [= <- <-]).
  - destruct (client_own act) eqn:Hown; [|by intros [= <- <-]].
    destruct (client_step now act sys) as [[sys' es']|] eqn:E; [|done]. intros [= <- <-].
    split; [by apply (client_step_inv cfg0 now act sys sys' es')|]. simpl. revert E. unfold client_step.
    destruct act; try discriminate Hown; repeat head_case; by intros [= <- <-].
  - destruct (server_own act) eqn:Hown; [|by intros [= <- <-]].
    destruct (server_step now act sys) as [[sys' es']|] eqn:E; [|done]. intros [= <- <-].
    split; [by apply (server_step_inv now act sys sys' es')|]. simpl. revert E. unfold server_step.
    destruct act; try discriminate Hown; repeat head_case; by intros [= <- <-].
Qed.

Lemma signal_step_inv sig load ds m m' es : main_inv m -> m_pc m = MSignals ds ->
  signal_step sig load ds m = Some (m', es) -> main_inv m'.
Proof.
  intros Hm Hpc. pose proof Hm as [Hx Hd]. unfold defers_inv in Hd. rewrite Hpc in Hd. destruct Hd as [-> Hdn].
  assert (main_inv (with_pc m (MDefers (defers_of (m_redis m) (m_http m))))) as Hterm.
  { split; [done|]. unfold defers_inv. simpl. rewrite Hdn. split; [done|]. unfold defers_of.
    by destruct (m_http m), (m_redis m). }
  destruct sig; [by intros [= <- <-]|by intros [= <- <-]|]. unfold signal_step.
  destruct (m_proxy m) as [sys|sys] eqn:Ex; [|by intros [= <- <-]]. destruct load as [r|]; [|by intros [= <- <-]].
  destruct (client_step 0 (CaUpdateRouter r) sys) as [[sys' es']|] eqn:E; [|done]. intros [= <- <-].
  split; [by apply (client_step_inv cfg0 0 (CaUpdateRouter r) sys sys' es')|].
  unfold defers_inv. simpl. by rewrite Hpc.
Qed.

Lemma main_step_inv act m m' es : main_inv m -> main_act_ok act -> main_step act m = Some (m', es) -> main_inv m'.
Proof.
  intros Hm Hact. pose proof Hm as [Hx Hd]. unfold main_step.
  destruct (m_pc m) as [ds|ds|] eqn:Hpc; [| |by intros [= <- <-]];
    (destruct act as [now act|sig load|now];
      [destruct (proxy_step now act (m_proxy m)) as [[x es']|] eqn:E; [|done]; intros [= <- <-];
       apply proxy_step_inv in E as [E _]; [|done..]; split; [done|]; unfold defers_inv in *; simpl; by rewrite Hpc in *
      | |]); try (by intros [= <- <-]).
  - by apply signal_step_inv.
  - by apply defer_step_inv.
Qed.

(** ** Progress *)

(** The steps [Stop] has left. *)
Definition stop_rank (pc : StopPC) : nat :=
  match pc with StTop => 3 | StSockets => 2 | StSessions | StReturned => 1 end.

Lemma stop_step_rank sockets pc (p : Pep) pc' p' es : stop_step sockets pc p = Some (pc', p', es) ->
  pc' = StReturned \/ (stop_rank pc' < stop_rank pc)%nat.
Proof.
  unfold stop_step. rewrite go_bind_get. destruct pc.
  - destruct (pep_stopped p); intros [= <- <- <-]; [by left|right; simpl; lia].
  - rewrite go_bind_modify. unfold go_bind. rewrite go_for_emit. intros [= <- <- <-]. right. simpl. lia.
  - unfold go_bind. destruct (close_sessions p) as [[[??]?]|]; [|done]. intros [= <- <- <-]. by left.
  - intros [= <- <- <-]. by left.
Qed.

Lemma stop_proxy_total now x : proxy_inv x -> exists x' b es, stop_proxy now x = Some (x', b, es) /\
  (b = false -> (stop_rank (stop_pc x') < stop_rank (stop_pc x))%nat).
Proof.
  intros Hx. pose proof (proxy_inv_pep x Hx) as Hp. destruct x as [sys|sys]; simpl in Hp.
  - destruct (stop_step_total [PCloseListener; PCloseUdp] (cs_stop sys) _ Hp) as (pc' & p' & es & E).
    cbn [stop_proxy client_step]. unfold client_stop_step, on_pep. rewrite E. cbn [mbind option_bind].
    eexists _, _, _. split; [reflexivity|]. intros Hb. apply stop_step_rank in E as [->|E]; [done|]. exact E.
  - destruct (stop_step_total [PCloseUdp] (ss_stop sys) _ Hp) as (pc' & p' & es & E).
    cbn [stop_proxy server_step]. unfold server_stop_step. rewrite E. cbn [mbind option_bind].
    eexists _, _, _. split; [reflexivity|]. intros Hb. apply stop_step_rank in E as [->|E]; [done|]. exact E.
Qed.
End Invariant.

(** The steps main has left before it returns. *)
Definition weight (x : Proxy) (d : Deferred) : nat :=
  match d with DPepStop => stop_rank (stop_pc x) | _ => 1 end.
Definition steps_left (m : MainSys) : nat :=
  match m_pc m with MDefers ds => sum_list (weight (m_proxy m) <$> ds) | _ => 0 end.

Lemma steps_left_next x r h ds dn x0 : (forall d, d ∈ ds -> d <> DPepStop) \/ x = x0 ->
  steps_left (mkMain x r h (next_pc ds) dn) = sum_list (weight x0 <$> ds).
Proof.
  intros H. unfold steps_left, next_pc. simpl. destruct ds as [|d ds]; [done|]. f_equal.
  destruct H as [H| ->]; [|done]. apply list_fmap_ext. intros i d' Hd. apply list_elem_of_lookup_2 in Hd.
  specialize (H _ Hd). by destruct d'.
Qed.

Lemma defers_last r h done_ ds : done_ ++ DCancel :: ds = defers_of r h -> ds = [].
Proof.
  unfold defers_of. destruct h, r; simpl; intros E;
    destruct done_ as [|? [|? [|? [|? [|? done_]]]]]; simpl in E; simplify_eq; done.
Qed.

(** The proxy's [Stop] is deferred once. *)
Lemma defers_once r h done_ ds : done_ ++ DPepStop :: ds = defers_of r h -> ds = [DCancel].
Proof.
  unfold defers_of. destruct h, r; simpl; intros E;
    destruct done_ as [|? [|? [|? [|? [|? done_]]]]]; simpl in E; simplify_eq; done.
Qed.

Lemma defer_step_total cfg0 now ds m : main_inv cfg0 m -> m_pc m = MDefers ds ->
  exists m' es, defer_step now ds m = Some (m', es) /\ (steps_left m' < steps_left m)%nat.
Proof.
  intros [Hx Hd] Hpc. unfold defers_inv in Hd. rewrite Hpc in Hd. destruct Hd as [Hall Hne].
  destruct ds as [|d ds]; [done|]. unfold steps_left at 2. rewrite Hpc. cbn [defer_step].
  assert (sum_list (weight (m_proxy m) <$> d :: ds) =
    (weight (m_proxy m) d + sum_list (weight (m_proxy m) <$> ds))%nat) as -> by done.
  assert (forall x, (forall d', d' ∈ ds -> d' <> DPepStop) \/ x = m_proxy m -> (0 < weight (m_proxy m) d)%nat ->
    (steps_left (mkMain x (m_redis m) (m_http m) (next_pc ds) (m_done m ++ [d])) <
     weight (m_proxy m) d + sum_list (weight (m_proxy m) <$> ds))%nat) as Hfin.
  { intros x H1 H2. rewrite (steps_left_next _ _ _ _ _ (m_proxy m)) by done. lia. }
  destruct d; [| |eexists _, _; split; [reflexivity|]; apply Hfin; [by right|simpl; lia]..].
  - eexists _, _. split; [reflexivity|]. apply Hfin; [|simpl; lia]. left.
    apply defers_last in Hall as ->. by intros d' Hd'%elem_of_nil.
  - apply defers_once in Hall as ->.
    destruct (stop_proxy_total cfg0 now (m_proxy m) Hx) as (x & b & es & E & Hrank). rewrite E. cbn [mbind option_bind].
    eexists _, _. split; [reflexivity|]. destruct b.
    + apply Hfin; [left; by intros d' ->%list_elem_of_singleton|]. unfold weight.
      destruct (stop_pc (m_proxy m)); simpl; lia.
    + unfold steps_left. simpl. rewrite Hpc. simpl. specialize (Hrank eq_refl). lia.
Qed.

(** The proxy does not delay main. *)
Lemma proxy_steps_left cfg0 now act m x es : main_inv cfg0 m -> main_act_ok (MaProxy now act) ->
  proxy_step now act (m_proxy m) = Some (x, es) -> steps_left (with_proxy m x) = steps_left m.
Proof.
  intros [Hx _] Hok E. apply (proxy_step_inv cfg0) in E as [_ E]; [|done..].
  unfold steps_left. simpl. destruct (m_pc m); try done. f_equal. apply list_fmap_ext.
  intros i d _. destruct d; simpl; [done|by rewrite E|done..].
Qed.

Lemma main_step_servers act m m' es : main_step act m = Some (m', es) ->
  m_redis m' = m_redis m /\ m_http m' = m_http m.
Proof.
  unfold main_step. destruct (m_pc m) as [ds|ds|]; [| |by intros [= <- <-]];
    (destruct act as [now act|sig load|now];
      [destruct (proxy_step now act (m_proxy m)) as [[x es']|]; [by intros [= <- <-]|discriminate]| |]);
    try (by intros [= <- <-]).
  - unfold signal_step. destruct sig; [by intros [= <- <-]|by intros [= <- <-]|].
    destruct (m_proxy m) as [sys|sys]; [|by intros [= <- <-]]. destruct load as [r|]; [|by intros [= <- <-]].
    destruct (client_step 0 (CaUpdateRouter r) sys) as [[sys' es']|]; [by intros [= <- <-]|discriminate].
  - unfold defer_step. destruct ds as [|[] ds]; try (by intros [= <- <-]).
    destruct (stop_proxy now (m_proxy m)) as [[[x []] es']|]; [by intros [= <- <-]..|discriminate].
Qed.

Lemma run_start_inv f e m0 es0 : run_start f e = (Ok m0, es0) ->
  main_inv (mkPepConfig (f_mtu f) (f_bandwidth f) (f_fecK f) (f_fecM f) (idleTimeout f)) m0.
Proof.
  unfold run_start, start_proxy. destruct (bool_decide (f_mode f = "client")).
  - destruct (e_load e) as [router|]; [|done]. unfold Client.Start.
    repeat (case_match; simplify_eq; try done). intros [= <- <-]. split; [apply client_init_inv|done].
  - destruct (bool_decide (f_mode f = "server")); [|done]. unfold Server.Start.
    repeat (case_match; simplify_eq; try done). intros [= <- <-]. split; [apply server_init_inv|done].
Qed.

Lemma main_reach_inv cfg0 m0 tr m : main_inv cfg0 m0 -> main_reach m0 tr m ->
  main_inv cfg0 m /\ m_redis m = m_redis m0 /\ m_http m = m_http m0.
Proof.
  intros H0 H. induction H as [|act tr m m' es _ (IH1 & IH2 & IH3) Hok E]; [done|].
  split; [by eapply main_step_inv|]. apply main_step_servers in E as [-> ->]. done.
Qed.

Lemma steps_left_bound cfg0 m : main_inv cfg0 m -> (steps_left m <= 6)%nat.
Proof.
  intros [_ Hd]. unfold defers_inv, steps_left in *. destruct (m_pc m) as [ds|ds|]; [lia| |lia].
  destruct Hd as [Hall _]. apply (f_equal (fun l => sum_list (weight (m_proxy m) <$> l))) in Hall.
  rewrite fmap_app, sum_list_with_app in Hall.
  assert (sum_list (weight (m_proxy m) <$> defers_of (m_redis m) (m_http m)) <= 6)%nat.
  { unfold defers_of. destruct (m_http m), (m_redis m); simpl; destruct (stop_pc (m_proxy m)); simpl; lia. }
  lia.
Qed.

(** ** The trace of a shutdown *)

(** The sockets the proxy's [Stop] closes. *)
Definition sockets_of (x : Proxy) : list PepEff :=
  match x with PClient _ => [PCloseListener; PCloseUdp] | PServer _ => [PCloseUdp] end.

Definition is_pep (e : MainEff) : Prop := match e with MPep _ => True | _ => False end.

(** The proxy's own steps leave the flag [stopped] alone. *)
Lemma preserves_call {A} ref (m : GoM Session Effect A) : go_preserves pep_stopped (call ref m).
Proof.
  intros p a p' es. unfold call. destruct (pep_objs p !! ref) as [o|]; [|done]. simpl.
  destruct (m (o_s o)) as [[[??]?]|]; [|done]. by intros [= <- <- <-].
Qed.

Lemma preserves_session_act now ref act : go_preserves pep_stopped (session_act now ref act).
Proof.
  intros p a p' es. unfold session_act. destruct (pep_objs p !! ref) as [o|]; [|done]. simpl.
  destruct (o_started o); [|by intros [= <- <- <-]].
  destruct (obj_step now act o) as [[o' es']|]; [|done]. by intros [= <- <- <-].
Qed.

Lemma preserves_NewSession now id conn addr : go_preserves pep_stopped (pep_NewSession now id conn addr).
Proof. by intros p a p' es [= <- <- <-]. Qed.

#[local] Hint Resolve preserves_call preserves_NewSession : preserves.

Lemma preserves_Start ref : go_preserves pep_stopped (pep_Start ref).
Proof. unfold pep_Start. solve_preserves. Qed.
Lemma preserves_register id ref : go_preserves pep_stopped (register id ref).
Proof. unfold register. solve_preserves. Qed.
Lemma preserves_unregister id : go_preserves pep_stopped (unregister id).
Proof. unfold unregister. solve_preserves. Qed.
Lemma preserves_lookup n pkt : go_preserves pep_stopped (lookup_session n pkt).
Proof. unfold lookup_session. solve_preserves. Qed.
Lemma preserves_dispatch now ref n pkt : go_preserves pep_stopped (dispatch_step now ref n pkt).
Proof. unfold dispatch_step. solve_preserves. Qed.
Lemma preserves_send pkt addr : go_preserves pep_stopped (send_packet pkt addr).
Proof. unfold send_packet. solve_preserves. Qed.

#[local] Hint Resolve preserves_Start preserves_register preserves_unregister preserves_lookup preserves_dispatch
  preserves_send : preserves.

Lemma preserves_cleanup now : go_preserves pep_stopped (cleanup_tick now).
Proof. unfold cleanup_tick. solve_preserves. Qed.
Lemma preserves_connect now resolve dial pc : go_preserves pep_stopped (connect_step now resolve dial pc).
Proof. unfold connect_step, sendError, close_old. solve_preserves. Qed.
Lemma preserves_server_demux now inp pc : go_preserves pep_stopped (server_demux_step now inp pc).
Proof. unfold server_demux_step. solve_preserves. Qed.

Definition client_stopped (c : ClientPEP) : bool := pep_stopped (cl_pep c).

Lemma preserves_on_pep {A} (m : GoM Pep PepEff A) : go_preserves pep_stopped m -> go_preserves client_stopped (on_pep m).
Proof.
  intros H c a c' es. unfold on_pep. destruct (m (cl_pep c)) as [[[??]?]|] eqn:E; [|done].
  intros [= <- <- <-]. exact (H _ _ _ _ E).
Qed.

#[local] Hint Resolve preserves_on_pep : preserves.

Lemma preserves_handler now orig resolve sel pc : go_preserves client_stopped (handler_step now orig resolve sel pc).
Proof. unfold handler_step, handler_select, getNextStreamID, give_up_conn, delete_pending. solve_preserves. Qed.
Lemma preserves_client_demux now inp pc : go_preserves client_stopped (demux_step now inp pc).
Proof. unfold demux_step, delete_pending, chan_send. solve_preserves. Qed.
Lemma preserves_accept res : go_preserves client_stopped (accept_step res).
Proof. unfold accept_step. solve_preserves. Qed.

Lemma proxy_step_stopped now act x x' es : proxy_step now act x = Some (x', es) ->
  pep_stopped (proxy_pep x') = pep_stopped (proxy_pep x) /\ sockets_of x' = sockets_of x.
Proof.
  destruct act as [act|act], x as [sys|sys]; cbn [proxy_step]; try (by intros [= <- <-]).
  - destruct (client_own act) eqn:Hown; [|by intros [= <- <-]].
    destruct (client_step now act sys) as [[sys' es']|] eqn:E; [|done]. intros [= <- <-]. split; [|done].
    revert E. unfold client_step. destruct act; try discriminate Hown; simpl.
    + destruct (cs_accepting sys); [|by intros [= <- <-]].
      destruct (accept_step _ _) as [[[??]?]|] eqn:E; [|done]. intros [= <- <-]. exact (preserves_accept _ _ _ _ _ E).
    + destruct (cs_handlers sys !! i); [|by intros [= <- <-]].
      destruct (handler_step _ _ _ _ _ _) as [[[??]?]|] eqn:E; [|done]. intros [= <- <-].
      exact (preserves_handler _ _ _ _ _ _ _ _ _ E).
    + destruct (demux_step _ _ _ _) as [[[??]?]|] eqn:E; [|done]. intros [= <- <-].
      exact (preserves_client_demux _ _ _ _ _ _ _ E).
    + destruct (on_pep _ _) as [[[??]?]|] eqn:E; [|done]. intros [= <- <-].
      exact (preserves_on_pep _ (preserves_cleanup now) _ _ _ _ E).
    + destruct (on_pep _ _) as [[[??]?]|] eqn:E; [|done]. intros [= <- <-].
      exact (preserves_on_pep _ (preserves_session_act now _ _) _ _ _ _ E).
  - destruct (server_own act) eqn:Hown; [|by intros [= <- <-]].
    destruct (server_step now act sys) as [[sys' es']|] eqn:E; [|done]. intros [= <- <-]. split; [|done].
    revert E. unfold server_step. destruct act; try discriminate Hown; simpl.
    + destruct (ss_handlers sys !! i); [|by intros [= <- <-]].
      destruct (connect_step _ _ _ _ _) as [[[??]?]|] eqn:E; [|done]. intros [= <- <-].
      exact (preserves_connect _ _ _ _ _ _ _ _ E).
    + destruct (server_demux_step _ _ _ _) as [[[??]?]|] eqn:E; [|done]. intros [= <- <-].
      exact (preserves_server_demux _ _ _ _ _ _ _ E).
    + destruct (server_cleanup_tick _ _) as [[[??]?]|] eqn:E; [|done]. intros [= <- <-].
      exact (preserves_cleanup now _ _ _ _ E).
    + destruct (session_act _ _ _ _) as [[[??]?]|] eqn:E; [|done]. intros [= <- <-].
      exact (preserves_session_act now _ _ _ _ _ _ E).
Qed.

(** What a deferred call shows to the outside. *)
Definition shows (x : Proxy) (d : Deferred) : list MainEff :=
  match d with
  | DHttpStop => [MHttp CloseServer; MHttp CloseListener]
  | DRedisStop => [MRedis CloseServer; MRedis CloseListener]
  | DPepStop => map MPep (sockets_of x)
  | DCancel => [MCancel]
  end.

(** The effects of the calls [ds] in this order, effects of the proxy in between. *)
Inductive trace_of (x : Proxy) : list Deferred -> list MainEff -> Prop :=
| trace_nil t : Forall is_pep t -> trace_of x [] t
| trace_snoc ds d tr t : trace_of x ds tr -> Forall is_pep t -> trace_of x (ds ++ [d]) (tr ++ shows x d ++ t).

Lemma trace_of_pep x ds tr t : trace_of x ds tr -> Forall is_pep t -> trace_of x ds (tr ++ t).
Proof.
  intros H Ht. destruct H as [t0 H0|ds d tr t0 H H0].
  - constructor. by apply Forall_app.
  - rewrite <- !app_assoc. constructor; [done|]. by apply Forall_app.
Qed.

Lemma trace_of_proxy x x' ds tr : sockets_of x' = sockets_of x -> trace_of x ds tr -> trace_of x' ds tr.
Proof.
  intros E. induction 1 as [t Ht|ds d tr t H IH Ht]; [by constructor|].
  replace (shows x d) with (shows x' d) by (destruct d; simpl; by rewrite ?E). by constructor.
Qed.

Lemma is_pep_map es : Forall is_pep (map MPep es).
Proof. apply Forall_map, Forall_true. done. Qed.

(** The deferred calls whose effects are in the trace: those that have returned, and
    [Stop] of the proxy once it has closed the sockets. *)
Definition shown (m : MainSys) : list Deferred :=
  m_done m ++
  match m_pc m, stop_pc (m_proxy m) with MDefers (DPepStop :: _), StSessions => [DPepStop] | _, _ => [] end.

Definition stop_inv (m : MainSys) : Prop :=
  (stop_pc (m_proxy m) = StTop -> pep_stopped (proxy_pep (m_proxy m)) = false) /\
  match m_pc m with
  | MSignals _ | MDefers (DHttpStop :: _) | MDefers (DRedisStop :: _) => stop_pc (m_proxy m) = StTop
  | MDefers (DPepStop :: _) => stop_pc (m_proxy m) <> StReturned
  | _ => True
  end.

(** The servers that were started have a server object and a listener to close. *)
Definition servers_inv (m : MainSys) : Prop :=
  (forall s, m_http m = Some s -> HTTPServer_Stop s = [CloseServer; CloseListener]) /\
  (forall s, m_redis m = Some s -> RedisServer_Stop s = [CloseServer; CloseListener]).

Definition trace_inv (m : MainSys) (tr : list MainEff) : Prop :=
  stop_inv m /\ servers_inv m /\ trace_of (m_proxy m) (shown m) tr.

(** A step of the proxy that is not one of [Stop]. *)
Lemma trace_inv_proxy m tr x es :
  trace_inv m tr -> stop_pc x = stop_pc (m_proxy m) ->
  pep_stopped (proxy_pep x) = pep_stopped (proxy_pep (m_proxy m)) -> sockets_of x = sockets_of (m_proxy m) ->
  trace_inv (with_proxy m x) (tr ++ map MPep es).
Proof.
  intros ((H1 & H2) & H3 & H4) Hs Hp Hk. split_and!.
  - split; simpl; [by rewrite Hs, Hp|by rewrite Hs].
  - exact H3.
  - apply trace_of_pep; [|apply is_pep_map]. apply (trace_of_proxy (m_proxy m)); [done|].
    unfold shown in *. simpl. by rewrite Hs.
Qed.

(** One step of the proxy's [Stop]. *)
Lemma stop_step_shows sockets pc (p : Pep) pc' p' es : stop_step sockets pc p = Some (pc', p', es) ->
  (pc = StTop -> pep_stopped p = false) ->
  match pc with
  | StTop => pc' = StSockets /\ es = []
  | StSockets => pc' = StSessions /\ es = sockets
  | _ => pc' = StReturned
  end.
Proof.
  unfold stop_step. rewrite go_bind_get. destruct pc; intros E Hs.
  - rewrite Hs in E by done. by injection E as <- <- <-.
  - rewrite go_bind_modify in E. unfold go_bind in E. rewrite go_for_emit in E. injection E as <- <- <-.
    by rewrite app_nil_r.
  - unfold go_bind in E. destruct (close_sessions p) as [[[??]?]|]; [|done]. by injection E as <- <- <-.
  - by injection E as <- <- <-.
Qed.

Lemma stop_proxy_shows now x x' b es : stop_proxy now x = Some (x', b, es) ->
  (stop_pc x = StTop -> pep_stopped (proxy_pep x) = false) ->
  sockets_of x' = sockets_of x /\
  match stop_pc x with
  | StTop => b = false /\ stop_pc x' = StSockets /\ es = []
  | StSockets => b = false /\ stop_pc x' = StSessions /\ es = sockets_of x
  | _ => b = true /\ stop_pc x' = StReturned
  end.
Proof.
  destruct x as [sys|sys]; cbn [stop_proxy client_step server_step stop_pc proxy_pep].
  - unfold client_stop_step, on_pep.
    destruct (stop_step _ _ _) as [[[pc' p'] es']|] eqn:E; [|done]. cbn [mbind option_bind]. intros [= <- <- <-] Hs.
    apply stop_step_shows in E; [|done]. split; [done|]. simpl. by destruct (cs_stop sys); destruct_and?; subst.
  - unfold server_stop_step.
    destruct (stop_step _ _ _) as [[[pc' p'] es']|] eqn:E; [|done]. cbn [mbind option_bind]. intros [= <- <- <-] Hs.
    apply stop_step_shows in E; [|done]. split; [done|]. simpl. by destruct (ss_stop sys); destruct_and?; subst.
Qed.

(** A deferred call has returned: its effects have been shown. *)
Lemma trace_inv_finish m d ds x tr :
  servers_inv m -> (stop_pc x = StTop -> pep_stopped (proxy_pep x) = false) ->
  match ds with
  | DHttpStop :: _ | DRedisStop :: _ | DPepStop :: _ => stop_pc x = StTop
  | _ => True
  end ->
  trace_of x (m_done m ++ [d]) tr ->
  trace_inv (mkMain x (m_redis m) (m_http m) (next_pc ds) (m_done m ++ [d])) tr.
Proof.
  intros H1 H2 H3 H4. split_and!; [|done|].
  - split; [done|]. simpl. by destruct ds as [|[] ds]; simpl; rewrite ?H3.
  - unfold shown. simpl. destruct ds as [|[] ds]; simpl; rewrite ?H3, app_nil_r; exact H4.
Qed.

Lemma defers_http r h done_ ds : done_ ++ DHttpStop :: ds = defers_of r h ->
  is_Some h /\ exists d ds', ds = d :: ds' /\ (d = DRedisStop \/ d = DPepStop).
Proof.
  unfold defers_of. destruct h, r; simpl; intros E;
    destruct done_ as [|? [|? [|? [|? [|? done_]]]]]; simpl in E; simplify_eq; eauto 8.
Qed.

Lemma defers_redis r h done_ ds : done_ ++ DRedisStop :: ds = defers_of r h ->
  is_Some r /\ exists ds', ds = DPepStop :: ds'.
Proof.
  unfold defers_of. destruct h, r; simpl; intros E;
    destruct done_ as [|? [|? [|? [|? [|? done_]]]]]; simpl in E; simplify_eq; eauto 8.
Qed.

Lemma defer_step_trace cfg0 now ds m tr m' es : main_inv cfg0 m -> trace_inv m tr -> m_pc m = MDefers ds ->
  defer_step now ds m = Some (m', es) -> trace_inv m' (tr ++ es).
Proof.
  intros [_ Hd] ((H1 & H2) & H3 & H4) Hpc. unfold defers_inv in Hd. rewrite Hpc in Hd. destruct Hd as [Hall Hne].
  unfold shown in H4. rewrite Hpc in H2, H4. destruct ds as [|d ds]; [done|]. cbn [defer_step].
  destruct d; simpl in H2, H4.
  - rewrite app_nil_r in H4. intros [= <- <-]. apply trace_inv_finish; [done|by destruct (m_proxy m)| |].
    + by apply defers_last in Hall as ->.
    + apply (trace_of_proxy (m_proxy m)); [by destruct (m_proxy m)|].
      exact (trace_snoc _ _ DCancel _ [] H4 (Forall_nil_2 _)).
  - destruct (stop_proxy now (m_proxy m)) as [[[x b] es']|] eqn:E; [|done]. cbn [mbind option_bind].
    intros [= <- <-]. apply stop_proxy_shows in E as [Hk E]; [|done].
    apply defers_once in Hall as ->. destruct (stop_pc (m_proxy m)) eqn:Es; [| | |done].
    + destruct E as (-> & Ex & ->). rewrite app_nil_r in *. split_and!; [|done|].
      * split; simpl; rewrite Ex; [done|]. by rewrite Hpc.
      * apply (trace_of_proxy (m_proxy m)); [done|]. unfold shown. simpl. by rewrite Hpc, Ex, app_nil_r.
    + destruct E as (-> & Ex & ->). rewrite app_nil_r in H4. split_and!; [|done|].
      * split; simpl; rewrite Ex; [done|]. by rewrite Hpc.
      * apply (trace_of_proxy (m_proxy m)); [done|]. unfold shown. simpl. rewrite Hpc, Ex.
        pose proof (trace_snoc _ _ DPepStop _ [] H4 (Forall_nil_2 _)) as H. simpl in H. by rewrite app_nil_r in H.
    + destruct E as [-> Ex]. apply trace_inv_finish; [done|by rewrite Ex|done|].
      apply trace_of_pep; [|apply is_pep_map]. by apply (trace_of_proxy (m_proxy m)).
  - rewrite app_nil_r in H4. apply defers_redis in Hall as ([s Hs] & ds' & ->).
    intros [= <- <-]. apply (trace_inv_finish m DRedisStop (DPepStop :: ds')); [done..|].
    rewrite Hs. simpl. rewrite (proj2 H3 s Hs).
    exact (trace_snoc _ _ DRedisStop _ [] H4 (Forall_nil_2 _)).
  - rewrite app_nil_r in H4. apply defers_http in Hall as ([s Hs] & d & ds' & -> & Hd).
    intros [= <- <-]. apply (trace_inv_finish m DHttpStop (d :: ds')); [done..|by destruct Hd as [->| ->]|].
    rewrite Hs. simpl. rewrite (proj1 H3 s Hs). exact (trace_snoc _ _ DHttpStop _ [] H4 (Forall_nil_2 _)).
Qed.

Lemma main_step_trace cfg0 act m tr m' es : main_inv cfg0 m -> main_act_ok act -> trace_inv m tr ->
  main_step act m = Some (m', es) -> trace_inv m' (tr ++ es).
Proof.
  intros Hm Hok Ht. unfold main_step. destruct (m_pc m) as [ds|ds|] eqn:Hpc; [| |intros [= <- <-]; by rewrite app_nil_r];
    (destruct act as [now act|sig load|now];
      [destruct (proxy_step now act (m_proxy m)) as [[x es']|] eqn:E; [|done]; intros [= <- <-];
       destruct (proxy_step_stopped _ _ _ _ _ E) as [E1 E2];
       apply (proxy_step_inv cfg0) in E as [_ E]; [|apply Hm|done]; by apply trace_inv_proxy
      | |]); try (intros [= <- <-]; by rewrite app_nil_r).
  - destruct Hm as [_ Hd]. unfold defers_inv in Hd. rewrite Hpc in Hd. destruct Hd as [-> Hdn].
    assert (trace_inv (with_pc m (MDefers (defers_of (m_redis m) (m_http m)))) (tr ++ [])) as Hterm.
    { destruct Ht as ((H1 & H2) & H3 & H4). unfold shown in H4. rewrite Hpc in H2, H4. rewrite app_nil_r.
      split_and!; [|done|].
      - split; [done|]. simpl. unfold defers_of. by destruct (m_http m), (m_redis m); simpl; rewrite H2.
      - unfold shown. simpl. by rewrite H2; destruct (m_http m), (m_redis m). }
    destruct sig; [by intros [= <- <-]|by intros [= <- <-]|]. unfold signal_step.
    destruct (m_proxy m) as [sys|sys] eqn:Ex; [|intros [= <- <-]; by rewrite app_nil_r].
    destruct load as [r|]; [|intros [= <- <-]; by rewrite app_nil_r].
    intros [= <- <-]. apply (trace_inv_proxy m tr _ []); [done|by rewrite Ex..].
  - by eapply defer_step_trace.
Qed.

(** Which servers were started. *)
Lemma run_start_servers f e m0 es0 : run_start f e = (Ok m0, es0) ->
  (is_Some (m_http m0) <-> f_httpAddr f <> "" /\ is_Ok (e_Listen e (f_httpAddr f)) = true) /\
  (is_Some (m_redis m0) <-> f_redisAddr f <> "" /\ is_Ok (e_Listen e (f_redisAddr f)) = true) /\
  trace_inv m0 [].
Proof.
  unfold run_start. destruct (start_proxy f e) as [[x|] es] eqn:Ex; [|done]. intros [= <- <-].
  assert (stop_pc x = StTop /\ pep_stopped (proxy_pep x) = false) as [Hs Hp].
  { revert Ex. unfold start_proxy, Client.Start, Server.Start. repeat (case_match; simplify_eq; try done).
    all: by intros [= <- <-]. }
  unfold start_http, start_redis, HTTPServer_Start, RedisServer_Start. simpl. split_and!.
  - case_bool_decide; simpl; [split; [by intros []|by intros []]|].
    destruct (e_Listen e (f_httpAddr f)); simpl; (split; [by intros []|by intros []]).
  - case_bool_decide; simpl; [split; [by intros []|by intros []]|].
    destruct (e_Listen e (f_redisAddr f)); simpl; (split; [by intros []|by intros []]).
  - split_and!; [by split|split; simpl|].
    + intros s. case_bool_decide; [done|]. destruct (e_Listen e (f_httpAddr f)); [|done]. by intros [= <-].
    + intros s. case_bool_decide; [done|]. destruct (e_Listen e (f_redisAddr f)); [|done]. by intros [= <-].
    + unfold shown. simpl. by repeat constructor.
Qed.

Lemma main_reach_trace cfg0 m0 tr m : main_inv cfg0 m0 -> trace_inv m0 [] -> main_reach m0 tr m -> trace_inv m tr.
Proof.
  intros H0 Ht H. induction H as [|act tr m m' es Hr IH Hok E]; [done|].
  destruct (main_reach_inv cfg0 m0 tr m H0 Hr) as [Hm _]. by eapply main_step_trace.
Qed.

(** Taking a trace apart at the last call. *)
Lemma trace_of_last x ds d tr : trace_of x (ds ++ [d]) tr ->
  exists tr0 t, tr = tr0 ++ shows x d ++ t /\ trace_of x ds tr0 /\ Forall is_pep t.
Proof.
  inversion 1 as [t Ht E1 E2|ds' d' tr' t H' Ht E1 E2]; [by destruct ds|].
  apply app_inj_tail in E1 as [-> ->]. eauto.
Qed.

Lemma trace_of_opt x (b : bool) ds d tr : trace_of x (ds ++ (if b then [d] else [])) tr ->
  exists tr0 t, tr = tr0 ++ (if b then shows x d else []) ++ t /\ trace_of x ds tr0 /\ Forall is_pep t.
Proof.
  destruct b; [apply trace_of_last|]. rewrite app_nil_r. intros H. exists tr, []. rewrite app_nil_r.
  by repeat constructor.
Qed.

Lemma shutdown_trace x r h tr : trace_of x (defers_of r h) tr ->
  exists t1 t2 t3 t4 t5,
    tr = t1 ++ (if bool_decide (is_Some h) then shows x DHttpStop else []) ++
         t2 ++ (if bool_decide (is_Some r) then shows x DRedisStop else []) ++
         t3 ++ shows x DPepStop ++ t4 ++ shows x DCancel ++ t5 /\
    Forall is_pep (t1 ++ t2 ++ t3 ++ t4 ++ t5).
Proof.
  assert (defers_of r h = ((([] ++ (if bool_decide (is_Some h) then [DHttpStop] else [])) ++
    (if bool_decide (is_Some r) then [DRedisStop] else [])) ++ [DPepStop]) ++ [DCancel]) as ->
    by (unfold defers_of; by destruct h, r).
  intros H. apply trace_of_last in H as (tr1 & t5 & -> & H & H5).
  apply trace_of_last in H as (tr2 & t4 & -> & H & H4).
  apply trace_of_opt in H as (tr3 & t3 & -> & H & H3).
  apply trace_of_opt in H as (t1 & t2 & -> & H & H2).
  exists t1, t2, t3, t4, t5. split; [by rewrite <- !app_assoc|].
  inversion H as [t Ht|ds d tr t H' Ht E]; [|by destruct ds].
  by rewrite !Forall_app.
Qed.

(** A reload: the new table takes effect at once and nothing else changes; a file that
    cannot be loaded leaves the old one in place; a server ignores the signal. *)
Lemma reload_spec m ds load : m_pc m = MSignals ds ->
  main_step (MaSignal SIGHUP load) m =
    match m_proxy m, load with
    | PClient sys, Ok r =>
        Some (with_proxy m (PClient (mkClientSys (with_router r (cs_c sys)) (cs_accepting sys) (cs_handlers sys)
                (cs_demux sys) (cs_stop sys) (cs_read sys) (cs_chan_ids sys))), [])
    | _, _ => Some (m, [])
    end.
Proof. intros Hpc. unfold main_step. rewrite Hpc. simpl. by destruct (m_proxy m), load. Qed.

(** ** Theorem *)

(** C25: Shutdown.  In every state the program can reach after a successful start,
    with the goroutines of the proxy interleaved in any way: a signal other than
    SIGHUP ends the loop; from then on each step of main completes and brings it
    nearer to its return, which takes at most six of its steps, and no step of the
    proxy delays it.  When main returns, the effects since the start, those of the
    proxy's own work apart, are: the server and the listener of the HTTP monitor were
    closed if it had been started, which is the case exactly when it has an address
    that could be bound; after that those of the Redis monitor, likewise; after that the
    proxy's sockets (for a client the listener and the UDP socket, for a server the UDP
    socket); after that the context was cancelled, and nothing else.  The context of
    every session, also of one opened during the shutdown, is then cancelled. *)
Theorem main_shutdown f e m0 es0 tr m :
  run_start f e = (Ok m0, es0) -> main_reach m0 tr m ->
  (forall sig load ds, m_pc m = MSignals ds -> sig <> SIGHUP ->
     exists m', main_step (MaSignal sig load) m = Some (m', []) /\ m_pc m' = MDefers ds) /\
  (steps_left m <= 6)%nat /\
  (forall ds now, m_pc m = MDefers ds ->
     exists m' es, main_step (MaDefer now) m = Some (m', es) /\ (steps_left m' < steps_left m)%nat) /\
  (forall now act m' es, main_act_ok (MaProxy now act) -> main_step (MaProxy now act) m = Some (m', es) ->
     steps_left m' = steps_left m) /\
  (m_pc m = MReturned ->
     (exists http redis t1 t2 t3 t4 t5,
        tr = t1 ++ (if http : bool then [MHttp CloseServer; MHttp CloseListener] else []) ++
             t2 ++ (if redis : bool then [MRedis CloseServer; MRedis CloseListener] else []) ++
             t3 ++ map MPep (match m_proxy m with PClient _ => [PCloseListener; PCloseUdp]
                                                | PServer _ => [PCloseUdp] end) ++
             t4 ++ [MCancel] ++ t5 /\
        Forall (fun e => exists pe, e = MPep pe) (t1 ++ t2 ++ t3 ++ t4 ++ t5) /\
        (http = true <-> f_httpAddr f <> "" /\ is_Ok (e_Listen e (f_httpAddr f)) = true) /\
        (redis = true <-> f_redisAddr f <> "" /\ is_Ok (e_Listen e (f_redisAddr f)) = true)) /\
     pep_done (proxy_pep (m_proxy m)) = true /\
     Forall (fun o => s_done (o_s o) = true) (pep_objs (proxy_pep (m_proxy m)))).
Proof.
  intros Hrun Hr. destruct (run_start_servers _ _ _ _ Hrun) as (Hhttp & Hredis & Ht0).
  apply run_start_inv in Hrun as H0. pose proof (main_reach_trace _ _ _ _ H0 Ht0 Hr) as Ht.
  destruct (main_reach_inv _ _ _ _ H0 Hr) as (Hm & Er & Eh).
  split_and!.
  - intros sig load ds Hpc Hs. unfold main_step. rewrite Hpc. destruct sig; [by eexists..|done].
  - by eapply steps_left_bound.
  - intros ds now Hpc. unfold main_step. rewrite Hpc. by eapply defer_step_total.
  - intros now act m' es Hok. unfold main_step.
    destruct (m_pc m) eqn:Hpc; [| |by intros [= <- <-]];
      (destruct (proxy_step now act (m_proxy m)) as [[x es']|] eqn:E; [|done]);
      intros [= <- <-]; by eapply proxy_steps_left.
  - intros Hpc. destruct Hm as [Hx Hd]. unfold defers_inv in Hd. rewrite Hpc in Hd. destruct Hd as [H1 H2].
    split; [|split; [done|by apply (pi_done _ (proxy_inv_pep _ _ Hx))]].
    destruct Ht as (_ & _ & Ht). unfold shown in Ht. rewrite Hpc, H1, app_nil_r in Ht.
    rewrite <- Eh in Hhttp. rewrite <- Er in Hredis.
    destruct (shutdown_trace _ _ _ _ Ht) as (t1 & t2 & t3 & t4 & t5 & -> & Hp).
    exists (bool_decide (is_Some (m_http m))), (bool_decide (is_Some (m_redis m))), t1, t2, t3, t4, t5.
    rewrite !bool_decide_eq_true. split_and!; [done| |done..].
    eapply Forall_impl; [exact Hp|]. intros [pe| | |]; [by eexists|done..].
Qed.
End Main.

(** ** Witness *)

#[local] Existing Instance XorCode.xor_rs.

Module MainDemo.
Definition env : Env :=
  mkEnv (Ok ClientDemo.router) Ok Ok (fun _ => Ok ()) (fun _ => Ok ())
    (fun a => if bool_decide (a = ":6379") then Ok "0.0.0.0:6379" else Err "address already in use").

Definition m0 : MainSys :=
  match (run_start default_flags env).1 with
  | Ok m => m
  | Err _ => mkMain (PClient (client_init ClientDemo.c0)) None None MReturned []
  end.

(** A connection is accepted, the routes are reloaded, SIGTERM arrives, another
    connection is accepted while main is stopping the proxy. *)
Definition acts : list MainAct :=
  [ MaProxy 0 (PaClient (CaAccept (Ok (mkConn 1 (Some "10.1.1.1:5000")))));
    MaSignal SIGHUP (Err "no such file"); MaSignal SIGTERM (Err "");
    MaDefer 0; MaDefer 0; MaProxy 0 (PaClient (CaAccept (Ok (mkConn 2 None))));
    MaDefer 0; MaDefer 0; MaDefer 0 ].

Fixpoint exec (acts : list MainAct) (m : MainSys) : option (MainSys * list MainEff) :=
  match acts with
  | [] => Some (m, [])
  | a :: acts => '(m1, es) ← main_step a m; '(m2, es') ← exec acts m1; Some (m2, es ++ es')
  end.

Definition final : MainSys * list MainEff := default (m0, []) (exec acts m0).

Lemma exec_main_reach m1 acts tr m m' es : Forall main_act_ok acts -> main_reach m1 tr m ->
  exec acts m = Some (m', es) -> main_reach m1 (tr ++ es) m'.
Proof.
  revert tr m es. induction acts as [|a acts IH]; intros tr m es Hok Hm.
  { intros [= <- <-]. by rewrite app_nil_r. }
  simpl. apply Forall_cons in Hok as [Ha Hok]. destruct (main_step a m) as [[m2 es1]|] eqn:E; [|done]. simpl.
  destruct (exec acts m2) as [[m3 es2]|] eqn:E2; [|done]. simpl. intros [= <- <-]. rewrite app_assoc.
  by eapply IH; [done|eapply main_reach_step|].
Qed.

Lemma started : run_start default_flags env = (Ok m0, []).
Proof.
  assert (is_Ok (run_start default_flags env).1 = true) as H1 by (vm_compute; reflexivity).
  assert ((run_start default_flags env).2 = []) as H2 by reflexivity.
  unfold m0. destruct (run_start default_flags env) as [[m|] es]; [|discriminate H1]. simpl in H2. by subst.
Qed.

Lemma reached : main_reach m0 final.2 final.1.
Proof.
  assert (match exec acts m0 with Some _ => true | None => false end = true) as H by (vm_compute; reflexivity).
  assert (exec acts m0 = Some (final.1, final.2)) as E.
  { unfold final. destruct (exec acts m0) as [[??]|]; [reflexivity|discriminate H]. }
  exact (exec_main_reach m0 acts [] m0 _ _ ltac:(by repeat constructor) (main_reach_init m0) E).
Qed.
End MainDemo.

(** The HTTP monitor's port is in use: the Redis monitor, the sockets of the client and
    the context are closed. *)
Lemma main_shutdown_witness :
  m_pc MainDemo.final.1 = MReturned /\
  (exists t1 t2 t3 t4,
     MainDemo.final.2 = t1 ++ [MRedis CloseServer; MRedis CloseListener] ++
       t2 ++ [MPep PCloseListener; MPep PCloseUdp] ++ t3 ++ [MCancel] ++ t4) /\
  pep_done (proxy_pep (m_proxy MainDemo.final.1)) = true.
Proof.
  assert (m_pc MainDemo.final.1 = MReturned) as Hpc by (vm_compute; reflexivity).
  split; [exact Hpc|].
  destruct (main_shutdown default_flags MainDemo.env MainDemo.m0 [] MainDemo.final.2 MainDemo.final.1
    MainDemo.started MainDemo.reached) as (_ & _ & _ & _ & H).
  destruct (H Hpc) as ((http & redis & t1 & t2 & t3 & t4 & t5 & E & _ & Hh & Hr) & Hd & _).
  split; [|exact Hd].
  assert (redis = true) as Er by (apply Hr; split; [discriminate|reflexivity]).
  assert (match m_proxy MainDemo.final.1 with PClient _ => true | _ => false end = true) as Ex
    by (vm_compute; reflexivity).
  destruct http; [discriminate (proj2 (proj1 Hh eq_refl))|].
  rewrite Er in E. clear -E Ex. destruct (m_proxy MainDemo.final.1); [|discriminate Ex].
  exists (t1 ++ t2), t3, t4, t5. rewrite E, <- app_assoc. reflexivity.
Defined.
